(* ===== verification/_CoqProject ===== *)
-Q . S2P
Prelude.v
JsRuntime.v
Formatter.v
State.v
View.v
Images.v
Card.v
Fetcher.v
Controller.v
Random.v
Invariants.v
Lifecycle.v
Scenario.v
Defaults.v
Ghost.v
Console.v
Network.v
Races.v
Wiring.v
Display.v
Progress.v
Await.v
Values.v
Script.v
Bootstrap.v
RawCard.v
RawController.v
Partial.v
Loaded.v
RawProgress.v
RawErrors.v
RawDisplay.v
Correctness.v
