(* ===== verification/Prelude.v ===== *)
(** * Pokemon Explorer: a verification development for [src/app.js]

    ** The program

    [src/app.js] is a browser front end of one class, [PokemonExplorer].  It
    reads a name or a number from a text input, fetches the record from
    [https://pokeapi.co/api/v2/pokemon/<query>], and renders a card (name,
    zero-padded id, height, weight, base experience, type badges, abilities and
    an image found through a chain of fallback URLs).  Everything it does is a
    reaction to an event: a form submit, a key press, a click, the settlement of
    a [fetch], the [load] or [error] event of an image, the browser going
    online or offline.  Its parts are

    - the view: the page elements the class holds and the four sections it
      shows and hides ([hideAllSections], [showLoading], [hideLoading],
      [showError], [showPokemon], [showHelp], [hideHelp]);
    - the formatter: [capitalize], [formatAbilityName], [populateTypes],
      [populateAbilities] and the string building in [populatePokemonData];
    - the image resolver: [loadPokemonImage], [tryLoadImage],
      [handleImageError];
    - the fetcher: [fetchPokemon];
    - the request controller: [searchPokemon], [getRandomPokemon];
    - the event wiring: [bindEvents], the global [keydown] shortcuts, the
      listeners of the window and of the document at the end of the file, and
      the unused [initializeAutoSuggest];
    - the console: the calls of [console.log] and [console.error];
    - the top level of the script: the listeners it attaches, the three
      lines it writes to the console and the export of the class.

    ** The files

    The development has two layers.  The typed layer ([Formatter] to
    [Await]) takes a response to be a record of the shape the API
    documents; it carries the event loop, its invariants, the refinement of
    the specification, the races and the two awaits of the fetcher.  The raw layer ([Values] to
    [Correctness]) runs the same code on whatever value the body parses to,
    shows that it is the typed layer on values of the shape, and says what
    happens on the others.  The files are listed in the order they are
    compiled; each requires only files above it.

    - [Prelude] (this file): the [result] type for code that may throw, with
      its monad instances; the optional chaining [?.]; the tactics and the
      hint databases of the development; conversion between strings and
      character lists, the generic string lemmas the components share, and
      lemmas on lists updated by index.
    - [JsRuntime]: the ECMAScript built-ins the source calls, on strings of
      ASCII characters and on integers: [trim], [toLowerCase], [toUpperCase],
      [charAt], [slice], [split], [join], [includes], [startsWith],
      [padStart], integer [toString], [toFixed1] of a tenth, truthiness,
      and the rounding of a product to a double ([round53]).
      These are models of the language's library, not of code under [src/];
      each is stated with the clause of ECMA-262 it follows.
    - [Formatter]: [capitalize], [formatAbilityName], the type and ability
      lists and the card texts, as pure functions, with a one-pass reference
      definition of [formatAbilityName] and their length, idempotence,
      round-trip and equivalence lemmas.
    - [State]: the record [pokemon] the code reads; the page state as the
      record [dom], one field per element property the code reads or writes
      ([initializeElements]); the application state [app]: the page, the
      fetches in flight with their continuations, the images loading, the
      log of URLs requested and the calls of the console; the field updates.
    - [View]: the section operations [hideAllSections], [showLoading],
      [hideLoading], [showError], [showHelp], [hideHelp], and [constructor].
    - [Images]: the candidate list, the sequential fallback chain as image
      tasks, its run under an availability oracle, and the equivalence with
      "first candidate that loads".
    - [Card]: [populatePokemonData] and [showPokemon], and the card they
      leave as a flat record.
    - [Fetcher]: the outcome of a [fetch], [fetchPokemon] as a function from
      the outcome to a [result], and its error messages.
    - [Controller]: [searchPokemon] and [getRandomPokemon] split at their
      [await], the listeners of [bindEvents], the [keydown] handler, the
      [online], [offline], [load] and [DOMContentLoaded] listeners, the
      labelled step relation [step] of the event loop with its executable
      form [handle] and [run], and the reachable states.
    - [Random]: the id of a random search against the id of exact
      arithmetic.
    - [Invariants]: the class [Invariant] of predicates that every turn of
      the event loop preserves, the classification of turns, and the
      invariants of the display, of the button and of the pending tasks.
    - [Lifecycle]: a search and a random search from the event to the
      settlement of the fetch: what is shown, what is requested, which
      message each failure gets.
    - [Scenario]: a whole search as one run of the event loop, from the
      submit to the last image event; it joins the chain of [Images] to the
      event loop of [Controller].
    - [Defaults]: which listeners call [e.preventDefault()], and the
      default action of Enter in the input, the implicit submission of the
      form, over the facts of the markup it depends on.
    - [Ghost]: the equivalence [same_page] of states that differ in the
      logs only, with [Proper] instances for the operations, the handlers
      and the runs.
    - [Console]: what each turn writes to the console.
    - [Network]: what each turn requests, and from where.
    - [Races]: what overlapping requests do, as theorems on every state and
      as reachable states of a sample page.
    - [Wiring]: the keyboard shortcuts, and the filter of
      [initializeAutoSuggest] as a pure function.
    - [Display]: the display-state machine of the specification (idle,
      loading, error with its message, record shown; requests in flight),
      the abstraction function from [app], and the refinement.
    - [Progress]: when the user does nothing more, the work in flight runs
      out: the predicate [within] over the events of the environment of an
      event loop, the measure argument [within_measure], and the measure
      [budget] of the typed event loop.
    - [Await]: [fetchPokemon] with its two awaits in turns of their own: the
      event loop in which a fetch in flight waits for its response or for
      its body, the events of [Controller] its turns are, and the turns an
      event of [Controller] is.
    - [Values]: the values of JSON as JavaScript values, and the operations
      of ECMA-262 the program applies to them: property access, optional
      chaining, truthiness, conversion to a string and to a number, with
      the [TypeError]s they throw.
    - [Script]: the statements of the script outside the class, over a
      [host] that says which globals are defined.
    - [Bootstrap]: the constructor statement by statement on a document
      given by the ids it has: [initializeElements], [bindEvents] and
      [hideAllSections] with the [TypeError] of reading a property of an
      element that is not there.
    - [RawCard]: the card code statement by statement on a value of any
      shape; [decode], the shape the typed layer assumes; the refinement of
      [Card.showPokemon] on values of the shape; the frame of the card code
      as an equivalence [alike] on states.
    - [RawController]: [fetchPokemon] and the continuations of the two
      requests with [showPokemon] inside the [try]; the event loop on
      unchecked responses.
    - [Partial]: the methods of the class and the listeners as lists of
      statements, each with the element it dereferences, on a document
      that may lack elements; the event loop over the listeners attached,
      with what each turn throws.
    - [Loaded]: the script, the constructor and the listeners together:
      the event loop from the page as [DOMContentLoaded] leaves it.
    - [RawProgress]: the liveness of [Progress] on the event loop of
      [RawController]; what a statement adds to the pending images
      ([starts]).
    - [RawErrors]: which [TypeError]s the card code can throw, the class
      [GenericMessages] of the engines whose messages for them the search
      reports as generic, with V8 as its instance.
    - [RawDisplay]: the machine of the specification on unchecked
      responses, where a body that is not a record is a malformed response,
      and the refinement on the responses the card code rejects.
    - [Correctness]: a whole search on the event loop of [RawController],
      joining [RawCard], [Lifecycle], [Scenario] and [Images].

    ** How the model corresponds to the code

    A JavaScript string is a [string] of the Standard Library; the built-ins
    agree with ECMAScript on strings whose characters are ASCII (code units
    below 128), which is what the API's names and the program's literals are.
    A JSON number is an integer [Z].  In the typed layer the record [pokemon]
    is a response of the shape the API documents, with the optional parts the
    code itself guards ([sprites] and its sub-objects through [?.],
    [base_experience] through [||]) as [option]s.

    Mutation of [this.<element>] is explicit state passing over [dom].  An
    [async] method is split at its [await]: the part before it is a function
    [app → app] that records the continuation ([KSearch query] or [KRandom])
    in the list of pending fetches; the part after it is a function of the
    fetch's outcome.  In [Controller] the two [await]s of [fetchPokemon] are
    one settlement; [Await] has them apart, each in a turn of its own with
    any other event between them, and proves that the two event loops reach
    the same states, because no state is touched between the awaits.
    [new Image()] with
    its two handlers is an image task [(sources, index, pokemon)]; its [load]
    and [error] events are labels of [step].  The log [app_requests] is ghost
    state: it records every URL passed to [fetch] or assigned to the [src]
    of a new [Image] (line 238), so that "no request is made" and
    "candidate 5 is never attempted" can be stated.  The two assignments to
    the [src] of the image element of the page (lines 207 and 227) are
    writes to the element and are not in the log: the source assigned at
    line 227 is the one the new [Image] has just loaded.  The console is the list [app_console] of the calls made,
    each with its method and arguments; the three calls the script makes
    when it is evaluated are [script_console].  [Math.random()] is an
    integer [k] with [0 ≤ k < 2^53] standing for the double [k / 2^53],
    which covers the generators of the engines in use (52 or 53 random
    bits); the product with 1010 is the double nearest to the exact
    product ([round53]), as the multiplication of doubles gives it.

    In the raw layer a value is a [value]: [undefined], [null], a boolean, an
    integer, a string, an array or an object with its members in the order
    of the text.  An expression evaluates to an [outcome]: a value, a thrown
    [TypeError] with its message, or [Unmodelled] where the model stops (the
    conversion of a string to a number, an image source that is truthy and
    not a string, a record whose name is not a string or whose id is not a
    number once its image chain starts).  The text of a [TypeError] is the
    engine's: the operations take a function [engine] from the error to its
    message, and [v8_message] is the text of Chrome and Node.  A statement is
    a function from the state to an outcome and a state ([stmt]), so that
    what was written before a throw stays written; [try], [catch] and
    [finally] are [try_catch_finally].

    An event is the call of its listener ([handle]); [Defaults.dispatch]
    adds the default action of the browser for the one event where the
    program depends on it, Enter in the input, which the [keypress]
    listener does not prevent.

    The script outside the class runs once, when the file is evaluated:
    [Script.script] is the sequence of its statements over a [host], and a
    global that is not defined ends it with a [ReferenceError].  The event
    loop starts from the state its [DOMContentLoaded] listener constructs.
    [View.constructor] takes the page as a [dom], in which every element
    exists.  [Bootstrap] takes the document as the list of the ids it has
    and the object under construction as the properties set so far, each an
    element or [null], with the listeners attached and the sections
    hidden; a statement that reads a property of [null] ends the
    constructor with a [TypeError] and leaves what was done before.
    [Partial] does the same for the methods the listeners call: a method is
    the list of its statements, [Touch name x f] for a statement that
    dereferences the element [name] with the access [x] (a read or an
    assignment of a property) and writes [f], and [do] runs the list until
    a statement finds its element [null] and throws the message
    [engine x]; [v8_null] has the messages of V8.  [showLoading] runs
    before the [try] of a search, and [try_catch_finally_page] runs the
    [finally] block also after a [catch] block that threw.  What a turn
    throws is reported and the loop goes on: [run_page] returns the state
    and the errors in order.  The loop takes the listeners attached as a
    list: an event of the user or the window is a turn when its listener
    is in it, and [click()] calls a listener under the same condition.
    [Loaded] starts the loop where [DOMContentLoaded] leaves the page: the
    listeners are those of [Script] and those [bindEvents] attached before
    the constructor returned or threw, and the sections hidden are those
    it reached.

    Nothing in the development uses fuel: every function is structurally
    recursive, and the image chain is bounded by the length of its candidate
    list, which [Images] proves.  The bound of [Progress] and of
    [RawProgress] is seven events for each fetch in flight (its settlement
    and at most six image sources) and one for each source an image has
    left; on unchecked responses a record has six sources at most as well,
    because the candidate list is a literal of six.  With the awaits apart
    the bound of [Await] is one event more for each fetch whose response
    has not come.

    ** What the theorems show

    - [JsRuntime], [Formatter]: each built-in and formatter on every branch;
      [capitalize] and [formatAbilityName] preserve length and are idempotent;
      [split]/[join] round trip; [formatAbilityName] equals its one-pass
      reference; the id text is ["#"] and at least three digits that read back
      as the id; heights and weights print as tenths and read back; the
      experience text is the placeholder for an absent value and for 0, and
      the digits of the number when it is positive.
    - [Images]: the candidate order; the list is never empty; the chain
      attempts candidates in order, one at a time, stops at the first that
      loads, logs each failure, and terminates within as many events as there
      are candidates.
    - [Invariants]: in every reachable state, whatever the interleaving of
      events, at most one of the loading, error and card sections is shown; a
      shown loading section goes with a disabled button, and a disabled
      button with a fetch in flight; a shown card is the card of one record;
      every pending image reads its list inside its bounds; every fetch in
      flight asks for a normalized query or an id from 1 to 1010.  Each is an
      instance of [Invariant], proved once per kind of turn, and lifted to the
      reachable states by [invariant_reachable].
    - [Lifecycle]: an empty query shows the prompt and makes no request; a
      search makes exactly one request and, answered with a record, shows its
      card and clears the input; a 404 shows the not-found message with the
      query; the message of every other failure is decided by substring tests
      on the error text, which sends the transport failures of browsers to
      the generic message: the network message is shown only for an error
      of the browser whose text holds ["network"] in lower case, and for no
      error [fetchPokemon] throws itself; a random search asks for an id
      from 1 to 1010;
      the cleanup of [finally] runs on every path.
    - [Random]: the id of a random search is the id of exact arithmetic
      unless the product is less than 512 below a multiple of [2^53], and
      then it is the next; every id from 1 to 1010 is drawn, by the draws
      of exact arithmetic give or take one.
    - [Scenario]: the events of the image chain under an oracle are a run
      of the event loop that ends in the state [Images] computes; a search
      answered with a record, followed by these events, ends as
      [search_done] says: the card shown, the image resolved, nothing
      pending, and one request for the record and one for each source
      tried.
    - [Defaults]: with the search button as the submit button of the form,
      Enter in the input is exactly one search, although the [keypress]
      listener and the [submit] listener both react: the button is disabled
      before the default action; in a form without a submit button a query
      is fetched twice.
    - [Ghost]: two states that differ in the logs only take the same events
      and stay so: the logs are never read.
    - [Console]: the console grows by exactly the calls of each turn.
    - [Network]: the log of requests grows by exactly the requests of each
      turn, and every address requested is the base URL of the API followed
      by a query or an id, or an image source of a record that was
      delivered.
    - [Races]: a settlement hides the loading section and enables the button
      while other fetches are in flight; responses out of order leave the
      older record on the card; from every reachable state, an image that
      loads after a newer record has arrived is shown over the card of
      that record; a settlement closes the help section.
    - [Wiring]: each keyboard shortcut, and the suggestion filter.
    - [Display]: every run of the event loop, read through the abstraction,
      is a run of the machine of the specification on the events the machine
      sees; the loading state goes with a request in flight, proved on the
      machine and carried to the page.  The machine takes the
      classification of an error and the card of a record from the
      functions of the code ([search_error_message], [fetchPokemon],
      [card_of]): the refinement is of the display states and the requests
      in flight, and the texts are the subject of [Formatter] and
      [Lifecycle].
    - [Progress]: from every reachable state, whatever the responses and the
      images do, the page is at rest after at most [budget] events.
    - [Await]: every run with the awaits apart ends in the state in which
      the run of [Controller] over the erased events ends, and every run of
      [Controller] is a run with the awaits apart; so the two event loops
      reach the same states, every [Invariant] holds with the awaits
      apart, and the page comes to rest within [fine_budget] events.
    - [Script]: in a browser the script attaches its five listeners (four
      without service workers), writes its three lines and exports nothing;
      the class is exported exactly in a host with the globals of a page and
      a [module] with truthy [exports]; under CommonJS without a page the
      evaluation ends at line 305.
    - [Bootstrap]: the constructor returns exactly on a document with the
      nine elements it reads, with its six listeners attached in order and
      the four sections hidden; otherwise it throws at the first of them
      that is missing, with the listeners before it attached; with the
      listeners of [Script], the page then has a listener for every event
      of [Controller] that comes from the user or the window, and no
      other.
    - [Partial]: on a document with the nineteen elements the methods use
      the event loop on the page is the event loop of [Controller] turn by
      turn and nothing throws, so the record [dom] assumes the existence of
      these elements and nothing more; on every document, whatever is
      thrown, at most one of the loading, error and card sections is shown;
      on a page without its search button a search shows the loading
      section, throws before the [try] and requests nothing, so nothing
      hides the section again; without the element of the error text a
      failed search shows nothing and still enables the button.
    - [Loaded]: on a document with the nineteen elements the page after
      [DOMContentLoaded] runs as the event loop of [Controller] from the
      state of [View.constructor]; on a page without its form the
      constructor attaches nothing, and in every run the sections stay as
      parsed and nothing is requested.
    - [RawCard], [RawController]: on a value that decodes to a record no
      read, call or conversion of the card code throws, for any engine, and
      the state is the one of the typed layer; so the event loop on
      unchecked responses of the shape is the typed event loop.  On every
      run the model covers, from a page whose button is enabled, the
      display, the button and the fetches keep their invariants; a response
      on which the card code throws ends as a failed request.
    - [RawProgress]: whatever the responses the model covers, the page is
      at rest after at
      most [budget] events of the environment, also when the card code
      threw after the image chain of the record had started.
    - [RawErrors]: the card code throws nothing but the errors of
      [card_errors]; for an engine of the class [GenericMessages], of which
      V8 is an instance, the search reports each of them with the generic
      message.
    - [RawDisplay]: when the card code throws on every body that is not a
      record, the event loop on unchecked responses refines the machine of
      the specification; a body with every property of a record but its
      height is one on which it does not throw, for every engine and in
      every state with a fetch in flight, and the page shows a card with
      [NaN m] where the machine shows an error.
    - [Correctness]: for every engine and every value of the shape of a
      record, the submit, the settlement and the image events of a search
      end with the card of the record, its first image that loads, nothing
      pending, and the requests of the record and of the sources tried; the
      same for a random search from the click on.

    The witnesses apply the theorems at [sample_page], [sample_pokemon], the
    values [sample_value], [sample_value_no_height] and
    [sample_value_no_types], and the states [run] and [run_js] compute from
    them.

    ** Not modelled

    The stylesheet and markup, which are not under [src/]; with them the
    default actions of the browser other than the submission of the form
    by the Enter key, which [Defaults] takes from the HTML standard over
    the facts of the markup: what [preventDefault] prevents on [submit] and
    on the two shortcuts (leaving the page, the browser's own shortcuts) is
    not modelled.  An event whose listener is not attached is no turn of
    the script, and what the browser then does by default is not modelled.
    On a page that lacks elements the record is typed: the card code on
    unchecked values on such a page ([RawCard] is over [dom]) is not
    modelled.  The HTTP and JSON
    machinery of the browser: a response is given by its status and the
    value its body parses to.  Values of
    [Math.random()] that are not multiples of [2^-53], numbers of JSON that
    are not integers, the conversion of a string to a number, and image
    sources that are not strings: an outcome that depends on one of them is
    [Unmodelled], and the theorems of the raw layer speak of the runs the
    model covers.  These are the parts that stay partly modelled: the
    record and the values of the language are integers and ASCII strings
    where JavaScript has doubles and UTF-16, and going further needs a
    model of IEEE 754 printing and of Unicode case mapping, neither of
    which the code under [src/] contains.  Hosts in which a global of the
    page is defined and is not the object of a browser.  Events that reach
    the listeners of the window before the page is constructed. *)

From Stdlib Require Export ZArith Lia Ascii.
From stdpp Require Export prelude strings pretty.

(** ** Code that may throw

    A JavaScript expression either yields a value or throws an [Error]; the
    program only ever reads [error.message], so an exception is its message. *)

Inductive result (A : Type) : Type :=
| Ok (a : A)
| Throw (message : string).

Arguments Ok {A} a.
Arguments Throw {A} message.

#[global] Instance result_ret : MRet result := λ A a, Ok a.

#[global] Instance result_bind : MBind result := λ A B f r,
  match r with
  | Ok a => f a
  | Throw m => Throw m
  end.

#[global] Instance result_fmap : FMap result := λ A B f r,
  match r with
  | Ok a => Ok (f a)
  | Throw m => Throw m
  end.

#[global] Instance result_eq_dec `{EqDecision A} : EqDecision (result A).
Proof. solve_decision. Defined.

(** [try_catch r h] is [try { r } catch (error) { h error.message }]. *)
Definition try_catch {A B} (r : result A) (k : A → B) (h : string → B) : B :=
  match r with
  | Ok a => k a
  | Throw m => h m
  end.

Definition is_Ok {A} (r : result A) : bool :=
  match r with
  | Ok _ => true
  | Throw _ => false
  end.

(** ** Optional chaining

    [o?.f] is [undefined] when [o] is [null] or [undefined], and [o.f]
    otherwise; an absent value is [None]. *)

Definition optional_chain {A B} (o : option A) (f : A → option B) : option B :=
  match o with
  | Some a => f a
  | None => None
  end.

Declare Scope js_scope.
Delimit Scope js_scope with js.
Notation "o ?. f" := (optional_chain o f) (at level 40, left associativity) : js_scope.
#[global] Open Scope js_scope.

(** ** Strings as character lists *)

Abbreviation chars := String.list_ascii_of_string.
Abbreviation of_chars := String.string_of_list_ascii.

(** The double quote, which a string literal cannot hold. *)
Definition dquote : string := String "034"%char "".

(** ** Tactics and hint databases *)

Create HintDb pokedex discriminated.
Create Rewrite HintDb js_rw.

(** Case analysis on a boolean test of the goal, keeping the equation. *)
Ltac case_bool b :=
  let E := fresh "E" in destruct b eqn:E.

(** Destructs every record of the given type in the context. *)
Ltac destruct_records T :=
  repeat match goal with
  | x : T |- _ => destruct x
  end.

(** Closes a goal that is a bounded universal statement over booleans by
    evaluation. *)
Ltac by_compute := vm_compute; reflexivity.

(** ** Generic lemmas *)

Lemma chars_of_chars (l : list ascii) : chars (of_chars l) = l.
Proof. apply String.list_ascii_of_string_of_list_ascii. Qed.

Lemma of_chars_chars (s : string) : of_chars (chars s) = s.
Proof. apply String.string_of_list_ascii_of_string. Qed.

Lemma chars_inj (s t : string) : chars s = chars t → s = t.
Proof. intros H. rewrite <-(of_chars_chars s), <-(of_chars_chars t). by f_equal. Qed.

Lemma chars_app (s t : string) : chars (s +:+ t) = chars s ++ chars t.
Proof. induction s as [|c s IH]; simpl; [done|]. by rewrite <-IH. Qed.

Lemma of_chars_app (k l : list ascii) : of_chars (k ++ l) = of_chars k +:+ of_chars l.
Proof. apply chars_inj. by rewrite chars_app, !chars_of_chars. Qed.

Lemma length_chars (s : string) : length (chars s) = String.length s.
Proof. induction s; simpl; congruence. Qed.

Lemma string_length_app (s t : string) :
  String.length (s +:+ t) = (String.length s + String.length t)%nat.
Proof. rewrite <-!length_chars, chars_app. apply length_app. Qed.

Lemma string_app_nil_r (s : string) : s +:+ "" = s.
Proof. apply chars_inj. rewrite chars_app. apply app_nil_r. Qed.

Lemma string_app_assoc (s t u : string) : (s +:+ t) +:+ u = s +:+ t +:+ u.
Proof. apply chars_inj. rewrite !chars_app. symmetry. apply app_assoc. Qed.

Lemma string_app_cons (c : ascii) (s t : string) : String c s +:+ t = String c (s +:+ t).
Proof. done. Qed.

Lemma string_length_zero (s : string) : String.length s = 0%nat ↔ s = "".
Proof. destruct s; simpl; split; (done || lia). Qed.

#[export] Hint Rewrite chars_app chars_of_chars of_chars_chars length_chars
  string_length_app string_app_nil_r string_app_cons : js_rw.

(** [try_catch] and the monad agree: binding then catching is catching with
    the composed continuation. *)
Lemma try_catch_bind {A B C} (r : result A) (f : A → result B) (k : B → C) (h : string → C) :
  try_catch (r ≫= f) k h = try_catch r (λ a, try_catch (f a) k h) h.
Proof. by destruct r. Qed.

Lemma is_Ok_true {A} (r : result A) : is_Ok r = true ↔ ∃ a, r = Ok a.
Proof. destruct r; simpl; split; [eauto|done|done|intros [? ?]; done]. Qed.

(** Lists updated by index: what deleting an entry does after a write at
    its position, to a list of equal entries, and to the entries that
    satisfy a predicate. *)
Lemma delete_insert_same {A : Type} (l : list A) (i : nat) (x : A) :
  delete i (<[i:=x]> l) = delete i l.
Proof. revert i. induction l as [|y l IH]; intros [|i]; simpl; by rewrite ?IH. Qed.

Lemma delete_replicate {A : Type} (n i : nat) (x : A) :
  (i < n)%nat → delete i (replicate n x) = replicate (n - 1) x.
Proof.
  revert i. induction n as [|n IH]; intros [|i] Hi; simpl; try lia; [by rewrite Nat.sub_0_r|].
  rewrite IH by lia. destruct n; [lia|]. simpl. by rewrite Nat.sub_0_r.
Qed.

Lemma filter_delete_le {A : Type} (P : A → Prop) `{!∀ x, Decision (P x)} (l : list A)
    (i : nat) :
  (length (filter P (delete i l)) ≤ length (filter P l))%nat.
Proof.
  revert i. induction l as [|x l IH]; intros [|i]; simpl; try done.
  - rewrite filter_cons. case_decide; simpl; lia.
  - rewrite !filter_cons. specialize (IH i). case_decide; simpl; lia.
Qed.

Lemma filter_insert_lt {A : Type} (P : A → Prop) `{!∀ x, Decision (P x)} (l : list A)
    (i : nat) (x y : A) :
  l !! i = Some x → P x → ¬ P y →
  (length (filter P (<[i:=y]> l)) < length (filter P l))%nat.
Proof.
  intros Hi Hx Hy. revert i Hi. induction l as [|z l IH]; intros [|i] Hi; simplify_eq/=.
  - rewrite !filter_cons. repeat case_decide; simpl; try done; lia.
  - rewrite !filter_cons. specialize (IH i Hi). case_decide; simpl; lia.
Qed.
