(* ===== verification/JsRuntime.v ===== *)
(** * JsRuntime: the ECMAScript built-ins the program calls

    Models of the library functions of the language that [src/app.js] applies
    to strings and numbers, on strings of ASCII characters and on integers.
    Each definition names the clause of ECMA-262 it follows.  The lemmas are
    the facts about them that the components use. *)

From S2P Require Import Prelude.

(** ** Characters *)

(** ASCII lower-case and upper-case letters. *)
Definition is_lower (c : ascii) : bool :=
  (97 <=? N_of_ascii c)%N && (N_of_ascii c <=? 122)%N.

Definition is_upper (c : ascii) : bool :=
  (65 <=? N_of_ascii c)%N && (N_of_ascii c <=? 90)%N.

Definition is_digit (c : ascii) : bool :=
  (48 <=? N_of_ascii c)%N && (N_of_ascii c <=? 57)%N.

Definition to_upper_char (c : ascii) : ascii :=
  if is_lower c then ascii_of_N (N_of_ascii c - 32) else c.

Definition to_lower_char (c : ascii) : ascii :=
  if is_upper c then ascii_of_N (N_of_ascii c + 32) else c.

(** A character below 128. *)
Definition is_ascii (c : ascii) : bool := (N_of_ascii c <? 128)%N.

(** ** Strings *)

Fixpoint string_map (f : ascii → ascii) (s : string) : string :=
  match s with
  | "" => ""
  | String c s' => String (f c) (string_map f s')
  end.

Fixpoint string_forallb (p : ascii → bool) (s : string) : bool :=
  match s with
  | "" => true
  | String c s' => p c && string_forallb p s'
  end.

(** [String.prototype.toUpperCase] and [toLowerCase] (22.1.3.28, 22.1.3.26),
    which on ASCII map the letters and leave the rest. *)
Definition toUpperCase : string → string := string_map to_upper_char.
Definition toLowerCase : string → string := string_map to_lower_char.

(** [String.prototype.charAt] (22.1.3.2): the one-character string at the
    position, the empty string out of range. *)
Definition charAt (i : nat) (s : string) : string :=
  match String.get i s with
  | Some c => String c ""
  | None => ""
  end.

(** [String.prototype.slice] with a start that is not negative and no end
    (22.1.3.22): the string from the position on, empty past the end. *)
Fixpoint slice (start : nat) (s : string) : string :=
  match start, s with
  | O, _ => s
  | S n, "" => ""
  | S n, String _ s' => slice n s'
  end.

(** [String.prototype.trim] (22.1.3.32): without the white space and line
    terminators at both ends; on ASCII these are the characters 9 to 13 and
    the space. *)
Fixpoint trimStart (s : string) : string :=
  match s with
  | "" => ""
  | String c s' => if Ascii.is_space c then trimStart s' else s
  end.

Fixpoint trimEnd (s : string) : string :=
  match s with
  | "" => ""
  | String c s' =>
      match trimEnd s' with
      | "" => if Ascii.is_space c then "" else String c ""
      | t => String c t
      end
  end.

Definition trim (s : string) : string := trimEnd (trimStart s).

(** [String.prototype.startsWith] (22.1.3.24) at position 0. *)
Definition startsWith (p s : string) : bool := String.prefix p s.

(** [String.prototype.includes] (22.1.3.8): the needle occurs at some
    position. *)
Fixpoint includes (needle s : string) : bool :=
  String.prefix needle s ||
  match s with
  | "" => false
  | String _ s' => includes needle s'
  end.

(** [String.prototype.split] with a separator of one character (22.1.3.23):
    the pieces between the separators, [[""]] for the empty string. *)
Fixpoint split (sep : ascii) (s : string) : list string :=
  match s with
  | "" => [""]
  | String c s' =>
      if Ascii.eqb c sep then "" :: split sep s'
      else match split sep s' with
           | w :: ws => String c w :: ws
           | [] => [String c ""]
           end
  end.

(** [Array.prototype.join] on an array of strings (23.1.3.18). *)
Definition join (sep : string) (l : list string) : string := String.concat sep l.

(** [n] copies of a character. *)
Fixpoint string_repeat (n : nat) (c : ascii) : string :=
  match n with
  | O => ""
  | S n' => String c (string_repeat n' c)
  end.

(** [String.prototype.padStart] with a fill string of one character
    (22.1.3.17): the fill is repeated in front up to the target length; a
    string that is long enough is returned as it is. *)
Definition padStart (target : nat) (fill : ascii) (s : string) : string :=
  string_repeat (target - String.length s) fill +:+ s.

(** ** Numbers *)

(** [Number.prototype.toString] of an integer below [10^21] in magnitude
    (6.1.6.1.20): its decimal digits, with a minus sign when negative. *)
Definition toString (z : Z) : string := pretty z.

(** [(h / 10).toFixed(1)] for an integer [h] (21.1.3.3): the quotient has
    exactly one decimal, so the text is the integer part of [|h| / 10], a
    point and the last digit of [|h|], after a minus sign when [h < 0].  The
    double nearest to [h / 10] rounds back to [h] tenths whenever
    [|h| < 2^52]. *)
Definition toFixed1_tenth (h : Z) : string :=
  (if (h <? 0)%Z then "-" else "") +:+
  pretty (Z.abs h / 10)%Z +:+ "." +:+ pretty (Z.abs h mod 10)%Z.

(** The product of two doubles whose exact product is the integer [p]
    scaled by a power of two (6.1.6.1.4 Number::multiply): the double
    nearest to the exact product, which is [p] rounded to 53 significant
    bits with ties to the even neighbour, at the same scale. *)
Definition round53 (p : Z) : Z :=
  let s := (Z.log2 p - 52)%Z in
  if (s <=? 0)%Z then p
  else
    let q := (p / 2 ^ s)%Z in
    let r := (p mod 2 ^ s)%Z in
    let h := (2 ^ (s - 1))%Z in
    ((if (h <? r)%Z || ((r =? h)%Z && Z.odd q) then q + 1 else q) * 2 ^ s)%Z.

(** Truthiness of a string (7.1.2 ToBoolean): not empty. *)
Definition truthy_string (s : string) : bool :=
  match s with
  | "" => false
  | _ => true
  end.

(** Truthiness of an integer: not zero. *)
Definition truthy_number (z : Z) : bool := negb (z =? 0)%Z.

(** Reads a string of decimal digits; a character that is not a digit counts
    as zero.  It is the inverse of [toString] on naturals and is used to state
    round trips only. *)
Definition digit_value (c : ascii) : N :=
  if is_digit c then (N_of_ascii c - 48)%N else 0%N.

Fixpoint read_decimal_from (acc : N) (s : string) : N :=
  match s with
  | "" => acc
  | String c s' => read_decimal_from (10 * acc + digit_value c)%N s'
  end.

Definition read_decimal (s : string) : N := read_decimal_from 0 s.

(** ** Lemmas on characters

    A character is eight booleans, so a closed statement about every
    character is checked by evaluation on the 256 cases. *)

Ltac all_chars c := destruct c as [[|] [|] [|] [|] [|] [|] [|] [|]]; vm_compute; try done.

Lemma to_upper_char_idemp (c : ascii) : to_upper_char (to_upper_char c) = to_upper_char c.
Proof. all_chars c. Qed.

Lemma to_lower_char_idemp (c : ascii) : to_lower_char (to_lower_char c) = to_lower_char c.
Proof. all_chars c. Qed.

Lemma to_upper_char_not_lower (c : ascii) : is_lower (to_upper_char c) = false.
Proof. all_chars c. Qed.

Lemma to_lower_char_not_upper (c : ascii) : is_upper (to_lower_char c) = false.
Proof. all_chars c. Qed.

Lemma to_upper_lower_char (c : ascii) :
  to_upper_char (to_lower_char c) = to_upper_char c.
Proof. all_chars c. Qed.

Lemma is_space_to_lower_char (c : ascii) :
  Ascii.is_space (to_lower_char c) = Ascii.is_space c.
Proof. all_chars c. Qed.

Lemma is_space_to_upper_char (c : ascii) :
  Ascii.is_space (to_upper_char c) = Ascii.is_space c.
Proof. all_chars c. Qed.

Lemma to_upper_char_eq_iff (c d : ascii) :
  is_lower c = false → is_upper c = false →
  to_upper_char d = c ↔ d = c.
Proof.
  intros Hl Hu. split; [|intros ->; unfold to_upper_char; by rewrite Hl].
  intros <-. revert Hl Hu. all_chars d.
Qed.

Lemma ascii_eqb_eq (c d : ascii) : Ascii.eqb c d = true ↔ c = d.
Proof. apply Ascii.eqb_eq. Qed.

Lemma ascii_eqb_refl (c : ascii) : Ascii.eqb c c = true.
Proof. by apply Ascii.eqb_eq. Qed.

Lemma ascii_eqb_false (c d : ascii) : Ascii.eqb c d = false ↔ c ≠ d.
Proof. apply Ascii.eqb_neq. Qed.

(** ** Lemmas on [string_map] and the case conversions *)

Lemma chars_string_map (f : ascii → ascii) (s : string) :
  chars (string_map f s) = f <$> chars s.
Proof. induction s; csimpl; congruence. Qed.

Lemma string_map_length (f : ascii → ascii) (s : string) :
  String.length (string_map f s) = String.length s.
Proof. induction s; simpl; congruence. Qed.

Lemma string_map_app (f : ascii → ascii) (s t : string) :
  string_map f (s +:+ t) = string_map f s +:+ string_map f t.
Proof.
  induction s as [|c s IH]; [done|].
  rewrite string_app_cons. simpl. by rewrite string_app_cons, IH.
Qed.

Lemma string_map_idemp (f : ascii → ascii) (s : string) :
  (∀ c, f (f c) = f c) → string_map f (string_map f s) = string_map f s.
Proof. intros Hf. induction s; simpl; congruence. Qed.

Lemma string_map_id (f : ascii → ascii) (s : string) :
  string_forallb (λ c, bool_decide (f c = c)) s = true → string_map f s = s.
Proof.
  induction s as [|c s IH]; simpl; [done|].
  intros [Hc Hs]%andb_true_iff. apply bool_decide_eq_true in Hc. rewrite Hc, IH; done.
Qed.

Lemma string_forallb_app (p : ascii → bool) (s t : string) :
  string_forallb p (s +:+ t) = string_forallb p s && string_forallb p t.
Proof.
  induction s as [|c s IH]; [done|].
  rewrite string_app_cons. simpl. by rewrite IH, andb_assoc.
Qed.

Lemma string_forallb_impl (p q : ascii → bool) (s : string) :
  (∀ c, p c = true → q c = true) →
  string_forallb p s = true → string_forallb q s = true.
Proof.
  intros Hpq. induction s as [|c s IH]; simpl; [done|].
  intros [Hc Hs]%andb_true_iff. rewrite (Hpq _ Hc), IH; done.
Qed.

Lemma string_forallb_Forall (p : ascii → bool) (s : string) :
  string_forallb p s = true ↔ Forall (λ c, p c = true) (chars s).
Proof.
  induction s as [|c s IH]; simpl.
  - split; [constructor|done].
  - rewrite andb_true_iff, Forall_cons, IH. done.
Qed.

Lemma toUpperCase_length (s : string) : String.length (toUpperCase s) = String.length s.
Proof. apply string_map_length. Qed.

Lemma toLowerCase_length (s : string) : String.length (toLowerCase s) = String.length s.
Proof. apply string_map_length. Qed.

Lemma toUpperCase_idemp (s : string) : toUpperCase (toUpperCase s) = toUpperCase s.
Proof. apply string_map_idemp, to_upper_char_idemp. Qed.

Lemma toLowerCase_idemp (s : string) : toLowerCase (toLowerCase s) = toLowerCase s.
Proof. apply string_map_idemp, to_lower_char_idemp. Qed.

Lemma toLowerCase_no_upper (s : string) :
  string_forallb (λ c, negb (is_upper c)) (toLowerCase s) = true.
Proof.
  unfold toLowerCase. induction s as [|c s IH]; simpl; [done|].
  by rewrite to_lower_char_not_upper, IH.
Qed.

(** ** Lemmas on [charAt] and [slice] *)

Lemma charAt_0_cons (c : ascii) (s : string) : charAt 0 (String c s) = String c "".
Proof. done. Qed.

Lemma charAt_slice (s : string) : charAt 0 s +:+ slice 1 s = s.
Proof. by destruct s. Qed.

Lemma charAt_length (i : nat) (s : string) : (String.length (charAt i s) ≤ 1)%nat.
Proof. unfold charAt. destruct (String.get i s); simpl; lia. Qed.

Lemma slice_length (n : nat) (s : string) :
  String.length (slice n s) = (String.length s - n)%nat.
Proof. revert s. induction n as [|n IH]; intros [|c s]; simpl; auto with lia. Qed.

Lemma chars_slice (n : nat) (s : string) : chars (slice n s) = drop n (chars s).
Proof. revert s. induction n as [|n IH]; intros [|c s]; simpl; auto. Qed.

#[export] Hint Rewrite string_map_length toUpperCase_length toLowerCase_length
  slice_length chars_string_map chars_slice : js_rw.

(** ** Lemmas on [trim] *)

Definition is_empty (s : string) : bool :=
  match s with
  | "" => true
  | _ => false
  end.

Lemma is_empty_true (s : string) : is_empty s = true ↔ s = "".
Proof. by destruct s. Qed.

Lemma truthy_string_is_empty (s : string) : truthy_string s = negb (is_empty s).
Proof. by destruct s. Qed.

Lemma trimEnd_cons (c : ascii) (s : string) :
  trimEnd (String c s) =
    if Ascii.is_space c && is_empty (trimEnd s) then "" else String c (trimEnd s).
Proof. simpl. destruct (trimEnd s), (Ascii.is_space c); done. Qed.

Lemma trimEnd_cons_nonspace (c : ascii) (s : string) :
  Ascii.is_space c = false → trimEnd (String c s) = String c (trimEnd s).
Proof. intros Hc. by rewrite trimEnd_cons, Hc. Qed.

Lemma trimStart_cases (s : string) :
  trimStart s = "" ∨ ∃ c t, trimStart s = String c t ∧ Ascii.is_space c = false.
Proof.
  induction s as [|c s IH]; simpl; [by left|].
  destruct (Ascii.is_space c) eqn:Hc; [done|right; eauto].
Qed.

Lemma trimStart_nonspace (c : ascii) (s : string) :
  Ascii.is_space c = false → trimStart (String c s) = String c s.
Proof. intros Hc. simpl. by rewrite Hc. Qed.

Lemma trimStart_idemp (s : string) : trimStart (trimStart s) = trimStart s.
Proof.
  destruct (trimStart_cases s) as [->|(c & t & -> & Hc)]; [done|].
  by apply trimStart_nonspace.
Qed.

Lemma trimEnd_idemp (s : string) : trimEnd (trimEnd s) = trimEnd s.
Proof.
  induction s as [|c s IH]; [done|].
  rewrite trimEnd_cons. destruct (Ascii.is_space c) eqn:Hc, (is_empty (trimEnd s)) eqn:He;
    cbn [andb]; try done; rewrite trimEnd_cons, IH, ?Hc, ?He; done.
Qed.

Lemma trimStart_all_space (s : string) :
  trimStart s = "" ↔ string_forallb Ascii.is_space s = true.
Proof.
  induction s as [|c s IH]; simpl; [done|].
  destruct (Ascii.is_space c); simpl; [done|]. split; done.
Qed.

Lemma trimEnd_all_space (s : string) :
  trimEnd s = "" ↔ string_forallb Ascii.is_space s = true.
Proof.
  induction s as [|c s IH]; [done|].
  rewrite trimEnd_cons. cbn [string_forallb]. rewrite andb_true_iff.
  destruct (Ascii.is_space c), (trimEnd s); cbn in *; intuition done.
Qed.

Lemma string_forallb_trimStart (p : ascii → bool) (s : string) :
  string_forallb p s = true → string_forallb p (trimStart s) = true.
Proof.
  induction s as [|c s IH]; simpl; [done|].
  intros [Hc Hs]%andb_true_iff. destruct (Ascii.is_space c); simpl; [auto|].
  by rewrite Hc, Hs.
Qed.

(** [trim] yields the empty string exactly on the strings of white space. *)
Lemma trim_empty_iff (s : string) :
  trim s = "" ↔ string_forallb Ascii.is_space s = true.
Proof.
  unfold trim. rewrite trimEnd_all_space. split.
  - destruct (trimStart_cases s) as [E|(c & t & E & Hc)].
    + intros _. by apply trimStart_all_space.
    + rewrite E. simpl. by rewrite Hc.
  - apply string_forallb_trimStart.
Qed.

Lemma trim_cases (s : string) :
  trim s = "" ∨ ∃ c t, trim s = String c t ∧ Ascii.is_space c = false.
Proof.
  unfold trim. destruct (trimStart_cases s) as [->|(c & t & -> & Hc)]; [by left|].
  right. exists c, (trimEnd t). by rewrite trimEnd_cons_nonspace.
Qed.

Lemma trim_idemp (s : string) : trim (trim s) = trim s.
Proof.
  destruct (trim_cases s) as [->|(c & t & E & Hc)]; [done|].
  unfold trim at 1. rewrite E, trimStart_nonspace by done.
  rewrite <-E. apply trimEnd_idemp.
Qed.

(** The last character of a trimmed string is not white space. *)
Lemma trimEnd_last (s : string) (c : ascii) :
  last (chars (trimEnd s)) = Some c → Ascii.is_space c = false.
Proof.
  induction s as [|d s IH]; [done|].
  rewrite trimEnd_cons. destruct (Ascii.is_space d) eqn:Hd, (trimEnd s) as [|e t] eqn:E;
    simpl in *; try done; try (intros; simplify_eq; done); apply IH.
Qed.

Lemma trim_head (s : string) (c : ascii) :
  head (chars (trim s)) = Some c → Ascii.is_space c = false.
Proof.
  destruct (trim_cases s) as [->|(d & t & -> & Hd)]; simpl; [done|].
  by intros [= ->].
Qed.

Lemma trim_last (s : string) (c : ascii) :
  last (chars (trim s)) = Some c → Ascii.is_space c = false.
Proof. apply trimEnd_last. Qed.

(** A character map that keeps white space and its complement commutes with
    trimming. *)
Lemma trimStart_string_map (f : ascii → ascii) (s : string) :
  (∀ c, Ascii.is_space (f c) = Ascii.is_space c) →
  trimStart (string_map f s) = string_map f (trimStart s).
Proof.
  intros Hf. induction s as [|c s IH]; simpl; [done|].
  rewrite Hf. by destruct (Ascii.is_space c).
Qed.

Lemma is_empty_string_map (f : ascii → ascii) (s : string) :
  is_empty (string_map f s) = is_empty s.
Proof. by destruct s. Qed.

Lemma trimEnd_string_map (f : ascii → ascii) (s : string) :
  (∀ c, Ascii.is_space (f c) = Ascii.is_space c) →
  trimEnd (string_map f s) = string_map f (trimEnd s).
Proof.
  intros Hf. induction s as [|c s IH]; [done|].
  change (string_map f (String c s)) with (String (f c) (string_map f s)).
  rewrite !trimEnd_cons, Hf, IH, is_empty_string_map.
  by destruct (Ascii.is_space c && is_empty (trimEnd s)).
Qed.

Lemma trim_toLowerCase (s : string) : trim (toLowerCase s) = toLowerCase (trim s).
Proof.
  unfold trim, toLowerCase.
  rewrite trimStart_string_map, trimEnd_string_map; auto using is_space_to_lower_char.
Qed.

(** ** Lemmas on prefixes and [includes] *)

Lemma string_prefix_cons (c d : ascii) (p s : string) :
  String.prefix (String c p) (String d s) = bool_decide (c = d) && String.prefix p s.
Proof. simpl. destruct (ascii_dec c d); by case_bool_decide. Qed.

Lemma string_prefix_nil (s : string) : String.prefix "" s = true.
Proof. by destruct s. Qed.

Lemma string_prefix_spec (p s : string) : String.prefix p s = true ↔ ∃ b, s = p +:+ b.
Proof.
  revert s. induction p as [|c p IH]; intros s.
  { rewrite string_prefix_nil. split; [by exists s|done]. }
  destruct s as [|d s]; [split; [done|by intros [? ?]]|].
  rewrite string_prefix_cons, andb_true_iff, bool_decide_eq_true, IH. split.
  - intros [-> [b ->]]. by exists b.
  - intros [b [= -> ->]]. eauto.
Qed.

Lemma string_prefix_app (p b : string) : String.prefix p (p +:+ b) = true.
Proof. apply string_prefix_spec. eauto. Qed.

Lemma string_prefix_length (p s : string) :
  String.prefix p s = true → (String.length p ≤ String.length s)%nat.
Proof. intros [b ->]%string_prefix_spec. rewrite string_length_app. lia. Qed.

Lemma includes_cons (n : string) (c : ascii) (s : string) :
  includes n (String c s) = String.prefix n (String c s) || includes n s.
Proof. done. Qed.

Lemma includes_spec (n s : string) : includes n s = true ↔ ∃ a b, s = a +:+ n +:+ b.
Proof.
  induction s as [|c s IH].
  - cbn [includes]. rewrite orb_false_r, string_prefix_spec. split.
    + intros [b ->]. by exists "", b.
    + intros ([|??] & b & E); [eauto|done].
  - rewrite includes_cons, orb_true_iff, string_prefix_spec, IH. split.
    + intros [[b ->]|(a & b & ->)]; [by exists "", b|by exists (String c a), b].
    + intros ([|d a] & b & E); [left; eauto|right].
      rewrite string_app_cons in E. injection E as -> ->. eauto.
Qed.

Lemma includes_infix (n a b : string) : includes n (a +:+ n +:+ b) = true.
Proof. apply includes_spec. eauto. Qed.

Lemma includes_refl (n : string) : includes n n = true.
Proof. apply includes_spec. exists "", "". by rewrite string_app_nil_r. Qed.

Lemma includes_app_r (n a s : string) : includes n s = true → includes n (a +:+ s) = true.
Proof.
  intros (a' & b & ->)%includes_spec. apply includes_spec.
  exists (a +:+ a'), b. by rewrite string_app_assoc.
Qed.

Lemma includes_app_l (n s b : string) : includes n s = true → includes n (s +:+ b) = true.
Proof.
  intros (a & b' & ->)%includes_spec. apply includes_spec.
  exists a, (b' +:+ b). by rewrite !string_app_assoc.
Qed.

Lemma includes_length (n s : string) :
  includes n s = true → (String.length n ≤ String.length s)%nat.
Proof. intros (a & b & ->)%includes_spec. rewrite !string_length_app. lia. Qed.

(** A needle as long as the string occurs in it only if it is the string. *)
Lemma includes_same_length (n s : string) :
  String.length n = String.length s → includes n s = true → s = n.
Proof.
  intros Hlen (a & b & ->)%includes_spec. rewrite !string_length_app in Hlen.
  assert (a = "") as -> by (apply string_length_zero; lia).
  assert (b = "") as -> by (apply string_length_zero; lia).
  by rewrite string_app_nil_r.
Qed.

(** A needle whose first character does not occur in the front part can only
    occur in the rest. *)
Lemma includes_skip (c : ascii) (n a s : string) :
  string_forallb (λ d, negb (Ascii.eqb c d)) a = true →
  includes (String c n) (a +:+ s) = includes (String c n) s.
Proof.
  induction a as [|d a IH]; [done|]. simpl string_forallb.
  intros [Hd Ha]%andb_true_iff. rewrite string_app_cons, includes_cons, string_prefix_cons, IH by done.
  apply negb_true_iff, ascii_eqb_false in Hd. by rewrite bool_decide_eq_false_2.
Qed.

Lemma includes_absent (c : ascii) (n s : string) :
  string_forallb (λ d, negb (Ascii.eqb c d)) s = true →
  includes (String c n) s = false.
Proof.
  intros Hs. rewrite <-(string_app_nil_r s), includes_skip by done. done.
Qed.

(** ** Lemmas on [split] and [join] *)

Lemma split_nonempty (sep : ascii) (s : string) : split sep s ≠ [].
Proof. induction s as [|c s IH]; simpl; [done|]. by destruct (Ascii.eqb c sep), (split sep s). Qed.

Lemma split_cons (sep c : ascii) (s : string) :
  split sep (String c s) =
    if Ascii.eqb c sep then "" :: split sep s
    else String c (hd "" (split sep s)) :: tl (split sep s).
Proof. simpl. pose proof (split_nonempty sep s). by destruct (Ascii.eqb c sep), (split sep s). Qed.

Lemma join_cons (sep w : string) (l : list string) :
  l ≠ [] → join sep (w :: l) = w +:+ sep +:+ join sep l.
Proof. by destruct l. Qed.

Lemma join_cons_char (sep : string) (c : ascii) (w : string) (l : list string) :
  join sep (String c w :: l) = String c (join sep (w :: l)).
Proof. by destruct l. Qed.

Lemma hd_tl_nonempty {A} (d : A) (l : list A) : l ≠ [] → hd d l :: tl l = l.
Proof. by destruct l. Qed.

(** Joining the pieces with the separator gives the string back. *)
Lemma join_split (sep : ascii) (s : string) : join (String sep "") (split sep s) = s.
Proof.
  induction s as [|c s IH]; [done|]. rewrite split_cons.
  destruct (Ascii.eqb c sep) eqn:E.
  - apply ascii_eqb_eq in E as ->. rewrite join_cons by apply split_nonempty. by rewrite IH.
  - by rewrite join_cons_char, hd_tl_nonempty, IH by apply split_nonempty.
Qed.

(** No piece holds the separator. *)
Lemma split_no_sep (sep : ascii) (s : string) :
  Forall (λ w, string_forallb (λ d, negb (Ascii.eqb d sep)) w = true) (split sep s).
Proof.
  induction s as [|c s IH]; [by repeat constructor|]. rewrite split_cons.
  pose proof (split_nonempty sep s). destruct (split sep s) as [|w ws]; [done|].
  apply Forall_cons in IH as [Hw Hws].
  destruct (Ascii.eqb c sep) eqn:E; simpl; repeat constructor; simpl; rewrite ?E; done.
Qed.

Lemma split_without_sep (sep : ascii) (s : string) :
  string_forallb (λ d, negb (Ascii.eqb d sep)) s = true → split sep s = [s].
Proof.
  induction s as [|c s IH]; [done|]. simpl string_forallb.
  intros [Hc Hs]%andb_true_iff. apply negb_true_iff in Hc.
  by rewrite split_cons, Hc, IH.
Qed.

Lemma split_app_sep (sep : ascii) (w s : string) :
  string_forallb (λ d, negb (Ascii.eqb d sep)) w = true →
  split sep (w +:+ String sep s) = w :: split sep s.
Proof.
  induction w as [|c w IH].
  - intros _. change ("" +:+ String sep s) with (String sep s).
    by rewrite split_cons, ascii_eqb_refl.
  - simpl string_forallb. intros [Hc Hw]%andb_true_iff. apply negb_true_iff in Hc.
    by rewrite string_app_cons, split_cons, Hc, IH.
Qed.

(** Splitting a joined list of pieces without separators gives the list. *)
Lemma split_join (sep : ascii) (l : list string) :
  l ≠ [] →
  Forall (λ w, string_forallb (λ d, negb (Ascii.eqb d sep)) w = true) l →
  split sep (join (String sep "") l) = l.
Proof.
  induction l as [|w l IH]; [done|]. intros _ [Hw Hl]%Forall_cons.
  destruct l as [|w' l]; [by apply split_without_sep|].
  rewrite join_cons by done. change (String sep "" +:+ ?s) with (String sep s).
  rewrite split_app_sep by done. by rewrite IH.
Qed.

Lemma length_split (sep : ascii) (s : string) :
  length (split sep s) =
    S (length (filter (λ c, c = sep) (chars s))).
Proof.
  induction s as [|c s IH]; [done|]. rewrite split_cons. simpl chars.
  pose proof (split_nonempty sep s). rewrite filter_cons.
  destruct (Ascii.eqb c sep) eqn:E.
  - apply ascii_eqb_eq in E. rewrite decide_True by done. simpl. by rewrite IH.
  - apply ascii_eqb_false in E. rewrite decide_False by done.
    destruct (split sep s); [done|]. simpl in *. done.
Qed.

(** ** Lemmas on decimal printing *)

Lemma decimal_ind (P : N → Prop) :
  (∀ x, (x < 10)%N → P x) →
  (∀ x, (10 ≤ x)%N → P (x / 10)%N → P x) →
  ∀ x, P x.
Proof.
  intros Hsmall Hstep x. induction (N.lt_wf_0 x) as [x _ IH].
  destruct (decide (x < 10)%N); [by apply Hsmall|].
  apply Hstep; [lia|]. apply IH, N.div_lt; lia.
Qed.

Lemma pretty_N_go_app (x : N) (s : string) : pretty_N_go x s = pretty_N_go x "" +:+ s.
Proof.
  revert s. induction (N.lt_wf_0 x) as [x _ IH]; intros s.
  destruct (decide (x = 0)%N) as [->|]; [done|].
  assert (x / 10 < x)%N as Hlt by (apply N.div_lt; lia).
  rewrite (pretty_N_go_step x s), (pretty_N_go_step x "") by lia.
  rewrite (IH _ Hlt (String _ s)), (IH _ Hlt (String _ "")).
  by rewrite string_app_assoc.
Qed.

Lemma pretty_N_small (x : N) : (x < 10)%N → pretty x = String (pretty_N_char x) "".
Proof.
  intros Hx. unfold pretty, pretty_N. case_decide as E; [by subst|].
  rewrite pretty_N_go_step by lia.
  rewrite N.div_small, N.mod_small by done. done.
Qed.

Lemma pretty_N_step (x : N) :
  (10 ≤ x)%N → pretty x = pretty (x / 10)%N +:+ String (pretty_N_char (x mod 10)) "".
Proof.
  intros Hx. unfold pretty, pretty_N. rewrite !decide_False.
  - by rewrite pretty_N_go_step, pretty_N_go_app by lia.
  - intros E. apply N.div_small_iff in E; lia.
  - lia.
Qed.

Lemma pretty_N_char_digit (d : N) : is_digit (pretty_N_char d) = true.
Proof. unfold pretty_N_char. by repeat case_match. Qed.

Lemma digit_value_pretty_N_char (d : N) : (d < 10)%N → digit_value (pretty_N_char d) = d.
Proof.
  intros Hd. destruct d as [|p]; [done|].
  do 4 (try destruct p as [p|p|]); try (exfalso; lia); done.
Qed.

Lemma pretty_N_digits (x : N) : string_forallb is_digit (pretty x) = true.
Proof.
  induction x as [x Hx|x Hx IH] using decimal_ind.
  - rewrite pretty_N_small by done. simpl. by rewrite pretty_N_char_digit.
  - rewrite pretty_N_step, string_forallb_app, IH by done. simpl.
    by rewrite pretty_N_char_digit.
Qed.

Lemma pretty_N_length_pos (x : N) : (0 < String.length (pretty x))%nat.
Proof.
  destruct (decide (x < 10)%N).
  - rewrite pretty_N_small by done. simpl. lia.
  - rewrite pretty_N_step, string_length_app by lia. simpl. lia.
Qed.

(** The number of digits: below [10^k] there are at most [k], from [10^k] on
    more than [k]. *)
Lemma pretty_N_length_le (k : nat) (x : N) :
  (x < 10 ^ N.of_nat (S k))%N → (String.length (pretty x) ≤ S k)%nat.
Proof.
  revert x. induction k as [|k IH]; intros x Hx.
  - rewrite pretty_N_small by (simpl in Hx; lia). simpl. lia.
  - destruct (decide (x < 10)%N).
    { rewrite pretty_N_small by done. simpl. lia. }
    rewrite pretty_N_step, string_length_app by lia. simpl.
    enough (String.length (pretty (x / 10)%N) ≤ S k)%nat by lia.
    apply IH. apply N.Div0.div_lt_upper_bound.
    rewrite <-N.pow_succ_r', <-Nat2N.inj_succ. done.
Qed.

Lemma pretty_N_length_gt (k : nat) (x : N) :
  (10 ^ N.of_nat k ≤ x)%N → (k < String.length (pretty x))%nat.
Proof.
  revert x. induction k as [|k IH]; intros x Hx; [apply pretty_N_length_pos|].
  rewrite Nat2N.inj_succ, N.pow_succ_r' in Hx.
  assert (10 ≤ x)%N.
  { pose proof (N.pow_nonzero 10 (N.of_nat k)). lia. }
  rewrite pretty_N_step, string_length_app by done. simpl.
  enough (k < String.length (pretty (x / 10)%N))%nat by lia.
  apply IH, N.div_le_lower_bound; lia.
Qed.

Lemma read_decimal_from_app (acc : N) (s t : string) :
  read_decimal_from acc (s +:+ t) = read_decimal_from (read_decimal_from acc s) t.
Proof.
  revert acc. induction s as [|c s IH]; intros acc; [done|].
  rewrite string_app_cons. simpl. apply IH.
Qed.

(** Reading the digits of a natural number gives the number. *)
Lemma read_decimal_pretty_N (x : N) : read_decimal (pretty x) = x.
Proof.
  unfold read_decimal. induction x as [x Hx|x Hx IH] using decimal_ind.
  - rewrite pretty_N_small by done. simpl. rewrite digit_value_pretty_N_char by done. lia.
  - rewrite pretty_N_step, read_decimal_from_app, IH by done. simpl.
    rewrite digit_value_pretty_N_char by (apply N.mod_lt; lia).
    rewrite (N.div_mod x 10) at 3 by lia. lia.
Qed.

Lemma toString_nonneg (z : Z) : (0 ≤ z)%Z → toString z = pretty (Z.to_N z).
Proof. intros Hz. destruct z as [|p|p]; [done|done|lia]. Qed.

Lemma toString_neg (z : Z) : (z < 0)%Z → toString z = "-" +:+ pretty (Z.to_N (- z)).
Proof. intros Hz. destruct z as [|p|p]; [lia|lia|done]. Qed.

Lemma toString_of_N (x : N) : toString (Z.of_N x) = pretty x.
Proof. rewrite toString_nonneg, N2Z.id by lia. done. Qed.

Lemma toString_digits (z : Z) :
  (0 ≤ z)%Z → string_forallb is_digit (toString z) = true.
Proof. intros Hz. rewrite toString_nonneg by done. apply pretty_N_digits. Qed.

Lemma toString_inj (y z : Z) : toString y = toString z → y = z.
Proof. apply (inj pretty). Qed.

Lemma read_decimal_toString (z : Z) : (0 ≤ z)%Z → Z.of_N (read_decimal (toString z)) = z.
Proof. intros Hz. rewrite toString_nonneg, read_decimal_pretty_N by done. lia. Qed.

Lemma toString_length_pos (z : Z) : (0 < String.length (toString z))%nat.
Proof.
  destruct (decide (0 ≤ z)%Z).
  - rewrite toString_nonneg by done. apply pretty_N_length_pos.
  - rewrite toString_neg, string_length_app by lia. simpl. lia.
Qed.

Lemma toString_length_le (k : nat) (z : Z) :
  (0 ≤ z < 10 ^ Z.of_nat (S k))%Z → (String.length (toString z) ≤ S k)%nat.
Proof.
  intros [Hz Hlt]. rewrite toString_nonneg by done. apply pretty_N_length_le.
  apply N2Z.inj_lt. rewrite Z2N.id, N2Z.inj_pow, nat_N_Z by done. done.
Qed.

Lemma toString_length_gt (k : nat) (z : Z) :
  (10 ^ Z.of_nat k ≤ z)%Z → (k < String.length (toString z))%nat.
Proof.
  intros Hz. assert (0 ≤ z)%Z by (pose proof (Z.pow_pos_nonneg 10 (Z.of_nat k)); lia).
  rewrite toString_nonneg by done. apply pretty_N_length_gt.
  apply N2Z.inj_le. rewrite Z2N.id, N2Z.inj_pow, nat_N_Z by done. done.
Qed.

(** ** Lemmas on [padStart] *)

Lemma string_repeat_length (n : nat) (c : ascii) : String.length (string_repeat n c) = n.
Proof. induction n; simpl; congruence. Qed.

Lemma string_forallb_repeat (p : ascii → bool) (n : nat) (c : ascii) :
  p c = true → string_forallb p (string_repeat n c) = true.
Proof. intros Hc. induction n as [|n IH]; simpl; [done|]. by rewrite Hc, IH. Qed.

Lemma padStart_length (n : nat) (c : ascii) (s : string) :
  String.length (padStart n c s) = (n `max` String.length s)%nat.
Proof. unfold padStart. rewrite string_length_app, string_repeat_length. lia. Qed.

Lemma padStart_long (n : nat) (c : ascii) (s : string) :
  (n ≤ String.length s)%nat → padStart n c s = s.
Proof. intros Hn. unfold padStart. by replace (n - String.length s)%nat with 0%nat by lia. Qed.

Lemma string_forallb_padStart (p : ascii → bool) (n : nat) (c : ascii) (s : string) :
  p c = true → string_forallb p s = true → string_forallb p (padStart n c s) = true.
Proof.
  intros Hc Hs. unfold padStart. by rewrite string_forallb_app, string_forallb_repeat, Hs.
Qed.

Lemma read_decimal_from_zeros (n : nat) (s : string) :
  read_decimal_from 0 (string_repeat n "0" +:+ s) = read_decimal_from 0 s.
Proof. induction n as [|n IH]; [done|]. simpl string_repeat. by rewrite string_app_cons. Qed.

(** Padding with zeros does not change the number read. *)
Lemma read_decimal_padStart (n : nat) (s : string) :
  read_decimal (padStart n "0" s) = read_decimal s.
Proof. apply read_decimal_from_zeros. Qed.

#[export] Hint Rewrite string_repeat_length padStart_length : js_rw.

(** ** Lemmas on [round53] *)

Lemma log2_drop_pos (p : Z) : (0 < Z.log2 p - 52 → 0 < p)%Z.
Proof.
  intros Hs. destruct (Z.lt_trichotomy 0 p) as [?|[<-|?]]; [done|simpl in Hs; lia|].
  rewrite Z.log2_nonpos in Hs; lia.
Qed.

(** An integer of at most 53 bits is a double. *)
Lemma round53_exact (p : Z) : (p < 2 ^ 53)%Z → round53 p = p.
Proof.
  intros Hp. unfold round53. destruct (Z.leb_spec (Z.log2 p - 52) 0) as [|Hs]; [done|].
  pose proof (log2_drop_pos p Hs). apply Z.log2_lt_pow2 in Hp; lia.
Qed.

(** Rounding moves an integer below [2^63] by at most 512, half of the
    distance between the doubles from [2^62] on. *)
Lemma round53_near (p : Z) : (0 ≤ p < 2 ^ 63 → p - 512 ≤ round53 p ≤ p + 512)%Z.
Proof.
  intros [Hp0 Hp]. unfold round53. destruct (Z.leb_spec (Z.log2 p - 52) 0) as [|Hs]; [lia|].
  pose proof (log2_drop_pos p Hs). apply Z.log2_lt_pow2 in Hp; [|done].
  set (s := (Z.log2 p - 52)%Z) in *.
  assert (2 ^ s = 2 * 2 ^ (s - 1))%Z as Hpow
    by (rewrite <-Z.pow_succ_r by lia; f_equal; lia).
  assert (0 < 2 ^ (s - 1) ≤ 2 ^ 9)%Z as Hh
    by (split; [apply Z.pow_pos_nonneg; lia|apply Z.pow_le_mono_r; lia]).
  pose proof (Z.div_mod p (2 ^ s)) as Hdm. pose proof (Z.mod_pos_bound p (2 ^ s)) as Hm.
  change (2 ^ 9)%Z with 512%Z in Hh.
  destruct (_ || _) eqn:E.
  - apply orb_true_iff in E as [E|[E _]%andb_true_iff];
      [apply Z.ltb_lt in E|apply Z.eqb_eq in E]; lia.
  - apply orb_false_iff in E as [E%Z.ltb_ge _]. lia.
Qed.

(** Rounding does not cross a multiple of [2^53] downwards: such a multiple
    is a double. *)
Lemma round53_floor (p n : Z) :
  (0 ≤ p < 2 ^ 63 → n * 2 ^ 53 ≤ p → n * 2 ^ 53 ≤ round53 p)%Z.
Proof.
  intros [Hp0 Hp] Hn. unfold round53.
  destruct (Z.leb_spec (Z.log2 p - 52) 0) as [|Hs]; [lia|].
  pose proof (log2_drop_pos p Hs). apply Z.log2_lt_pow2 in Hp; [|done].
  set (s := (Z.log2 p - 52)%Z) in *.
  assert (0 < 2 ^ s)%Z by (apply Z.pow_pos_nonneg; lia).
  assert (2 ^ 53 = 2 ^ (53 - s) * 2 ^ s)%Z as Hpow
    by (rewrite <-Z.pow_add_r by lia; f_equal; lia).
  assert (n * 2 ^ (53 - s) ≤ p / 2 ^ s)%Z by (apply Z.div_le_lower_bound; [lia|nia]).
  destruct (_ || _); nia.
Qed.
