(* ===== verification/Formatter.v ===== *)
(** * Formatter: the display values of a record

    The pure part of the presentation: [capitalize] and [formatAbilityName]
    (src/app.js, lines 274-281), the badges and tags of [populateTypes] and
    [populateAbilities] (lines 252-272), and the texts that
    [populatePokemonData] writes (lines 176-185).  The lemmas give their value
    on every branch, their lengths, idempotence, a one-pass reference for
    [formatAbilityName], and the round trips of the printed numbers. *)

From S2P Require Import Prelude JsRuntime.

(** ** Definitions *)

(** [str.charAt(0).toUpperCase() + str.slice(1)] *)
Definition capitalize (str : string) : string :=
  toUpperCase (charAt 0 str) +:+ slice 1 str.

(** [name.split('-').map(word => this.capitalize(word)).join(' ')] *)
Definition formatAbilityName (name : string) : string :=
  join " " (capitalize <$> split "-" name).

(** The [span] elements the program creates: their class and their text. *)
Record span : Type := Span {
  className : string;
  textContent : string
}.

#[global] Instance span_eq_dec : EqDecision span.
Proof. solve_decision. Defined.

(** The badge of one entry of [pokemon.types]; the argument is
    [typeInfo.type.name]. *)
Definition typeBadge (name : string) : span :=
  {| className := "type-badge type-badge--" +:+ name;
     textContent := capitalize name |}.

(** The tag of one entry of [pokemon.abilities]; the argument is
    [abilityInfo.ability.name]. *)
Definition abilityTag (name : string) : span :=
  {| className := "ability-tag";
     textContent := formatAbilityName name |}.

(** [appendChild] on the list of children of a container. *)
Definition appendChild (children : list span) (child : span) : list span :=
  children ++ [child].

(** [populateTypes]: the container is emptied ([innerHTML = '']), then one
    badge is appended per entry, in the order of [forEach].  The argument
    [old] is the children before the call. *)
Definition populateTypes (types : list string) (old : list span) : list span :=
  fold_left (λ children name, appendChild children (typeBadge name)) types [].

(** [populateAbilities], likewise. *)
Definition populateAbilities (abilities : list string) (old : list span) : list span :=
  fold_left (λ children name, appendChild children (abilityTag name)) abilities [].

(** The text of [pokemonId]: [`#${pokemon.id.toString().padStart(3, '0')}`]. *)
Definition pokemonId_text (id : Z) : string :=
  "#" +:+ padStart 3 "0" (toString id).

(** The text of [pokemonHeight]: [`${(pokemon.height / 10).toFixed(1)} m`]. *)
Definition pokemonHeight_text (height : Z) : string :=
  toFixed1_tenth height +:+ " m".

(** The text of [pokemonWeight]: [`${(pokemon.weight / 10).toFixed(1)} kg`]. *)
Definition pokemonWeight_text (weight : Z) : string :=
  toFixed1_tenth weight +:+ " kg".

(** The text of [pokemonExp]: [pokemon.base_experience || 'N/A'], where
    [None] is [null] or [undefined]; assigning a number to [textContent]
    prints it. *)
Definition pokemonExp_text (base_experience : option Z) : string :=
  match base_experience with
  | Some z => if truthy_number z then toString z else "N/A"
  | None => "N/A"
  end.

(** A one-pass reference for [formatAbilityName]: every hyphen becomes a
    space, and the character at the start of the string or after a hyphen is
    upper-cased. *)
Fixpoint format_words (at_start : bool) (s : string) : string :=
  match s with
  | "" => ""
  | String c s' =>
      if Ascii.eqb c "-" then String " " (format_words true s')
      else String (if at_start then to_upper_char c else c) (format_words false s')
  end.

(** Reads back a text of the form [<digits>.<digits>] as the number of
    tenths; used to state the round trip of heights and weights. *)
Definition read_tenths (s : string) : N :=
  match split "." s with
  | [a; b] => (10 * read_decimal a + read_decimal b)%N
  | _ => 0%N
  end.

(** ** [capitalize] *)

Lemma capitalize_nil : capitalize "" = "".
Proof. done. Qed.

Lemma capitalize_cons (c : ascii) (s : string) :
  capitalize (String c s) = String (to_upper_char c) s.
Proof. done. Qed.

Lemma capitalize_length (s : string) : String.length (capitalize s) = String.length s.
Proof. by destruct s. Qed.

Lemma capitalize_idemp (s : string) : capitalize (capitalize s) = capitalize s.
Proof. destruct s as [|c s]; [done|]. by rewrite !capitalize_cons, to_upper_char_idemp. Qed.

Lemma capitalize_slice (s : string) : slice 1 (capitalize s) = slice 1 s.
Proof. by destruct s. Qed.

Lemma capitalize_is_empty (s : string) : is_empty (capitalize s) = is_empty s.
Proof. by destruct s. Qed.

(** A string is a fixed point of [capitalize] exactly when it does not start
    with a lower-case letter. *)
Lemma capitalize_fixed (s : string) :
  capitalize s = s ↔ ∀ c, head (chars s) = Some c → is_lower c = false.
Proof.
  destruct s as [|c s]; [done|]. rewrite capitalize_cons. simpl. split.
  - intros [= E] d [= <-]. rewrite <-E. apply to_upper_char_not_lower.
  - intros H. unfold to_upper_char. by rewrite (H c).
Qed.

#[export] Hint Rewrite capitalize_length capitalize_idemp : js_rw.

(** ** [formatAbilityName] and its reference *)

(** The words of a list when the first is already under way: all but the
    first are capitalized. *)
Definition capitalize_tail (l : list string) : list string :=
  match l with
  | [] => []
  | w :: ws => w :: (capitalize <$> ws)
  end.

Lemma fmap_capitalize_nonempty (l : list string) : l ≠ [] → capitalize <$> l ≠ [].
Proof. by destruct l. Qed.

Lemma capitalize_tail_nonempty (l : list string) : l ≠ [] → capitalize_tail l ≠ [].
Proof. by destruct l. Qed.

(** Both readings of the word list follow the reference, by one induction on
    the string. *)
Lemma join_split_format_words (s : string) :
  join " " (capitalize <$> split "-" s) = format_words true s ∧
  join " " (capitalize_tail (split "-" s)) = format_words false s.
Proof.
  induction s as [|c s [IHt IHf]]; [done|].
  pose proof (split_nonempty "-" s) as Hne. rewrite split_cons. cbn [format_words].
  destruct (Ascii.eqb c "-").
  - cbn [fmap list_fmap capitalize_tail].
    rewrite capitalize_nil, !join_cons, IHt by by apply fmap_capitalize_nonempty. done.
  - destruct (split "-" s) as [|w ws]; [done|].
    cbn [hd tl fmap list_fmap capitalize_tail] in *.
    by rewrite capitalize_cons, !join_cons_char, IHf.
Qed.

Lemma format_words_length (b : bool) (s : string) :
  String.length (format_words b s) = String.length s.
Proof.
  revert b. induction s as [|c s IH]; intros b; [done|]. simpl.
  destruct (Ascii.eqb c "-"); simpl; by rewrite IH.
Qed.

Lemma format_words_no_hyphen (b : bool) (s : string) :
  string_forallb (λ c, negb (Ascii.eqb c "-")) (format_words b s) = true.
Proof.
  revert b. induction s as [|c s IH]; intros b; [done|]. simpl.
  destruct (Ascii.eqb c "-") eqn:E; simpl; rewrite IH; [done|].
  rewrite andb_true_r. destruct b; [|by rewrite E].
  apply negb_true_iff, ascii_eqb_false. intros Hc.
  apply (to_upper_char_eq_iff "-" c) in Hc as ->; done.
Qed.

(** On a string without hyphens the reference only touches the first
    character. *)
Lemma format_words_without_hyphen (b : bool) (s : string) :
  string_forallb (λ c, negb (Ascii.eqb c "-")) s = true →
  format_words b s = if b then capitalize s else s.
Proof.
  revert b. induction s as [|c s IH]; intros b; [by destruct b|]. simpl.
  intros [Hc Hs]%andb_true_iff. apply negb_true_iff in Hc. rewrite Hc.
  rewrite (IH false) by done. by destruct b.
Qed.

(** ** The lists of badges and tags *)

Lemma fold_left_appendChild {A} (f : A → span) (l : list A) (acc : list span) :
  fold_left (λ children x, appendChild children (f x)) l acc = acc ++ (f <$> l).
Proof.
  revert acc. induction l as [|x l IH]; intros acc; simpl.
  - by rewrite app_nil_r.
  - rewrite IH. unfold appendChild. by rewrite <-app_assoc.
Qed.

Lemma populateTypes_fmap (types : list string) (old : list span) :
  populateTypes types old = typeBadge <$> types.
Proof. unfold populateTypes. by rewrite fold_left_appendChild. Qed.

Lemma populateAbilities_fmap (abilities : list string) (old : list span) :
  populateAbilities abilities old = abilityTag <$> abilities.
Proof. unfold populateAbilities. by rewrite fold_left_appendChild. Qed.

(** ** The printed numbers *)

Lemma toFixed1_tenth_nonneg (h : Z) :
  (0 ≤ h)%Z →
  toFixed1_tenth h = toString (h / 10) +:+ "." +:+ toString (h mod 10).
Proof.
  intros Hh. unfold toFixed1_tenth, toString.
  rewrite Z.abs_eq by done. by destruct (Z.ltb_spec h 0); [lia|].
Qed.

Lemma split_dot_digits (a b : string) :
  string_forallb is_digit a = true → string_forallb is_digit b = true →
  split "." (a +:+ "." +:+ b) = [a; b].
Proof.
  intros Ha Hb.
  assert (∀ s, string_forallb is_digit s = true →
    string_forallb (λ d, negb (Ascii.eqb d ".")) s = true) as Hdot.
  { intros s. apply string_forallb_impl. intros c. all_chars c. }
  change ("." +:+ b) with (String "." b).
  rewrite split_app_sep, split_without_sep by auto. done.
Qed.

Lemma read_tenths_toFixed1 (h : Z) :
  (0 ≤ h)%Z → Z.of_N (read_tenths (toFixed1_tenth h)) = h.
Proof.
  intros Hh. rewrite toFixed1_tenth_nonneg by done. unfold read_tenths.
  pose proof (Z.mod_pos_bound h 10). pose proof (Z.div_pos h 10).
  rewrite split_dot_digits by (apply toString_digits; lia).
  rewrite N2Z.inj_add, N2Z.inj_mul, !read_decimal_toString by lia.
  pose proof (Z.div_mod h 10). lia.
Qed.

Lemma capitalize_format_words (s : string) :
  capitalize (format_words true s) = format_words true s.
Proof.
  destruct s as [|c s]; [done|]. simpl. destruct (Ascii.eqb c "-"); [done|].
  by rewrite capitalize_cons, to_upper_char_idemp.
Qed.

Lemma toString_not_NA (z : Z) : toString z ≠ "N/A".
Proof.
  destruct (decide (0 ≤ z)%Z) as [Hz|Hz].
  - intros E. pose proof (toString_digits z Hz) as Hd. by rewrite E in Hd.
  - rewrite toString_neg by lia. done.
Qed.

(** ** Properties *)

(** [capitalize] upper-cases the first character and nothing else: the
    result has the length of the argument, the same characters from position
    1 on, the upper-cased first character, and capitalizing twice is
    capitalizing once. *)
Theorem capitalize_correct (str : string) :
  String.length (capitalize str) = String.length str ∧
  slice 1 (capitalize str) = slice 1 str ∧
  charAt 0 (capitalize str) = toUpperCase (charAt 0 str) ∧
  capitalize (capitalize str) = capitalize str.
Proof.
  split_and!; [apply capitalize_length|apply capitalize_slice| |apply capitalize_idemp].
  by destruct str.
Qed.

(** C27: [formatAbilityName], written with [split], [map] and [join], computes
    what one pass over the name computes: hyphens become spaces and each word
    starts with its upper-cased character. *)
Theorem formatAbilityName_reference (name : string) :
  formatAbilityName name = format_words true name.
Proof. apply join_split_format_words. Qed.

(** The formatted ability name is as long as the name and holds no
    hyphen. *)
Theorem formatAbilityName_shape (name : string) :
  String.length (formatAbilityName name) = String.length name ∧
  includes "-" (formatAbilityName name) = false.
Proof.
  unfold formatAbilityName. rewrite (proj1 (join_split_format_words name)). split.
  - apply format_words_length.
  - apply includes_absent. eapply string_forallb_impl, (format_words_no_hyphen true).
    intros c Hc. by rewrite Ascii.eqb_sym.
Qed.

(** Formatting an ability name that is already formatted changes
    nothing. *)
Theorem formatAbilityName_idemp (name : string) :
  formatAbilityName (formatAbilityName name) = formatAbilityName name.
Proof.
  unfold formatAbilityName. rewrite !(proj1 (join_split_format_words _)).
  rewrite format_words_without_hyphen by apply format_words_no_hyphen.
  apply capitalize_format_words.
Qed.

(** The badges of [populateTypes] are one per type, in the order of the
    record, each with the capitalized name as its text and the name in its
    class; what the container held before is gone. *)
Theorem populateTypes_order (types : list string) (old : list span) :
  length (populateTypes types old) = length types ∧
  textContent <$> populateTypes types old = capitalize <$> types ∧
  className <$> populateTypes types old = (λ n, "type-badge type-badge--" +:+ n) <$> types.
Proof.
  rewrite populateTypes_fmap, length_fmap, <-!list_fmap_compose. done.
Qed.

(** The tags of [populateAbilities] are one per ability, in the order of
    the record, each with the formatted name as its text. *)
Theorem populateAbilities_order (abilities : list string) (old : list span) :
  length (populateAbilities abilities old) = length abilities ∧
  textContent <$> populateAbilities abilities old = formatAbilityName <$> abilities.
Proof.
  rewrite populateAbilities_fmap, length_fmap, <-!list_fmap_compose. done.
Qed.

(** C28: for an id that is not negative, the id text is ["#"] followed by
    decimal digits only, at least three of them, and the digits read back as
    the id. *)
Theorem pokemonId_text_roundtrip (id : Z) :
  (0 ≤ id)%Z →
  charAt 0 (pokemonId_text id) = "#" ∧
  string_forallb is_digit (slice 1 (pokemonId_text id)) = true ∧
  (3 ≤ String.length (slice 1 (pokemonId_text id)))%nat ∧
  Z.of_N (read_decimal (slice 1 (pokemonId_text id))) = id.
Proof.
  intros Hid. unfold pokemonId_text. change (slice 1 ("#" +:+ ?s)) with s.
  split_and!; [done| | |].
  - apply string_forallb_padStart; [done|by apply toString_digits].
  - rewrite padStart_length. lia.
  - by rewrite read_decimal_padStart, read_decimal_toString.
Qed.

Lemma pokemonId_text_roundtrip_witness :
  charAt 0 (pokemonId_text 25) = "#" ∧
  string_forallb is_digit (slice 1 (pokemonId_text 25)) = true ∧
  (3 ≤ String.length (slice 1 (pokemonId_text 25)))%nat ∧
  Z.of_N (read_decimal (slice 1 (pokemonId_text 25))) = 25%Z.
Proof. apply (pokemonId_text_roundtrip 25). lia. Defined.

(** The width of the id text: exactly ["#"] and three digits for ids
    from 0 to 999, and one character more than the digits of the id from
    1000 on, where nothing is padded. *)
Theorem pokemonId_text_width (id : Z) :
  (0 ≤ id)%Z →
  (id < 1000 → String.length (pokemonId_text id) = 4%nat)%Z ∧
  (1000 ≤ id → pokemonId_text id = "#" +:+ toString id)%Z.
Proof.
  intros Hid. unfold pokemonId_text. split; intros Hlt.
  - change (String.length ("#" +:+ ?s)) with (S (String.length s)).
    rewrite padStart_length. pose proof (toString_length_le 2 id). lia.
  - rewrite padStart_long; [done|]. pose proof (toString_length_gt 3 id). lia.
Qed.

Lemma pokemonId_text_width_witness :
  (7 < 1000 → String.length (pokemonId_text 7) = 4%nat)%Z ∧
  (1000 ≤ 7 → pokemonId_text 7 = "#" +:+ toString 7)%Z.
Proof. apply (pokemonId_text_width 7). lia. Defined.

(** A height that is not negative prints as its tenths with one decimal
    and the unit: the text is a number text followed by [" m"], and the
    number text reads back as the height in decimetres. *)
Theorem pokemonHeight_text_roundtrip (height : Z) :
  (0 ≤ height)%Z →
  pokemonHeight_text height = toFixed1_tenth height +:+ " m" ∧
  toFixed1_tenth height = toString (height / 10) +:+ "." +:+ toString (height mod 10) ∧
  Z.of_N (read_tenths (toFixed1_tenth height)) = height.
Proof.
  intros Hh. split_and!; [done|by apply toFixed1_tenth_nonneg|by apply read_tenths_toFixed1].
Qed.

Lemma pokemonHeight_text_roundtrip_witness :
  pokemonHeight_text 70 = toFixed1_tenth 70 +:+ " m" ∧
  toFixed1_tenth 70 = toString (70 / 10) +:+ "." +:+ toString (70 mod 10) ∧
  Z.of_N (read_tenths (toFixed1_tenth 70)) = 70%Z.
Proof. apply (pokemonHeight_text_roundtrip 70). lia. Defined.

(** The weight text is the same number text with the unit [" kg"]; two
    weights that are not negative print the same only if they are equal. *)
Theorem pokemonWeight_text_inj (w1 w2 : Z) :
  (0 ≤ w1)%Z → (0 ≤ w2)%Z →
  pokemonWeight_text w1 = pokemonWeight_text w2 → w1 = w2.
Proof.
  intros H1 H2 E. unfold pokemonWeight_text in E.
  assert (toFixed1_tenth w1 = toFixed1_tenth w2) as E'.
  { apply chars_inj. apply (f_equal chars) in E. rewrite !chars_app in E.
    by apply app_inv_tail in E. }
  rewrite <-(read_tenths_toFixed1 w1), <-(read_tenths_toFixed1 w2) by done. by rewrite E'.
Qed.

Lemma pokemonWeight_text_inj_witness : 690%Z = 690%Z.
Proof.
  apply (pokemonWeight_text_inj 690 690); [lia|lia|reflexivity].
Defined.

(** C39: the experience shows the placeholder exactly when the field is
    absent or zero: a base experience of 0 is falsy and prints as ["N/A"].
    Every positive experience prints as its decimal digits, which read
    back as the number. *)
Theorem pokemonExp_text_placeholder (base_experience : option Z) :
  (pokemonExp_text base_experience = "N/A" ↔
     base_experience = None ∨ base_experience = Some 0%Z) ∧
  (∀ z, base_experience = Some z → (0 < z)%Z →
     string_forallb is_digit (pokemonExp_text base_experience) = true ∧
     Z.of_N (read_decimal (pokemonExp_text base_experience)) = z).
Proof.
  split.
  - destruct base_experience as [z|]; simpl; [|by split; [left|]].
    unfold truthy_number. destruct (Z.eqb_spec z 0) as [->|Hz]; simpl; [by split; [right|]|].
    split; [intros E; by apply toString_not_NA in E|by intros [|[= ->]]].
  - intros z -> Hz. simpl. unfold truthy_number.
    destruct (Z.eqb_spec z 0) as [->|_]; [lia|]. simpl.
    split; [apply toString_digits|apply read_decimal_toString]; lia.
Qed.

Lemma pokemonExp_text_placeholder_witness :
  string_forallb is_digit (pokemonExp_text (Some 112%Z)) = true ∧
  Z.of_N (read_decimal (pokemonExp_text (Some 112%Z))) = 112%Z.
Proof. apply (pokemonExp_text_placeholder (Some 112%Z)); [reflexivity|lia]. Defined.

(** The values the specification gives as examples. *)
Example formatter_examples :
  formatAbilityName "solar-power" = "Solar Power" ∧
  formatAbilityName "static" = "Static" ∧
  pokemonHeight_text 70 = "7.0 m" ∧
  pokemonWeight_text 690 = "69.0 kg" ∧
  pokemonId_text 25 = "#025".
Proof. by vm_compute. Qed.
