(* ===== verification/State.v ===== *)
(** * State: the page, the fetched record and the application state

    The elements [initializeElements] binds (src/app.js, lines 11-37), as the
    record [dom]: one field per property of an element that the program reads
    or writes.  The record [pokemon] is the parsed response, with the fields
    the program reads.  The record [app] adds what the event loop holds for
    the program: the fetches in flight with their continuations, the images
    being loaded with their handlers, the log of the URLs requested, and the
    calls of the console. *)

From S2P Require Import Prelude JsRuntime Formatter.

(** ** The fetched record *)

(** [{ front_default }], under [sprites.other['official-artwork']] and
    [sprites.other.dream_world]. *)
Record artwork : Type := Artwork {
  art_front_default : option string
}.

(** [sprites.other] *)
Record other_sprites : Type := OtherSprites {
  official_artwork : option artwork;
  dream_world : option artwork
}.

(** [pokemon.sprites]; [None] in a field is [null] or [undefined]. *)
Record sprites : Type := Sprites {
  other : option other_sprites;
  front_default : option string;
  front_shiny : option string
}.

(** The record; [types] holds [typeInfo.type.name] and [abilities] holds
    [abilityInfo.ability.name] of each entry, in order. *)
Record pokemon : Type := Pokemon {
  name : string;
  id : Z;
  height : Z;
  weight : Z;
  base_experience : option Z;
  types : list string;
  abilities : list string;
  pokemon_sprites : option sprites
}.

#[global] Instance artwork_eq_dec : EqDecision artwork.
Proof. solve_decision. Defined.
#[global] Instance other_sprites_eq_dec : EqDecision other_sprites.
Proof. solve_decision. Defined.
#[global] Instance sprites_eq_dec : EqDecision sprites.
Proof. solve_decision. Defined.
#[global] Instance pokemon_eq_dec : EqDecision pokemon.
Proof. solve_decision. Defined.

(** ** The page *)

(** Whether each of the four sections has the class [show]. *)
Record sections : Type := Sections {
  loading : bool;
  errorMessage : bool;
  pokemonCard : bool;
  helpSection : bool
}.

(** [searchBtn]: its [disabled] flag and its text. *)
Record button : Type := Button {
  disabled : bool;
  btn_text : string
}.

(** The elements of the card that [populatePokemonData] fills. *)
Record card : Type := Card {
  pokemonName : string;
  pokemonId : string;
  pokemonHeight : string;
  pokemonWeight : string;
  pokemonExp : string;
  pokemonTypes : list span;
  abilitiesList : list span
}.

(** [pokemonImage]: [style.display], [src] and [alt]. *)
Record image : Type := Image {
  display : string;
  src : string;
  alt : string
}.

Record dom : Type := Dom {
  dom_sections : sections;
  searchBtn : button;
  errorText : string;
  pokemonInput : string;
  dom_card : card;
  pokemonImage : image;
  input_focused : bool
}.

#[global] Instance sections_eq_dec : EqDecision sections.
Proof. solve_decision. Defined.
#[global] Instance button_eq_dec : EqDecision button.
Proof. solve_decision. Defined.
#[global] Instance card_eq_dec : EqDecision card.
Proof. solve_decision. Defined.
#[global] Instance image_eq_dec : EqDecision image.
Proof. solve_decision. Defined.
#[global] Instance dom_eq_dec : EqDecision dom.
Proof. solve_decision. Defined.

(** ** The application state *)

(** What runs when a fetch settles: the rest of [searchPokemon] with its
    [query], or the rest of [getRandomPokemon]. *)
Inductive continuation : Type :=
| KSearch (query : string)
| KRandom.

(** A fetch in flight: the URL requested and the continuation awaiting it. *)
Record fetch_task : Type := FetchTask {
  ft_url : string;
  ft_k : continuation
}.

(** An [Image] object created by [tryLoadImage] whose [src] was set: the
    arguments its two handlers close over. *)
Record image_task : Type := ImageTask {
  it_sources : list string;
  it_index : nat;
  it_pokemon : pokemon
}.

(** A call of [console.log] or [console.error]: the method and its
    arguments.  An argument is a string or an error object, of which the
    console shows the message. *)
Inductive console_method : Type := ConsoleLog | ConsoleError.

Inductive console_arg : Type :=
| ArgString (s : string)
| ArgError (message : string).

Record console_call : Type := ConsoleCall {
  c_method : console_method;
  c_args : list console_arg
}.

Record app : Type := App {
  app_dom : dom;
  app_fetches : list fetch_task;
  app_images : list image_task;
  app_requests : list string;
  app_console : list console_call
}.

#[global] Instance console_method_eq_dec : EqDecision console_method.
Proof. solve_decision. Defined.
#[global] Instance console_arg_eq_dec : EqDecision console_arg.
Proof. solve_decision. Defined.
#[global] Instance console_call_eq_dec : EqDecision console_call.
Proof. solve_decision. Defined.

#[global] Instance continuation_eq_dec : EqDecision continuation.
Proof. solve_decision. Defined.
#[global] Instance fetch_task_eq_dec : EqDecision fetch_task.
Proof. solve_decision. Defined.
#[global] Instance image_task_eq_dec : EqDecision image_task.
Proof. solve_decision. Defined.
#[global] Instance app_eq_dec : EqDecision app.
Proof. solve_decision. Defined.

(** ** Field updates *)

Definition set_sections (f : sections → sections) (d : dom) : dom :=
  {| dom_sections := f (dom_sections d); searchBtn := searchBtn d;
     errorText := errorText d; pokemonInput := pokemonInput d;
     dom_card := dom_card d; pokemonImage := pokemonImage d;
     input_focused := input_focused d |}.

Definition set_searchBtn (b : button) (d : dom) : dom :=
  {| dom_sections := dom_sections d; searchBtn := b;
     errorText := errorText d; pokemonInput := pokemonInput d;
     dom_card := dom_card d; pokemonImage := pokemonImage d;
     input_focused := input_focused d |}.

Definition set_errorText (s : string) (d : dom) : dom :=
  {| dom_sections := dom_sections d; searchBtn := searchBtn d;
     errorText := s; pokemonInput := pokemonInput d;
     dom_card := dom_card d; pokemonImage := pokemonImage d;
     input_focused := input_focused d |}.

Definition set_pokemonInput (s : string) (d : dom) : dom :=
  {| dom_sections := dom_sections d; searchBtn := searchBtn d;
     errorText := errorText d; pokemonInput := s;
     dom_card := dom_card d; pokemonImage := pokemonImage d;
     input_focused := input_focused d |}.

Definition set_card (f : card → card) (d : dom) : dom :=
  {| dom_sections := dom_sections d; searchBtn := searchBtn d;
     errorText := errorText d; pokemonInput := pokemonInput d;
     dom_card := f (dom_card d); pokemonImage := pokemonImage d;
     input_focused := input_focused d |}.

Definition set_pokemonImage (f : image → image) (d : dom) : dom :=
  {| dom_sections := dom_sections d; searchBtn := searchBtn d;
     errorText := errorText d; pokemonInput := pokemonInput d;
     dom_card := dom_card d; pokemonImage := f (pokemonImage d);
     input_focused := input_focused d |}.

Definition set_input_focused (b : bool) (d : dom) : dom :=
  {| dom_sections := dom_sections d; searchBtn := searchBtn d;
     errorText := errorText d; pokemonInput := pokemonInput d;
     dom_card := dom_card d; pokemonImage := pokemonImage d;
     input_focused := b |}.

Definition set_loading (b : bool) (s : sections) : sections :=
  {| loading := b; errorMessage := errorMessage s;
     pokemonCard := pokemonCard s; helpSection := helpSection s |}.

Definition set_errorMessage (b : bool) (s : sections) : sections :=
  {| loading := loading s; errorMessage := b;
     pokemonCard := pokemonCard s; helpSection := helpSection s |}.

Definition set_pokemonCard (b : bool) (s : sections) : sections :=
  {| loading := loading s; errorMessage := errorMessage s;
     pokemonCard := b; helpSection := helpSection s |}.

Definition set_helpSection (b : bool) (s : sections) : sections :=
  {| loading := loading s; errorMessage := errorMessage s;
     pokemonCard := pokemonCard s; helpSection := b |}.

Definition set_display (v : string) (i : image) : image :=
  {| display := v; src := src i; alt := alt i |}.

Definition set_src (v : string) (i : image) : image :=
  {| display := display i; src := v; alt := alt i |}.

Definition set_alt (v : string) (i : image) : image :=
  {| display := display i; src := src i; alt := v |}.

(** Updates of the page and of the task lists inside [app]. *)
Definition on_dom (f : dom → dom) (a : app) : app :=
  {| app_dom := f (app_dom a); app_fetches := app_fetches a;
     app_images := app_images a; app_requests := app_requests a;
     app_console := app_console a |}.

Definition set_fetches (l : list fetch_task) (a : app) : app :=
  {| app_dom := app_dom a; app_fetches := l;
     app_images := app_images a; app_requests := app_requests a;
     app_console := app_console a |}.

Definition set_images (l : list image_task) (a : app) : app :=
  {| app_dom := app_dom a; app_fetches := app_fetches a;
     app_images := l; app_requests := app_requests a;
     app_console := app_console a |}.

(** [console.log(...)] and [console.error(...)]: the call is appended to
    the console. *)
Definition console (m : console_method) (args : list console_arg) (a : app) : app :=
  {| app_dom := app_dom a; app_fetches := app_fetches a;
     app_images := app_images a; app_requests := app_requests a;
     app_console := app_console a ++ [ConsoleCall m args] |}.

Definition console_log : list console_arg → app → app := console ConsoleLog.
Definition console_error : list console_arg → app → app := console ConsoleError.

(** [fetch(url)]: the request goes out and the continuation waits. *)
Definition start_fetch (url : string) (k : continuation) (a : app) : app :=
  {| app_dom := app_dom a;
     app_fetches := app_fetches a ++ [FetchTask url k];
     app_images := app_images a;
     app_requests := app_requests a ++ [url];
     app_console := app_console a |}.

(** [img.src = url] on a new [Image] with its handlers set: the request goes
    out and the handlers wait. *)
Definition start_image (t : image_task) (url : string) (a : app) : app :=
  {| app_dom := app_dom a;
     app_fetches := app_fetches a;
     app_images := app_images a ++ [t];
     app_requests := app_requests a ++ [url];
     app_console := app_console a |}.

(** Projections used in statements. *)
Definition shown (a : app) : sections := dom_sections (app_dom a).

Definition set_pokemonName (v : string) (c : card) : card :=
  {| pokemonName := v; pokemonId := pokemonId c; pokemonHeight := pokemonHeight c;
     pokemonWeight := pokemonWeight c; pokemonExp := pokemonExp c;
     pokemonTypes := pokemonTypes c; abilitiesList := abilitiesList c |}.

Definition set_pokemonId (v : string) (c : card) : card :=
  {| pokemonName := pokemonName c; pokemonId := v; pokemonHeight := pokemonHeight c;
     pokemonWeight := pokemonWeight c; pokemonExp := pokemonExp c;
     pokemonTypes := pokemonTypes c; abilitiesList := abilitiesList c |}.

Definition set_pokemonHeight (v : string) (c : card) : card :=
  {| pokemonName := pokemonName c; pokemonId := pokemonId c; pokemonHeight := v;
     pokemonWeight := pokemonWeight c; pokemonExp := pokemonExp c;
     pokemonTypes := pokemonTypes c; abilitiesList := abilitiesList c |}.

Definition set_pokemonWeight (v : string) (c : card) : card :=
  {| pokemonName := pokemonName c; pokemonId := pokemonId c; pokemonHeight := pokemonHeight c;
     pokemonWeight := v; pokemonExp := pokemonExp c;
     pokemonTypes := pokemonTypes c; abilitiesList := abilitiesList c |}.

Definition set_pokemonExp (v : string) (c : card) : card :=
  {| pokemonName := pokemonName c; pokemonId := pokemonId c; pokemonHeight := pokemonHeight c;
     pokemonWeight := pokemonWeight c; pokemonExp := v;
     pokemonTypes := pokemonTypes c; abilitiesList := abilitiesList c |}.

Definition set_pokemonTypes (f : list span → list span) (c : card) : card :=
  {| pokemonName := pokemonName c; pokemonId := pokemonId c; pokemonHeight := pokemonHeight c;
     pokemonWeight := pokemonWeight c; pokemonExp := pokemonExp c;
     pokemonTypes := f (pokemonTypes c); abilitiesList := abilitiesList c |}.

Definition set_abilitiesList (f : list span → list span) (c : card) : card :=
  {| pokemonName := pokemonName c; pokemonId := pokemonId c; pokemonHeight := pokemonHeight c;
     pokemonWeight := pokemonWeight c; pokemonExp := pokemonExp c;
     pokemonTypes := pokemonTypes c; abilitiesList := f (abilitiesList c) |}.

(** ** Lemmas on the updates

    The task lists and the log are untouched by an update of the page, and
    the page by an update of the lists. *)

Lemma app_fetches_on_dom (f : dom → dom) (a : app) : app_fetches (on_dom f a) = app_fetches a.
Proof. done. Qed.

Lemma app_images_on_dom (f : dom → dom) (a : app) : app_images (on_dom f a) = app_images a.
Proof. done. Qed.

Lemma app_requests_on_dom (f : dom → dom) (a : app) : app_requests (on_dom f a) = app_requests a.
Proof. done. Qed.

Lemma app_dom_on_dom (f : dom → dom) (a : app) : app_dom (on_dom f a) = f (app_dom a).
Proof. done. Qed.

Lemma app_console_on_dom (f : dom → dom) (a : app) : app_console (on_dom f a) = app_console a.
Proof. done. Qed.

Lemma on_dom_compose (f g : dom → dom) (a : app) : on_dom f (on_dom g a) = on_dom (f ∘ g) a.
Proof. done. Qed.

#[export] Hint Rewrite app_fetches_on_dom app_images_on_dom app_requests_on_dom
  app_dom_on_dom : js_rw.
