(* ===== verification/View.v ===== *)
(** * View: the sections of the page

    [hideAllSections], [showLoading], [hideLoading], [showError], [showHelp]
    and [hideHelp] (src/app.js, lines 72-110) as functions on [dom], with
    what each does to every field. *)

From S2P Require Import Prelude JsRuntime Formatter State.

(** ** Operations *)

(** Removes the class [show] from the four sections, in the order of the
    source. *)
Definition hideAllSections (d : dom) : dom :=
  let d := set_sections (set_loading false) d in
  let d := set_sections (set_errorMessage false) d in
  let d := set_sections (set_pokemonCard false) d in
  set_sections (set_helpSection false) d.

Definition showLoading (d : dom) : dom :=
  let d := hideAllSections d in
  let d := set_sections (set_loading true) d in
  let d := set_searchBtn {| disabled := true; btn_text := btn_text (searchBtn d) |} d in
  set_searchBtn {| disabled := disabled (searchBtn d); btn_text := "Searching..." |} d.

Definition hideLoading (d : dom) : dom :=
  let d := set_sections (set_loading false) d in
  let d := set_searchBtn {| disabled := false; btn_text := btn_text (searchBtn d) |} d in
  set_searchBtn {| disabled := disabled (searchBtn d); btn_text := "Search Pokemon" |} d.

(** The default value of the parameter of [showError]. *)
Definition showError_default : string :=
  "Pokemon not found! Please check the spelling or try a different Pokemon name/ID.".

(** [showError(message = <default>)]: [None] is a call without the
    argument. *)
Definition showError (message : option string) (d : dom) : dom :=
  let d := hideAllSections d in
  let d := set_errorText (default showError_default message) d in
  set_sections (set_errorMessage true) d.

Definition showHelp (d : dom) : dom := set_sections (set_helpSection true) d.

Definition hideHelp (d : dom) : dom := set_sections (set_helpSection false) d.

(** The constructor (lines 4-9): the elements are bound to the page as
    loaded, the handlers are attached, and every section is hidden. *)
Definition constructor (page : dom) : app :=
  {| app_dom := hideAllSections page; app_fetches := []; app_images := [];
     app_requests := [];
     app_console := [] |}.

(** ** The display invariant

    At most one of the loading, error and card sections is shown. *)
Definition exclusive (s : sections) : Prop :=
  (loading s && errorMessage s = false) ∧
  (loading s && pokemonCard s = false) ∧
  (errorMessage s && pokemonCard s = false).

#[global] Instance exclusive_dec (s : sections) : Decision (exclusive s).
Proof. unfold exclusive. apply _. Defined.

(** ** Lemmas: the sections after each operation *)

Lemma sections_hideAllSections (d : dom) :
  dom_sections (hideAllSections d) = Sections false false false false.
Proof. done. Qed.

Lemma sections_showLoading (d : dom) :
  dom_sections (showLoading d) = Sections true false false false.
Proof. done. Qed.

Lemma sections_showError (m : option string) (d : dom) :
  dom_sections (showError m d) = Sections false true false false.
Proof. done. Qed.

Lemma sections_hideLoading (d : dom) :
  dom_sections (hideLoading d) = set_loading false (dom_sections d).
Proof. done. Qed.

Lemma searchBtn_showLoading (d : dom) :
  searchBtn (showLoading d) = Button true "Searching...".
Proof. done. Qed.

Lemma searchBtn_hideLoading (d : dom) :
  searchBtn (hideLoading d) = Button false "Search Pokemon".
Proof. done. Qed.

Lemma searchBtn_hideAllSections (d : dom) : searchBtn (hideAllSections d) = searchBtn d.
Proof. done. Qed.

Lemma searchBtn_showError (m : option string) (d : dom) :
  searchBtn (showError m d) = searchBtn d.
Proof. done. Qed.

Lemma errorText_showError (m : string) (d : dom) : errorText (showError (Some m) d) = m.
Proof. done. Qed.

Lemma exclusive_set_loading_false (s : sections) :
  exclusive s → exclusive (set_loading false s).
Proof. unfold exclusive. destruct s as [[] [] [] []]; simpl; intuition discriminate. Qed.

Lemma exclusive_set_helpSection (b : bool) (s : sections) :
  exclusive s → exclusive (set_helpSection b s).
Proof. done. Qed.

Lemma exclusive_one (l e c h : bool) :
  exclusive (Sections l e c h) ↔ (l && e = false) ∧ (l && c = false) ∧ (e && c = false).
Proof. done. Qed.

#[export] Hint Rewrite sections_hideAllSections sections_showLoading sections_showError
  sections_hideLoading searchBtn_showLoading searchBtn_hideLoading
  searchBtn_hideAllSections searchBtn_showError errorText_showError : js_rw.

#[export] Hint Resolve exclusive_set_loading_false exclusive_set_helpSection : pokedex.
