(* ===== verification/Images.v ===== *)
(** * Images: the fallback chain of image sources

    [loadPokemonImage], [tryLoadImage] and [handleImageError] (src/app.js,
    lines 194-250).  A candidate is tried by creating an [Image] and setting
    its [src]; its [load] handler shows it, its [error] handler tries the
    next.  The handlers run later, as events: here a pending [Image] is an
    [image_task], and [image_onload] and [image_onerror] are its handlers.
    [run_images] drives the pending tasks with an oracle that says which URLs
    load, and the theorems show that the chain ends at the first candidate
    that loads, after attempting exactly the candidates before it and
    logging each of their failures. *)

From S2P Require Import Prelude JsRuntime Formatter State View.

(** ** Definitions *)

Definition artwork_base : string :=
  "https://raw.githubusercontent.com/PokeAPI/sprites/master/sprites/pokemon/other/official-artwork/".

Definition sprite_base : string :=
  "https://raw.githubusercontent.com/PokeAPI/sprites/master/sprites/pokemon/".

(** The array literal of [loadPokemonImage] before the filter: the four
    optional chains, then the two template strings. *)
Definition imageCandidates (p : pokemon) : list (option string) :=
  [ pokemon_sprites p ?. other ?. official_artwork ?. art_front_default;
    pokemon_sprites p ?. other ?. dream_world ?. art_front_default;
    pokemon_sprites p ?. front_default;
    pokemon_sprites p ?. front_shiny;
    Some (artwork_base +:+ toString (id p) +:+ ".png");
    Some (sprite_base +:+ toString (id p) +:+ ".png") ].

(** [.filter(Boolean)]: [null], [undefined] and the empty string go. *)
Definition filter_Boolean (l : list (option string)) : list string :=
  omap (λ o, o ?. (λ s, if truthy_string s then Some s else None)) l.

Definition imageSources (p : pokemon) : list string :=
  filter_Boolean (imageCandidates p).

(** The call of [console.log] in [handleImageError] (line 244). *)
Definition no_image_call (p : pokemon) : list console_arg :=
  [ArgString ("No image available for " +:+ name p +:+ " (ID: " +:+ toString (id p) +:+ ")")].

Definition handleImageError (p : pokemon) (a : app) : app :=
  let a := on_dom (set_pokemonImage (set_display "none")) a in
  console_log (no_image_call p) a.

(** [tryLoadImage(sources, index, pokemon)]: past the end the image stays
    hidden; otherwise a new [Image] gets its handlers and its [src]. *)
Definition tryLoadImage (sources : list string) (index : nat) (p : pokemon) (a : app) : app :=
  if (length sources <=? index)%nat then handleImageError p a
  else start_image (ImageTask sources index p) (nth index sources "") a.

(** [img.onload] of the task (lines 226-230): the source that has loaded
    is assigned to the image element of the page, which is a write to the
    element; the log of requests holds the source once, from the
    assignment to the new [Image]. *)
Definition image_onload (t : image_task) (a : app) : app :=
  let a := on_dom (set_pokemonImage (set_src (nth (it_index t) (it_sources t) ""))) a in
  let a := on_dom (set_pokemonImage (set_alt (name (it_pokemon t) +:+ " sprite"))) a in
  on_dom (set_pokemonImage (set_display "block")) a.

(** The call of [console.log] in [img.onerror] (line 233): the position of
    the source, counted from 1, and the source. *)
Definition image_failed_call (index : nat) (url : string) : list console_arg :=
  [ArgString ("Failed to load image from source " +:+ toString (Z.of_nat (index + 1)) +:+ ":");
   ArgString url].

(** [img.onerror] of the task. *)
Definition image_onerror (t : image_task) (a : app) : app :=
  let a := console_log (image_failed_call (it_index t) (nth (it_index t) (it_sources t) "")) a in
  tryLoadImage (it_sources t) (it_index t + 1) (it_pokemon t) a.

Definition loadPokemonImage (p : pokemon) (a : app) : app :=
  let imageSources := imageSources p in
  let a := on_dom (set_pokemonImage (set_display "none")) a in
  let a := on_dom (set_pokemonImage (set_src "")) a in
  if (length imageSources =? 0)%nat then handleImageError p a
  else tryLoadImage imageSources 0 p a.

(** The event of the [i]-th pending image: it is taken off the list and its
    [load] or [error] handler runs.  [None] when there is no such task. *)
Definition image_event (i : nat) (loaded : bool) (a : app) : option app :=
  t ← app_images a !! i;
  let a := set_images (delete i (app_images a)) a in
  Some (if loaded then image_onload t a else image_onerror t a).

(** The URL an image task is loading. *)
Definition it_url (t : image_task) : string := nth (it_index t) (it_sources t) "".

(** One event of the oldest pending image, its outcome given by the oracle
    [loads]; the state is unchanged when nothing is pending. *)
Definition image_tick (loads : string → bool) (a : app) : app :=
  match app_images a with
  | [] => a
  | t :: _ => default a (image_event 0 (loads (it_url t)) a)
  end.

(** [n] events of pending images under the oracle. *)
Fixpoint run_images (loads : string → bool) (n : nat) (a : app) : app :=
  match n with
  | O => a
  | S n' => run_images loads n' (image_tick loads a)
  end.

(** The specification of the resolver: the first source that loads. *)
Definition resolveImage (loads : string → bool) (sources : list string) : option string :=
  List.find loads sources.

(** The sources attempted until the first that loads, that one included. *)
Fixpoint attempted (loads : string → bool) (sources : list string) : list string :=
  match sources with
  | [] => []
  | url :: rest => url :: (if loads url then [] else attempted loads rest)
  end.

(** The image element once the chain for [p] has ended at [r]. *)
Definition resolved_image (p : pokemon) (r : option string) (i : image) : image :=
  match r with
  | Some url => {| display := "block"; src := url; alt := name p +:+ " sprite" |}
  | None => {| display := "none"; src := ""; alt := alt i |}
  end.

(** The expected end of a chain, as one recursion over the sources that are
    left: each is requested; the first that loads is shown; when none is left
    the image stays hidden. *)
Definition log_request (url : string) (a : app) : app :=
  {| app_dom := app_dom a; app_fetches := app_fetches a;
     app_images := app_images a; app_requests := app_requests a ++ [url];
     app_console := app_console a |}.

Fixpoint chain_end (loads : string → bool) (sources rest : list string) (index : nat)
    (p : pokemon) (a : app) : app :=
  match rest with
  | [] => handleImageError p a
  | url :: rest' =>
      if loads url then image_onload (ImageTask sources index p) (log_request url a)
      else chain_end loads sources rest' (S index) p
             (console_log (image_failed_call index url) (log_request url a))
  end.

(** The calls of the console a chain makes: one for each source that fails,
    and one more when none is left. *)
Fixpoint chain_console (loads : string → bool) (rest : list string) (index : nat)
    (p : pokemon) : list console_call :=
  match rest with
  | [] => [ConsoleCall ConsoleLog (no_image_call p)]
  | url :: rest' =>
      if loads url then []
      else ConsoleCall ConsoleLog (image_failed_call index url)
             :: chain_console loads rest' (S index) p
  end.

(** ** Lemmas on lists of sources *)

Lemma drop_nil_length {A} (l : list A) (i : nat) : drop i l = [] ↔ (length l ≤ i)%nat.
Proof.
  split; [|apply drop_ge].
  intros E. apply (f_equal length) in E. rewrite length_drop in E. simpl in E. lia.
Qed.

Lemma drop_cons_nth (l : list string) (i : nat) (x : string) (rest : list string) :
  drop i l = x :: rest →
  (i < length l)%nat ∧ nth i l "" = x ∧ drop (S i) l = rest.
Proof.
  revert i. induction l as [|y l IH]; intros [|i] E; simpl in *; try done.
  - injection E as -> ->. split_and!; [lia|done|by rewrite drop_0].
  - destruct (IH i E) as (?&?&?). split_and!; [lia|done|done].
Qed.

Lemma attempted_length (loads : string → bool) (sources : list string) :
  (length (attempted loads sources) ≤ length sources)%nat.
Proof. induction sources as [|u l IH]; simpl; [done|]. destruct (loads u); simpl; lia. Qed.

Lemma attempted_prefix (loads : string → bool) (sources : list string) :
  attempted loads sources `prefix_of` sources.
Proof.
  induction sources as [|u l IH]; simpl; [done|].
  apply prefix_cons. destruct (loads u); [apply prefix_nil|done].
Qed.

(** With the candidates before [url] failing and [url] loading, [url] is the
    one resolved and the last one attempted. *)
Lemma find_first_success (loads : string → bool) (pre post : list string) (url : string) :
  Forall (λ u, loads u = false) pre → loads url = true →
  List.find loads (pre ++ url :: post) = Some url ∧
  attempted loads (pre ++ url :: post) = pre ++ [url].
Proof.
  intros Hpre Hurl. induction Hpre as [|u pre Hu _ [IH1 IH2]]; simpl.
  - by rewrite Hurl.
  - by rewrite Hu, IH1, IH2.
Qed.

Lemma find_none_attempted (loads : string → bool) (sources : list string) :
  List.find loads sources = None → attempted loads sources = sources.
Proof.
  induction sources as [|u l IH]; simpl; [done|].
  destruct (loads u); [done|]. intros E. by rewrite IH.
Qed.

(** ** Lemmas on the candidate list *)

Lemma filter_Boolean_app (k l : list (option string)) :
  filter_Boolean (k ++ l) = filter_Boolean k ++ filter_Boolean l.
Proof. apply omap_app. Qed.

Lemma filter_Boolean_length (l : list (option string)) :
  (length (filter_Boolean l) ≤ length l)%nat.
Proof.
  induction l as [|o l IH]; simpl; [done|].
  unfold filter_Boolean in *. simpl. destruct (o ?. _); simpl; lia.
Qed.

Lemma elem_of_filter_Boolean (s : string) (l : list (option string)) :
  s ∈ filter_Boolean l ↔ Some s ∈ l ∧ s ≠ "".
Proof.
  unfold filter_Boolean. rewrite list_elem_of_omap. split.
  - intros ([t|] & Hin & E); simpl in E; [|done].
    destruct t; simplify_eq/=. done.
  - intros [Hin Hs]. exists (Some s). split; [done|]. by destruct s.
Qed.

Lemma imageSources_unfold (p : pokemon) :
  imageSources p =
    filter_Boolean (take 4 (imageCandidates p)) ++
    [artwork_base +:+ toString (id p) +:+ ".png"; sprite_base +:+ toString (id p) +:+ ".png"].
Proof.
  unfold imageSources. rewrite <-(take_drop 4 (imageCandidates p)) at 1.
  rewrite filter_Boolean_app. by f_equal.
Qed.

Lemma imageSources_length (p : pokemon) : (2 ≤ length (imageSources p) ≤ 6)%nat.
Proof.
  rewrite imageSources_unfold, length_app. simpl.
  pose proof (filter_Boolean_length (take 4 (imageCandidates p))) as H.
  rewrite length_take in H. simpl in *. lia.
Qed.

(** ** Lemmas on the run of a chain *)

Lemma tryLoadImage_past_end (sources : list string) (index : nat) (p : pokemon) (a : app) :
  (length sources ≤ index)%nat → tryLoadImage sources index p a = handleImageError p a.
Proof. intros H. unfold tryLoadImage. by rewrite (proj2 (Nat.leb_le _ _) H). Qed.

Lemma tryLoadImage_in_range (sources : list string) (index : nat) (p : pokemon) (a : app) :
  (index < length sources)%nat →
  tryLoadImage sources index p a =
    start_image (ImageTask sources index p) (nth index sources "") a.
Proof. intros H. unfold tryLoadImage. by rewrite (proj2 (Nat.leb_gt _ _) H). Qed.

Lemma image_tick_start (loads : string → bool) (t : image_task) (a : app) :
  app_images a = [] →
  image_tick loads (start_image t (it_url t) a) =
    if loads (it_url t) then image_onload t (log_request (it_url t) a)
    else image_onerror t (log_request (it_url t) a).
Proof. destruct a as [d fs ims rs]. simpl. intros ->. done. Qed.

Lemma run_images_idle (loads : string → bool) (n : nat) (a : app) :
  app_images a = [] → run_images loads n a = a.
Proof. intros E. induction n as [|n IH]; [done|]. simpl. unfold image_tick. by rewrite E. Qed.

Lemma run_images_add (loads : string → bool) (m n : nat) (a : app) :
  run_images loads (m + n) a = run_images loads n (run_images loads m a).
Proof. revert a. induction m as [|m IH]; intros a; [done|]. simpl. apply IH. Qed.

(** The events of a chain, one per attempted source, lead to [chain_end]. *)
Lemma run_images_chain (loads : string → bool) (sources : list string) (p : pokemon)
    (rest : list string) (index : nat) (a : app) :
  drop index sources = rest → app_images a = [] →
  run_images loads (length (attempted loads rest)) (tryLoadImage sources index p a) =
    chain_end loads sources rest index p a.
Proof.
  revert index a. induction rest as [|url rest IH]; intros index a Hdrop Himg.
  { apply drop_nil_length in Hdrop. by rewrite tryLoadImage_past_end. }
  apply drop_cons_nth in Hdrop as (Hlt & Hnth & Hdrop).
  rewrite tryLoadImage_in_range by done. cbn [attempted length run_images chain_end].
  change (nth index sources "") with (it_url (ImageTask sources index p)).
  rewrite image_tick_start by done. unfold it_url. cbn [it_index it_sources]. rewrite Hnth.
  destruct (loads url); [done|]. unfold image_onerror. cbn [it_index it_sources it_pokemon].
  rewrite Hnth, Nat.add_1_r. by apply IH.
Qed.

Lemma chain_end_tasks (loads : string → bool) (sources rest : list string) (index : nat)
    (p : pokemon) (a : app) :
  app_images (chain_end loads sources rest index p a) = app_images a ∧
  app_fetches (chain_end loads sources rest index p a) = app_fetches a ∧
  app_requests (chain_end loads sources rest index p a) =
    app_requests a ++ attempted loads rest ∧
  app_console (chain_end loads sources rest index p a) =
    app_console a ++ chain_console loads rest index p.
Proof.
  revert index a. induction rest as [|url rest IH]; intros index a; simpl.
  { by rewrite app_nil_r. }
  destruct (loads url); simpl; [by rewrite app_nil_r|].
  destruct (IH (S index) (console_log (image_failed_call index url) (log_request url a)))
    as (-> & -> & -> & ->). simpl.
  by rewrite <-!app_assoc.
Qed.

Lemma chain_end_dom (loads : string → bool) (sources rest : list string) (index : nat)
    (p : pokemon) (a : app) :
  drop index sources = rest →
  app_dom (chain_end loads sources rest index p a) =
    set_pokemonImage (λ i,
      match List.find loads rest with
      | Some url => {| display := "block"; src := url; alt := name p +:+ " sprite" |}
      | None => set_display "none" i
      end) (app_dom a).
Proof.
  revert index a. induction rest as [|url rest IH]; intros index a Hdrop; [done|].
  apply drop_cons_nth in Hdrop as (Hlt & Hnth & Hdrop). cbn [chain_end List.find].
  destruct (loads url); [|by rewrite IH].
  unfold image_onload. cbn [it_index it_sources it_pokemon]. by rewrite Hnth.
Qed.

(** The reset at the start of [loadPokemonImage]. *)
Definition reset_image (a : app) : app :=
  on_dom (set_pokemonImage (set_src "")) (on_dom (set_pokemonImage (set_display "none")) a).

Lemma loadPokemonImage_tryLoadImage (p : pokemon) (a : app) :
  loadPokemonImage p a = tryLoadImage (imageSources p) 0 p (reset_image a).
Proof.
  unfold loadPokemonImage. pose proof (imageSources_length p) as H.
  destruct (Nat.eqb_spec (length (imageSources p)) 0); [lia|done].
Qed.

Lemma loadPokemonImage_run (loads : string → bool) (p : pokemon) (a : app) :
  app_images a = [] →
  run_images loads (length (attempted loads (imageSources p))) (loadPokemonImage p a) =
    chain_end loads (imageSources p) (imageSources p) 0 p (reset_image a).
Proof. intros Ha. rewrite loadPokemonImage_tryLoadImage. by apply run_images_chain. Qed.

(** The end of the chain of [loadPokemonImage]: the tasks, the page and the
    requests. *)
Lemma loadPokemonImage_end (loads : string → bool) (p : pokemon) (a : app) :
  app_images a = [] →
  let a' := run_images loads (length (attempted loads (imageSources p))) (loadPokemonImage p a) in
  app_images a' = [] ∧
  app_dom a' =
    set_pokemonImage (resolved_image p (resolveImage loads (imageSources p))) (app_dom a) ∧
  app_requests a' = app_requests a ++ attempted loads (imageSources p).
Proof.
  intros Ha a'. subst a'. rewrite loadPokemonImage_run by done.
  destruct (chain_end_tasks loads (imageSources p) (imageSources p) 0 p (reset_image a))
    as (-> & _ & -> & _).
  rewrite chain_end_dom by done. split_and!; [done| |done].
  unfold resolved_image, resolveImage. simpl. by destruct (List.find _ _).
Qed.

(** A page, a record and an oracle for the witnesses: the first three
    candidates of the record fail and the shiny sprite loads. *)
Definition sample_page : dom :=
  {| dom_sections := Sections false false false true;
     searchBtn := Button false "Search Pokemon";
     errorText := ""; pokemonInput := "";
     dom_card := Card "" "" "" "" "" [] [];
     pokemonImage := Image "" "" "";
     input_focused := false |}.

Definition sample_pokemon : pokemon :=
  {| name := "pikachu"; id := 25; height := 4; weight := 60;
     base_experience := Some 112%Z;
     types := ["electric"]; abilities := ["static"; "lightning-rod"];
     pokemon_sprites := Some {|
       other := Some {| official_artwork := Some (Artwork (Some "art.png"));
                        dream_world := Some (Artwork (Some "dream.svg")) |};
       front_default := Some "front.png";
       front_shiny := Some "shiny.png" |} |}.

Definition sample_loads (url : string) : bool := bool_decide (url = "shiny.png").

(** ** Properties *)

(** C37: the image sources are the candidates that are present and not empty
    among the four sprite fields, in the order official artwork, dream
    world, default sprite, shiny sprite, followed by the two constructed
    URLs; there are between two and six, none is empty, and so the branch of
    [loadPokemonImage] for an empty list is never taken: the call is always
    [tryLoadImage] at index 0 after the reset of the image. *)
Theorem imageSources_priority (p : pokemon) (a : app) :
  imageSources p =
    filter_Boolean
      [pokemon_sprites p ?. other ?. official_artwork ?. art_front_default;
       pokemon_sprites p ?. other ?. dream_world ?. art_front_default;
       pokemon_sprites p ?. front_default;
       pokemon_sprites p ?. front_shiny] ++
    [artwork_base +:+ toString (id p) +:+ ".png"; sprite_base +:+ toString (id p) +:+ ".png"] ∧
  (2 ≤ length (imageSources p) ≤ 6)%nat ∧
  (∀ url, url ∈ imageSources p → url ≠ "") ∧
  loadPokemonImage p a = tryLoadImage (imageSources p) 0 p (reset_image a).
Proof.
  split_and!; [apply imageSources_unfold|apply imageSources_length..| |].
  - intros url Hin. by apply elem_of_filter_Boolean in Hin as [_ ?].
  - apply loadPokemonImage_tryLoadImage.
Qed.

(** C5: started with no image pending, the chain of [loadPokemonImage],
    driven by one image event per attempted source, ends with no image
    pending, the image element showing the first source that loads (or
    hidden with an empty [src] when none loads), the rest of the page
    untouched, exactly the attempted sources requested, in order, and on
    the console one call for each source that failed, with its position
    counted from 1, and one more when no source loads. *)
Theorem loadPokemonImage_resolves (loads : string → bool) (p : pokemon) (a : app) :
  app_images a = [] →
  let a' := run_images loads (length (attempted loads (imageSources p))) (loadPokemonImage p a) in
  app_images a' = [] ∧
  app_dom a' =
    set_pokemonImage (resolved_image p (resolveImage loads (imageSources p))) (app_dom a) ∧
  app_requests a' = app_requests a ++ attempted loads (imageSources p) ∧
  app_console a' = app_console a ++ chain_console loads (imageSources p) 0 p.
Proof.
  intros Ha a'. destruct (loadPokemonImage_end loads p a Ha) as (Hi & Hd & Hr).
  split_and!; [done..|]. subst a'. rewrite loadPokemonImage_run by done.
  by destruct (chain_end_tasks loads (imageSources p) (imageSources p) 0 p (reset_image a))
    as (_ & _ & _ & ->).
Qed.

Lemma loadPokemonImage_resolves_witness :
  let a := constructor sample_page in
  let a' := run_images sample_loads
              (length (attempted sample_loads (imageSources sample_pokemon)))
              (loadPokemonImage sample_pokemon a) in
  app_images a' = [] ∧
  app_dom a' =
    set_pokemonImage
      (resolved_image sample_pokemon (resolveImage sample_loads (imageSources sample_pokemon)))
      (app_dom a) ∧
  app_requests a' = app_requests a ++ attempted sample_loads (imageSources sample_pokemon) ∧
  app_console a' =
    app_console a ++ chain_console sample_loads (imageSources sample_pokemon) 0 sample_pokemon.
Proof. apply (loadPokemonImage_resolves sample_loads sample_pokemon). reflexivity. Defined.

(** C22: when the sources before [url] fail and [url] loads, the chain ends
    after one event per source up to [url], shows [url], and has requested
    the failed sources and [url] and none of the sources after it. *)
Theorem image_chain_first_success (loads : string → bool) (p : pokemon) (a : app)
    (pre post : list string) (url : string) :
  app_images a = [] →
  imageSources p = pre ++ url :: post →
  Forall (λ u, loads u = false) pre →
  loads url = true →
  let a' := run_images loads (S (length pre)) (loadPokemonImage p a) in
  pokemonImage (app_dom a') = Image "block" url (name p +:+ " sprite") ∧
  app_images a' = [] ∧
  app_requests a' = app_requests a ++ pre ++ [url].
Proof.
  intros Ha Hsrc Hpre Hurl a'.
  destruct (find_first_success loads pre post url Hpre Hurl) as [Hfind Hatt].
  destruct (loadPokemonImage_end loads p a Ha) as (Himg & Hdom & Hreq).
  rewrite Hsrc, Hatt, length_app, Nat.add_1_r in Himg, Hdom, Hreq.
  subst a'. rewrite Himg, Hdom, Hreq. unfold resolveImage. by rewrite Hfind.
Qed.

Lemma image_chain_first_success_witness :
  let a := constructor sample_page in
  let a' := run_images sample_loads 4 (loadPokemonImage sample_pokemon a) in
  pokemonImage (app_dom a') = Image "block" "shiny.png" "pikachu sprite" ∧
  app_images a' = [] ∧
  app_requests a' = [] ++ ["art.png"; "dream.svg"; "front.png"] ++ ["shiny.png"].
Proof.
  apply (image_chain_first_success sample_loads sample_pokemon (constructor sample_page)
    ["art.png"; "dream.svg"; "front.png"]
    [artwork_base +:+ "25.png"; sprite_base +:+ "25.png"] "shiny.png");
    [reflexivity|reflexivity|by repeat constructor|reflexivity].
Defined.

(** C35: the chain terminates: started with no image pending, after as many
    image events as there are sources, or more, no image is pending, and the
    state is the one reached after the attempted sources. *)
Theorem image_chain_terminates (loads : string → bool) (p : pokemon) (a : app) (n : nat) :
  app_images a = [] →
  (length (imageSources p) ≤ n)%nat →
  app_images (run_images loads n (loadPokemonImage p a)) = [] ∧
  run_images loads n (loadPokemonImage p a) =
    run_images loads (length (attempted loads (imageSources p))) (loadPokemonImage p a).
Proof.
  intros Ha Hn. pose proof (attempted_length loads (imageSources p)) as Hk.
  destruct (loadPokemonImage_end loads p a Ha) as (Himg & _).
  replace n with (length (attempted loads (imageSources p)) +
    (n - length (attempted loads (imageSources p))))%nat at 1 2 by lia.
  rewrite run_images_add, run_images_idle by done. done.
Qed.

Lemma image_chain_terminates_witness :
  app_images (run_images (λ _, false) 6 (loadPokemonImage sample_pokemon (constructor sample_page))) = [] ∧
  run_images (λ _, false) 6 (loadPokemonImage sample_pokemon (constructor sample_page)) =
    run_images (λ _, false)
      (length (attempted (λ _, false) (imageSources sample_pokemon)))
      (loadPokemonImage sample_pokemon (constructor sample_page)).
Proof.
  apply (image_chain_terminates (λ _, false) sample_pokemon (constructor sample_page) 6);
    [reflexivity|vm_compute; lia].
Defined.
