(* ===== verification/Card.v ===== *)
(** * Card: filling and showing the card

    [populatePokemonData] and [showPokemon] (src/app.js, lines 98-102 and
    174-192) on the application state: the texts of the card are written,
    the image chain is started, and the card section is shown. *)

From S2P Require Import Prelude JsRuntime Formatter State View Images.

(** ** Operations *)

Definition populatePokemonData (p : pokemon) (a : app) : app :=
  let a := on_dom (set_card (set_pokemonName (capitalize (name p)))) a in
  let a := on_dom (set_card (set_pokemonId (pokemonId_text (id p)))) a in
  let a := loadPokemonImage p a in
  let a := on_dom (set_card (set_pokemonHeight (pokemonHeight_text (height p)))) a in
  let a := on_dom (set_card (set_pokemonWeight (pokemonWeight_text (weight p)))) a in
  let a := on_dom (set_card (set_pokemonExp (pokemonExp_text (base_experience p)))) a in
  let a := on_dom (set_card (set_pokemonTypes (populateTypes (types p)))) a in
  on_dom (set_card (set_abilitiesList (populateAbilities (abilities p)))) a.

Definition showPokemon (p : pokemon) (a : app) : app :=
  let a := on_dom hideAllSections a in
  let a := populatePokemonData p a in
  on_dom (set_sections (set_pokemonCard true)) a.

(** The card of a record: what the seven elements hold once
    [populatePokemonData] has run. *)
Definition card_of (p : pokemon) : card :=
  {| pokemonName := capitalize (name p);
     pokemonId := pokemonId_text (id p);
     pokemonHeight := pokemonHeight_text (height p);
     pokemonWeight := pokemonWeight_text (weight p);
     pokemonExp := pokemonExp_text (base_experience p);
     pokemonTypes := typeBadge <$> types p;
     abilitiesList := abilityTag <$> abilities p |}.

(** The first image task of a record. *)
Definition first_image_task (p : pokemon) : image_task :=
  ImageTask (imageSources p) 0 p.

(** ** Lemmas *)

Lemma imageSources_head (p : pokemon) :
  ∃ url rest, imageSources p = url :: rest.
Proof.
  pose proof (imageSources_length p) as H.
  destruct (imageSources p) as [|url rest]; [simpl in H; lia|eauto].
Qed.

Lemma loadPokemonImage_start (p : pokemon) (a : app) :
  loadPokemonImage p a =
    start_image (first_image_task p) (hd "" (imageSources p)) (reset_image a).
Proof.
  rewrite loadPokemonImage_tryLoadImage.
  destruct (imageSources_head p) as (url & rest & E).
  rewrite tryLoadImage_in_range by (rewrite E; simpl; lia).
  unfold first_image_task. by rewrite E.
Qed.

(** What [populatePokemonData] does to each part of the state. *)
Lemma populatePokemonData_spec (p : pokemon) (a : app) :
  populatePokemonData p a =
    {| app_dom :=
         set_card (λ _, card_of p)
           (set_pokemonImage (λ i, set_src "" (set_display "none" i)) (app_dom a));
       app_fetches := app_fetches a;
       app_images := app_images a ++ [first_image_task p];
       app_requests := app_requests a ++ [hd "" (imageSources p)];
       app_console := app_console a |}.
Proof.
  unfold populatePokemonData. rewrite loadPokemonImage_start.
  unfold card_of. rewrite <-(populateTypes_fmap _ (pokemonTypes (dom_card (app_dom a)))).
  by rewrite <-(populateAbilities_fmap _ (abilitiesList (dom_card (app_dom a)))).
Qed.

Lemma showPokemon_spec (p : pokemon) (a : app) :
  showPokemon p a =
    {| app_dom :=
         set_sections (λ _, Sections false false true false)
           (set_card (λ _, card_of p)
             (set_pokemonImage (λ i, set_src "" (set_display "none" i)) (app_dom a)));
       app_fetches := app_fetches a;
       app_images := app_images a ++ [first_image_task p];
       app_requests := app_requests a ++ [hd "" (imageSources p)];
       app_console := app_console a |}.
Proof. unfold showPokemon. by rewrite populatePokemonData_spec. Qed.

Lemma sections_showPokemon (p : pokemon) (a : app) :
  shown (showPokemon p a) = Sections false false true false.
Proof. by rewrite showPokemon_spec. Qed.

Lemma searchBtn_showPokemon (p : pokemon) (a : app) :
  searchBtn (app_dom (showPokemon p a)) = searchBtn (app_dom a).
Proof. by rewrite showPokemon_spec. Qed.

Lemma dom_card_showPokemon (p : pokemon) (a : app) :
  dom_card (app_dom (showPokemon p a)) = card_of p.
Proof. by rewrite showPokemon_spec. Qed.

Lemma app_fetches_showPokemon (p : pokemon) (a : app) :
  app_fetches (showPokemon p a) = app_fetches a.
Proof. by rewrite showPokemon_spec. Qed.

Lemma app_images_showPokemon (p : pokemon) (a : app) :
  app_images (showPokemon p a) = app_images a ++ [first_image_task p].
Proof. by rewrite showPokemon_spec. Qed.

#[export] Hint Rewrite sections_showPokemon searchBtn_showPokemon dom_card_showPokemon
  app_fetches_showPokemon app_images_showPokemon : js_rw.

(** From here on the two operations are used through [showPokemon_spec] and
    the lemmas above, never unfolded. *)
#[global] Opaque showPokemon populatePokemonData.
#[global] Arguments showPokemon : simpl never.
#[global] Arguments populatePokemonData : simpl never.
