(* ===== verification/Fetcher.v ===== *)
(** * Fetcher: one request for a record

    [fetchPokemon] (src/app.js, lines 160-172).  The request target is the
    base URL followed by the query as it is.  The method awaits the response
    and then its body; both settlements are one [fetch_outcome] here, since
    nothing but the thrown error depends on where the failure occurs.
    [Await] has the two settlements apart and proves that nothing is lost. *)

From S2P Require Import Prelude JsRuntime Formatter State.

(** ** Definitions *)

(** [this.apiBase] (line 5). *)
Definition apiBase : string := "https://pokeapi.co/api/v2/pokemon/".

(** The body of a response as [response.json()] settles: the parsed record,
    or a [SyntaxError] with its message. *)
Inductive body : Type :=
| BodyJson (p : pokemon)
| BodySyntaxError (message : string).

(** How [fetch] and the read of the body settle: the promise of [fetch]
    rejects with an error (no connection, blocked request), or a response
    arrives with its status and body. *)
Inductive fetch_outcome : Type :=
| FetchRejected (message : string)
| FetchResponse (status : Z) (b : body).

#[global] Instance body_eq_dec : EqDecision body.
Proof. solve_decision. Defined.
#[global] Instance fetch_outcome_eq_dec : EqDecision fetch_outcome.
Proof. solve_decision. Defined.

(** [response.ok]: the status is in the range 200 to 299. *)
Definition response_ok (status : Z) : bool :=
  (200 <=? status)%Z && (status <=? 299)%Z.

(** [`${this.apiBase}${query}`] *)
Definition fetch_url (query : string) : string := apiBase +:+ query.

(** [fetchPokemon] after its [await]s: the value it returns or the error it
    throws, for each outcome of the request. *)
Definition fetchPokemon (o : fetch_outcome) : result pokemon :=
  match o with
  | FetchRejected message => Throw message
  | FetchResponse status b =>
      if negb (response_ok status) then
        if (status =? 404)%Z then Throw "404: Pokemon not found"
        else Throw ("HTTP error! status: " +:+ toString status)
      else
        match b with
        | BodyJson p => Ok p
        | BodySyntaxError message => Throw message
        end
  end.

(** ** Lemmas: [fetchPokemon] on every branch *)

Lemma response_ok_iff (status : Z) : response_ok status = true ↔ (200 ≤ status ≤ 299)%Z.
Proof. unfold response_ok. rewrite andb_true_iff, !Z.leb_le. done. Qed.

Lemma fetchPokemon_rejected (message : string) :
  fetchPokemon (FetchRejected message) = Throw message.
Proof. done. Qed.

Lemma fetchPokemon_404 (b : body) :
  fetchPokemon (FetchResponse 404 b) = Throw "404: Pokemon not found".
Proof. done. Qed.

Lemma fetchPokemon_status (status : Z) (b : body) :
  response_ok status = false → status ≠ 404%Z →
  fetchPokemon (FetchResponse status b) = Throw ("HTTP error! status: " +:+ toString status).
Proof.
  intros Hok Hne. simpl. rewrite Hok. simpl.
  by destruct (Z.eqb_spec status 404).
Qed.

Lemma fetchPokemon_ok_json (status : Z) (p : pokemon) :
  response_ok status = true → fetchPokemon (FetchResponse status (BodyJson p)) = Ok p.
Proof. intros Hok. simpl. by rewrite Hok. Qed.

Lemma fetchPokemon_ok_syntax (status : Z) (message : string) :
  response_ok status = true →
  fetchPokemon (FetchResponse status (BodySyntaxError message)) = Throw message.
Proof. intros Hok. simpl. by rewrite Hok. Qed.

(** The record is returned exactly for a response in the 2xx range whose
    body parses. *)
Lemma fetchPokemon_Ok_iff (o : fetch_outcome) (p : pokemon) :
  fetchPokemon o = Ok p ↔
  ∃ status, response_ok status = true ∧ o = FetchResponse status (BodyJson p).
Proof.
  split; [|intros (status & Hok & ->); by apply fetchPokemon_ok_json].
  destruct o as [m|status [q|m]]; simpl; [done|..];
    destruct (response_ok status) eqn:Hok; simpl; try destruct (status =? 404)%Z;
    intros [= ->]; eauto.
Qed.
