(* ===== verification/Controller.v ===== *)
(** * Controller: requests and the event loop

    [searchPokemon] and [getRandomPokemon] (src/app.js, lines 112-158), each
    split at its [await]; the handlers [bindEvents] attaches (lines 39-70)
    and the global [keydown] handler (lines 338-358); the listeners of the
    document and of the window (lines 305-335); the labelled step relation
    of the event loop, and reachability from the constructor. *)

From S2P Require Import Prelude JsRuntime Formatter State View Images Card Fetcher.

(** ** Messages *)

Definition msg_empty_query : string := "Please enter a Pokemon name or ID number.".

Definition msg_not_found (query : string) : string :=
  "Pokemon " +:+ dquote +:+ query +:+ dquote +:+
  " not found. Please check the spelling or try a different name/ID.".

Definition msg_network : string :=
  "Network error. Please check your internet connection and try again.".

Definition msg_generic : string :=
  "An error occurred while fetching Pokemon data. Please try again.".

Definition msg_random : string := "Unable to fetch random Pokemon. Please try again.".

(** ** [searchPokemon] *)

(** The query read from the input: [this.pokemonInput.value.trim().toLowerCase()]. *)
Definition read_query (a : app) : string :=
  toLowerCase (trim (pokemonInput (app_dom a))).

(** [searchPokemon] up to its [await]: an empty query shows the prompt and
    returns; otherwise the loading section is shown and the fetch starts,
    with the rest of the method as its continuation. *)
Definition searchPokemon (a : app) : app :=
  let query := read_query a in
  if negb (truthy_string query) then on_dom (showError (Some msg_empty_query)) a
  else
    let a := on_dom showLoading a in
    start_fetch (fetch_url query) (KSearch query) a.

(** The message the [catch] block of [searchPokemon] shows for an error. *)
Definition search_error_message (query message : string) : string :=
  if includes "404" message then msg_not_found query
  else if includes "network" message then msg_network
  else msg_generic.

(** [searchPokemon] from its [await] on: [try], [catch] and [finally]. *)
Definition searchPokemon_resume (query : string) (o : fetch_outcome) (a : app) : app :=
  let a :=
    try_catch (fetchPokemon o)
      (λ pokemon,
         let a := showPokemon pokemon a in
         on_dom (set_pokemonInput "") a)
      (λ message,
         let a := console_error [ArgString "Error fetching Pokemon:"; ArgError message] a in
         on_dom (showError (Some (search_error_message query message))) a) in
  on_dom hideLoading a.

(** ** [getRandomPokemon] *)

(** [Math.floor(Math.random() * 1010) + 1], where [Math.random()] is the
    double [k / 2^53]: the product is the double nearest to [k * 1010 /
    2^53], and the floor and the sum are exact. *)
Definition randomId (k : Z) : Z := (round53 (k * 1010) / 2 ^ 53 + 1)%Z.

Definition valid_draw (k : Z) : bool := (0 <=? k)%Z && (k <? 2 ^ 53)%Z.

Definition getRandomPokemon (k : Z) (a : app) : app :=
  let randomId := randomId k in
  let a := on_dom showLoading a in
  start_fetch (fetch_url (toString randomId)) KRandom a.

Definition getRandomPokemon_resume (o : fetch_outcome) (a : app) : app :=
  let a :=
    try_catch (fetchPokemon o)
      (λ pokemon, showPokemon pokemon a)
      (λ message,
         let a := console_error [ArgString "Error fetching random Pokemon:"; ArgError message] a in
         on_dom (showError (Some msg_random)) a) in
  on_dom hideLoading a.

(** The continuation of a settled fetch. *)
Definition resume (k : continuation) (o : fetch_outcome) (a : app) : app :=
  match k with
  | KSearch query => searchPokemon_resume query o a
  | KRandom => getRandomPokemon_resume o a
  end.

(** ** Event handlers *)

(** [keypress] on the input (lines 65-69). *)
Definition on_keypress (key : string) (a : app) : app :=
  if String.eqb key "Enter" then searchPokemon a else a.

(** [click] on the help section (lines 58-62): only a click on the section
    itself, not on its content, closes it. *)
Definition on_helpSection_click (target_is_section : bool) (a : app) : app :=
  if target_is_section then on_dom hideHelp a else a.

(** The global [keydown] handler (lines 338-358): three tests in sequence.
    [randomBtn.click()] runs the click handler, and [closeHelp.click()]
    likewise. *)
Definition on_keydown (key : string) (ctrlKey metaKey : bool) (k : Z) (a : app) : app :=
  let a :=
    if (ctrlKey || metaKey) && String.eqb key "k"
    then on_dom (set_input_focused true) a else a in
  let a :=
    if (ctrlKey || metaKey) && String.eqb key "r"
    then getRandomPokemon k a else a in
  if String.eqb key "Escape" then
    if helpSection (shown a) then on_dom hideHelp a else a
  else a.

(** The [online] and [offline] listeners of the window (lines 329-335). *)
Definition msg_online : string := "âœ… Back online! Pokemon data fetching restored.".
Definition msg_offline : string := "âŒ Offline mode. Pokemon searches may not work.".

Definition on_online (a : app) : app := console_log [ArgString msg_online] a.

Definition on_offline (a : app) : app := console_log [ArgString msg_offline] a.

(** The [load] listener of the window (lines 319-326), attached when the
    browser has service workers: its body is commented out. *)
Definition on_load (a : app) : app := a.

(** The [DOMContentLoaded] listener of the document (lines 305-311): it
    constructs the application on the page as parsed; the default record
    of its comment is not loaded. *)
Definition on_DOMContentLoaded (page : dom) : app := constructor page.

(** The calls of the console the script makes when it is evaluated (lines
    314-316), before the page is constructed. *)
Definition script_console : list console_call :=
  [ConsoleCall ConsoleLog [ArgString "ðŸ”¥ Pokemon Explorer loaded!"];
   ConsoleCall ConsoleLog [ArgString "ðŸ’¡ Tip: This app uses the PokeAPI (pokeapi.co) to fetch Pokemon data"];
   ConsoleCall ConsoleLog [ArgString "ðŸš€ Ready to deploy to any static hosting service!"]].

(** The console of the page: the calls of the script, then those of the
    application. *)
Definition console_of (a : app) : list console_call := script_console ++ app_console a.

(** ** The event loop *)

(** What can happen: the user edits the input, leaves it, submits the form,
    presses a key in the input, clicks a button or the help section, presses
    a key anywhere; a fetch settles; an image loads or fails; the browser
    goes online or offline; the window has loaded.  [k] is the
    draw of [Math.random()] the handler makes, if it makes one. *)
Inductive event : Type :=
| EvInput (value : string)
| EvBlur
| EvSubmit
| EvKeypress (key : string)
| EvClickRandom (k : Z)
| EvClickHelp
| EvClickCloseHelp
| EvClickHelpSection (target_is_section : bool)
| EvKeydown (key : string) (ctrlKey metaKey : bool) (k : Z)
| EvFetchSettled (i : nat) (o : fetch_outcome)
| EvImage (i : nat) (loaded : bool)
| EvOnline
| EvOffline
| EvLoad.

#[global] Instance event_eq_dec : EqDecision event.
Proof. solve_decision. Defined.

(** One turn of the event loop. *)
Inductive step : app → event → app → Prop :=
| step_input a value :
    step a (EvInput value) (on_dom (set_pokemonInput value) a)
| step_blur a :
    step a EvBlur (on_dom (set_input_focused false) a)
| step_submit a :
    step a EvSubmit (searchPokemon a)
| step_keypress a key :
    step a (EvKeypress key) (on_keypress key a)
| step_click_random a k :
    valid_draw k = true →
    step a (EvClickRandom k) (getRandomPokemon k a)
| step_click_help a :
    step a EvClickHelp (on_dom showHelp a)
| step_click_closeHelp a :
    step a EvClickCloseHelp (on_dom hideHelp a)
| step_click_helpSection a target_is_section :
    step a (EvClickHelpSection target_is_section) (on_helpSection_click target_is_section a)
| step_keydown a key ctrlKey metaKey k :
    valid_draw k = true →
    step a (EvKeydown key ctrlKey metaKey k) (on_keydown key ctrlKey metaKey k a)
| step_fetch_settled a i o t :
    app_fetches a !! i = Some t →
    step a (EvFetchSettled i o) (resume (ft_k t) o (set_fetches (delete i (app_fetches a)) a))
| step_image a i loaded a' :
    image_event i loaded a = Some a' →
    step a (EvImage i loaded) a'
| step_online a :
    step a EvOnline (on_online a)
| step_offline a :
    step a EvOffline (on_offline a)
| step_load a :
    step a EvLoad (on_load a).

(** The same turn as a function; [None] when the event cannot happen in the
    state. *)
Definition handle (e : event) (a : app) : option app :=
  match e with
  | EvInput value => Some (on_dom (set_pokemonInput value) a)
  | EvBlur => Some (on_dom (set_input_focused false) a)
  | EvSubmit => Some (searchPokemon a)
  | EvKeypress key => Some (on_keypress key a)
  | EvClickRandom k => if valid_draw k then Some (getRandomPokemon k a) else None
  | EvClickHelp => Some (on_dom showHelp a)
  | EvClickCloseHelp => Some (on_dom hideHelp a)
  | EvClickHelpSection t => Some (on_helpSection_click t a)
  | EvKeydown key c m k => if valid_draw k then Some (on_keydown key c m k a) else None
  | EvFetchSettled i o =>
      t ← app_fetches a !! i;
      Some (resume (ft_k t) o (set_fetches (delete i (app_fetches a)) a))
  | EvImage i loaded => image_event i loaded a
  | EvOnline => Some (on_online a)
  | EvOffline => Some (on_offline a)
  | EvLoad => Some (on_load a)
  end.

(** A sequence of turns. *)
Fixpoint run (es : list event) (a : app) : option app :=
  match es with
  | [] => Some a
  | e :: es' => a' ← handle e a; run es' a'
  end.

(** The states the program can be in, from the page as loaded. *)
Inductive reachable (page : dom) : app → Prop :=
| reachable_init : reachable page (constructor page)
| reachable_step a e a' : reachable page a → step a e a' → reachable page a'.

(** ** Lemmas on the handlers *)

(** The state the listener of [DOMContentLoaded] leaves is where the event
    loop starts. *)
Lemma reachable_DOMContentLoaded (page : dom) : reachable page (on_DOMContentLoaded page).
Proof. apply reachable_init. Qed.

Lemma on_dom_id (a : app) : on_dom (λ d, d) a = a.
Proof. by destruct a. Qed.

(** The three tests of the [keydown] handler exclude each other, so the
    handler does one thing at most. *)
Lemma on_keydown_cases (key : string) (c m : bool) (k : Z) (a : app) :
  on_keydown key c m k a =
    if (c || m) && String.eqb key "k" then on_dom (set_input_focused true) a
    else if (c || m) && String.eqb key "r" then getRandomPokemon k a
    else if String.eqb key "Escape" && helpSection (shown a) then on_dom hideHelp a
    else a.
Proof.
  unfold on_keydown.
  destruct (String.eqb_spec key "k") as [->|_]; [by destruct (c || m)|].
  destruct (String.eqb_spec key "r") as [->|_]; [by destruct (c || m)|].
  rewrite !andb_false_r. destruct (String.eqb key "Escape"); [|done].
  by destruct (helpSection _).
Qed.

Lemma image_event_Some (i : nat) (loaded : bool) (a a' : app) :
  image_event i loaded a = Some a' ↔
  ∃ t, app_images a !! i = Some t ∧
       a' = (if loaded then image_onload t else image_onerror t)
              (set_images (delete i (app_images a)) a).
Proof.
  unfold image_event. destruct (app_images a !! i) as [t|]; simpl.
  - split; [intros [= <-]; exists t; by destruct loaded|].
    intros (? & [= <-] & ->). by destruct loaded.
  - split; [done|by intros (? & ? & _)].
Qed.

(** The relation and the function agree. *)
Lemma step_handle (a : app) (e : event) (a' : app) : step a e a' ↔ handle e a = Some a'.
Proof.
  split.
  - destruct 1; simpl; rewrite ?H; done.
  - destruct e; simpl; intros He; repeat case_match; simplify_eq/=; try by constructor.
    destruct (app_fetches a !! i) eqn:E; simplify_eq/=. by constructor.
Qed.

Lemma run_app (es es' : list event) (a : app) :
  run (es ++ es') a = run es a ≫= run es'.
Proof.
  revert a. induction es as [|e es IH]; intros a; simpl; [done|].
  destruct (handle e a); simpl; [apply IH|done].
Qed.

Lemma reachable_run (page : dom) (es : list event) (a a' : app) :
  reachable page a → run es a = Some a' → reachable page a'.
Proof.
  revert a. induction es as [|e es IH]; intros a Ha; simpl; [by intros [= <-]|].
  destruct (handle e a) as [a1|] eqn:E; simpl; [|done].
  apply IH. eapply reachable_step; [done|by apply step_handle].
Qed.

Lemma reachable_run_init (page : dom) (es : list event) (a : app) :
  run es (constructor page) = Some a → reachable page a.
Proof. apply reachable_run, reachable_init. Qed.

(** Every reachable state is reached by a sequence of events. *)
Lemma reachable_trace (page : dom) (a : app) :
  reachable page a → ∃ es, run es (constructor page) = Some a.
Proof.
  induction 1 as [|a e a' _ [es Hes] Hstep]; [by exists []|].
  exists (es ++ [e]). rewrite run_app, Hes. simpl.
  apply step_handle in Hstep. by rewrite Hstep.
Qed.

(** ** What a turn does to each part of the state *)

Lemma resume_unfold (k : continuation) (o : fetch_outcome) (a : app) :
  resume k o a =
    match fetchPokemon o with
    | Ok p =>
        on_dom hideLoading
          (on_dom (match k with KSearch _ => set_pokemonInput "" | KRandom => λ d, d end)
             (showPokemon p a))
    | Throw m =>
        on_dom hideLoading
          (on_dom (showError (Some (match k with
                                    | KSearch query => search_error_message query m
                                    | KRandom => msg_random
                                    end)))
             (console_error [ArgString (match k with
                                        | KSearch _ => "Error fetching Pokemon:"
                                        | KRandom => "Error fetching random Pokemon:"
                                        end); ArgError m] a))
    end.
Proof.
  destruct k; unfold resume, searchPokemon_resume, getRandomPokemon_resume, try_catch;
    destruct (fetchPokemon o); rewrite ?on_dom_id; reflexivity.
Qed.

Lemma shown_resume (k : continuation) (o : fetch_outcome) (a : app) :
  shown (resume k o a) =
    if is_Ok (fetchPokemon o) then Sections false false true false
    else Sections false true false false.
Proof.
  rewrite resume_unfold. destruct (fetchPokemon o); rewrite ?showPokemon_spec; by destruct k.
Qed.

Lemma searchBtn_resume (k : continuation) (o : fetch_outcome) (a : app) :
  searchBtn (app_dom (resume k o a)) = Button false "Search Pokemon".
Proof.
  rewrite resume_unfold. destruct (fetchPokemon o); rewrite ?showPokemon_spec; by destruct k.
Qed.

Lemma app_fetches_resume (k : continuation) (o : fetch_outcome) (a : app) :
  app_fetches (resume k o a) = app_fetches a.
Proof.
  rewrite resume_unfold. destruct (fetchPokemon o); by rewrite ?showPokemon_spec.
Qed.

Lemma app_images_resume (k : continuation) (o : fetch_outcome) (a : app) :
  app_images (resume k o a) =
    app_images a ++
    match fetchPokemon o with Ok p => [first_image_task p] | Throw _ => [] end.
Proof.
  rewrite resume_unfold. destruct (fetchPokemon o); rewrite ?showPokemon_spec; simpl;
    by rewrite ?app_nil_r.
Qed.

Lemma dom_card_resume (k : continuation) (o : fetch_outcome) (a : app) :
  dom_card (app_dom (resume k o a)) =
    match fetchPokemon o with Ok p => card_of p | Throw _ => dom_card (app_dom a) end.
Proof.
  rewrite resume_unfold. destruct (fetchPokemon o); rewrite ?showPokemon_spec; by destruct k.
Qed.

Lemma image_handler_frame (loaded : bool) (t : image_task) (a : app) :
  let a' := (if loaded then image_onload t else image_onerror t) a in
  shown a' = shown a ∧ searchBtn (app_dom a') = searchBtn (app_dom a) ∧
  dom_card (app_dom a') = dom_card (app_dom a) ∧ app_fetches a' = app_fetches a ∧
  errorText (app_dom a') = errorText (app_dom a) ∧
  pokemonInput (app_dom a') = pokemonInput (app_dom a).
Proof.
  destruct loaded; simpl; [done|].
  unfold image_onerror, tryLoadImage. by case_match.
Qed.

Lemma app_images_image_onerror (t : image_task) (a : app) :
  app_images (image_onerror t a) =
    app_images a ++
    if (length (it_sources t) <=? it_index t + 1)%nat then []
    else [ImageTask (it_sources t) (it_index t + 1) (it_pokemon t)].
Proof.
  unfold image_onerror, tryLoadImage. case_match; simpl; [by rewrite app_nil_r|done].
Qed.

(** ** Lemmas on the query and on the random id *)

Lemma read_query_normalized (a : app) : toLowerCase (trim (read_query a)) = read_query a.
Proof.
  unfold read_query. by rewrite trim_toLowerCase, trim_idemp, toLowerCase_idemp.
Qed.

Lemma read_query_empty_iff (a : app) :
  truthy_string (read_query a) = false ↔
  string_forallb Ascii.is_space (pokemonInput (app_dom a)) = true.
Proof.
  unfold read_query. rewrite truthy_string_is_empty, negb_false_iff, is_empty_true.
  rewrite <-trim_empty_iff. unfold toLowerCase. by destruct (trim _).
Qed.

Lemma randomId_bounds (k : Z) : valid_draw k = true → (1 ≤ randomId k ≤ 1010)%Z.
Proof.
  unfold valid_draw, randomId. intros [Hlo Hhi]%andb_true_iff.
  apply Z.leb_le in Hlo. apply Z.ltb_lt in Hhi.
  destruct (Z.le_gt_cases (2 ^ 53) (k * 1010)) as [Hbig|Hsmall].
  - pose proof (round53_near (k * 1010)).
    assert (0 ≤ round53 (k * 1010) / 2 ^ 53 < 1010)%Z; [|lia].
    split; [apply Z.div_pos; lia|apply Z.div_lt_upper_bound; lia].
  - rewrite round53_exact by lia. rewrite Z.div_small by lia. lia.
Qed.
