(* ===== verification/Random.v ===== *)
(** * Random: the id of a random search

    [getRandomPokemon] computes [Math.floor(Math.random() * 1010) + 1] (line
    145).  A draw of [Math.random()] is [k / 2^53] for an integer [k] from
    0 to [2^53 - 1]; the product is a double, so [randomId] rounds
    [k * 1010] to 53 significant bits before the floor.  [exact_id] is the
    id exact arithmetic gives.  The theorems compare the two: the id of the
    code is the exact one except for at most one draw below each multiple
    of [2^53], it is never more than one above, every id from 1 to 1010 is
    drawn, and the draws that give an id are, up to one, the [2^53 / 1010]
    the exact computation gives it. *)

From S2P Require Import Prelude JsRuntime Fetcher Controller.

(** ** Definitions *)

(** The id in exact arithmetic: [floor(k * 1010 / 2^53) + 1]. *)
Definition exact_id (k : Z) : Z := (k * 1010 / 2 ^ 53 + 1)%Z.

Local Open Scope Z_scope.

(** ** Lemmas *)

Lemma valid_draw_range (k : Z) : valid_draw k = true → 0 ≤ k * 1010 < 2 ^ 63.
Proof. unfold valid_draw. intros [?%Z.leb_le ?%Z.ltb_lt]%andb_true_iff. lia. Qed.

Lemma div_between (a b q : Z) : 0 < b → a / b = q ↔ q * b ≤ a < (q + 1) * b.
Proof.
  intros Hb. split.
  - intros <-. pose proof (Z.mul_div_le a b Hb). pose proof (Z.mul_succ_div_gt a b Hb). lia.
  - intros H. symmetry. apply Z.div_unique with (r := a - b * q); lia.
Qed.

(** A product at least 512 below the next multiple of [2^53] keeps its
    quotient when it is rounded. *)
Lemma round53_div (p q : Z) :
  0 ≤ p < 2 ^ 63 → q * 2 ^ 53 ≤ p < (q + 1) * 2 ^ 53 - 512 → round53 p / 2 ^ 53 = q.
Proof.
  intros Hp [Hlo Hhi]. apply div_between; [done|].
  pose proof (round53_near p Hp). pose proof (round53_floor p q Hp Hlo). lia.
Qed.

(** The quotient of the rounded product is the exact one, or the next when
    the product is less than 512 below a multiple of [2^53]. *)
Lemma round53_div_inv (p q : Z) :
  0 ≤ p < 2 ^ 63 → round53 p / 2 ^ 53 = q → q * 2 ^ 53 - 512 ≤ p < (q + 1) * 2 ^ 53.
Proof.
  intros Hp [Hlo Hhi]%div_between; [|done]. pose proof (round53_near p Hp). split; [lia|].
  destruct (Z.lt_ge_cases p ((q + 1) * 2 ^ 53)) as [|Hge]; [done|].
  pose proof (round53_floor p (q + 1) Hp Hge). lia.
Qed.

(** ** Properties *)

(** C24: the ids are drawn uniformly, up to one draw each.  A draw whose
    exact product lies in the interval of [n], at least 512 below its end,
    gives [n]; and a draw that gives [n] has its exact product in the
    interval of [n] or less than 512 below it.  As the products of
    successive draws are 1010 apart, each id from 1 to 1010 is given by the
    [2^53 / 1010] draws of exact arithmetic, give or take one. *)
Theorem randomId_uniform (n k : Z) :
  valid_draw k = true →
  ((n - 1) * 2 ^ 53 ≤ k * 1010 < n * 2 ^ 53 - 512 → randomId k = n) ∧
  (randomId k = n → (n - 1) * 2 ^ 53 - 512 ≤ k * 1010 < n * 2 ^ 53).
Proof.
  intros Hk%valid_draw_range. unfold randomId. split.
  - intros H. rewrite (round53_div _ (n - 1)); [lia|done|lia].
  - intros H. pose proof (round53_div_inv (k * 1010) (n - 1) Hk). lia.
Qed.

Lemma randomId_uniform_witness : randomId 214032920667095 = 25.
Proof. apply (randomId_uniform 25 214032920667095); [reflexivity|lia]. Defined.

(** The id of the code is the exact one unless the product is less than
    512 below a multiple of [2^53]. *)
Theorem randomId_exact (k : Z) :
  valid_draw k = true → (k * 1010) mod 2 ^ 53 < 2 ^ 53 - 512 → randomId k = exact_id k.
Proof.
  intros Hk%valid_draw_range Hm. unfold randomId, exact_id. f_equal.
  apply round53_div; [done|].
  pose proof (Z.div_mod (k * 1010) (2 ^ 53)). pose proof (Z.mod_pos_bound (k * 1010) (2 ^ 53)). lia.
Qed.

Lemma randomId_exact_witness : randomId 7 = exact_id 7.
Proof. apply (randomId_exact 7); reflexivity. Defined.

(** The id is the one exact arithmetic gives, or the next: the product is
    rounded to a double before the floor, and a product just below an
    integer rounds to it. *)
Theorem randomId_near (k : Z) :
  valid_draw k = true → exact_id k ≤ randomId k ≤ exact_id k + 1.
Proof.
  intros Hk%valid_draw_range. unfold randomId, exact_id.
  pose proof (round53_div_inv (k * 1010) _ Hk eq_refl) as [Hlo Hhi].
  pose proof (Z.div_le_lower_bound (k * 1010 + 512) (2 ^ 53) (round53 (k * 1010) / 2 ^ 53)).
  pose proof (Z.div_lt_upper_bound (k * 1010) (2 ^ 53) (round53 (k * 1010) / 2 ^ 53 + 1)).
  pose proof (Z.div_le_mono (k * 1010 + 512) (k * 1010 + 2 ^ 53) (2 ^ 53)).
  replace ((k * 1010 + 2 ^ 53) / 2 ^ 53) with (k * 1010 / 2 ^ 53 + 1) in *
    by (rewrite <-(Z.div_add _ 1); [done|lia]).
  lia.
Qed.

Lemma randomId_near_witness : exact_id 7 ≤ randomId 7 ≤ exact_id 7 + 1.
Proof. apply (randomId_near 7). reflexivity. Defined.

(** Every id from 1 to 1010 is drawn by some value of [Math.random()]. *)
Theorem randomId_surjective (n : Z) :
  1 ≤ n ≤ 1010 → ∃ k, valid_draw k = true ∧ randomId k = n.
Proof.
  intros Hn. exists ((n - 1) * 2 ^ 53 / 1010 + 1).
  pose proof (Z.div_mod ((n - 1) * 2 ^ 53) 1010) as Hdm.
  pose proof (Z.mod_pos_bound ((n - 1) * 2 ^ 53) 1010) as Hm.
  assert (valid_draw ((n - 1) * 2 ^ 53 / 1010 + 1) = true) as Hk.
  { apply andb_true_iff. split; [apply Z.leb_le|apply Z.ltb_lt]; lia. }
  split; [done|]. unfold randomId.
  rewrite (round53_div _ (n - 1)); [lia|by apply valid_draw_range|lia].
Qed.

Lemma randomId_surjective_witness : ∃ k, valid_draw k = true ∧ randomId k = 1010.
Proof. apply (randomId_surjective 1010). lia. Defined.

(** A draw for which the rounding shows: the exact product is below 1009,
    the double is 1009, and the id is 1010. *)
Theorem randomId_rounds_up :
  valid_draw 8998281235676892 = true ∧
  randomId 8998281235676892 = 1010 ∧
  exact_id 8998281235676892 = 1009.
Proof. by vm_compute. Qed.
