(* ===== verification/Invariants.v ===== *)
(** * Invariants: what holds in every reachable state

    Every turn of the event loop is of one of seven kinds ([turn]); a property
    kept by each kind is an [Invariant], and an invariant that holds of the
    constructed state holds of every reachable state.  The invariants of the
    display, of the button, of the card and of the pending tasks are
    instances. *)

From S2P Require Import Prelude JsRuntime Formatter State View Images Card Fetcher Controller.

(** ** The kinds of turns

    Every turn of the event loop is of one of seven kinds.  The invariants
    are proved once per kind. *)

(** Page updates that leave the loading, error and card sections, the
    button, the error text, the card and the image alone. *)
Inductive quiet : (dom → dom) → Prop :=
| quiet_id : quiet (λ d, d)
| quiet_input value : quiet (set_pokemonInput value)
| quiet_focus b : quiet (set_input_focused b)
| quiet_showHelp : quiet showHelp
| quiet_hideHelp : quiet hideHelp.

Inductive turn (a : app) : app → Prop :=
| turn_quiet f :
    quiet f → turn a (on_dom f a)
| turn_prompt :
    truthy_string (read_query a) = false →
    turn a (on_dom (showError (Some msg_empty_query)) a)
| turn_search :
    truthy_string (read_query a) = true →
    turn a (start_fetch (fetch_url (read_query a)) (KSearch (read_query a))
              (on_dom showLoading a))
| turn_random k :
    valid_draw k = true →
    turn a (start_fetch (fetch_url (toString (randomId k))) KRandom (on_dom showLoading a))
| turn_settled (i : nat) o t :
    app_fetches a !! i = Some t →
    turn a (resume (ft_k t) o (set_fetches (delete i (app_fetches a)) a))
| turn_image (i : nat) (loaded : bool) t :
    app_images a !! i = Some t →
    turn a ((if loaded then image_onload t else image_onerror t)
              (set_images (delete i (app_images a)) a))
| turn_console m args :
    turn a (console m args a).

(** A property of states kept by every turn. *)
Class Invariant (I : app → Prop) : Prop :=
  invariant_turn : ∀ a a', I a → turn a a' → I a'.

Lemma searchPokemon_turn (a : app) : turn a (searchPokemon a).
Proof.
  unfold searchPokemon. destruct (truthy_string (read_query a)) eqn:E; simpl.
  - by apply turn_search.
  - by apply turn_prompt.
Qed.

Lemma getRandomPokemon_turn (k : Z) (a : app) :
  valid_draw k = true → turn a (getRandomPokemon k a).
Proof. apply turn_random. Qed.

Lemma quiet_turn (f : dom → dom) (a : app) : quiet f → turn a (on_dom f a).
Proof. apply turn_quiet. Qed.

Lemma turn_refl (a : app) : turn a a.
Proof. rewrite <-(on_dom_id a) at 2. apply turn_quiet, quiet_id. Qed.

#[export] Hint Constructors quiet : pokedex.
#[export] Hint Resolve searchPokemon_turn getRandomPokemon_turn quiet_turn turn_refl : pokedex.

Lemma on_keypress_turn (key : string) (a : app) : turn a (on_keypress key a).
Proof. unfold on_keypress. destruct (String.eqb key "Enter"); auto with pokedex. Qed.

Lemma on_helpSection_click_turn (t : bool) (a : app) : turn a (on_helpSection_click t a).
Proof. destruct t; simpl; auto with pokedex. Qed.

Lemma on_keydown_turn (key : string) (c m : bool) (k : Z) (a : app) :
  valid_draw k = true → turn a (on_keydown key c m k a).
Proof. intros Hk. rewrite on_keydown_cases. repeat case_match; auto with pokedex. Qed.

(** Every step is a turn. *)
Lemma step_turn (a : app) (e : event) (a' : app) : step a e a' → turn a a'.
Proof.
  destruct 1; auto using on_keypress_turn, on_helpSection_click_turn, on_keydown_turn
    with pokedex.
  - by eapply turn_settled.
  - apply image_event_Some in H as (t & Ht & ->). by apply turn_image.
  - apply turn_console.
  - apply turn_console.
Qed.

Lemma invariant_reachable (I : app → Prop) `{!Invariant I} (page : dom) (a : app) :
  I (constructor page) → reachable page a → I a.
Proof.
  intros Hinit. induction 1 as [|a e a' _ IH Hstep]; [done|].
  eapply invariant_turn; [done|by eapply step_turn].
Qed.

Lemma invariant_and (I J : app → Prop) `{!Invariant I, !Invariant J} :
  Invariant (λ a, I a ∧ J a).
Proof. intros a a' [HI HJ] Ht. split; by eapply invariant_turn. Qed.



Lemma quiet_frame (f : dom → dom) (d : dom) :
  quiet f →
  set_helpSection false (dom_sections (f d)) = set_helpSection false (dom_sections d) ∧
  searchBtn (f d) = searchBtn d ∧ errorText (f d) = errorText d ∧
  dom_card (f d) = dom_card d ∧ pokemonImage (f d) = pokemonImage d.
Proof. by destruct 1. Qed.


(** ** The invariants *)

(** At most one of the loading, error and card sections is shown. *)
Definition display_exclusive (a : app) : Prop := exclusive (shown a).

(** A shown loading section goes with a disabled button that says so. *)
Definition loading_means_busy (a : app) : Prop :=
  loading (shown a) = true → searchBtn (app_dom a) = Button true "Searching...".

(** A disabled button goes with a fetch in flight. *)
Definition busy_means_pending (a : app) : Prop :=
  disabled (searchBtn (app_dom a)) = true → app_fetches a ≠ [].

(** A shown card is the card of a record, whole. *)
Definition card_complete (a : app) : Prop :=
  pokemonCard (shown a) = true → ∃ p, dom_card (app_dom a) = card_of p.

(** A pending image is loading one of the sources of its record. *)
Definition image_task_wf (t : image_task) : Prop :=
  it_sources t = imageSources (it_pokemon t) ∧
  (it_index t < length (it_sources t))%nat.

Definition image_tasks_wf (a : app) : Prop := Forall image_task_wf (app_images a).

(** A pending image has a source left, of six at most. *)
Definition image_task_live (t : image_task) : Prop :=
  (it_index t < length (it_sources t) ≤ 6)%nat.

Definition images_live (a : app) : Prop := Forall image_task_live (app_images a).

(** A pending fetch asks for the normalized, non-empty query of a search, or
    for an id from 1 to 1010. *)
Definition fetch_task_wf (t : fetch_task) : Prop :=
  match ft_k t with
  | KSearch query =>
      ft_url t = fetch_url query ∧ query ≠ "" ∧ toLowerCase (trim query) = query
  | KRandom => ∃ n, (1 ≤ n ≤ 1010)%Z ∧ ft_url t = fetch_url (toString n)
  end.

Definition fetch_tasks_wf (a : app) : Prop := Forall fetch_task_wf (app_fetches a).

(** ** Preservation *)

(** What a turn does to the display, the button, the card and the pending
    fetches: it leaves them (but for the help section), or it is the prompt
    for a query, a request, a record shown, or a failure shown. *)
Definition busy_button : button := Button true "Searching...".
Definition idle_button : button := Button false "Search Pokemon".

Inductive turn_kind (a a' : app) : Prop :=
| kind_frame :
    set_helpSection false (shown a') = set_helpSection false (shown a) →
    searchBtn (app_dom a') = searchBtn (app_dom a) →
    dom_card (app_dom a') = dom_card (app_dom a) →
    app_fetches a' = app_fetches a →
    turn_kind a a'
| kind_prompt :
    shown a' = Sections false true false false →
    searchBtn (app_dom a') = searchBtn (app_dom a) →
    dom_card (app_dom a') = dom_card (app_dom a) →
    app_fetches a' = app_fetches a →
    turn_kind a a'
| kind_request t :
    shown a' = Sections true false false false →
    searchBtn (app_dom a') = busy_button →
    dom_card (app_dom a') = dom_card (app_dom a) →
    app_fetches a' = app_fetches a ++ [t] →
    turn_kind a a'
| kind_shown (i : nat) p :
    shown a' = Sections false false true false →
    searchBtn (app_dom a') = idle_button →
    dom_card (app_dom a') = card_of p →
    app_fetches a' = delete i (app_fetches a) →
    turn_kind a a'
| kind_failed (i : nat) :
    shown a' = Sections false true false false →
    searchBtn (app_dom a') = idle_button →
    dom_card (app_dom a') = dom_card (app_dom a) →
    app_fetches a' = delete i (app_fetches a) →
    turn_kind a a'.

Lemma turn_classify (a a' : app) : turn a a' → turn_kind a a'.
Proof.
  destruct 1 as [f Hf| | |k Hk|i o t Ht|i loaded t Ht|m args]; [| | | | | |by apply kind_frame].
  - destruct (quiet_frame f (app_dom a) Hf) as (?&?&?&?&?). by apply kind_frame.
  - by apply kind_prompt.
  - by eapply kind_request.
  - by eapply kind_request.
  - set (a0 := set_fetches _ a).
    pose proof (shown_resume (ft_k t) o a0) as Hs.
    pose proof (dom_card_resume (ft_k t) o a0) as Hc.
    destruct (fetchPokemon o) as [p|m]; simpl in Hs.
    + by apply (kind_shown _ _ i p); rewrite ?searchBtn_resume, ?app_fetches_resume.
    + by apply (kind_failed _ _ i); rewrite ?searchBtn_resume, ?app_fetches_resume.
  - destruct (image_handler_frame loaded t (set_images (delete i (app_images a)) a))
      as (Hs & Hb & Hc & Hf & _).
    apply kind_frame; [by rewrite Hs|by rewrite Hb|by rewrite Hc|by rewrite Hf].
Qed.

Lemma exclusive_help_irrel (s s' : sections) :
  set_helpSection false s' = set_helpSection false s → exclusive s → exclusive s'.
Proof. destruct s, s'. by intros [= -> -> ->]. Qed.

Lemma loading_help_irrel (s s' : sections) :
  set_helpSection false s' = set_helpSection false s → loading s' = loading s.
Proof. destruct s, s'. by intros [= -> -> ->]. Qed.

Lemma pokemonCard_help_irrel (s s' : sections) :
  set_helpSection false s' = set_helpSection false s → pokemonCard s' = pokemonCard s.
Proof. destruct s, s'. by intros [= -> -> ->]. Qed.

#[export] Instance display_exclusive_invariant : Invariant display_exclusive.
Proof.
  intros a a' Ha [Hs _ _ _|Hs _ _ _|t Hs _ _ _|i p Hs _ _ _|i Hs _ _ _]%turn_classify;
    unfold display_exclusive; [by eapply exclusive_help_irrel|by rewrite Hs..].
Qed.

#[export] Instance loading_means_busy_invariant : Invariant loading_means_busy.
Proof.
  intros a a' Ha [Hs Hb _ _|Hs _ _ _|t Hs Hb _ _|i p Hs _ _ _|i Hs _ _ _]%turn_classify;
    unfold loading_means_busy in *; rewrite ?Hs; try done.
  rewrite (loading_help_irrel _ _ Hs), Hb. done.
Qed.

#[export] Instance busy_means_pending_invariant : Invariant busy_means_pending.
Proof.
  intros a a' Ha [_ Hb _ Hf|_ Hb _ Hf|t _ Hb _ Hf|i p _ Hb _ _|i _ Hb _ _]%turn_classify;
    unfold busy_means_pending in *; rewrite Hb, ?Hf; try done.
  intros _. by destruct (app_fetches a).
Qed.

#[export] Instance card_complete_invariant : Invariant card_complete.
Proof.
  intros a a' Ha [Hs _ Hc _|Hs _ _ _|t Hs _ _ _|i p Hs _ Hc _|i Hs _ _ _]%turn_classify;
    unfold card_complete in *; rewrite ?Hs, ?Hc; try done; [|by eauto].
  by rewrite (pokemonCard_help_irrel _ _ Hs).
Qed.

Lemma first_image_task_wf (p : pokemon) : image_task_wf (first_image_task p).
Proof. split; [done|]. pose proof (imageSources_length p). simpl. lia. Qed.

#[export] Instance image_tasks_wf_invariant : Invariant image_tasks_wf.
Proof.
  intros a a' Ha. unfold image_tasks_wf in *.
  destruct 1 as [f Hf| | |k Hk|i o t Ht|i loaded t Ht|m args]; try done.
  - rewrite app_images_resume. apply Forall_app. split; [done|].
    case_match; [|done]. repeat constructor. apply first_image_task_wf.
  - assert (Forall image_task_wf (delete i (app_images a))) as Hdel by by apply Forall_delete.
    destruct loaded; [done|]. rewrite app_images_image_onerror.
    apply Forall_app. split; [done|]. case_match eqn:E; [done|].
    apply Nat.leb_gt in E. repeat constructor; simpl; [|done].
    by eapply Forall_lookup_1 in Ha as [? _].
Qed.

Lemma image_task_wf_live (t : image_task) : image_task_wf t → image_task_live t.
Proof.
  intros [Hs Hi]. split; [done|]. rewrite Hs. apply imageSources_length.
Qed.

Lemma image_tasks_wf_live (a : app) : image_tasks_wf a → images_live a.
Proof. intros H. eapply Forall_impl; [exact H|apply image_task_wf_live]. Qed.

#[export] Instance images_live_invariant : Invariant images_live.
Proof.
  intros a a' Ha. unfold images_live in *.
  destruct 1 as [f Hf| | |k Hk|i o t Ht|i loaded t Ht|m args]; try done.
  - rewrite app_images_resume. apply Forall_app. split; [done|].
    case_match; [|done]. apply Forall_singleton, image_task_wf_live, first_image_task_wf.
  - assert (Forall image_task_live (delete i (app_images a))) as Hdel by by apply Forall_delete.
    destruct loaded; [done|]. rewrite app_images_image_onerror.
    apply Forall_app. split; [done|]. case_match eqn:E; [done|].
    apply Nat.leb_gt in E. apply Forall_singleton. unfold image_task_live. simpl.
    eapply Forall_lookup_1 in Ha as [_ ?]; [|done]. lia.
Qed.

#[export] Instance fetch_tasks_wf_invariant : Invariant fetch_tasks_wf.
Proof.
  intros a a' Ha. unfold fetch_tasks_wf in *.
  destruct 1 as [f Hf| |Hq|k Hk|i o t Ht|i loaded t Ht|m args]; try done.
  - apply Forall_app. split; [done|]. repeat constructor; simpl; [|apply read_query_normalized].
    intros E. by rewrite E in Hq.
  - apply Forall_app. split; [done|]. repeat constructor.
    exists (randomId k). split; [by apply randomId_bounds|done].
  - rewrite app_fetches_resume. by apply Forall_delete.
  - by destruct (image_handler_frame loaded t (set_images (delete i (app_images a)) a))
      as (_ & _ & _ & -> & _).
Qed.

(** The constructed state satisfies the invariants; for the button, when
    the page has it enabled. *)
Lemma constructor_invariants (page : dom) :
  display_exclusive (constructor page) ∧ loading_means_busy (constructor page) ∧
  card_complete (constructor page) ∧ image_tasks_wf (constructor page) ∧
  fetch_tasks_wf (constructor page).
Proof. split_and!; by try constructor. Qed.

Lemma constructor_busy_means_pending (page : dom) :
  disabled (searchBtn page) = false → busy_means_pending (constructor page).
Proof. intros H. unfold busy_means_pending. simpl. by rewrite H. Qed.

(** ** A run for the witnesses

    The user types a name with spaces around it and submits; the record
    arrives; its first image fails. *)
Definition sample_ok : fetch_outcome := FetchResponse 200 (BodyJson sample_pokemon).

Definition sample_trace : list event :=
  [EvInput " Pikachu "; EvSubmit; EvFetchSettled 0 sample_ok; EvImage 0 false].

Definition sample_state : app :=
  default (constructor sample_page) (run sample_trace (constructor sample_page)).

Lemma sample_state_reachable : reachable sample_page sample_state.
Proof. apply reachable_run_init with sample_trace. vm_compute. reflexivity. Qed.

(** A second run, stopped while the fetch is in flight. *)
Definition sample_loading_state : app :=
  default (constructor sample_page)
    (run [EvInput "25"; EvKeypress "Enter"] (constructor sample_page)).

Lemma sample_loading_state_reachable : reachable sample_page sample_loading_state.
Proof.
  apply reachable_run_init with [EvInput "25"; EvKeypress "Enter"]. vm_compute. reflexivity.
Qed.

(** ** Properties *)

(** C1: in every state the program can reach, from any page, at most one of
    the loading, error and card sections is shown. *)
Theorem display_exclusive_reachable (page : dom) (a : app) :
  reachable page a → exclusive (shown a).
Proof.
  apply (invariant_reachable display_exclusive). apply constructor_invariants.
Qed.

Lemma display_exclusive_reachable_witness : exclusive (shown sample_state).
Proof.
  apply (display_exclusive_reachable sample_page sample_state sample_state_reachable).
Defined.

(** In every reachable state, a shown loading section goes with a
    disabled search button whose text is ["Searching..."]. *)
Theorem loading_means_busy_reachable (page : dom) (a : app) :
  reachable page a →
  loading (shown a) = true → searchBtn (app_dom a) = Button true "Searching...".
Proof.
  apply (invariant_reachable loading_means_busy). apply constructor_invariants.
Qed.

Lemma loading_means_busy_reachable_witness :
  searchBtn (app_dom sample_loading_state) = Button true "Searching...".
Proof.
  apply (loading_means_busy_reachable sample_page sample_loading_state
    sample_loading_state_reachable). reflexivity.
Defined.

(** When the page has the search button enabled, in every reachable
    state a disabled button goes with a fetch in flight: the button is never
    left disabled with nothing to re-enable it. *)
Theorem busy_means_pending_reachable (page : dom) (a : app) :
  disabled (searchBtn page) = false →
  reachable page a →
  disabled (searchBtn (app_dom a)) = true → app_fetches a ≠ [].
Proof.
  intros Hpage. apply (invariant_reachable busy_means_pending).
  by apply constructor_busy_means_pending.
Qed.

Lemma busy_means_pending_reachable_witness : app_fetches sample_loading_state ≠ [].
Proof.
  apply (busy_means_pending_reachable sample_page sample_loading_state);
    [reflexivity|apply sample_loading_state_reachable|reflexivity].
Defined.

(** C29: in every reachable state a shown card is the card of one record,
    whole: name, id, height, weight, experience, types and abilities are
    those of the same record. *)
Theorem card_complete_reachable (page : dom) (a : app) :
  reachable page a →
  pokemonCard (shown a) = true → ∃ p, dom_card (app_dom a) = card_of p.
Proof.
  apply (invariant_reachable card_complete). apply constructor_invariants.
Qed.

Lemma card_complete_reachable_witness :
  ∃ p, dom_card (app_dom sample_state) = card_of p.
Proof.
  apply (card_complete_reachable sample_page sample_state sample_state_reachable).
  reflexivity.
Defined.

(** In every reachable state each pending image is loading a source of
    its record, at an index inside the list, so [sources[index]] is never
    read out of range. *)
Theorem image_tasks_wf_reachable (page : dom) (a : app) :
  reachable page a →
  Forall (λ t, it_sources t = imageSources (it_pokemon t) ∧
               (it_index t < length (it_sources t))%nat) (app_images a).
Proof.
  apply (invariant_reachable image_tasks_wf). apply constructor_invariants.
Qed.

Lemma image_tasks_wf_reachable_witness :
  Forall (λ t, it_sources t = imageSources (it_pokemon t) ∧
               (it_index t < length (it_sources t))%nat) (app_images sample_state).
Proof. apply (image_tasks_wf_reachable sample_page sample_state sample_state_reachable). Defined.

(** In every reachable state each fetch in flight asks for the base URL
    followed by the trimmed, lower-cased, non-empty query of a search, or by
    the decimal text of an id from 1 to 1010. *)
Theorem fetch_tasks_wf_reachable (page : dom) (a : app) :
  reachable page a →
  Forall (λ t,
    match ft_k t with
    | KSearch query =>
        ft_url t = fetch_url query ∧ query ≠ "" ∧ toLowerCase (trim query) = query
    | KRandom => ∃ n, (1 ≤ n ≤ 1010)%Z ∧ ft_url t = fetch_url (toString n)
    end) (app_fetches a).
Proof.
  apply (invariant_reachable fetch_tasks_wf). apply constructor_invariants.
Qed.

Lemma fetch_tasks_wf_reachable_witness :
  Forall (λ t,
    match ft_k t with
    | KSearch query =>
        ft_url t = fetch_url query ∧ query ≠ "" ∧ toLowerCase (trim query) = query
    | KRandom => ∃ n, (1 ≤ n ≤ 1010)%Z ∧ ft_url t = fetch_url (toString n)
    end) (app_fetches sample_loading_state).
Proof.
  apply (fetch_tasks_wf_reachable sample_page sample_loading_state
    sample_loading_state_reachable).
Defined.
