(* ===== verification/Lifecycle.v ===== *)
(** * Lifecycle: a request from the event to the page

    What [searchPokemon] and [getRandomPokemon] do on each path: the prompt
    for an empty query, the request, the record shown, the message for each
    class of failure, and the cleanup that runs on every path. *)

From S2P Require Import Prelude JsRuntime Formatter State View Images Card Fetcher Controller.

(** ** Lemmas on the messages *)

Lemma includes_digits_false (c : ascii) (n : string) (z : Z) :
  is_digit c = false → (0 ≤ z)%Z → includes (String c n) (toString z) = false.
Proof.
  intros Hc Hz. apply includes_absent.
  eapply string_forallb_impl, (toString_digits z Hz).
  intros d Hd. apply negb_true_iff, ascii_eqb_false. by intros <-; rewrite Hc in Hd.
Qed.

(** The decimal text of a number from 0 to 999 holds ["404"] only if the
    number is 404. *)
Lemma includes_404_toString (z : Z) :
  (0 ≤ z ≤ 999)%Z → includes "404" (toString z) = true → z = 404%Z.
Proof.
  intros Hz Hinc. apply toString_inj. change (toString 404) with "404".
  apply includes_same_length; [|done].
  pose proof (includes_length _ _ Hinc). pose proof (toString_length_le 2 z).
  simpl in *. lia.
Qed.

Lemma http_error_no_404 (status : Z) :
  (0 ≤ status ≤ 999)%Z → status ≠ 404%Z →
  includes "404" ("HTTP error! status: " +:+ toString status) = false.
Proof.
  intros Hs Hne. rewrite includes_skip by done.
  destruct (includes "404" (toString status)) eqn:E; [|done].
  by apply includes_404_toString in E.
Qed.

Lemma http_error_no_network (status : Z) :
  (0 ≤ status)%Z → includes "network" ("HTTP error! status: " +:+ toString status) = false.
Proof. intros Hs. rewrite includes_skip by done. by apply includes_digits_false. Qed.

(** Nor does the text for a status below zero, which no response has. *)
Lemma http_error_never_network (status : Z) :
  includes "network" ("HTTP error! status: " +:+ toString status) = false.
Proof.
  destruct (Z.lt_ge_cases status 0) as [Hs|Hs]; [|by apply http_error_no_network].
  rewrite toString_neg, includes_skip, (includes_skip _ _ "-") by done.
  apply includes_absent. eapply string_forallb_impl, pretty_N_digits.
  intros d Hd. apply negb_true_iff, ascii_eqb_false. by intros <-.
Qed.

Lemma msg_not_found_includes (query : string) : includes query (msg_not_found query) = true.
Proof.
  unfold msg_not_found. rewrite <-(string_app_assoc "Pokemon " dquote). apply includes_infix.
Qed.

Lemma msg_not_found_head (query : string) : charAt 0 (msg_not_found query) = "P".
Proof. done. Qed.

Lemma msg_not_found_neq (query : string) :
  msg_not_found query ≠ msg_network ∧ msg_not_found query ≠ msg_generic.
Proof. split; intros E; apply (f_equal (charAt 0)) in E; by rewrite msg_not_found_head in E. Qed.

(** ** Lemmas on the two halves of a request *)

Lemma delete_last_app {A} (l : list A) (x : A) : delete (length l) (l ++ [x]) = l.
Proof. induction l as [|y l IH]; simpl; [done|]. by rewrite IH. Qed.

Lemma lookup_last_app {A} (l : list A) (x : A) : (l ++ [x]) !! length l = Some x.
Proof. by rewrite lookup_app_r, Nat.sub_diag. Qed.

(** A fetch that was just started settles: its continuation runs on the
    state with the task taken off the list. *)
Lemma handle_settle_last (url : string) (k : continuation) (o : fetch_outcome) (a : app)
    (n : nat) :
  n = length (app_fetches a) →
  handle (EvFetchSettled n o) (start_fetch url k a) = Some (resume k o (log_request url a)).
Proof.
  intros ->. simpl. rewrite lookup_last_app. simpl. rewrite delete_last_app. by destruct a.
Qed.

Lemma searchPokemon_nonempty (a : app) :
  truthy_string (read_query a) = true →
  searchPokemon a =
    start_fetch (fetch_url (read_query a)) (KSearch (read_query a)) (on_dom showLoading a).
Proof. intros H. unfold searchPokemon. by rewrite H. Qed.

Lemma searchPokemon_empty (a : app) :
  truthy_string (read_query a) = false →
  searchPokemon a = on_dom (showError (Some msg_empty_query)) a.
Proof. intros H. unfold searchPokemon. by rewrite H. Qed.

Lemma read_query_nonempty_iff (a : app) :
  truthy_string (read_query a) = true ↔
  string_forallb Ascii.is_space (pokemonInput (app_dom a)) = false.
Proof.
  rewrite <-not_false_iff_true, read_query_empty_iff. apply not_true_iff_false.
Qed.

(** A search submitted and settled, as one run. *)
Lemma run_search (a : app) (o : fetch_outcome) :
  truthy_string (read_query a) = true →
  run [EvSubmit; EvFetchSettled (length (app_fetches a)) o] a =
    Some (resume (KSearch (read_query a)) o
            (log_request (fetch_url (read_query a)) (on_dom showLoading a))).
Proof.
  intros Hq. cbn [run]. change (handle EvSubmit a) with (Some (searchPokemon a)).
  rewrite searchPokemon_nonempty by done. cbn [mbind option_bind].
  by rewrite (handle_settle_last _ _ _ (on_dom showLoading a)).
Qed.

Lemma run_random (a : app) (k : Z) (o : fetch_outcome) :
  valid_draw k = true →
  run [EvClickRandom k; EvFetchSettled (length (app_fetches a)) o] a =
    Some (resume KRandom o
            (log_request (fetch_url (toString (randomId k))) (on_dom showLoading a))).
Proof.
  intros Hk. cbn [run].
  change (handle (EvClickRandom k) a)
    with (if valid_draw k then Some (getRandomPokemon k a) else None).
  rewrite Hk. cbn [mbind option_bind].
  unfold getRandomPokemon. by rewrite (handle_settle_last _ _ _ (on_dom showLoading a)).
Qed.

(** The state after a record arrived, part by part. *)
Lemma resume_Ok (k : continuation) (o : fetch_outcome) (p : pokemon) (a : app) :
  fetchPokemon o = Ok p →
  let a' := resume k o a in
  shown a' = Sections false false true false ∧
  dom_card (app_dom a') = card_of p ∧
  searchBtn (app_dom a') = Button false "Search Pokemon" ∧
  pokemonInput (app_dom a') =
    match k with KSearch _ => "" | KRandom => pokemonInput (app_dom a) end ∧
  errorText (app_dom a') = errorText (app_dom a) ∧
  app_fetches a' = app_fetches a ∧
  app_images a' = app_images a ++ [first_image_task p] ∧
  app_requests a' = app_requests a ++ [hd "" (imageSources p)].
Proof.
  intros Ho a'. subst a'. rewrite resume_unfold, Ho, showPokemon_spec. by destruct k.
Qed.

(** The state after a failure, part by part. *)
Lemma resume_Throw (k : continuation) (o : fetch_outcome) (m : string) (a : app) :
  fetchPokemon o = Throw m →
  let a' := resume k o a in
  shown a' = Sections false true false false ∧
  errorText (app_dom a') =
    match k with KSearch query => search_error_message query m | KRandom => msg_random end ∧
  searchBtn (app_dom a') = Button false "Search Pokemon" ∧
  pokemonInput (app_dom a') = pokemonInput (app_dom a) ∧
  dom_card (app_dom a') = dom_card (app_dom a) ∧
  pokemonImage (app_dom a') = pokemonImage (app_dom a) ∧
  app_fetches a' = app_fetches a ∧
  app_images a' = app_images a ∧
  app_requests a' = app_requests a.
Proof. intros Ho a'. subst a'. rewrite resume_unfold, Ho. by destruct k. Qed.

Lemma searchPokemon_resume_eq (query : string) (o : fetch_outcome) (a : app) :
  searchPokemon_resume query o a = resume (KSearch query) o a.
Proof. done. Qed.

(** A page with a query typed in, for the witnesses. *)
Definition typed (value : string) : app :=
  on_dom (set_pokemonInput value) (constructor sample_page).

(** ** Properties *)

(** C11: a search with an empty or white-space-only input shows the prompt
    for a name or id in the error section and makes no request: nothing is
    added to the requests or to the fetches in flight, and the button is
    left as it is. *)
Theorem searchPokemon_empty_query (a : app) :
  string_forallb Ascii.is_space (pokemonInput (app_dom a)) = true →
  shown (searchPokemon a) = Sections false true false false ∧
  errorText (app_dom (searchPokemon a)) = "Please enter a Pokemon name or ID number." ∧
  app_requests (searchPokemon a) = app_requests a ∧
  app_fetches (searchPokemon a) = app_fetches a ∧
  searchBtn (app_dom (searchPokemon a)) = searchBtn (app_dom a).
Proof.
  intros Hq%read_query_empty_iff. by rewrite searchPokemon_empty.
Qed.

Lemma searchPokemon_empty_query_witness :
  shown (searchPokemon (typed "   ")) = Sections false true false false ∧
  errorText (app_dom (searchPokemon (typed "   "))) =
    "Please enter a Pokemon name or ID number." ∧
  app_requests (searchPokemon (typed "   ")) = app_requests (typed "   ") ∧
  app_fetches (searchPokemon (typed "   ")) = app_fetches (typed "   ") ∧
  searchBtn (app_dom (searchPokemon (typed "   "))) = searchBtn (app_dom (typed "   ")).
Proof. apply (searchPokemon_empty_query (typed "   ")). reflexivity. Defined.

(** C36: a search with any other input shows the loading section alone,
    disables the button with the text ["Searching..."], and makes exactly
    one request, for the base URL followed by the trimmed, lower-cased input
    as it is. *)
Theorem searchPokemon_request (a : app) :
  string_forallb Ascii.is_space (pokemonInput (app_dom a)) = false →
  let query := toLowerCase (trim (pokemonInput (app_dom a))) in
  shown (searchPokemon a) = Sections true false false false ∧
  searchBtn (app_dom (searchPokemon a)) = Button true "Searching..." ∧
  app_requests (searchPokemon a) = app_requests a ++ [apiBase +:+ query] ∧
  app_fetches (searchPokemon a) =
    app_fetches a ++ [FetchTask (apiBase +:+ query) (KSearch query)] ∧
  app_images (searchPokemon a) = app_images a.
Proof.
  intros Hq%read_query_nonempty_iff query. by rewrite searchPokemon_nonempty.
Qed.

Lemma searchPokemon_request_witness :
  let a := typed " Pikachu " in
  let query := toLowerCase (trim (pokemonInput (app_dom a))) in
  shown (searchPokemon a) = Sections true false false false ∧
  searchBtn (app_dom (searchPokemon a)) = Button true "Searching..." ∧
  app_requests (searchPokemon a) = app_requests a ++ [apiBase +:+ query] ∧
  app_fetches (searchPokemon a) =
    app_fetches a ++ [FetchTask (apiBase +:+ query) (KSearch query)] ∧
  app_images (searchPokemon a) = app_images a.
Proof. apply (searchPokemon_request (typed " Pikachu ")). reflexivity. Defined.

(** C2: a search whose request is answered with a status from 200 to 299
    and a record ends with the card section alone shown, the card of that
    record (its id text ["#"] and the id padded to three digits), the button
    enabled with its text restored, the input cleared, no fetch of its own
    left in flight, and two requests made: the record and its first
    image. *)
Theorem search_success (a : app) (status : Z) (p : pokemon) :
  string_forallb Ascii.is_space (pokemonInput (app_dom a)) = false →
  response_ok status = true →
  ∃ a',
    run [EvSubmit;
         EvFetchSettled (length (app_fetches a)) (FetchResponse status (BodyJson p))] a
      = Some a' ∧
    shown a' = Sections false false true false ∧
    dom_card (app_dom a') = card_of p ∧
    pokemonId (dom_card (app_dom a')) = "#" +:+ padStart 3 "0" (toString (id p)) ∧
    searchBtn (app_dom a') = Button false "Search Pokemon" ∧
    pokemonInput (app_dom a') = "" ∧
    app_fetches a' = app_fetches a ∧
    app_requests a' =
      app_requests a ++ [fetch_url (read_query a); hd "" (imageSources p)].
Proof.
  intros Hq%read_query_nonempty_iff Hok. eexists. split; [by apply run_search|].
  destruct (resume_Ok (KSearch (read_query a)) (FetchResponse status (BodyJson p)) p
    (log_request (fetch_url (read_query a)) (on_dom showLoading a)))
    as (-> & -> & -> & -> & _ & -> & _ & ->); [by apply fetchPokemon_ok_json|].
  split_and!; try done. simpl. by rewrite <-app_assoc.
Qed.

Lemma search_success_witness :
  ∃ a',
    run [EvSubmit;
         EvFetchSettled (length (app_fetches (typed " Pikachu ")))
           (FetchResponse 200 (BodyJson sample_pokemon))] (typed " Pikachu ")
      = Some a' ∧
    shown a' = Sections false false true false ∧
    dom_card (app_dom a') = card_of sample_pokemon ∧
    pokemonId (dom_card (app_dom a')) = "#" +:+ padStart 3 "0" (toString (id sample_pokemon)) ∧
    searchBtn (app_dom a') = Button false "Search Pokemon" ∧
    pokemonInput (app_dom a') = "" ∧
    app_fetches a' = app_fetches (typed " Pikachu ") ∧
    app_requests a' =
      app_requests (typed " Pikachu ") ++
      [fetch_url (read_query (typed " Pikachu ")); hd "" (imageSources sample_pokemon)].
Proof.
  apply (search_success (typed " Pikachu ") 200 sample_pokemon); reflexivity.
Defined.

(** A search answered with status 404 ends with the error section alone
    shown and the not-found message, which holds the query; the button is
    enabled again, the input keeps what was typed, and the card and the
    image are as before. *)
Theorem search_not_found (a : app) (b : body) :
  string_forallb Ascii.is_space (pokemonInput (app_dom a)) = false →
  ∃ a',
    run [EvSubmit; EvFetchSettled (length (app_fetches a)) (FetchResponse 404 b)] a
      = Some a' ∧
    shown a' = Sections false true false false ∧
    errorText (app_dom a') = msg_not_found (read_query a) ∧
    includes (read_query a) (errorText (app_dom a')) = true ∧
    searchBtn (app_dom a') = Button false "Search Pokemon" ∧
    pokemonInput (app_dom a') = pokemonInput (app_dom a) ∧
    dom_card (app_dom a') = dom_card (app_dom a) ∧
    pokemonImage (app_dom a') = pokemonImage (app_dom a).
Proof.
  intros Hq%read_query_nonempty_iff. eexists. split; [by apply run_search|].
  destruct (resume_Throw (KSearch (read_query a)) (FetchResponse 404 b) _
    (log_request (fetch_url (read_query a)) (on_dom showLoading a)) (fetchPokemon_404 b))
    as (-> & -> & -> & -> & -> & -> & _).
  split_and!; try done. apply msg_not_found_includes.
Qed.

Lemma search_not_found_witness :
  ∃ a',
    run [EvSubmit;
         EvFetchSettled (length (app_fetches (typed "missingno")))
           (FetchResponse 404 (BodySyntaxError ""))] (typed "missingno")
      = Some a' ∧
    shown a' = Sections false true false false ∧
    errorText (app_dom a') = msg_not_found (read_query (typed "missingno")) ∧
    includes (read_query (typed "missingno")) (errorText (app_dom a')) = true ∧
    searchBtn (app_dom a') = Button false "Search Pokemon" ∧
    pokemonInput (app_dom a') = pokemonInput (app_dom (typed "missingno")) ∧
    dom_card (app_dom a') = dom_card (app_dom (typed "missingno")) ∧
    pokemonImage (app_dom a') = pokemonImage (app_dom (typed "missingno")).
Proof.
  apply (search_not_found (typed "missingno") (BodySyntaxError "")). reflexivity.
Defined.

(** A search answered with a status from 0 to 999 that is neither in
    the range 200 to 299 nor 404 shows the generic message: the text
    ["HTTP error! status: <status>"] holds neither ["404"] nor
    ["network"]. *)
Theorem search_http_error_generic (query : string) (status : Z) (b : body) (a : app) :
  (0 ≤ status ≤ 999)%Z → response_ok status = false → status ≠ 404%Z →
  fetchPokemon (FetchResponse status b) = Throw ("HTTP error! status: " +:+ toString status) ∧
  errorText (app_dom (searchPokemon_resume query (FetchResponse status b) a)) = msg_generic.
Proof.
  intros Hs Hok Hne. pose proof (fetchPokemon_status status b Hok Hne) as Hf.
  split; [done|]. rewrite searchPokemon_resume_eq.
  destruct (resume_Throw (KSearch query) _ _ a Hf) as (_ & -> & _).
  unfold search_error_message.
  rewrite http_error_no_404, http_error_no_network by (done || lia). done.
Qed.

Lemma search_http_error_generic_witness :
  fetchPokemon (FetchResponse 500 (BodySyntaxError "")) =
    Throw ("HTTP error! status: " +:+ toString 500) ∧
  errorText (app_dom (searchPokemon_resume "mew" (FetchResponse 500 (BodySyntaxError ""))
    (constructor sample_page))) = msg_generic.
Proof.
  apply (search_http_error_generic "mew" 500 (BodySyntaxError "") (constructor sample_page));
    [lia|reflexivity|lia].
Defined.

(** C12: which message a failed search shows is decided by the text of the
    error alone: the not-found message exactly when the text holds ["404"],
    the network message exactly when it holds ["network"] in lower case and
    not ["404"], the generic message otherwise, whatever the failure was. *)
Theorem search_error_message_iff (query message : string) (o : fetch_outcome) (a : app) :
  fetchPokemon o = Throw message →
  let shown_text := errorText (app_dom (searchPokemon_resume query o a)) in
  (shown_text = msg_not_found query ↔ includes "404" message = true) ∧
  (shown_text = msg_network ↔
     includes "404" message = false ∧ includes "network" message = true) ∧
  (shown_text = msg_generic ↔
     includes "404" message = false ∧ includes "network" message = false).
Proof.
  intros Ho shown_text. subst shown_text. rewrite searchPokemon_resume_eq.
  destruct (resume_Throw (KSearch query) o message a Ho) as (_ & -> & _).
  destruct (msg_not_found_neq query) as [Hn Hg]. unfold search_error_message.
  destruct (includes "404" message), (includes "network" message);
    split_and!; split; (done || (by intros [??]) || idtac).
Qed.

Lemma search_error_message_iff_witness :
  let shown_text :=
    errorText (app_dom (searchPokemon_resume "mew" (FetchRejected "Failed to fetch")
      (constructor sample_page))) in
  (shown_text = msg_not_found "mew" ↔ includes "404" "Failed to fetch" = true) ∧
  (shown_text = msg_network ↔
     includes "404" "Failed to fetch" = false ∧ includes "network" "Failed to fetch" = true) ∧
  (shown_text = msg_generic ↔
     includes "404" "Failed to fetch" = false ∧ includes "network" "Failed to fetch" = false).
Proof.
  apply (search_error_message_iff "mew" "Failed to fetch" (FetchRejected "Failed to fetch")
    (constructor sample_page)). reflexivity.
Defined.

(** C33: the network message is shown only for an error that came from the
    browser, a fetch that rejected or a body that failed to parse, and
    whose text holds ["network"] in lower case and not ["404"]: whatever
    the status, no error that [fetchPokemon] throws itself shows it. *)
Theorem network_message_origin (query : string) (o : fetch_outcome) (message : string)
    (a : app) :
  fetchPokemon o = Throw message →
  errorText (app_dom (searchPokemon_resume query o a)) = msg_network →
  includes "network" message = true ∧ includes "404" message = false ∧
  (o = FetchRejected message ∨
   ∃ status, response_ok status = true ∧ o = FetchResponse status (BodySyntaxError message)).
Proof.
  intros Ho. rewrite searchPokemon_resume_eq.
  destruct (resume_Throw (KSearch query) o message a Ho) as (_ & -> & _).
  destruct (msg_not_found_neq query) as [Hn _]. unfold search_error_message.
  destruct (includes "404" message) eqn:H404; [done|].
  destruct (includes "network" message) eqn:Hnet; [intros _|done]. split_and!; [done..|].
  destruct o as [m|status [p|m]]; simpl in Ho; [left; congruence|..];
    destruct (response_ok status) eqn:Hok; simpl in Ho;
    try (destruct (status =? 404)%Z; injection Ho as <-;
         [done|by rewrite http_error_never_network in Hnet]).
  - done.
  - right. exists status. split; congruence.
Qed.

Lemma network_message_origin_witness :
  includes "network" "a network error occurred" = true ∧
  includes "404" "a network error occurred" = false ∧
  (FetchRejected "a network error occurred" = FetchRejected "a network error occurred" ∨
   ∃ status, response_ok status = true ∧
     FetchRejected "a network error occurred" =
       FetchResponse status (BodySyntaxError "a network error occurred")).
Proof.
  apply (network_message_origin "mew" (FetchRejected "a network error occurred")
    "a network error occurred" (constructor sample_page)); reflexivity.
Defined.

(** The texts with which the fetch of a browser rejects when the
    connection fails ("Failed to fetch", "NetworkError when attempting to
    fetch resource.", "Load failed") hold no lower-case ["network"], so a
    search that fails in transport shows the generic message and not the
    network message; and a body that fails to parse with a text that holds
    ["404"] shows the not-found message. *)
Example transport_failure_messages (query : string) (a : app) :
  let text o := errorText (app_dom (searchPokemon_resume query o a)) in
  text (FetchRejected "Failed to fetch") = msg_generic ∧
  text (FetchRejected "NetworkError when attempting to fetch resource.") = msg_generic ∧
  text (FetchRejected "Load failed") = msg_generic ∧
  text (FetchRejected "a network error occurred") = msg_network ∧
  text (FetchResponse 200 (BodySyntaxError "Unexpected token < in JSON at position 404")) =
    msg_not_found query.
Proof.
  intros text. subst text. cbn beta. rewrite !searchPokemon_resume_eq.
  split_and!;
    match goal with
    | |- errorText (app_dom (resume _ ?o _)) = _ =>
        by destruct (resume_Throw (KSearch query) o _ a eq_refl) as (_ & -> & _)
    end.
Qed.

(** C23: a random search with a draw of [Math.random()] makes exactly one
    request, for the base URL followed by the decimal text of an id from 1
    to 1010, shows the loading section alone and disables the button. *)
Theorem getRandomPokemon_request (k : Z) (a : app) :
  valid_draw k = true →
  ∃ n, (1 ≤ n ≤ 1010)%Z ∧
    app_requests (getRandomPokemon k a) = app_requests a ++ [apiBase +:+ toString n] ∧
    app_fetches (getRandomPokemon k a) =
      app_fetches a ++ [FetchTask (apiBase +:+ toString n) KRandom] ∧
    app_images (getRandomPokemon k a) = app_images a ∧
    shown (getRandomPokemon k a) = Sections true false false false ∧
    searchBtn (app_dom (getRandomPokemon k a)) = Button true "Searching...".
Proof. intros Hk. exists (randomId k). split; [by apply randomId_bounds|done]. Qed.

Lemma getRandomPokemon_request_witness :
  ∃ n, (1 ≤ n ≤ 1010)%Z ∧
    app_requests (getRandomPokemon (2 ^ 53 - 1) (constructor sample_page)) =
      app_requests (constructor sample_page) ++ [apiBase +:+ toString n] ∧
    app_fetches (getRandomPokemon (2 ^ 53 - 1) (constructor sample_page)) =
      app_fetches (constructor sample_page) ++ [FetchTask (apiBase +:+ toString n) KRandom] ∧
    app_images (getRandomPokemon (2 ^ 53 - 1) (constructor sample_page)) =
      app_images (constructor sample_page) ∧
    shown (getRandomPokemon (2 ^ 53 - 1) (constructor sample_page)) =
      Sections true false false false ∧
    searchBtn (app_dom (getRandomPokemon (2 ^ 53 - 1) (constructor sample_page))) =
      Button true "Searching...".
Proof.
  apply (getRandomPokemon_request (2 ^ 53 - 1) (constructor sample_page)). reflexivity.
Defined.

(** A random search that fails, whatever the failure, shows the message
    for a failed random search, never the not-found message; one that
    succeeds shows the card and leaves the input as it is. *)
Theorem getRandomPokemon_outcome (o : fetch_outcome) (a : app) :
  let a' := getRandomPokemon_resume o a in
  match fetchPokemon o with
  | Ok p =>
      shown a' = Sections false false true false ∧ dom_card (app_dom a') = card_of p ∧
      pokemonInput (app_dom a') = pokemonInput (app_dom a)
  | Throw _ =>
      shown a' = Sections false true false false ∧
      errorText (app_dom a') = "Unable to fetch random Pokemon. Please try again."
  end ∧
  searchBtn (app_dom a') = Button false "Search Pokemon".
Proof.
  intros a'. subst a'. change (getRandomPokemon_resume o a) with (resume KRandom o a).
  destruct (fetchPokemon o) as [p|m] eqn:Ho.
  - by destruct (resume_Ok KRandom o p a Ho) as (-> & -> & -> & -> & _).
  - by destruct (resume_Throw KRandom o m a Ho) as (-> & -> & -> & _).
Qed.

Lemma finally_cleanup_lemma (a : app) (i : nat) (o : fetch_outcome) (a' : app) :
  step a (EvFetchSettled i o) a' →
  loading (shown a') = false ∧ searchBtn (app_dom a') = Button false "Search Pokemon".
Proof.
  inversion 1; subst. rewrite shown_resume, searchBtn_resume. by case_match.
Qed.

(** C18: the cleanup of [finally] runs on every path: after any fetch
    settles, with any outcome and for either kind of request, the loading
    section is hidden and the button is enabled with its text restored. *)
Theorem finally_cleanup (a : app) (i : nat) (o : fetch_outcome) (a' : app) :
  step a (EvFetchSettled i o) a' →
  loading (shown a') = false ∧ searchBtn (app_dom a') = Button false "Search Pokemon".
Proof. apply finally_cleanup_lemma. Qed.

Lemma finally_cleanup_witness :
  loading (shown (resume KRandom (FetchRejected "")
    (set_fetches [] (getRandomPokemon 0 (constructor sample_page))))) = false ∧
  searchBtn (app_dom (resume KRandom (FetchRejected "")
    (set_fetches [] (getRandomPokemon 0 (constructor sample_page))))) =
    Button false "Search Pokemon".
Proof.
  apply (finally_cleanup (getRandomPokemon 0 (constructor sample_page)) 0 (FetchRejected "")).
  apply step_handle. reflexivity.
Defined.
