(* ===== verification/Scenario.v ===== *)
(** * Scenario: a search from the submit to the image

    [Lifecycle] follows a search to the settlement of its fetch and
    [Images] follows the chain of image sources under an oracle.  Here the
    two are one run of the event loop: the submit, the response, and one
    [load] or [error] event for each source attempted.  The run of
    [Images.run_images] is the run of these events, so what [Images] shows
    of the chain holds of the event loop. *)

From S2P Require Import Prelude JsRuntime Formatter State View Images Card Fetcher Controller.
From S2P Require Import Invariants Lifecycle.

(** ** Definitions *)

(** The events of a chain over the sources [rest]: the oldest pending image
    fails for each source that does not load and loads for the first that
    does. *)
Definition image_events (loads : string → bool) (rest : list string) : list event :=
  (λ url, EvImage 0 (loads url)) <$> attempted loads rest.

(** The state once a record has arrived and its card is shown, before the
    first image is requested. *)
Definition record_shown (k : continuation) (p : pokemon) (a : app) : app :=
  {| app_dom :=
       hideLoading
         ((match k with KSearch _ => set_pokemonInput "" | KRandom => λ d, d end)
            (set_sections (λ _, Sections false false true false)
               (set_card (λ _, card_of p)
                  (set_pokemonImage (λ i, set_src "" (set_display "none" i)) (app_dom a)))));
     app_fetches := app_fetches a;
     app_images := app_images a;
     app_requests := app_requests a;
     app_console := app_console a |}.

(** What a search that succeeds leaves, from the state [a] it started in:
    the card section alone shown, the card of the record, the image element
    showing the first source that loads (hidden with an empty [src] when
    none does), the button enabled, the input cleared, nothing of the
    search pending, and exactly the record and the sources attempted
    requested, in that order. *)
Definition search_done (loads : string → bool) (p : pokemon) (a a' : app) : Prop :=
  shown a' = Sections false false true false ∧
  dom_card (app_dom a') = card_of p ∧
  pokemonImage (app_dom a') =
    resolved_image p (resolveImage loads (imageSources p)) (pokemonImage (app_dom a)) ∧
  searchBtn (app_dom a') = Button false "Search Pokemon" ∧
  pokemonInput (app_dom a') = "" ∧
  app_fetches a' = app_fetches a ∧
  app_images a' = [] ∧
  app_requests a' = app_requests a ++ fetch_url (read_query a) :: attempted loads (imageSources p).

(** What a random search that succeeds leaves: as [search_done], but the
    input is as it was and the request is for the id of the draw. *)
Definition random_done (loads : string → bool) (k : Z) (p : pokemon) (a a' : app) : Prop :=
  shown a' = Sections false false true false ∧
  dom_card (app_dom a') = card_of p ∧
  pokemonImage (app_dom a') =
    resolved_image p (resolveImage loads (imageSources p)) (pokemonImage (app_dom a)) ∧
  searchBtn (app_dom a') = Button false "Search Pokemon" ∧
  pokemonInput (app_dom a') = pokemonInput (app_dom a) ∧
  app_fetches a' = app_fetches a ∧
  app_images a' = [] ∧
  app_requests a' =
    app_requests a ++ fetch_url (toString (randomId k)) :: attempted loads (imageSources p).

(** ** Lemmas *)

Lemma image_event_start (t : image_task) (url : string) (loaded : bool) (a : app) :
  app_images a = [] →
  image_event 0 loaded (start_image t url a) =
    Some ((if loaded then image_onload t else image_onerror t) (log_request url a)).
Proof. destruct a as [d fs ims rs cs]. simpl. intros ->. by destruct loaded. Qed.

(** The events of a chain lead to [chain_end], as the run under the oracle
    does. *)
Lemma run_chain (loads : string → bool) (sources : list string) (p : pokemon)
    (rest : list string) (index : nat) (a : app) :
  drop index sources = rest → app_images a = [] →
  run (image_events loads rest) (tryLoadImage sources index p a) =
    Some (chain_end loads sources rest index p a).
Proof.
  revert index a. induction rest as [|url rest IH]; intros index a Hdrop Himg.
  { apply drop_nil_length in Hdrop. by rewrite tryLoadImage_past_end. }
  apply drop_cons_nth in Hdrop as (Hlt & Hnth & Hdrop).
  rewrite tryLoadImage_in_range by done. unfold image_events.
  cbn [attempted fmap list_fmap run handle chain_end].
  rewrite image_event_start, Hnth by done. cbn [mbind option_bind].
  destruct (loads url); [done|]. unfold image_onerror. cbn [it_index it_sources it_pokemon].
  rewrite Hnth, Nat.add_1_r. by apply IH.
Qed.

(** The run of [Images.run_images] is the run of the events of the chain. *)
Lemma run_chain_run_images (loads : string → bool) (sources : list string) (p : pokemon)
    (index : nat) (a : app) :
  app_images a = [] →
  run (image_events loads (drop index sources)) (tryLoadImage sources index p a) =
    Some (run_images loads (length (attempted loads (drop index sources)))
            (tryLoadImage sources index p a)).
Proof. intros Ha. by rewrite run_chain, run_images_chain. Qed.

(** A record that arrives starts its chain on the page with its card. *)
Lemma resume_Ok_chain (k : continuation) (o : fetch_outcome) (p : pokemon) (a : app) :
  fetchPokemon o = Ok p →
  resume k o a = tryLoadImage (imageSources p) 0 p (record_shown k p a).
Proof.
  intros Ho. rewrite resume_unfold, Ho, showPokemon_spec.
  rewrite tryLoadImage_in_range by (pose proof (imageSources_length p); lia).
  replace (nth 0 (imageSources p) "") with (hd "" (imageSources p))
    by by destruct (imageSources p).
  by destruct k.
Qed.

(** The image element at the end of a chain from the first source, on a
    page on which the image was reset. *)
Lemma chain_end_image (loads : string → bool) (p : pokemon) (a : app) (i : image) :
  pokemonImage (app_dom a) = set_src "" (set_display "none" i) →
  pokemonImage (app_dom (chain_end loads (imageSources p) (imageSources p) 0 p a)) =
    resolved_image p (resolveImage loads (imageSources p)) i.
Proof.
  intros Hi. rewrite chain_end_dom by done. unfold resolved_image, resolveImage. simpl.
  rewrite Hi. by destruct (List.find _ _).
Qed.

(** A request answered with a record, to the end of its image chain. *)
Lemma settled_chain (loads : string → bool) (k : continuation) (o : fetch_outcome)
    (p : pokemon) (a : app) :
  fetchPokemon o = Ok p → app_images a = [] →
  run (image_events loads (imageSources p)) (resume k o a) =
    Some (chain_end loads (imageSources p) (imageSources p) 0 p (record_shown k p a)).
Proof. intros Ho Ha. rewrite (resume_Ok_chain k o p a Ho). by apply run_chain. Qed.

(** The end of the chain on the page with the card, part by part. *)
Lemma chain_end_record_shown (loads : string → bool) (k : continuation) (p : pokemon)
    (a : app) :
  let a' := chain_end loads (imageSources p) (imageSources p) 0 p (record_shown k p a) in
  shown a' = Sections false false true false ∧
  dom_card (app_dom a') = card_of p ∧
  pokemonImage (app_dom a') =
    resolved_image p (resolveImage loads (imageSources p)) (pokemonImage (app_dom a)) ∧
  searchBtn (app_dom a') = Button false "Search Pokemon" ∧
  pokemonInput (app_dom a') =
    match k with KSearch _ => "" | KRandom => pokemonInput (app_dom a) end ∧
  app_fetches a' = app_fetches a ∧
  app_images a' = app_images a ∧
  app_requests a' = app_requests a ++ attempted loads (imageSources p) ∧
  app_console a' = app_console a ++ chain_console loads (imageSources p) 0 p.
Proof.
  intros a'. subst a'.
  destruct (chain_end_tasks loads (imageSources p) (imageSources p) 0 p (record_shown k p a))
    as (-> & -> & -> & ->).
  rewrite (chain_end_image loads p _ (pokemonImage (app_dom a))) by by destruct k.
  unfold shown. rewrite chain_end_dom by done. by destruct k.
Qed.

(** ** Properties *)

(** A search from the submit to the image.  From a state with no image
    pending and an input that is not blank, the submit, a response with a
    status from 200 to 299 and a record, and one image event for each source
    attempted end in a state that is [search_done]. *)
Theorem search_end_to_end (loads : string → bool) (a : app) (status : Z) (p : pokemon) :
  string_forallb Ascii.is_space (pokemonInput (app_dom a)) = false →
  response_ok status = true →
  app_images a = [] →
  ∃ a',
    run ([EvSubmit;
          EvFetchSettled (length (app_fetches a)) (FetchResponse status (BodyJson p))] ++
         image_events loads (imageSources p)) a = Some a' ∧
    search_done loads p a a'.
Proof.
  intros Hq%read_query_nonempty_iff Hok Hi. eexists. split.
  { rewrite run_app, run_search by done. cbn [mbind option_bind].
    apply settled_chain; [by apply fetchPokemon_ok_json|done]. }
  destruct (chain_end_record_shown loads (KSearch (read_query a)) p
    (log_request (fetch_url (read_query a)) (on_dom showLoading a)))
    as (Hs & Hc & Hi' & Hb & Hin & Hf & Him & Hr & _).
  unfold search_done. rewrite Hs, Hc, Hi', Hb, Hin, Hf, Him, Hr.
  split_and!; try done. simpl. by rewrite <-app_assoc.
Qed.

Lemma search_end_to_end_witness :
  ∃ a',
    run ([EvSubmit;
          EvFetchSettled (length (app_fetches (typed " Pikachu ")))
            (FetchResponse 200 (BodyJson sample_pokemon))] ++
         image_events sample_loads (imageSources sample_pokemon)) (typed " Pikachu ") = Some a' ∧
    search_done sample_loads sample_pokemon (typed " Pikachu ") a'.
Proof.
  apply (search_end_to_end sample_loads (typed " Pikachu ") 200 sample_pokemon); reflexivity.
Defined.

(** A random search from the click to the image. *)
Theorem random_end_to_end (loads : string → bool) (a : app) (k status : Z) (p : pokemon) :
  valid_draw k = true →
  response_ok status = true →
  app_images a = [] →
  ∃ a',
    run ([EvClickRandom k;
          EvFetchSettled (length (app_fetches a)) (FetchResponse status (BodyJson p))] ++
         image_events loads (imageSources p)) a = Some a' ∧
    random_done loads k p a a'.
Proof.
  intros Hk Hok Hi. eexists. split.
  { rewrite run_app, run_random by done. cbn [mbind option_bind].
    apply settled_chain; [by apply fetchPokemon_ok_json|done]. }
  destruct (chain_end_record_shown loads KRandom p
    (log_request (fetch_url (toString (randomId k))) (on_dom showLoading a)))
    as (Hs & Hc & Hi' & Hb & Hin & Hf & Him & Hr & _).
  unfold random_done. rewrite Hs, Hc, Hi', Hb, Hin, Hf, Him, Hr.
  split_and!; try done. simpl. by rewrite <-app_assoc.
Qed.

Lemma random_end_to_end_witness :
  ∃ a',
    run ([EvClickRandom 7;
          EvFetchSettled (length (app_fetches (typed "")))
            (FetchResponse 200 (BodyJson sample_pokemon))] ++
         image_events sample_loads (imageSources sample_pokemon)) (typed "") = Some a' ∧
    random_done sample_loads 7 sample_pokemon (typed "") a'.
Proof.
  apply (random_end_to_end sample_loads (typed "") 7 200 sample_pokemon); reflexivity.
Defined.
