(* ===== verification/Defaults.v ===== *)
(** * Defaults: the default actions the listeners leave to the browser

    A listener of [src/app.js] calls [e.preventDefault()] in three places:
    on [submit] (line 41), and on [keydown] for Ctrl or Cmd with [k] and
    with [r] (lines 341 and 347).  The [keypress] listener of the input
    (lines 64-68) does not, so when Enter is pressed in the input the
    browser goes on to its default action, which for a text field of a form
    is the implicit submission of the form (HTML, 4.10.21.2): a [submit]
    event, unless the default button of the form is disabled.  Whether the
    input is a field of the form, and which button is its default button,
    is decided by the markup, which is not under [src/]: [markup] holds
    these facts, and the theorems say what Enter does for each. *)

From S2P Require Import Prelude JsRuntime Formatter State View Images Card Fetcher Controller.
From S2P Require Import Invariants Lifecycle.

(** ** Definitions *)

(** Whether the [keydown] listener calls [e.preventDefault()] (lines
    339-348). *)
Definition keydown_preventDefault (key : string) (ctrlKey metaKey : bool) : bool :=
  (ctrlKey || metaKey) && String.eqb key "k" || (ctrlKey || metaKey) && String.eqb key "r".

(** Whether the listener of an event calls [e.preventDefault()]: of the
    listeners of [bindEvents] only the one of [submit] does. *)
Definition preventDefault (e : event) : bool :=
  match e with
  | EvSubmit => true
  | EvKeydown key c m _ => keydown_preventDefault key c m
  | _ => false
  end.

(** The default button of the form: none, the search button, or another
    submit button, disabled or not. *)
Inductive default_button : Type :=
| NoButton
| SearchButton
| OtherButton (is_disabled : bool).

(** What the markup decides: whether the input is a field of the form, the
    default button of the form, and how many of its fields block implicit
    submission. *)
Record markup : Type := Markup {
  input_in_form : bool;
  form_default : default_button;
  form_fields : nat
}.

(** Implicit submission (HTML, 4.10.21.2): the form is submitted through
    its default button when that is not disabled; a form with no submit
    button is submitted when it has one field that blocks implicit
    submission and no more. *)
Definition implicit_submission (m : markup) (a : app) : list event :=
  if input_in_form m then
    match form_default m with
    | SearchButton => if disabled (searchBtn (app_dom a)) then [] else [EvSubmit]
    | OtherButton is_disabled => if is_disabled then [] else [EvSubmit]
    | NoButton => if (form_fields m <=? 1)%nat then [EvSubmit] else []
    end
  else [].

(** The events the default action of an event fires, in the state its
    listener left: nothing when the listener prevented it; of the default
    actions only the one of Enter in the input is modelled. *)
Definition default_action (m : markup) (e : event) (a : app) : list event :=
  if preventDefault e then []
  else
    match e with
    | EvKeypress key => if String.eqb key "Enter" then implicit_submission m a else []
    | _ => []
    end.

(** An event, its listener and then its default action. *)
Definition dispatch (m : markup) (e : event) (a : app) : option app :=
  a' ← handle e a; run (default_action m e a') a'.

(** The input in the form, with the search button as its submit button. *)
Definition form_with_button : markup := Markup true SearchButton 1.

(** The input alone in a form without a submit button. *)
Definition form_without_button : markup := Markup true NoButton 1.

(** ** Lemmas *)

Lemma showError_idemp (message : option string) (d : dom) :
  showError message (showError message d) = showError message d.
Proof. by destruct d. Qed.

Lemma searchPokemon_empty_idemp (a : app) :
  truthy_string (read_query a) = false → searchPokemon (searchPokemon a) = searchPokemon a.
Proof.
  intros Hq. rewrite (searchPokemon_empty a Hq), searchPokemon_empty by done.
  rewrite on_dom_compose. unfold compose. destruct a as [d ? ? ? ?]. unfold on_dom. simpl.
  by rewrite showError_idemp.
Qed.

Lemma dispatch_Enter (m : markup) (a : app) :
  dispatch m (EvKeypress "Enter") a =
    run (implicit_submission m (searchPokemon a)) (searchPokemon a).
Proof. done. Qed.

Lemma disabled_searchPokemon (a : app) :
  disabled (searchBtn (app_dom (searchPokemon a))) =
    truthy_string (read_query a) || disabled (searchBtn (app_dom a)).
Proof.
  destruct (truthy_string (read_query a)) eqn:Hq.
  - by rewrite searchPokemon_nonempty.
  - by rewrite searchPokemon_empty.
Qed.

(** The second of two searches in a row asks for the same query. *)
Lemma searchPokemon_twice (a : app) :
  truthy_string (read_query a) = true →
  app_requests (searchPokemon (searchPokemon a)) =
    app_requests a ++ [fetch_url (read_query a); fetch_url (read_query a)] ∧
  app_fetches (searchPokemon (searchPokemon a)) =
    app_fetches a ++ [FetchTask (fetch_url (read_query a)) (KSearch (read_query a));
                      FetchTask (fetch_url (read_query a)) (KSearch (read_query a))].
Proof.
  intros Hq. rewrite (searchPokemon_nonempty a Hq), searchPokemon_nonempty by done.
  simpl. by rewrite <-!app_assoc.
Qed.

(** ** Properties *)

(** C16: Enter in the input is one search.  When the input is a field of
    the form and the search button is its submit button, the [keypress]
    listener searches and the implicit submission of the form, which it
    does not prevent, does not search again: for a query that is not blank
    the listener has disabled the button before the default action, so the
    form is not submitted; for a blank query the form is submitted when the
    button is enabled, and the prompt is shown again, which changes
    nothing. *)
Theorem enter_searches_once (a : app) :
  dispatch form_with_button (EvKeypress "Enter") a = Some (searchPokemon a).
Proof.
  rewrite dispatch_Enter. unfold implicit_submission. cbn [form_with_button input_in_form form_default].
  rewrite disabled_searchPokemon.
  destruct (truthy_string (read_query a)) eqn:Hq; [done|].
  destruct (disabled (searchBtn (app_dom a))); [done|].
  cbn [orb run handle mbind option_bind]. by rewrite searchPokemon_empty_idemp.
Qed.

(** In a form without a submit button, where Enter submits the form as
    well, a query that is not blank is searched twice: two requests for the
    same address, and two fetches in flight. *)
Theorem enter_searches_twice (a : app) :
  truthy_string (read_query a) = true →
  ∃ a',
    dispatch form_without_button (EvKeypress "Enter") a = Some a' ∧
    app_requests a' =
      app_requests a ++ [fetch_url (read_query a); fetch_url (read_query a)] ∧
    app_fetches a' =
      app_fetches a ++ [FetchTask (fetch_url (read_query a)) (KSearch (read_query a));
                        FetchTask (fetch_url (read_query a)) (KSearch (read_query a))].
Proof.
  intros Hq. exists (searchPokemon (searchPokemon a)). split; [done|].
  by apply searchPokemon_twice.
Qed.

Lemma enter_searches_twice_witness :
  ∃ a',
    dispatch form_without_button (EvKeypress "Enter") (typed "mew") = Some a' ∧
    app_requests a' =
      app_requests (typed "mew") ++
      [fetch_url (read_query (typed "mew")); fetch_url (read_query (typed "mew"))] ∧
    app_fetches a' =
      app_fetches (typed "mew") ++
      [FetchTask (fetch_url (read_query (typed "mew"))) (KSearch (read_query (typed "mew")));
       FetchTask (fetch_url (read_query (typed "mew"))) (KSearch (read_query (typed "mew")))].
Proof. apply (enter_searches_twice (typed "mew")). reflexivity. Defined.

(** The listeners of [submit] and of the two shortcuts keep the browser
    from its default action (leaving the page, the search of the browser,
    the reload), and no other listener does. *)
Theorem preventDefault_iff (e : event) :
  preventDefault e = true ↔
  e = EvSubmit ∨
  ∃ key c m k, e = EvKeydown key c m k ∧ (c || m) = true ∧ (key = "k" ∨ key = "r").
Proof.
  destruct e as [| | | | | | | |key c m k| | | | |]; simpl;
    try (split; [done|by intros [?|(? & ? & ? & ? & ? & _)]]); [by split; [left|]|].
  unfold keydown_preventDefault.
  rewrite orb_true_iff, !andb_true_iff, !String.eqb_eq. split.
  - intros [[? ?]|[? ?]]; right; exists key, c, m, k; auto.
  - intros [?|(? & ? & ? & ? & [= <- <- <- <-] & ? & [?|?])]; [done|auto..].
Qed.
