(* ===== verification/Ghost.v ===== *)
(** * Ghost: the logs are never read

    [app_requests] and [app_console] record what the program sends to the
    network and writes to the console; [src/app.js] reads neither.  Two
    states are [same_page] when they differ in these logs only.  Every
    operation of the controller, every handler and every run respects
    [same_page] ([Proper] instances), so what the page shows and what is
    pending never depend on what was logged before. *)

From S2P Require Import Prelude JsRuntime Formatter State View Images Card Fetcher Controller.

(** ** Definitions *)

(** Equal but for the logs. *)
Definition same_page (a a' : app) : Prop :=
  app_dom a = app_dom a' ∧ app_fetches a = app_fetches a' ∧ app_images a = app_images a'.

Declare Scope ghost_scope.
Infix "≈" := same_page (at level 70, no associativity) : ghost_scope.
Local Open Scope ghost_scope.

(** The state with other logs. *)
Definition with_logs (requests : list string) (calls : list console_call) (a : app) : app :=
  {| app_dom := app_dom a; app_fetches := app_fetches a; app_images := app_images a;
     app_requests := requests; app_console := calls |}.

(** ** Lemmas: the relation *)

#[global] Instance same_page_equivalence : Equivalence same_page.
Proof.
  split.
  - by intros a.
  - intros a a' (? & ? & ?). by split_and!.
  - intros a a1 a2 (? & ? & ?) (? & ? & ?). split_and!; congruence.
Qed.

#[global] Instance app_dom_proper : Proper (same_page ==> eq) app_dom.
Proof. by intros a a' (? & ? & ?). Qed.
#[global] Instance app_fetches_proper : Proper (same_page ==> eq) app_fetches.
Proof. by intros a a' (? & ? & ?). Qed.
#[global] Instance app_images_proper : Proper (same_page ==> eq) app_images.
Proof. by intros a a' (? & ? & ?). Qed.

(** ** Lemmas: the operations respect it *)

Ltac ghost_fields :=
  intros ? ? (? & ? & ?); split_and!; simpl; congruence.

#[global] Instance on_dom_proper (f : dom → dom) : Proper (same_page ==> same_page) (on_dom f).
Proof. ghost_fields. Qed.
#[global] Instance set_fetches_proper l : Proper (same_page ==> same_page) (set_fetches l).
Proof. ghost_fields. Qed.
#[global] Instance set_images_proper l : Proper (same_page ==> same_page) (set_images l).
Proof. ghost_fields. Qed.
#[global] Instance console_proper m args : Proper (same_page ==> same_page) (console m args).
Proof. ghost_fields. Qed.
#[global] Instance start_fetch_proper url k : Proper (same_page ==> same_page) (start_fetch url k).
Proof. ghost_fields. Qed.
#[global] Instance start_image_proper t url : Proper (same_page ==> same_page) (start_image t url).
Proof. ghost_fields. Qed.

#[global] Instance handleImageError_proper p : Proper (same_page ==> same_page) (handleImageError p).
Proof. unfold handleImageError, console_log. solve_proper. Qed.
#[global] Instance tryLoadImage_proper s i p : Proper (same_page ==> same_page) (tryLoadImage s i p).
Proof. intros a a' H. unfold tryLoadImage. case_match; by f_equiv. Qed.
#[global] Instance image_onload_proper t : Proper (same_page ==> same_page) (image_onload t).
Proof. unfold image_onload. solve_proper. Qed.
#[global] Instance image_onerror_proper t : Proper (same_page ==> same_page) (image_onerror t).
Proof. unfold image_onerror, console_log. solve_proper. Qed.
#[global] Instance showPokemon_proper p : Proper (same_page ==> same_page) (showPokemon p).
Proof. intros a a' (? & ? & ?). rewrite !showPokemon_spec. split_and!; simpl; congruence. Qed.
#[global] Instance read_query_proper : Proper (same_page ==> eq) read_query.
Proof. intros a a' H. unfold read_query. by rewrite H. Qed.
#[global] Instance searchPokemon_proper : Proper (same_page ==> same_page) searchPokemon.
Proof.
  intros a a' H. unfold searchPokemon. rewrite (read_query_proper a a' H).
  case_match; by repeat f_equiv.
Qed.
#[global] Instance getRandomPokemon_proper k : Proper (same_page ==> same_page) (getRandomPokemon k).
Proof. unfold getRandomPokemon. solve_proper. Qed.
#[global] Instance resume_proper k o : Proper (same_page ==> same_page) (resume k o).
Proof. intros a a' H. rewrite !resume_unfold. unfold console_error. case_match; by repeat f_equiv. Qed.
#[global] Instance shown_proper : Proper (same_page ==> eq) shown.
Proof. intros a a' H. unfold shown. by rewrite H. Qed.
#[global] Instance on_keydown_proper key c m k : Proper (same_page ==> same_page) (on_keydown key c m k).
Proof.
  intros a a' H. rewrite !on_keydown_cases, (shown_proper a a' H).
  repeat case_match; by repeat f_equiv.
Qed.

#[global] Instance image_event_proper i loaded :
  Proper (same_page ==> option_Forall2 same_page) (image_event i loaded).
Proof.
  intros a a' H. unfold image_event. rewrite (app_images_proper a a' H).
  destruct (app_images a' !! i) as [t|]; simpl; constructor.
  destruct loaded; by repeat f_equiv.
Qed.

#[global] Instance handle_proper e : Proper (same_page ==> option_Forall2 same_page) (handle e).
Proof.
  intros a a' H. destruct e; simpl; try (constructor; by repeat f_equiv).
  - unfold on_keypress. case_match; constructor; by repeat f_equiv.
  - case_match; constructor. by f_equiv.
  - unfold on_helpSection_click. case_match; constructor; by repeat f_equiv.
  - case_match; constructor. by f_equiv.
  - rewrite (app_fetches_proper a a' H). destruct (app_fetches a' !! i); simpl; constructor.
    by repeat f_equiv.
  - by apply image_event_proper.
Qed.

#[global] Instance run_proper es : Proper (same_page ==> option_Forall2 same_page) (run es).
Proof.
  induction es as [|e es IH]; intros a a' H; simpl; [by constructor|].
  destruct (handle_proper e a a' H) as [a1 a1' H1|]; simpl; [by apply IH|constructor].
Qed.

Lemma with_logs_same_page (requests : list string) (calls : list console_call) (a : app) :
  a ≈ with_logs requests calls a.
Proof. done. Qed.

(** ** Properties *)

(** The logs are never read: two states that differ only in the log of
    requests and in the console take the same events, and after any run
    they show the same page and have the same fetches and images pending.
    What the program has sent or written never changes what it does next. *)
Theorem logs_never_read (es : list event) (a a' a1 : app) :
  a ≈ a' → run es a = Some a1 → ∃ a1', run es a' = Some a1' ∧ a1 ≈ a1'.
Proof. intros H Hr. destruct (run_proper es a a' H); naive_solver. Qed.

Lemma logs_never_read_witness :
  ∃ a1', run [EvInput "mew"; EvSubmit]
           (with_logs ["https://example.org"] [] (constructor sample_page)) = Some a1' ∧
         default (constructor sample_page)
           (run [EvInput "mew"; EvSubmit] (constructor sample_page)) ≈ a1'.
Proof.
  apply (logs_never_read [EvInput "mew"; EvSubmit] (constructor sample_page));
    [apply with_logs_same_page|vm_compute; reflexivity].
Defined.
