(* ===== verification/Console.v ===== *)
(** * Console: what the program writes to the console

    [src/app.js] calls [console.error] in the [catch] blocks of
    [searchPokemon] and [getRandomPokemon] (lines 129 and 153),
    [console.log] when an image source fails and when no source is left
    (lines 233 and 244), and in the [online] and [offline] listeners (lines
    329-335).  [emitted] gives the calls of one turn of the event loop as a
    function of the event and the state; the theorems show that the console
    grows by exactly these, so that a failure never goes unreported and
    nothing else is written. *)

From S2P Require Import Prelude JsRuntime Formatter State View Images Card Fetcher Controller.
From S2P Require Import Invariants Lifecycle.

(** ** Definitions *)

(** The call for a request that failed with [message]. *)
Definition fetch_failed_call (k : continuation) (message : string) : console_call :=
  ConsoleCall ConsoleError
    [ArgString (match k with
                | KSearch _ => "Error fetching Pokemon:"
                | KRandom => "Error fetching random Pokemon:"
                end);
     ArgError message].

(** The calls of the [error] handler of an image task: the source that
    failed, and the record when it was the last. *)
Definition image_failed_calls (t : image_task) : list console_call :=
  ConsoleCall ConsoleLog (image_failed_call (it_index t) (it_url t))
    :: if (length (it_sources t) <=? it_index t + 1)%nat
       then [ConsoleCall ConsoleLog (no_image_call (it_pokemon t))]
       else [].

(** The calls of one turn. *)
Definition emitted (a : app) (e : event) : list console_call :=
  match e with
  | EvFetchSettled i o =>
      match app_fetches a !! i, fetchPokemon o with
      | Some t, Throw message => [fetch_failed_call (ft_k t) message]
      | _, _ => []
      end
  | EvImage i false => from_option image_failed_calls [] (app_images a !! i)
  | EvOnline => [ConsoleCall ConsoleLog [ArgString msg_online]]
  | EvOffline => [ConsoleCall ConsoleLog [ArgString msg_offline]]
  | _ => []
  end.

(** The calls of a run. *)
Fixpoint emitted_run (es : list event) (a : app) : list console_call :=
  match es with
  | [] => []
  | e :: es' => emitted a e ++ from_option (emitted_run es') [] (handle e a)
  end.

(** A run for the witness: a search that fails in transport, after which
    the browser goes offline. *)
Definition failed_search : list event :=
  [EvInput "mew"; EvSubmit; EvFetchSettled 0 (FetchRejected "Failed to fetch"); EvOffline].

Definition state_of_failed_search : app :=
  default (constructor sample_page) (run failed_search (constructor sample_page)).

(** ** Lemmas *)

Lemma app_console_searchPokemon (a : app) : app_console (searchPokemon a) = app_console a.
Proof. unfold searchPokemon. by case_match. Qed.

Lemma app_console_on_keydown (key : string) (c m : bool) (k : Z) (a : app) :
  app_console (on_keydown key c m k a) = app_console a.
Proof. rewrite on_keydown_cases. by repeat case_match. Qed.

Lemma app_console_resume (k : continuation) (o : fetch_outcome) (a : app) :
  app_console (resume k o a) =
    app_console a ++
    match fetchPokemon o with
    | Ok _ => []
    | Throw message => [fetch_failed_call k message]
    end.
Proof.
  rewrite resume_unfold. destruct (fetchPokemon o); rewrite ?showPokemon_spec; simpl;
    [by rewrite app_nil_r|by destruct k].
Qed.

Lemma app_console_image_onerror (t : image_task) (a : app) :
  app_console (image_onerror t a) = app_console a ++ image_failed_calls t.
Proof.
  unfold image_onerror, tryLoadImage, image_failed_calls, it_url.
  case_match; simpl; by rewrite <-?app_assoc.
Qed.

(** One turn appends its calls to the console. *)
Lemma handle_console (a : app) (e : event) (a' : app) :
  handle e a = Some a' → app_console a' = app_console a ++ emitted a e.
Proof.
  destruct e as [v| | |key|k| | |t|key c m k|i o|i loaded| | |]; cbn [handle emitted];
    rewrite ?app_nil_r; try (by intros [= <-]).
  - intros [= <-]. apply app_console_searchPokemon.
  - intros [= <-]. unfold on_keypress. case_match; [apply app_console_searchPokemon|done].
  - by case_match; intros [= <-].
  - intros [= <-]. by destruct t.
  - case_match; intros [= <-]. apply app_console_on_keydown.
  - destruct (app_fetches a !! i) as [t|]; intros [= <-]. by rewrite app_console_resume.
  - intros (t & Ht & ->)%image_event_Some. rewrite Ht.
    destruct loaded; simpl; [by rewrite app_nil_r|by rewrite app_console_image_onerror].
Qed.

(** ** Properties *)

(** The console grows by exactly the calls of each turn: after a run,
    it holds what it held before, then the calls [emitted] gives for each
    event in order.  A fetch that fails is reported once by [console.error]
    with the message of its error, an image source that fails once by
    [console.log] with its position, and no other event but [online] and
    [offline] writes anything. *)
Theorem console_emitted (es : list event) (a a' : app) :
  run es a = Some a' → app_console a' = app_console a ++ emitted_run es a.
Proof.
  revert a. induction es as [|e es IH]; intros a; simpl; [intros [= <-]; by rewrite app_nil_r|].
  destruct (handle e a) as [a1|] eqn:He; simpl; [|done].
  intros ->%IH. by rewrite (handle_console a e a1 He), <-app_assoc.
Qed.

Lemma console_emitted_witness :
  app_console (state_of_failed_search) =
    [ConsoleCall ConsoleError [ArgString "Error fetching Pokemon:"; ArgError "Failed to fetch"];
     ConsoleCall ConsoleLog [ArgString msg_offline]].
Proof.
  apply (console_emitted failed_search (constructor sample_page) state_of_failed_search).
  vm_compute. reflexivity.
Defined.
