(* ===== verification/Network.v ===== *)
(** * Network: what the program requests

    [src/app.js] sends a request in three places: [fetch] in [fetchPokemon]
    (line 159), called by [searchPokemon] and [getRandomPokemon], and
    [img.src = sources[index]] in [tryLoadImage] (line 238), for the first
    source when a record is shown and for the next one when a source fails.
    The assignments to the [src] of the image element of the page (lines
    207 and 227) are writes to the element and are not counted: the source
    assigned at line 227 is the one the new [Image] has just loaded.
    [requested] gives the requests of one turn of the event loop as a
    function of the event and the state; the theorems show that the log of
    requests grows by exactly these, and that every address requested is
    the base URL of the API followed by a query, or an image source of a
    record the API delivered. *)

From S2P Require Import Prelude JsRuntime Formatter State View Images Card Fetcher Controller.
From S2P Require Import Invariants Lifecycle.

(** ** Definitions *)

(** The request of a search: none for an empty query. *)
Definition search_requests (a : app) : list string :=
  if truthy_string (read_query a) then [fetch_url (read_query a)] else [].

Definition random_requests (k : Z) : list string := [fetch_url (toString (randomId k))].

(** The task [img.onerror] starts: the next source, when there is one. *)
Definition retried (t : image_task) : list image_task :=
  if (length (it_sources t) <=? it_index t + 1)%nat then []
  else [ImageTask (it_sources t) (it_index t + 1) (it_pokemon t)].

(** The image tasks one turn starts. *)
Definition started (a : app) (e : event) : list image_task :=
  match e with
  | EvFetchSettled i o =>
      match app_fetches a !! i, fetchPokemon o with
      | Some _, Ok p => [first_image_task p]
      | _, _ => []
      end
  | EvImage i false => from_option retried [] (app_images a !! i)
  | _ => []
  end.

(** The requests of one turn to the API. *)
Definition fetched (a : app) (e : event) : list string :=
  match e with
  | EvSubmit => search_requests a
  | EvKeypress key => if String.eqb key "Enter" then search_requests a else []
  | EvClickRandom k => random_requests k
  | EvKeydown key c m k => if (c || m) && String.eqb key "r" then random_requests k else []
  | _ => []
  end.

(** The requests of one turn. *)
Definition requested (a : app) (e : event) : list string :=
  fetched a e ++ (it_url <$> started a e).

(** The requests of a run. *)
Fixpoint requested_run (es : list event) (a : app) : list string :=
  match es with
  | [] => []
  | e :: es' => requested a e ++ from_option (requested_run es') [] (handle e a)
  end.

(** The records an event delivers. *)
Definition delivered (e : event) : list pokemon :=
  match e with
  | EvFetchSettled _ o => match fetchPokemon o with Ok p => [p] | Throw _ => [] end
  | _ => []
  end.

(** An address of the API, or an image source of one of the records. *)
Definition allowed (records : list pokemon) (url : string) : Prop :=
  startsWith apiBase url = true ∨ Exists (λ p, url ∈ imageSources p) records.

#[global] Instance allowed_dec (records : list pokemon) (url : string) :
  Decision (allowed records url).
Proof. unfold allowed. apply _. Defined.

(** The pending images load sources of the records. *)
Definition tasks_of (records : list pokemon) (a : app) : Prop :=
  Forall (λ t, image_task_wf t ∧ it_pokemon t ∈ records) (app_images a).

(** The images pending after one turn that were pending before. *)
Definition kept (a : app) (e : event) : list image_task :=
  match e with
  | EvImage i _ => delete i (app_images a)
  | _ => app_images a
  end.

(** A run for the witness: a search, its record, and the first source of
    the image failing. *)
Definition search_with_retry : list event :=
  [EvInput "pikachu"; EvSubmit;
   EvFetchSettled 0 (FetchResponse 200 (BodyJson sample_pokemon)); EvImage 0 false].

Definition state_of_search_with_retry : app :=
  default (constructor sample_page) (run search_with_retry (constructor sample_page)).

(** ** Lemmas: one turn *)

Lemma searchPokemon_log (a : app) :
  app_requests (searchPokemon a) = app_requests a ++ search_requests a ∧
  app_images (searchPokemon a) = app_images a.
Proof.
  unfold searchPokemon, search_requests.
  destruct (truthy_string (read_query a)); simpl; by rewrite ?app_nil_r.
Qed.

Lemma on_keydown_log (key : string) (c m : bool) (k : Z) (a : app) :
  app_requests (on_keydown key c m k a) =
    app_requests a ++ (if (c || m) && String.eqb key "r" then random_requests k else []) ∧
  app_images (on_keydown key c m k a) = app_images a.
Proof.
  rewrite on_keydown_cases. destruct (String.eqb_spec key "k") as [->|_].
  - destruct (c || m); simpl; by rewrite app_nil_r.
  - rewrite andb_false_r. repeat case_match; simpl; by rewrite ?app_nil_r.
Qed.

Lemma resume_log (k : continuation) (o : fetch_outcome) (a : app) :
  let ts := match fetchPokemon o with Ok p => [first_image_task p] | Throw _ => [] end in
  app_requests (resume k o a) = app_requests a ++ (it_url <$> ts) ∧
  app_images (resume k o a) = app_images a ++ ts.
Proof.
  simpl. rewrite app_images_resume. split; [|done]. destruct (fetchPokemon o) as [p|m] eqn:Ho.
  - destruct (resume_Ok k o p a Ho) as (_ & _ & _ & _ & _ & _ & _ & ->).
    unfold it_url. simpl. by destruct (imageSources p).
  - destruct (resume_Throw k o m a Ho) as (_ & _ & _ & _ & _ & _ & _ & _ & ->).
    by rewrite app_nil_r.
Qed.

Lemma image_onerror_log (t : image_task) (a : app) :
  app_requests (image_onerror t a) = app_requests a ++ (it_url <$> retried t) ∧
  app_images (image_onerror t a) = app_images a ++ retried t.
Proof.
  unfold image_onerror, tryLoadImage, retried. case_match; simpl; by rewrite ?app_nil_r.
Qed.

(** One turn appends its requests to the log and the tasks it starts to the
    pending images. *)
Lemma handle_log (a : app) (e : event) (a' : app) :
  handle e a = Some a' →
  app_requests a' = app_requests a ++ requested a e ∧ app_images a' = kept a e ++ started a e.
Proof.
  unfold requested.
  destruct e as [v| | |key|k| | |t|key c m k|i o|i loaded| | |]; cbn [handle fetched started kept];
    rewrite ?app_nil_r; try (by intros [= <-]).
  - intros [= <-]. apply searchPokemon_log.
  - intros [= <-]. unfold on_keypress. case_match; [apply searchPokemon_log|by rewrite app_nil_r].
  - by case_match; intros [= <-].
  - intros [= <-]. by destruct t.
  - case_match; intros [= <-]. apply on_keydown_log.
  - destruct (app_fetches a !! i) as [t|]; intros [= <-].
    apply (resume_log _ o (set_fetches _ a)).
  - intros (t & Ht & ->)%image_event_Some. rewrite Ht.
    destruct loaded; simpl; [by rewrite !app_nil_r|].
    apply (image_onerror_log t (set_images _ a)).
Qed.

(** ** Lemmas: the addresses *)

Lemma allowed_fetch_url (records : list pokemon) (query : string) :
  allowed records (fetch_url query).
Proof. left. apply string_prefix_spec. by exists query. Qed.

Lemma allowed_it_url (records : list pokemon) (t : image_task) :
  image_task_wf t → it_pokemon t ∈ records → allowed records (it_url t).
Proof.
  intros [Hs Hi] Hp. right. apply Exists_exists. exists (it_pokemon t). split; [done|].
  rewrite <-Hs. unfold it_url. apply list_elem_of_In, nth_In, Hi.
Qed.

Lemma allowed_fetched (records : list pokemon) (a : app) (e : event) :
  Forall (allowed records) (fetched a e).
Proof.
  destruct e; simpl; unfold search_requests, random_requests; repeat case_match;
    repeat first [apply Forall_nil_2|apply Forall_cons_2; [apply allowed_fetch_url|]].
Qed.

Lemma retried_wf (t : image_task) :
  image_task_wf t → Forall (λ t', image_task_wf t' ∧ it_pokemon t' = it_pokemon t) (retried t).
Proof.
  intros [Hs _]. unfold retried. destruct (Nat.leb_spec (length (it_sources t)) (it_index t + 1));
    repeat constructor; simpl; [done|lia].
Qed.

(** The tasks a turn starts load sources of the records. *)
Lemma started_tasks_of (records : list pokemon) (a : app) (e : event) :
  tasks_of records a → delivered e ⊆ records →
  Forall (λ t, image_task_wf t ∧ it_pokemon t ∈ records) (started a e).
Proof.
  intros Ha He. destruct e as [| | | | | | | | |i o|i [|]| | |]; simpl in *; try by constructor.
  - destruct (app_fetches a !! i), (fetchPokemon o) as [p|]; repeat constructor.
    + apply first_image_task_wf.
    + apply He, list_elem_of_singleton. done.
  - destruct (app_images a !! i) as [t|] eqn:Ht; simpl; [|by constructor].
    destruct (Forall_lookup_1 _ _ _ _ Ha Ht) as [Hwf Hp].
    eapply Forall_impl; [by apply retried_wf|]. simpl. by intros t' [? ->].
Qed.

Lemma kept_tasks_of (records : list pokemon) (a : app) (e : event) :
  tasks_of records a → Forall (λ t, image_task_wf t ∧ it_pokemon t ∈ records) (kept a e).
Proof. intros Ha. destruct e; simpl; try done. by apply Forall_delete. Qed.

Lemma handle_tasks_of (records : list pokemon) (a : app) (e : event) (a' : app) :
  tasks_of records a → delivered e ⊆ records → handle e a = Some a' →
  tasks_of records a' ∧ Forall (allowed records) (requested a e).
Proof.
  intros Ha He [_ Hi]%handle_log. pose proof (started_tasks_of records a e Ha He) as Hs.
  split.
  - unfold tasks_of. rewrite Hi. apply Forall_app. split; [by apply kept_tasks_of|done].
  - apply Forall_app. split; [apply allowed_fetched|].
    apply Forall_fmap. eapply Forall_impl; [exact Hs|]. simpl. intros t []. by apply allowed_it_url.
Qed.

(** ** Lemmas: runs *)

Lemma delivered_cons (records : list pokemon) (e : event) (es : list event) :
  (e :: es) ≫= delivered ⊆ records → delivered e ⊆ records ∧ es ≫= delivered ⊆ records.
Proof. rewrite bind_cons. intros H. split; intros p Hp; apply H, elem_of_app; auto. Qed.

Lemma run_log (es : list event) (a a' : app) :
  run es a = Some a' → app_requests a' = app_requests a ++ requested_run es a.
Proof.
  revert a. induction es as [|e es IH]; intros a; simpl; [intros [= <-]; by rewrite app_nil_r|].
  destruct (handle e a) as [a1|] eqn:He; simpl; [|done].
  intros ->%IH. destruct (handle_log a e a1 He) as [-> _]. by rewrite <-app_assoc.
Qed.

Lemma run_allowed (records : list pokemon) (es : list event) (a a' : app) :
  tasks_of records a → es ≫= delivered ⊆ records → run es a = Some a' →
  Forall (allowed records) (requested_run es a).
Proof.
  revert a. induction es as [|e es IH]; intros a Ha Hes; [by constructor|].
  apply delivered_cons in Hes as [He Hes]. simpl.
  destruct (handle e a) as [a1|] eqn:Ha1; simpl; [|done]. intros Hr.
  destruct (handle_tasks_of records a e a1 Ha He Ha1) as [Ht Hreq].
  apply Forall_app. split; [done|]. by apply (IH a1).
Qed.

(** ** Properties *)

(** The log of requests grows by exactly the requests of each turn:
    after a run it holds what it held before, then the requests [requested]
    gives for each event in order.  A search with a query that is not empty
    and a click on the random button send one request to the API each, a
    record that arrives one for its first image source, a source that fails
    one for the next source when there is one, and no other event sends
    anything. *)
Theorem requests_issued (es : list event) (a a' : app) :
  run es a = Some a' → app_requests a' = app_requests a ++ requested_run es a.
Proof. apply run_log. Qed.

Lemma requests_issued_witness :
  app_requests state_of_search_with_retry =
    [] ++ ["https://pokeapi.co/api/v2/pokemon/pikachu"; "art.png"; "dream.svg"].
Proof.
  apply (requests_issued search_with_retry (constructor sample_page) state_of_search_with_retry).
  vm_compute. reflexivity.
Defined.

(** C8: no other address is ever requested: after any run from the page
    as loaded, every address in the log of requests is [apiBase] followed
    by the query as it was typed and normalized, or by an id, or it is one
    of the [imageSources] of a record that a settled fetch of the run
    carried.  (The query is appended as it is, so the address is under the
    base as a text; what the browser resolves it to is not modelled.) *)
Theorem requests_confined (page : dom) (es : list event) (a' : app) :
  run es (constructor page) = Some a' →
  Forall (allowed (es ≫= delivered)) (app_requests a').
Proof.
  intros Hr. rewrite (run_log es _ a' Hr). simpl.
  apply (run_allowed _ es _ a'); [by constructor|done|done].
Qed.

Lemma requests_confined_witness :
  Forall (allowed [sample_pokemon]) (app_requests state_of_search_with_retry).
Proof.
  apply (requests_confined sample_page search_with_retry state_of_search_with_retry).
  vm_compute. reflexivity.
Defined.
