(* ===== verification/Races.v ===== *)
(** * Races: what overlapping requests do

    Nothing cancels a fetch or an image chain when a newer one starts.  The
    theorems here state what follows for every state, and exhibit reachable
    states in which the page is inconsistent: a fetch in flight with the
    button enabled and nothing loading, the record of an older query over
    that of a newer one, a card with the image of another record, and a help
    section closed by a response. *)

From S2P Require Import Prelude JsRuntime Formatter State View Images Card Fetcher Controller.
From S2P Require Import Invariants Lifecycle.

(** ** Records and runs for the exhibits *)

Definition bulbasaur : pokemon :=
  {| name := "bulbasaur"; id := 1; height := 7; weight := 69;
     base_experience := Some 64%Z;
     types := ["grass"; "poison"]; abilities := ["overgrow"; "chlorophyll"];
     pokemon_sprites := Some {|
       other := None; front_default := Some "bulbasaur.png"; front_shiny := None |} |}.

Definition ok (p : pokemon) : fetch_outcome := FetchResponse 200 (BodyJson p).

(** Two searches by the Enter key, the second typed while the first is in
    flight. *)
Definition two_searches : list event :=
  [EvInput "pikachu"; EvKeypress "Enter"; EvInput "bulbasaur"; EvKeypress "Enter"].

(** The first search is answered while the second is in flight. *)
Definition first_answered : list event :=
  two_searches ++ [EvFetchSettled 0 (ok sample_pokemon)].

(** The second search is answered first, then the first. *)
Definition answered_out_of_order : list event :=
  two_searches ++ [EvFetchSettled 1 (ok bulbasaur); EvFetchSettled 0 (ok sample_pokemon)].

(** Both searches are answered in order; the image of the second record
    loads, and then the image of the first, which was still loading. *)
Definition stale_image_run : list event :=
  two_searches ++
  [EvFetchSettled 0 (ok sample_pokemon); EvFetchSettled 0 (ok bulbasaur);
   EvImage 1 true; EvImage 0 true].

(** The help section is opened while a search is in flight. *)
Definition help_while_loading : list event :=
  [EvInput "pikachu"; EvKeypress "Enter"; EvClickHelp].

Definition state_after (es : list event) : app :=
  default (constructor sample_page) (run es (constructor sample_page)).

Lemma state_after_reachable (es : list event) :
  is_Some (run es (constructor sample_page)) → reachable sample_page (state_after es).
Proof.
  intros [a Ha]. unfold state_after. rewrite Ha. by apply reachable_run_init with es.
Qed.

(** ** Properties *)

(** C34: when more than one fetch is in flight and one of them settles, the
    loading section is hidden and the button is enabled although a fetch is
    still in flight: the busy state of the page follows the last settlement,
    not the fetches in flight. *)
Theorem settle_one_of_many (a : app) (i : nat) (o : fetch_outcome) (a' : app) :
  (2 ≤ length (app_fetches a))%nat →
  step a (EvFetchSettled i o) a' →
  app_fetches a' ≠ [] ∧ loading (shown a') = false ∧
  disabled (searchBtn (app_dom a')) = false.
Proof.
  intros Hlen Hstep. destruct (finally_cleanup_lemma a i o a' Hstep) as [Hl Hb].
  split_and!; [|done|by rewrite Hb].
  inversion Hstep; subst. rewrite app_fetches_resume. simpl. intros E.
  apply (f_equal length) in E. rewrite length_delete in E by eauto. simpl in E. lia.
Qed.

Lemma settle_one_of_many_witness :
  app_fetches (state_after first_answered) ≠ [] ∧
  loading (shown (state_after first_answered)) = false ∧
  disabled (searchBtn (app_dom (state_after first_answered))) = false.
Proof.
  apply (settle_one_of_many (state_after two_searches) 0 (ok sample_pokemon));
    [vm_compute; lia|apply step_handle; vm_compute; reflexivity].
Defined.

(** Responses that arrive out of order: with two searches in flight,
    when the newer one is answered first and the older one after it, the
    card ends up showing the record of the older query. *)
Theorem out_of_order_responses (a : app) (t1 t2 : fetch_task) (o1 o2 : fetch_outcome)
    (p1 p2 : pokemon) :
  app_fetches a = [t1; t2] →
  fetchPokemon o1 = Ok p1 → fetchPokemon o2 = Ok p2 →
  ∃ a', run [EvFetchSettled 1 o2; EvFetchSettled 0 o1] a = Some a' ∧
    dom_card (app_dom a') = card_of p1 ∧ shown a' = Sections false false true false ∧
    app_fetches a' = [].
Proof.
  intros Hf Ho1 Ho2. eexists. split.
  { cbn [run handle]. rewrite Hf. cbn [lookup list_lookup mbind option_bind delete list_delete].
    rewrite app_fetches_resume. cbn [app_fetches set_fetches lookup list_lookup mbind option_bind].
    done. }
  rewrite dom_card_resume, shown_resume, app_fetches_resume, Ho1. done.
Qed.

Lemma out_of_order_responses_witness :
  ∃ a', run [EvFetchSettled 1 (ok bulbasaur); EvFetchSettled 0 (ok sample_pokemon)]
          (state_after two_searches) = Some a' ∧
    dom_card (app_dom a') = card_of sample_pokemon ∧
    shown a' = Sections false false true false ∧
    app_fetches a' = [].
Proof.
  apply (out_of_order_responses (state_after two_searches)
    (FetchTask (fetch_url "pikachu") (KSearch "pikachu"))
    (FetchTask (fetch_url "bulbasaur") (KSearch "bulbasaur"))
    (ok sample_pokemon) (ok bulbasaur) sample_pokemon bulbasaur); reflexivity.
Defined.

(** The [load] handler of an image shows the source of its own task,
    with the name of its own record as the alternative text, whatever the
    card shows by then; the card is not touched. *)
Theorem image_onload_unconditional (a : app) (i : nat) (t : image_task) (a' : app) :
  app_images a !! i = Some t →
  step a (EvImage i true) a' →
  pokemonImage (app_dom a') =
    Image "block" (nth (it_index t) (it_sources t) "") (name (it_pokemon t) +:+ " sprite") ∧
  dom_card (app_dom a') = dom_card (app_dom a) ∧
  app_images a' = delete i (app_images a).
Proof.
  intros Ht Hstep. apply step_handle in Hstep. cbn [handle] in Hstep.
  apply image_event_Some in Hstep as (t' & Ht' & ->). by simplify_eq.
Qed.

Lemma image_onload_unconditional_witness :
  let a := state_after (two_searches ++
    [EvFetchSettled 0 (ok sample_pokemon); EvFetchSettled 0 (ok bulbasaur); EvImage 1 true]) in
  pokemonImage (app_dom (state_after stale_image_run)) =
    Image "block" (nth 0 (imageSources sample_pokemon) "") (name sample_pokemon +:+ " sprite") ∧
  dom_card (app_dom (state_after stale_image_run)) = dom_card (app_dom a) ∧
  app_images (state_after stale_image_run) = delete 0 (app_images a).
Proof.
  apply (image_onload_unconditional
    (state_after (two_searches ++
      [EvFetchSettled 0 (ok sample_pokemon); EvFetchSettled 0 (ok bulbasaur); EvImage 1 true]))
    0 (first_image_task sample_pokemon));
    [reflexivity|apply step_handle; vm_compute; reflexivity].
Defined.

(** C31: an image that is still loading when a newer record arrives is
    shown over the card of the newer record.  From every reachable state in
    which an image is pending and a fetch is in flight, when the fetch
    settles with a record and the image loads after it, the page shows the
    card of the record that arrived with the source and the alternative
    text of the image that was pending, whatever record that image
    belongs to: nothing ties the image element to the card. *)
Theorem stale_image_shown (page : dom) (a : app) (i j : nat) (t : image_task)
    (o : fetch_outcome) (q : pokemon) :
  reachable page a →
  app_images a !! i = Some t → is_Some (app_fetches a !! j) → fetchPokemon o = Ok q →
  ∃ a', run [EvFetchSettled j o; EvImage i true] a = Some a' ∧
    reachable page a' ∧
    shown a' = Sections false false true false ∧
    dom_card (app_dom a') = card_of q ∧
    pokemonImage (app_dom a') =
      Image "block" (nth (it_index t) (it_sources t) "") (name (it_pokemon t) +:+ " sprite").
Proof.
  intros Ha Hi [tf Hj] Ho.
  assert (∃ a', run [EvFetchSettled j o; EvImage i true] a = Some a' ∧
            a' = image_onload t
                   (set_images (delete i (app_images (resume (ft_k tf) o
                      (set_fetches (delete j (app_fetches a)) a))))
                      (resume (ft_k tf) o (set_fetches (delete j (app_fetches a)) a))))
    as (a' & Hrun & ->).
  { eexists. split; [|done]. cbn [run handle]. rewrite Hj. cbn [mbind option_bind].
    erewrite (proj2 (image_event_Some i true _ _)); [done|]. exists t. split; [|done].
    rewrite app_images_resume. by apply lookup_app_l_Some. }
  eexists. split; [done|]. split; [by eapply reachable_run|].
  unfold image_onload. cbn [app_dom on_dom set_images shown].
  pose proof (shown_resume (ft_k tf) o (set_fetches (delete j (app_fetches a)) a)) as Hs.
  pose proof (dom_card_resume (ft_k tf) o (set_fetches (delete j (app_fetches a)) a)) as Hc.
  rewrite Ho in Hs, Hc. unfold shown in Hs. by split_and!.
Qed.

Lemma stale_image_shown_witness :
  ∃ a', run [EvFetchSettled 0 (ok bulbasaur); EvImage 0 true] (state_after first_answered)
          = Some a' ∧
    reachable sample_page a' ∧
    shown a' = Sections false false true false ∧
    dom_card (app_dom a') = card_of bulbasaur ∧
    pokemonImage (app_dom a') =
      Image "block" (nth 0 (imageSources sample_pokemon) "") (name sample_pokemon +:+ " sprite").
Proof.
  apply (stale_image_shown sample_page (state_after first_answered) 0 0
    (first_image_task sample_pokemon) (ok bulbasaur) bulbasaur);
    [apply state_after_reachable; vm_compute; eauto|reflexivity|by eexists|reflexivity].
Defined.

(** The page after two searches answered in order, when the image of the
    first record loads last: the card of Bulbasaur with the artwork and
    the alternative text of Pikachu, a source that is not among the
    sources of Bulbasaur. *)
Example stale_image_reachable :
  reachable sample_page (state_after stale_image_run) ∧
  shown (state_after stale_image_run) = Sections false false true false ∧
  dom_card (app_dom (state_after stale_image_run)) = card_of bulbasaur ∧
  pokemonImage (app_dom (state_after stale_image_run)) =
    Image "block" "art.png" "pikachu sprite" ∧
  ("art.png" ∉ imageSources bulbasaur) ∧
  app_images (state_after stale_image_run) = [].
Proof.
  split; [apply state_after_reachable; vm_compute; eauto|].
  split_and!; [vm_compute; reflexivity..| |vm_compute; reflexivity].
  apply (bool_decide_eq_false_1 _). vm_compute. reflexivity.
Qed.

(** C38: every settlement of a fetch closes the help section, also when the
    user opened it while the request was in flight: the card or the error
    message replaces it. *)
Theorem settlement_closes_help (a : app) (i : nat) (o : fetch_outcome) (a' : app) :
  step a (EvFetchSettled i o) a' →
  helpSection (shown a') = false ∧ (pokemonCard (shown a') = true ∨ errorMessage (shown a') = true).
Proof.
  inversion 1; subst. rewrite shown_resume. case_match; auto.
Qed.

Lemma settlement_closes_help_witness :
  helpSection (shown (state_after help_while_loading)) = true ∧
  helpSection (shown (state_after (help_while_loading ++ [EvFetchSettled 0 (ok sample_pokemon)])))
    = false ∧
  (pokemonCard (shown (state_after (help_while_loading ++ [EvFetchSettled 0 (ok sample_pokemon)])))
     = true ∨
   errorMessage (shown (state_after (help_while_loading ++ [EvFetchSettled 0 (ok sample_pokemon)])))
     = true).
Proof.
  split; [reflexivity|].
  apply (settlement_closes_help (state_after help_while_loading) 0 (ok sample_pokemon)).
  apply step_handle. vm_compute. reflexivity.
Defined.
