(* ===== verification/Wiring.v ===== *)
(** * Wiring: the keyboard shortcuts and the suggestion filter

    The global [keydown] handler of [src/app.js] (lines 338-358) is
    [Controller.on_keydown]; this file states what each shortcut does.  The
    suggestion filter of [initializeAutoSuggest] (lines 284-301) is modelled
    as the pure function it computes: the handler discards the result, and
    the constructor never calls [initializeAutoSuggest], so it changes no
    state. *)

From S2P Require Import Prelude JsRuntime Formatter State View Images Card Fetcher Controller.

(** ** The suggestion filter *)

(** The names of [commonPokemon] (lines 285-290). *)
Definition commonPokemon : list string :=
  ["pikachu"; "charizard"; "blastoise"; "venusaur"; "alakazam";
   "machamp"; "golem"; "gengar"; "gyarados"; "lapras";
   "eevee"; "snorlax"; "articuno"; "zapdos"; "moltres";
   "dragonite"; "mewtwo"; "mew"; "lucario"; "garchomp"].

(** The body of the [input] listener (lines 293-299): the value of the
    input in lower case, and, when it has two characters or more, the names
    that start with it.  [None] when the test of line 294 fails and nothing
    is computed. *)
Definition suggestions (input_value : string) : option (list string) :=
  let value := toLowerCase input_value in
  if (2 <=? String.length value)%nat
  then Some (filter (λ name, startsWith value name = true) commonPokemon)
  else None.

(** [initializeAutoSuggest] (lines 284-301) binds a listener that computes
    [suggestions] and drops them: the state is unchanged. *)
Definition initializeAutoSuggest_input (input_value : string) (a : app) : app :=
  match suggestions input_value with
  | Some _ => a
  | None => a
  end.

(** ** Lemmas *)

Lemma suggestions_Some (v : string) (l : list string) :
  suggestions v = Some l ↔
  (2 ≤ String.length v)%nat ∧
  l = filter (λ name, startsWith (toLowerCase v) name = true) commonPokemon.
Proof.
  unfold suggestions. rewrite toLowerCase_length.
  destruct (Nat.leb_spec 2 (String.length v)); split.
  - by intros [= <-].
  - by intros [_ ->].
  - done.
  - intros [? _]. lia.
Qed.

Lemma on_keydown_other (key : string) (c m : bool) (k : Z) (a : app) :
  key ≠ "Escape" → (c || m) && (String.eqb key "k" || String.eqb key "r") = false →
  on_keydown key c m k a = a.
Proof.
  intros Hk Hs. rewrite on_keydown_cases.
  apply String.eqb_neq in Hk. rewrite Hk.
  destruct (c || m), (String.eqb key "k"), (String.eqb key "r"); done.
Qed.

(** ** Properties *)

(** The suggestion filter: for an input of two characters or more, the
    suggestions are exactly the names of the catalogue that start with the
    input in lower case, in the order of the catalogue and without
    repetition; for a shorter input nothing is computed. *)
Theorem suggestions_correct (v : string) :
  match suggestions v with
  | Some l =>
      (2 ≤ String.length v)%nat ∧ l `sublist_of` commonPokemon ∧ NoDup l ∧
      ∀ name, name ∈ l ↔ name ∈ commonPokemon ∧ ∃ rest, name = toLowerCase v +:+ rest
  | None => (String.length v < 2)%nat
  end.
Proof.
  destruct (suggestions v) as [l|] eqn:E.
  - apply suggestions_Some in E as [Hlen ->]. split_and!; [done|apply sublist_filter| |].
    + apply NoDup_filter. by apply (bool_decide_unpack _).
    + intros name. rewrite list_elem_of_filter. unfold startsWith.
      rewrite string_prefix_spec. tauto.
  - unfold suggestions in E. rewrite toLowerCase_length in E.
    by destruct (Nat.leb_spec 2 (String.length v)).
Qed.

(** The keyboard shortcuts: with Ctrl or Cmd, [k] focuses the input and
    changes nothing else, and [r] does what a click on the random button
    does; Escape closes the help section when it is shown and does nothing
    otherwise; every other key does nothing. *)
Theorem on_keydown_shortcuts (key : string) (c m : bool) (k : Z) (a : app) :
  on_keydown "k" true m k a = on_dom (set_input_focused true) a ∧
  on_keydown "k" c true k a = on_dom (set_input_focused true) a ∧
  on_keydown "r" true m k a = getRandomPokemon k a ∧
  on_keydown "r" c true k a = getRandomPokemon k a ∧
  on_keydown "Escape" c m k a = (if helpSection (shown a) then on_dom hideHelp a else a) ∧
  (key ≠ "Escape" → (c || m) && (String.eqb key "k" || String.eqb key "r") = false →
   on_keydown key c m k a = a).
Proof.
  split_and!; [rewrite on_keydown_cases; by destruct c, m..|apply on_keydown_other].
Qed.

Lemma on_keydown_shortcuts_witness :
  on_keydown "a" false false 0 (constructor sample_page) = constructor sample_page.
Proof.
  apply (on_keydown_shortcuts "a" false false 0 (constructor sample_page)); done.
Defined.
