(* ===== verification/Display.v ===== *)
(** * Display: the display state of the specification, and the refinement

    The specification describes the program by one value, the display
    state: idle, loading, an error with its message, or a record shown.
    Requests in flight are not cancelled, and whichever settles last decides
    the display.  [spec_step] is that machine, on the display state and the
    requests in flight.  [abstract] reads the display state off the page and
    [label] reads off an event what it means to the machine; the theorems
    show that every turn of the event loop of [src/app.js] is a transition
    of the machine or leaves its state alone, so that what holds of the
    machine holds of the page.  The machine takes the message of a failure
    and the card of a record from the functions of the code
    ([Controller.search_error_message], [Fetcher.fetchPokemon],
    [Card.card_of]), so the refinement is of the states and the requests
    in flight; which message a failure gets is the subject of
    [Lifecycle]. *)

From S2P Require Import Prelude JsRuntime Formatter State View Images Card Fetcher Controller.
From S2P Require Import Invariants Lifecycle Ghost Races.

(** ** The machine of the specification *)

(** The display state: exactly one of these. *)
Inductive display : Type :=
| Idle
| Loading
| Error (message : string)
| Showing (c : card).

#[global] Instance display_eq_dec : EqDecision display.
Proof. solve_decision. Defined.

(** The display state and the requests in flight, oldest first. *)
Record spec_state : Type := SpecState {
  sp_display : display;
  sp_pending : list continuation
}.

#[global] Instance spec_state_eq_dec : EqDecision spec_state.
Proof. solve_decision. Defined.

(** What happens to the machine: a search is submitted with the raw text of
    the input, a random record is requested, or the request at a position
    settles. *)
Inductive spec_event : Type :=
| SSearch (raw : string)
| SRandom
| SSettled (i : nat) (o : fetch_outcome).

(** The message for a failed request: by the classification for a search,
    fixed for a random request. *)
Definition failure_message (k : continuation) (message : string) : string :=
  match k with
  | KSearch query => search_error_message query message
  | KRandom => msg_random
  end.

(** The display after a request settles. *)
Definition settled_display (k : continuation) (o : fetch_outcome) : display :=
  match fetchPokemon o with
  | Ok p => Showing (card_of p)
  | Throw message => Error (failure_message k message)
  end.

(** One transition; [None] when no request is at the position that
    settles. *)
Definition spec_step (ev : spec_event) (s : spec_state) : option spec_state :=
  match ev with
  | SSearch raw =>
      let query := toLowerCase (trim raw) in
      if truthy_string query
      then Some (SpecState Loading (sp_pending s ++ [KSearch query]))
      else Some (SpecState (Error msg_empty_query) (sp_pending s))
  | SRandom => Some (SpecState Loading (sp_pending s ++ [KRandom]))
  | SSettled i o =>
      k ← sp_pending s !! i;
      Some (SpecState (settled_display k o) (delete i (sp_pending s)))
  end.

Fixpoint spec_run (evs : list spec_event) (s : spec_state) : option spec_state :=
  match evs with
  | [] => Some s
  | ev :: evs' => s' ← spec_step ev s; spec_run evs' s'
  end.

Definition spec_init : spec_state := SpecState Idle [].

Definition spec_reachable (s : spec_state) : Prop :=
  ∃ evs, spec_run evs spec_init = Some s.

(** ** The abstraction *)

(** The display state of a page: the section that is shown, with the text
    or the card it holds. *)
Definition display_of (d : dom) : display :=
  if loading (dom_sections d) then Loading
  else if errorMessage (dom_sections d) then Error (errorText d)
  else if pokemonCard (dom_sections d) then Showing (dom_card d)
  else Idle.

Definition abstract (a : app) : spec_state :=
  SpecState (display_of (app_dom a)) (ft_k <$> app_fetches a).

(** What an event means to the machine, in the state in which it happens;
    [None] for the events the machine does not see: edits of the input,
    the help section, focus, images. *)
Definition label (a : app) (e : event) : option spec_event :=
  match e with
  | EvSubmit => Some (SSearch (pokemonInput (app_dom a)))
  | EvKeypress key =>
      if String.eqb key "Enter" then Some (SSearch (pokemonInput (app_dom a))) else None
  | EvClickRandom _ => Some SRandom
  | EvKeydown key ctrlKey metaKey _ =>
      if (ctrlKey || metaKey) && String.eqb key "r" then Some SRandom else None
  | EvFetchSettled i o => Some (SSettled i o)
  | _ => None
  end.

(** The events of a run the machine sees. *)
Fixpoint labels (es : list event) (a : app) : list spec_event :=
  match es with
  | [] => []
  | e :: es' =>
      option_list (label a e) ++ from_option (labels es') [] (handle e a)
  end.

(** A run for the witnesses: a search typed, the help opened, the search
    submitted and answered, and the image loaded. *)
Definition sample_run : list event :=
  [EvInput "Pikachu "; EvClickHelp; EvSubmit; EvFetchSettled 0 sample_ok; EvImage 0 true].

(** ** Lemmas *)

(** The machine does not see the logs. *)
#[global] Instance abstract_proper : Proper (same_page ==> eq) abstract.
Proof. intros a a' (Hd & Hf & _). unfold abstract. by rewrite Hd, Hf. Qed.

Lemma spec_run_app (evs evs' : list spec_event) (s : spec_state) :
  spec_run (evs ++ evs') s = spec_run evs s ≫= spec_run evs'.
Proof.
  revert s. induction evs as [|ev evs IH]; intros s; simpl; [done|].
  destruct (spec_step ev s); simpl; [apply IH|done].
Qed.

Lemma spec_run_option_list (o : option spec_event) (s : spec_state) :
  spec_run (option_list o) s = from_option (λ ev, spec_step ev s) (Some s) o.
Proof. destruct o as [ev|]; simpl; [by destruct (spec_step ev s)|done]. Qed.

(** The display state depends on the three sections, the error text and
    the card only. *)
Lemma display_of_frame (d d' : dom) :
  set_helpSection false (dom_sections d') = set_helpSection false (dom_sections d) →
  errorText d' = errorText d → dom_card d' = dom_card d →
  display_of d' = display_of d.
Proof.
  unfold display_of. intros Hs -> ->.
  destruct (dom_sections d'), (dom_sections d). by simplify_eq/=.
Qed.

Lemma abstract_constructor (page : dom) : abstract (constructor page) = spec_init.
Proof. done. Qed.

Lemma abstract_searchPokemon (a : app) :
  spec_step (SSearch (pokemonInput (app_dom a))) (abstract a) = Some (abstract (searchPokemon a)).
Proof.
  unfold spec_step. fold (read_query a).
  destruct (truthy_string (read_query a)) eqn:E.
  - rewrite searchPokemon_nonempty by done. unfold abstract. simpl. by rewrite fmap_app.
  - by rewrite searchPokemon_empty.
Qed.

Lemma abstract_getRandomPokemon (k : Z) (a : app) :
  spec_step SRandom (abstract a) = Some (abstract (getRandomPokemon k a)).
Proof. unfold abstract, getRandomPokemon. simpl. by rewrite fmap_app. Qed.

Lemma display_of_resume (k : continuation) (o : fetch_outcome) (a : app) :
  display_of (app_dom (resume k o a)) = settled_display k o.
Proof.
  unfold settled_display, display_of. destruct (fetchPokemon o) as [p|m] eqn:Ho.
  - destruct (resume_Ok k o p a Ho) as (Hs & Hc & _). fold (shown (resume k o a)).
    by rewrite Hs, Hc.
  - destruct (resume_Throw k o m a Ho) as (Hs & He & _). fold (shown (resume k o a)).
    by rewrite Hs, He.
Qed.

Lemma abstract_settled (a : app) (i : nat) (o : fetch_outcome) (t : fetch_task) :
  app_fetches a !! i = Some t →
  spec_step (SSettled i o) (abstract a) =
    Some (abstract (resume (ft_k t) o (set_fetches (delete i (app_fetches a)) a))).
Proof.
  intros Ht. unfold spec_step, abstract at 1. simpl.
  rewrite list_lookup_fmap, Ht. simpl. f_equal. unfold abstract.
  by rewrite display_of_resume, app_fetches_resume, <-list_fmap_delete.
Qed.

Lemma abstract_quiet (f : dom → dom) (a : app) :
  set_helpSection false (dom_sections (f (app_dom a))) =
    set_helpSection false (dom_sections (app_dom a)) →
  errorText (f (app_dom a)) = errorText (app_dom a) →
  dom_card (f (app_dom a)) = dom_card (app_dom a) →
  abstract (on_dom f a) = abstract a.
Proof.
  intros Hs He Hc. unfold abstract. rewrite app_fetches_on_dom, app_dom_on_dom.
  by rewrite (display_of_frame (app_dom a)).
Qed.

Lemma abstract_image (i : nat) (loaded : bool) (a a' : app) :
  image_event i loaded a = Some a' → abstract a' = abstract a.
Proof.
  intros (t & _ & ->)%image_event_Some.
  destruct (image_handler_frame loaded t (set_images (delete i (app_images a)) a))
    as (Hs & _ & Hc & Hf & He & _).
  unfold abstract. rewrite Hf. f_equal. apply display_of_frame; [|done..].
  unfold shown in Hs. by rewrite Hs.
Qed.

(** The keys of the [keydown] handler that the machine does not see leave
    its state alone. *)
Lemma abstract_on_keydown_other (key : string) (c m : bool) (k : Z) (a : app) :
  (c || m) && String.eqb key "r" = false →
  abstract (on_keydown key c m k a) = abstract a.
Proof.
  intros Hr. rewrite on_keydown_cases, Hr. repeat case_match; by rewrite ?abstract_quiet.
Qed.

Lemma abstract_on_keydown_random (key : string) (c m : bool) (k : Z) (a : app) :
  (c || m) && String.eqb key "r" = true →
  on_keydown key c m k a = getRandomPokemon k a.
Proof.
  intros Hr. rewrite on_keydown_cases, Hr.
  apply andb_true_iff in Hr as [-> ->%String.eqb_eq]. done.
Qed.

(** One turn of the event loop is one transition of the machine, or none. *)
Lemma handle_abstract (a : app) (e : event) (a' : app) :
  handle e a = Some a' →
  spec_run (option_list (label a e)) (abstract a) = Some (abstract a').
Proof.
  destruct e as [v| | |key|k| | |t|key c m k|i o|i loaded| | |]; cbn [handle label];
    rewrite ?spec_run_option_list; [..|by intros [= <-]|by intros [= <-]|by intros [= <-]].
  - intros [= <-]. by rewrite abstract_quiet.
  - intros [= <-]. by rewrite abstract_quiet.
  - intros [= <-]. apply abstract_searchPokemon.
  - intros [= <-]. unfold on_keypress.
    destruct (String.eqb key "Enter"); cbn [from_option];
      [apply abstract_searchPokemon|done].
  - destruct (valid_draw k); intros [= <-]. apply abstract_getRandomPokemon.
  - intros [= <-]. by rewrite abstract_quiet.
  - intros [= <-]. by rewrite abstract_quiet.
  - intros [= <-]. destruct t; simpl; by rewrite ?abstract_quiet.
  - destruct (valid_draw k); intros [= <-].
    destruct ((c || m) && String.eqb key "r") eqn:Hr; cbn [from_option].
    + rewrite abstract_on_keydown_random by done. apply abstract_getRandomPokemon.
    + by rewrite abstract_on_keydown_other.
  - destruct (app_fetches a !! i) as [t|] eqn:Ht; intros [= <-].
    apply (abstract_settled a i o t Ht).
  - intros He. by rewrite (abstract_image i loaded a a').
Qed.

Lemma settle_enabled (a : app) (i : nat) (o : fetch_outcome) :
  is_Some (spec_step (SSettled i o) (abstract a)) ↔ is_Some (handle (EvFetchSettled i o) a).
Proof.
  simpl. rewrite list_lookup_fmap. destruct (app_fetches a !! i); simpl; [|by rewrite <-!not_eq_None_Some].
  split; eauto.
Qed.

Lemma spec_reachable_run (evs : list spec_event) (s s' : spec_state) :
  spec_reachable s → spec_run evs s = Some s' → spec_reachable s'.
Proof.
  intros [evs0 H0] Hs. exists (evs0 ++ evs). by rewrite spec_run_app, H0.
Qed.

(** Every reachable state of the page is, read through [abstract], a
    reachable state of the machine, which starts idle with no request in
    flight. *)
Lemma reachable_abstract (page : dom) (a : app) :
  reachable page a → spec_reachable (abstract a).
Proof.
  induction 1 as [|a e a' _ IH Hstep]; [by exists []|].
  apply step_handle in Hstep. eapply spec_reachable_run; [done|].
  by apply handle_abstract.
Qed.

(** ** What holds of the machine *)

(** The machine is loading only while a request is in flight. *)
Definition loading_pending (s : spec_state) : Prop :=
  sp_display s = Loading → sp_pending s ≠ [].

Lemma settled_display_not_Loading (k : continuation) (o : fetch_outcome) :
  settled_display k o ≠ Loading.
Proof. unfold settled_display. by destruct (fetchPokemon o). Qed.

Lemma spec_step_loading_pending (ev : spec_event) (s s' : spec_state) :
  spec_step ev s = Some s' → loading_pending s'.
Proof.
  unfold loading_pending. destruct ev as [raw| |i o]; simpl.
  - case_match; intros [= <-]; simpl; [by intros _ [_ ?]%app_eq_nil|done].
  - intros [= <-]. simpl. by intros _ [_ ?]%app_eq_nil.
  - destruct (sp_pending s !! i) as [k|]; intros [= <-]. simpl.
    by intros ?%settled_display_not_Loading.
Qed.

Lemma spec_run_loading_pending (evs : list spec_event) (s s' : spec_state) :
  loading_pending s → spec_run evs s = Some s' → loading_pending s'.
Proof.
  revert s. induction evs as [|ev evs IH]; intros s Hs; simpl; [by intros [= <-]|].
  destruct (spec_step ev s) as [s1|] eqn:E; simpl; [|done].
  apply IH. by eapply spec_step_loading_pending.
Qed.

Lemma reachable_loading_pending (page : dom) (a : app) :
  reachable page a → loading_pending (abstract a).
Proof.
  intros [evs Hevs]%reachable_abstract. by apply (spec_run_loading_pending evs spec_init).
Qed.

(** ** Properties *)

(** C4: refinement: every run of the event loop is a run of the machine of
    the specification.  Read through [abstract], the state after the run is
    the state the machine reaches on the events it sees ([labels]), which
    are at most as many as the events of the run; the edits of the input,
    the help section and the images are invisible to it. *)
Theorem run_refines (es : list event) (a a' : app) :
  run es a = Some a' →
  spec_run (labels es a) (abstract a) = Some (abstract a') ∧
  (length (labels es a) ≤ length es)%nat.
Proof.
  revert a. induction es as [|e es IH]; intros a; simpl; [by intros [= <-]|].
  destruct (handle e a) as [a1|] eqn:He; simpl; [|done].
  intros [Hrun Hlen]%IH. rewrite spec_run_app, (handle_abstract a e a1 He). simpl.
  split; [done|]. rewrite length_app. destruct (label a e); simpl; lia.
Qed.

Lemma run_refines_witness :
  spec_run (labels sample_run (constructor sample_page)) (abstract (constructor sample_page)) =
    Some (abstract (state_after sample_run)) ∧
  (length (labels sample_run (constructor sample_page)) ≤ length sample_run)%nat.
Proof.
  apply (run_refines sample_run (constructor sample_page) (state_after sample_run)).
  vm_compute. reflexivity.
Defined.

(** The page shows the loading section only while a request is in
    flight, in every reachable state and from any page.  The proof is on the
    machine of the specification, where it takes one case per transition,
    and the refinement carries it to the page. *)
Theorem loading_means_pending (page : dom) (a : app) :
  reachable page a → loading (shown a) = true → app_fetches a ≠ [].
Proof.
  intros Ha Hl Hf. apply (reachable_loading_pending page a Ha).
  - unfold abstract, display_of. simpl. unfold shown in Hl. by rewrite Hl.
  - unfold abstract. simpl. by rewrite Hf.
Qed.

Lemma loading_means_pending_witness : app_fetches sample_loading_state ≠ [].
Proof.
  apply (loading_means_pending sample_page);
    [apply sample_loading_state_reachable|reflexivity].
Defined.
