(* ===== verification/Progress.v ===== *)
(** * Progress: pending work drains

    A fetch in flight settles and an image being loaded loads or fails: these
    are the events of the environment.  When the user does nothing more,
    every sequence of them is finite, however the fetches and the images
    turn out and in whatever order, and it ends with nothing pending and the
    loading section hidden.  [budget] bounds the number of events: seven for
    each fetch in flight (its settlement and the six sources its record can
    have), and one for each source an image being loaded has left.
    [within] and the measure argument [within_measure] are stated for any
    event loop, so that [RawProgress] and [Await] use them as well. *)

From S2P Require Import Prelude JsRuntime Formatter State View Images Card Fetcher Controller.
From S2P Require Import Invariants Lifecycle Races Display.

(** ** Definitions *)

(** The events of the environment. *)
Definition env_event (e : event) : bool :=
  match e with
  | EvFetchSettled _ _ | EvImage _ _ => true
  | _ => false
  end.

(** Nothing is pending. *)
Definition quiescent (a : app) : Prop := app_fetches a = [] ∧ app_images a = [].

#[global] Instance quiescent_dec (a : app) : Decision (quiescent a).
Proof. unfold quiescent. apply _. Defined.

(** The sources an image task has left, the one being loaded included. *)
Definition image_budget (t : image_task) : nat := length (it_sources t) - it_index t.

(** The sources the pending images have left. *)
Definition image_load (a : app) : nat := sum_list (image_budget <$> app_images a).

Definition budget (a : app) : nat := 7 * length (app_fetches a) + image_load a.

Section Within.

(** The events of the environment and the turns of an event loop over the
    states [St]. *)
Context {St E : Type} (env : E → bool) (next : St → E → St → Prop).

(** [within P n a]: [P] holds after at most [n] events of the environment,
    whichever they are, and until then one of them can happen. *)
Inductive within (P : St → Prop) : nat → St → Prop :=
| within_now n a : P a → within P n a
| within_later n a :
    (∃ e a', env e = true ∧ next a e a') →
    (∀ e a', env e = true → next a e a' → within P n a') →
    within P (S n) a.

End Within.

(** ** Lemmas *)

Section Measure.

Context {St E : Type} (env : E → bool) (next : St → E → St → Prop).

Lemma within_mono (P : St → Prop) (n m : nat) (a : St) :
  within env next P n a → (n ≤ m)%nat → within env next P m a.
Proof.
  intros H. revert m. induction H as [n a HP|n a He _ IH]; intros m Hm.
  - by apply within_now.
  - destruct m as [|m]; [lia|]. apply within_later; [done|].
    intros e a' Hev Hs. apply (IH e a' Hev Hs). lia.
Qed.

Lemma within_impl (P Q : St → Prop) (n : nat) (a : St) :
  (∀ a', P a' → Q a') → within env next P n a → within env next Q n a.
Proof.
  intros HPQ. induction 1 as [n a HP|n a He _ IH];
    [apply within_now; auto|apply within_later; auto].
Qed.

(** A measure that every event of the environment lowers, on the states of
    an invariant in which such an event can happen until [P] holds. *)
Context (I P : St → Prop) (measure : St → nat).
Context (I_next : ∀ a e a', I a → env e = true → next a e a' → I a').
Context (measure_next : ∀ a e a', I a → env e = true → next a e a' → (measure a' < measure a)%nat).
Context (enabled : ∀ a, I a → P a ∨ ∃ e a', env e = true ∧ next a e a').

Lemma within_measure (n : nat) (a : St) : I a → (measure a ≤ n)%nat → within env next P n a.
Proof.
  revert a. induction n as [|n IH]; intros a Ha Hn; destruct (enabled a Ha) as [HP|He];
    try (by apply within_now).
  - destruct He as (e & a' & He & Hs). pose proof (measure_next a e a' Ha He Hs). lia.
  - apply within_later; [done|]. intros e a' He' Hs. apply IH; [by eapply I_next|].
    pose proof (measure_next a e a' Ha He' Hs). lia.
Qed.

End Measure.

Lemma sum_list_app (l k : list nat) : sum_list (l ++ k) = (sum_list l + sum_list k)%nat.
Proof. induction l as [|x l IH]; simpl; lia. Qed.

Lemma sum_list_delete (l : list nat) (i x : nat) :
  l !! i = Some x → (sum_list (delete i l) + x = sum_list l)%nat.
Proof.
  revert i. induction l as [|y l IH]; intros [|i]; simpl; try done.
  - intros [= ->]. lia.
  - intros H%IH. lia.
Qed.

Lemma image_budget_delete (l : list image_task) (i : nat) (t : image_task) :
  l !! i = Some t →
  (sum_list (image_budget <$> delete i l) + image_budget t =
     sum_list (image_budget <$> l))%nat.
Proof.
  intros Ht. rewrite list_fmap_delete. apply sum_list_delete.
  by rewrite list_lookup_fmap, Ht.
Qed.

Lemma image_budget_first (p : pokemon) : (image_budget (first_image_task p) ≤ 6)%nat.
Proof. unfold image_budget. simpl. pose proof (imageSources_length p). lia. Qed.

(** The settlement of a fetch uses up its seven events and gives at most
    six to the image of the record. *)
Lemma budget_settled (a : app) (i : nat) (o : fetch_outcome) (t : fetch_task) :
  app_fetches a !! i = Some t →
  (budget (resume (ft_k t) o (set_fetches (delete i (app_fetches a)) a)) < budget a)%nat.
Proof.
  intros Ht. unfold budget, image_load. rewrite app_fetches_resume, app_images_resume. simpl.
  rewrite length_delete by eauto. apply lookup_lt_Some in Ht.
  rewrite fmap_app, sum_list_app.
  destruct (fetchPokemon o) as [p|]; simpl; [pose proof (image_budget_first p)|]; lia.
Qed.

(** An image event uses up one source of its task, or all of them. *)
Lemma budget_image (a : app) (i : nat) (loaded : bool) (t : image_task) :
  app_images a !! i = Some t → image_task_live t →
  (budget ((if loaded then image_onload t else image_onerror t)
             (set_images (delete i (app_images a)) a)) < budget a)%nat.
Proof.
  intros Ht [Hwf _]. unfold budget, image_load.
  pose proof (image_budget_delete _ _ _ Ht) as Hsum. unfold image_budget at 2 in Hsum.
  destruct loaded; simpl; [lia|].
  rewrite app_images_image_onerror.
  destruct (image_handler_frame false t (set_images (delete i (app_images a)) a))
    as (_ & _ & _ & Hf & _). simpl in Hf. rewrite Hf. simpl.
  rewrite fmap_app, sum_list_app.
  destruct (Nat.leb_spec (length (it_sources t)) (it_index t + 1)); simpl;
    unfold image_budget in *; simpl; lia.
Qed.

(** An event of the environment lowers the budget. *)
Lemma budget_env_step (a : app) (e : event) (a' : app) :
  images_live a → env_event e = true → step a e a' → (budget a' < budget a)%nat.
Proof.
  intros Hwf He. destruct 1 as [| | | | | | | | |a i o t Ht|a i loaded a' Hi| | |]; try done.
  - by apply budget_settled.
  - apply image_event_Some in Hi as (t & Ht & ->). apply budget_image; [done|].
    by eapply Forall_lookup_1 in Hwf.
Qed.

(** While something is pending an event of the environment can happen. *)
Lemma env_enabled_handle (a : app) :
  ¬ quiescent a → ∃ e a', env_event e = true ∧ handle e a = Some a'.
Proof.
  unfold quiescent. destruct (app_fetches a) as [|t ts] eqn:Hf.
  - destruct (app_images a) as [|t ts] eqn:Hi; [by intros []|]. intros _.
    exists (EvImage 0 true). eexists. split; [done|].
    simpl. unfold image_event. by rewrite Hi.
  - intros _. exists (EvFetchSettled 0 (FetchRejected "")). eexists. split; [done|].
    simpl. by rewrite Hf.
Qed.

Lemma env_enabled (a : app) :
  ¬ quiescent a → ∃ e a', env_event e = true ∧ step a e a'.
Proof.
  intros (e & a' & He & Ha')%env_enabled_handle. exists e, a'. by rewrite step_handle.
Qed.

Lemma reachable_images_live (page : dom) (a : app) : reachable page a → images_live a.
Proof. apply (invariant_reachable images_live). by constructor. Qed.

(** The state the page comes to rest in. *)
Definition at_rest (a : app) : Prop := quiescent a ∧ loading (shown a) = false.

Lemma reachable_quiescent_at_rest (page : dom) (a : app) :
  reachable page a → quiescent a → at_rest a.
Proof.
  intros Ha [Hf Hi]. split; [done|].
  destruct (loading (shown a)) eqn:Hl; [|done].
  destruct (reachable_loading_pending page a Ha).
  - unfold abstract, display_of. simpl. unfold shown in Hl. by rewrite Hl.
  - unfold abstract. simpl. by rewrite Hf.
Qed.

Lemma reachable_enabled (page : dom) (a : app) :
  reachable page a → at_rest a ∨ ∃ e a', env_event e = true ∧ step a e a'.
Proof.
  intros Ha. destruct (decide (quiescent a)) as [Hq|Hq]; [left|right].
  - by apply (reachable_quiescent_at_rest page).
  - by apply env_enabled.
Qed.

Lemma within_budget (page : dom) (n : nat) (a : app) :
  reachable page a → (budget a ≤ n)%nat → within env_event step at_rest n a.
Proof.
  apply (within_measure env_event step (reachable page) at_rest budget).
  - intros a1 e a2 H1 _ Hs. by eapply reachable_step.
  - intros a1 e a2 H1. apply budget_env_step. by eapply reachable_images_live.
  - apply reachable_enabled.
Qed.

(** ** Properties *)

(** C13: liveness: from every reachable state, when the user does nothing
    more, the page comes to rest: after at most [budget] events of the
    environment, whichever fetch settles or image loads or fails next and
    however it turns out, no fetch and no image is pending and the loading
    section is hidden; and until then the environment always has a next
    event. *)
Theorem pending_work_drains (page : dom) (a : app) :
  reachable page a → within env_event step at_rest (budget a) a.
Proof. intros Ha. by apply (within_budget page). Qed.

Lemma pending_work_drains_witness :
  within env_event step at_rest (budget sample_loading_state) sample_loading_state.
Proof.
  apply (pending_work_drains sample_page). apply sample_loading_state_reachable.
Defined.
