(* ===== verification/Await.v ===== *)
(** * Await: the two awaits of [fetchPokemon]

    [fetchPokemon] (src/app.js, lines 160-172) awaits twice: the response
    of [fetch], and for a status from 200 to 299 the body that
    [response.json()] reads.  Between the two the event loop runs: the user
    can type and search again, other fetches can settle, images can load.
    [Fetcher] and [Controller] take the two settlements as one event.  Here
    they are two: a fetch in flight is waiting for its response or, with the
    status it got, for its body.  The theorems show that this event loop
    and the one of [Controller] reach the same states of the page, so that
    what is proved of the one holds of the other. *)

From S2P Require Import Prelude JsRuntime Formatter State View Images Card Fetcher Controller.
From S2P Require Import Invariants Lifecycle Races Display Progress.

(** ** Definitions *)

(** From the first [await] to the second (lines 163-169): a status outside
    200 to 299 is an error, and the body is not read. *)
Definition check_status (status : Z) : result unit :=
  if negb (response_ok status) then
    if (status =? 404)%Z then Throw "404: Pokemon not found"
    else Throw ("HTTP error! status: " +:+ toString status)
  else Ok ().

(** After the second [await] (line 171): the record, or the error with
    which [response.json()] rejected. *)
Definition read_body (b : body) : result pokemon :=
  match b with
  | BodyJson p => Ok p
  | BodySyntaxError message => Throw message
  end.

(** An outcome with which [fetchPokemon] returns or throws as [r] says. *)
Definition outcome_of (r : result pokemon) : fetch_outcome :=
  match r with
  | Ok p => FetchResponse 200 (BodyJson p)
  | Throw message => FetchRejected message
  end.

(** What a fetch in flight is waiting for: its response, or the body of the
    response with the status it got. *)
Inductive phase : Type :=
| AwaitingResponse
| AwaitingBody (status : Z).

#[global] Instance phase_eq_dec : EqDecision phase.
Proof. solve_decision. Defined.

(** The state: the application, and the phase of each fetch in flight, in
    the order of [app_fetches]. *)
Record fine : Type := Fine {
  f_app : app;
  f_phases : list phase
}.

(** What can happen: an event of [Controller] other than a settlement; the
    promise of [fetch] rejects, or is fulfilled with a response; the
    promise of [response.json()] settles. *)
Inductive fine_event : Type :=
| FEvent (e : event)
| FRejected (i : nat) (message : string)
| FResponse (i : nat) (status : Z)
| FBody (i : nat) (b : body).

(** The settlements of [Controller], which are two turns here. *)
Definition is_settlement (e : event) : bool :=
  match e with
  | EvFetchSettled _ _ => true
  | _ => false
  end.

(** The fetch at position [i] ends with [r]: its continuation runs, and it
    is no longer in flight. *)
Definition settle (i : nat) (r : result pokemon) (s : fine) : option fine :=
  t ← app_fetches (f_app s) !! i;
  Some (Fine (resume (ft_k t) (outcome_of r)
                (set_fetches (delete i (app_fetches (f_app s))) (f_app s)))
             (delete i (f_phases s))).

(** One turn. *)
Definition handle_fine (e : fine_event) (s : fine) : option fine :=
  match e with
  | FEvent e =>
      if is_settlement e then None
      else
        a' ← handle e (f_app s);
        Some (Fine a' (f_phases s ++
                replicate (length (app_fetches a') - length (app_fetches (f_app s)))
                  AwaitingResponse))
  | FRejected i message =>
      match f_phases s !! i with
      | Some AwaitingResponse => settle i (Throw message) s
      | _ => None
      end
  | FResponse i status =>
      match f_phases s !! i with
      | Some AwaitingResponse =>
          match check_status status with
          | Ok _ => Some (Fine (f_app s) (<[i := AwaitingBody status]> (f_phases s)))
          | Throw message => settle i (Throw message) s
          end
      | _ => None
      end
  | FBody i b =>
      match f_phases s !! i with
      | Some (AwaitingBody _) => settle i (read_body b) s
      | _ => None
      end
  end.

Fixpoint run_fine (es : list fine_event) (s : fine) : option fine :=
  match es with
  | [] => Some s
  | e :: es' => s' ← handle_fine e s; run_fine es' s'
  end.

(** The event of [Controller] a turn is, if it is one: the response with a
    status from 200 to 299 is none, and the body is the settlement with the
    status the response had. *)
Definition erase (s : fine) (e : fine_event) : option event :=
  match e with
  | FEvent e => Some e
  | FRejected i message => Some (EvFetchSettled i (FetchRejected message))
  | FResponse i status =>
      if response_ok status then None
      else Some (EvFetchSettled i (FetchResponse status (BodySyntaxError "")))
  | FBody i b =>
      match f_phases s !! i with
      | Some (AwaitingBody status) => Some (EvFetchSettled i (FetchResponse status b))
      | _ => None
      end
  end.

Fixpoint erase_run (es : list fine_event) (s : fine) : list event :=
  match es with
  | [] => []
  | e :: es' => option_list (erase s e) ++ from_option (erase_run es') [] (handle_fine e s)
  end.

(** The turns an event of [Controller] stands for. *)
Definition split_event (e : event) : list fine_event :=
  match e with
  | EvFetchSettled i (FetchRejected message) => [FRejected i message]
  | EvFetchSettled i (FetchResponse status b) =>
      if response_ok status then [FResponse i status; FBody i b] else [FResponse i status]
  | e => [FEvent e]
  end.

(** Every fetch in flight has a phase, and a body is awaited only after a
    status from 200 to 299. *)
Definition fine_wf (s : fine) : Prop :=
  length (f_phases s) = length (app_fetches (f_app s)) ∧
  Forall (λ p, ∀ status, p = AwaitingBody status → response_ok status = true) (f_phases s).

(** The state the listener of [DOMContentLoaded] leaves. *)
Definition fine_init (page : dom) : fine := Fine (constructor page) [].

(** The events of the environment: an image loads or fails, a promise
    settles. *)
Definition fine_env (e : fine_event) : bool :=
  match e with
  | FEvent e => env_event e
  | _ => true
  end.

Definition fine_step (s : fine) (e : fine_event) (s' : fine) : Prop :=
  handle_fine e s = Some s'.

(** The fetches in flight whose response has not come. *)
Definition awaiting (s : fine) : nat :=
  length (filter (λ p, p = AwaitingResponse) (f_phases s)).

(** One event more than [budget] for each of them. *)
Definition fine_budget (s : fine) : nat := budget (f_app s) + awaiting s.

(** The state the page comes to rest in. *)
Definition fine_at_rest (s : fine) : Prop := at_rest (f_app s).

(** The state of [Controller] as a state of this event loop: no fetch in
    flight has its response yet. *)
Definition embed (a : app) : fine :=
  Fine a (replicate (length (app_fetches a)) AwaitingResponse).

(** A scenario: a search whose response has come and whose body has not
    when the user searches again; the second search gets a 404, and then
    the body of the first comes. *)
Definition overlapping : list fine_event :=
  [FEvent (EvInput "pikachu"); FEvent EvSubmit; FResponse 0 200;
   FEvent (EvInput "missingno"); FEvent EvSubmit; FResponse 1 404;
   FBody 0 (BodyJson sample_pokemon)].

(** The state of the scenario when the response of the first search has
    come. *)
Definition body_awaited : fine :=
  default (fine_init sample_page) (run_fine (take 3 overlapping) (fine_init sample_page)).

(** ** Lemmas *)

Lemma fetchPokemon_outcome_of (r : result pokemon) : fetchPokemon (outcome_of r) = r.
Proof. by destruct r. Qed.

(** [fetchPokemon] is the check of the status and then the read of the
    body. *)
Lemma fetchPokemon_awaits (status : Z) (b : body) :
  fetchPokemon (FetchResponse status b) = check_status status ≫= λ _, read_body b.
Proof.
  unfold check_status. simpl. destruct (response_ok status); simpl; [by destruct b|].
  by destruct (status =? 404)%Z.
Qed.

(** The continuation of a fetch depends on the outcome only through what
    [fetchPokemon] returns or throws. *)
Lemma resume_ext (k : continuation) (o o' : fetch_outcome) (a : app) :
  fetchPokemon o = fetchPokemon o' → resume k o a = resume k o' a.
Proof. intros H. by rewrite !resume_unfold, H. Qed.

(** A handler does not touch the fetches in flight: it starts one, or
    none. *)
Lemma searchPokemon_launched (a : app) :
  ∃ ts, app_fetches (searchPokemon a) = app_fetches a ++ ts.
Proof.
  unfold searchPokemon. case_match; [exists []|eexists [_]]; destruct a; simpl;
    by rewrite ?app_nil_r.
Qed.

Lemma getRandomPokemon_launched (k : Z) (a : app) :
  ∃ ts, app_fetches (getRandomPokemon k a) = app_fetches a ++ ts.
Proof. eexists [_]. by destruct a. Qed.

Lemma image_event_launched (i : nat) (loaded : bool) (a a' : app) :
  image_event i loaded a = Some a' → app_fetches a' = app_fetches a.
Proof.
  intros (t & _ & ->)%image_event_Some.
  by destruct (image_handler_frame loaded t (set_images (delete i (app_images a)) a))
    as (_ & _ & _ & -> & _).
Qed.

Lemma handle_launched (e : event) (a a' : app) :
  is_settlement e = false → handle e a = Some a' →
  ∃ ts, app_fetches a' = app_fetches a ++ ts.
Proof.
  pose proof (searchPokemon_launched a). pose proof (getRandomPokemon_launched).
  destruct e; simpl; intros ? He; try done;
    try (exists []; rewrite app_nil_r; by eapply image_event_launched);
    try rewrite on_keydown_cases in He;
    unfold on_keypress, on_helpSection_click in *; repeat case_match; simplify_eq/=; eauto;
    exists []; rewrite app_nil_r; first [done|by destruct a].
Qed.

Lemma check_status_Ok (status : Z) :
  check_status status = Ok () ↔ response_ok status = true.
Proof. unfold check_status. destruct (response_ok status); simpl; [done|]. by case_match. Qed.

Lemma check_status_Throw (status : Z) (message : string) :
  check_status status = Throw message →
  response_ok status = false ∧
  ∀ b, fetchPokemon (FetchResponse status b) = Throw message.
Proof.
  intros H. split; [|by intros b; rewrite fetchPokemon_awaits, H].
  destruct (response_ok status) eqn:E; [|done]. apply check_status_Ok in E. congruence.
Qed.

(** A settlement of this event loop is the settlement of [Controller] with
    any outcome for which [fetchPokemon] ends the same way. *)
Lemma settle_handle (i : nat) (r : result pokemon) (o : fetch_outcome) (s : fine) :
  fetchPokemon o = r →
  f_app <$> settle i r s = handle (EvFetchSettled i o) (f_app s).
Proof.
  intros Hr. unfold settle. simpl. destruct (app_fetches (f_app s) !! i) as [t|]; simpl; [|done].
  f_equal. apply resume_ext. by rewrite fetchPokemon_outcome_of.
Qed.

Lemma settle_phases (i : nat) (r : result pokemon) (s s' : fine) :
  settle i r s = Some s' →
  f_phases s' = delete i (f_phases s) ∧
  app_fetches (f_app s') = delete i (app_fetches (f_app s)) ∧
  is_Some (app_fetches (f_app s) !! i).
Proof.
  unfold settle. destruct (app_fetches (f_app s) !! i) as [t|] eqn:E; simpl; [|done].
  intros [= <-]. simpl. by rewrite app_fetches_resume.
Qed.

Lemma settle_wf (i : nat) (r : result pokemon) (s s' : fine) :
  fine_wf s → settle i r s = Some s' → fine_wf s'.
Proof.
  intros [Hl Hp] (Hp' & Hf' & Hi)%settle_phases. unfold fine_wf. rewrite Hp', Hf'.
  split; [|by apply Forall_delete].
  rewrite !length_delete; [lia|done|]. apply lookup_lt_is_Some. rewrite Hl.
  by apply lookup_lt_is_Some.
Qed.

Lemma run_one (e : event) (a : app) : run (option_list (Some e)) a = handle e a.
Proof. simpl. by destruct (handle e a). Qed.

(** ** One turn of this event loop, as turns of [Controller] *)

Lemma handle_fine_erase (e : fine_event) (s s' : fine) :
  fine_wf s → handle_fine e s = Some s' →
  run (option_list (erase s e)) (f_app s) = Some (f_app s') ∧ fine_wf s'.
Proof.
  intros Hwf. pose proof Hwf as [Hl Hp].
  destruct e as [e|i message|i status|i b]; cbn [handle_fine erase].
  - destruct (is_settlement e) eqn:Hs; [done|].
    destruct (handle e (f_app s)) as [a'|] eqn:He; simpl; [|done]. intros [= <-].
    destruct (handle_launched e _ _ Hs He) as [ts Hts]. rewrite He.
    split; [done|]. split; simpl.
    + rewrite length_app, length_replicate, Hl, Hts, length_app. lia.
    + apply Forall_app. split; [done|]. by apply Forall_replicate.
  - destruct (f_phases s !! i) as [[]|]; try done. intros Hs. split; [|by eapply settle_wf].
    by rewrite run_one, <-(settle_handle i (Throw message)), Hs.
  - destruct (f_phases s !! i) as [[]|]; try done.
    destruct (check_status status) as [[]|message] eqn:Hc.
    + apply check_status_Ok in Hc. rewrite Hc. intros [= <-]. split; [done|]. split; simpl.
      * by rewrite length_insert.
      * apply Forall_insert; [done|]. by intros ? [= <-].
    + apply check_status_Throw in Hc as [Hc Hf]. rewrite Hc. intros Hs.
      split; [|by eapply settle_wf]. cbn [option_list].
      by rewrite run_one, <-(settle_handle i (Throw message)), Hs.
  - destruct (f_phases s !! i) as [[|status]|] eqn:Hi; try done. intros Hs.
    split; [|by eapply settle_wf].
    rewrite run_one, <-(settle_handle i (read_body b)), Hs; [done|].
    rewrite fetchPokemon_awaits.
    by rewrite (proj2 (check_status_Ok status) (Forall_lookup_1 _ _ _ _ Hp Hi status eq_refl)).
Qed.

(** A run of this event loop is the run of [Controller] over the events
    its turns are. *)
Lemma run_fine_erase (es : list fine_event) (s s' : fine) :
  fine_wf s → run_fine es s = Some s' →
  run (erase_run es s) (f_app s) = Some (f_app s') ∧ fine_wf s'.
Proof.
  revert s. induction es as [|e es IH]; intros s Hwf; simpl; [by intros [= <-]|].
  destruct (handle_fine e s) as [s1|] eqn:He; simpl; [|done]. intros Hes.
  destruct (handle_fine_erase e s s1 Hwf He) as [Hrun Hwf1].
  destruct (IH s1 Hwf1 Hes) as [Hrun' Hwf']. by rewrite run_app, Hrun.
Qed.

Lemma run_fine_app (es es' : list fine_event) (s : fine) :
  run_fine (es ++ es') s = run_fine es s ≫= run_fine es'.
Proof.
  revert s. induction es as [|e es IH]; intros s; simpl; [done|].
  destruct (handle_fine e s); simpl; [apply IH|done].
Qed.

(** ** One turn of [Controller], as turns of this event loop *)

Lemma embed_wf (a : app) : fine_wf (embed a).
Proof.
  split; simpl; [by rewrite length_replicate|]. by apply Forall_replicate.
Qed.

Lemma settle_embed (i : nat) (r : result pokemon) (o : fetch_outcome) (s : fine) (a' : app) :
  fetchPokemon o = r → handle (EvFetchSettled i o) (f_app s) = Some a' →
  delete i (f_phases s) =
    delete i (replicate (length (app_fetches (f_app s))) AwaitingResponse) →
  settle i r s = Some (embed a').
Proof.
  intros Hr Ha Hp. pose proof (settle_handle i r o s Hr) as Hs.
  simpl in Ha, Hs. unfold settle in *.
  destruct (app_fetches (f_app s) !! i) as [t|] eqn:Ht; simplify_eq/=. unfold embed.
  rewrite Hs, Hp, app_fetches_resume. simpl.
  by rewrite delete_replicate, length_delete; eauto using lookup_lt_Some.
Qed.

Lemma handle_settled_lt (i : nat) (o : fetch_outcome) (a a' : app) :
  handle (EvFetchSettled i o) a = Some a' →
  replicate (length (app_fetches a)) AwaitingResponse !! i = Some AwaitingResponse.
Proof.
  simpl. destruct (app_fetches a !! i) eqn:Ht; [|done]. intros _.
  eapply lookup_replicate_2, lookup_lt_Some, Ht.
Qed.

Lemma handle_split (e : event) (a a' : app) :
  handle e a = Some a' → run_fine (split_event e) (embed a) = Some (embed a').
Proof.
  intros He. destruct (is_settlement e) eqn:Hs.
  - destruct e as [| | | | | | | | |i [message|status b]| | | |]; try done.
    all: pose proof (handle_settled_lt _ _ _ _ He) as Hi; cbn [split_event].
    + cbn [run_fine handle_fine embed f_phases]. rewrite Hi.
      by rewrite (settle_embed i _ (FetchRejected message) _ a').
    + destruct (check_status status) as [[]|message] eqn:Hc.
      * apply check_status_Ok in Hc as Hok. rewrite Hok.
        cbn [run_fine handle_fine embed f_phases]. rewrite Hi, Hc.
        cbn [mbind option_bind handle_fine f_phases f_app].
        rewrite list_lookup_insert_eq by eapply lookup_lt_Some, Hi.
        rewrite (settle_embed i _ (FetchResponse status b) _ a');
          [done|by rewrite fetchPokemon_awaits, Hc|done|apply delete_insert_same].
      * apply check_status_Throw in Hc as Hf. destruct Hf as [Hno Hf]. rewrite Hno.
        cbn [run_fine handle_fine embed f_phases]. rewrite Hi, Hc.
        by rewrite (settle_embed i _ (FetchResponse status b) _ a').
  - destruct (handle_launched e a a' Hs He) as [ts Hts].
    replace (split_event e) with [FEvent e] by by destruct e.
    simpl. rewrite Hs, He. simpl. unfold embed. do 2 f_equal.
    rewrite Hts, length_app, replicate_add. do 2 f_equal. lia.
Qed.

Lemma run_split (es : list event) (a a' : app) :
  run es a = Some a' → run_fine (es ≫= split_event) (embed a) = Some (embed a').
Proof.
  revert a. induction es as [|e es IH]; intros a; simpl; [by intros [= <-]|].
  destruct (handle e a) as [a1|] eqn:He; simpl; [|done]. intros Hes.
  by rewrite run_fine_app, (handle_split e a a1 He); simpl; auto.
Qed.

Lemma run_fine_reachable (page : dom) (es : list fine_event) (s : fine) :
  run_fine es (fine_init page) = Some s → reachable page (f_app s).
Proof.
  intros Hes. eapply reachable_run_init.
  by apply (run_fine_erase es (fine_init page) s (embed_wf _)).
Qed.

(** ** Lemmas: the measure *)

Lemma settle_budget (i : nat) (r : result pokemon) (s s' : fine) :
  settle i r s = Some s' → (fine_budget s' < fine_budget s)%nat.
Proof.
  unfold settle, fine_budget, awaiting.
  destruct (app_fetches (f_app s) !! i) as [t|] eqn:Ht; simpl; [|done]. intros [= <-]. simpl.
  pose proof (budget_settled (f_app s) i (outcome_of r) t Ht).
  pose proof (filter_delete_le (λ p, p = AwaitingResponse) (f_phases s) i). lia.
Qed.

(** Every event of the environment lowers the measure. *)
Lemma fine_budget_step (s : fine) (e : fine_event) (s' : fine) :
  images_live (f_app s) → fine_env e = true → fine_step s e s' →
  (fine_budget s' < fine_budget s)%nat.
Proof.
  intros Hlive He. unfold fine_step.
  destruct e as [e|i message|i status|i b]; simpl;
    [|destruct (f_phases s !! i) as [[]|] eqn:Hi; try done; eauto using settle_budget..].
  - destruct (is_settlement e) eqn:Hs; [done|].
    destruct (handle e (f_app s)) as [a'|] eqn:Ha; simpl; [|done]. intros [= <-].
    pose proof (budget_env_step _ _ _ Hlive He (proj2 (step_handle _ _ _) Ha)).
    destruct e; try done. apply image_event_launched in Ha.
    unfold fine_budget, awaiting. cbn [f_app f_phases].
    rewrite Ha, Nat.sub_diag, app_nil_r. lia.
  - destruct (check_status status) as [[]|message]; [|eauto using settle_budget].
    intros [= <-]. unfold fine_budget, awaiting. cbn [f_app f_phases].
    pose proof (filter_insert_lt (λ p, p = AwaitingResponse) (f_phases s) i
      AwaitingResponse (AwaitingBody status) Hi eq_refl ltac:(done)). lia.
Qed.

(** While something is pending an event of the environment can happen. *)
Lemma fine_enabled (s : fine) :
  fine_wf s → ¬ quiescent (f_app s) → ∃ e s', fine_env e = true ∧ fine_step s e s'.
Proof.
  intros [Hl _] Hq. unfold fine_step.
  destruct (app_fetches (f_app s)) as [|t ts] eqn:Hf.
  - destruct (env_enabled_handle _ Hq) as (e & a' & He & Ha). exists (FEvent e).
    destruct e; try done; simpl in *; [by rewrite Hf in Ha|]. rewrite Ha. by eexists.
  - destruct (f_phases s) as [|[|status] ps] eqn:Hp; [done|..].
    + exists (FRejected 0 ""). unfold handle_fine, settle. rewrite Hp, Hf. by eexists.
    + exists (FBody 0 (BodySyntaxError "")). unfold handle_fine, settle. rewrite Hp, Hf.
      by eexists.
Qed.

Lemma fine_within (page : dom) (n : nat) (s : fine) :
  fine_wf s → reachable page (f_app s) → (fine_budget s ≤ n)%nat →
  within fine_env fine_step fine_at_rest n s.
Proof.
  intros Hwf Hr. apply (within_measure fine_env fine_step
    (λ s, fine_wf s ∧ reachable page (f_app s)) fine_at_rest fine_budget); [| | |done].
  - intros s1 e s2 [H1 Hr1] _ [Hrun H2]%handle_fine_erase; [|done].
    split; [done|]. by eapply reachable_run.
  - intros s1 e s2 [_ Hr1]. apply fine_budget_step. by eapply reachable_images_live.
  - intros s1 [H1 Hr1]. destruct (decide (quiescent (f_app s1))) as [Hq|Hq]; [left|right].
    + by apply (reachable_quiescent_at_rest page).
    + by apply fine_enabled.
Qed.

(** ** Properties *)

(** C9: every run of the event loop in which the two awaits of
    [fetchPokemon] settle in turns of their own, with whatever happens
    between them, ends in the state of the page in which the event loop of
    [Controller] ends on the events the turns are: the response with a
    status from 200 to 299 is none, the body is the settlement with that
    status, every other turn is itself. *)
Theorem two_awaits_refine (page : dom) (es : list fine_event) (s : fine) :
  run_fine es (fine_init page) = Some s →
  run (erase_run es (fine_init page)) (constructor page) = Some (f_app s).
Proof. intros Hes. by apply (run_fine_erase es (fine_init page) s (embed_wf _)). Qed.

Lemma two_awaits_refine_witness :
  ∃ s, run_fine overlapping (fine_init sample_page) = Some s ∧
    run (erase_run overlapping (fine_init sample_page)) (constructor sample_page) =
      Some (f_app s).
Proof.
  eexists. split; [vm_compute; reflexivity|].
  apply (two_awaits_refine sample_page overlapping). vm_compute; reflexivity.
Defined.

(** The events of [Controller] the scenario is: the 404 settles the second
    search before the body settles the first. *)
Example overlapping_erased :
  erase_run overlapping (fine_init sample_page) =
    [EvInput "pikachu"; EvSubmit; EvInput "missingno"; EvSubmit;
     EvFetchSettled 1 (FetchResponse 404 (BodySyntaxError ""));
     EvFetchSettled 0 (FetchResponse 200 (BodyJson sample_pokemon))].
Proof. by vm_compute. Qed.

(** Every run of [Controller] is a run of this event loop, the settlement
    of a response with a status from 200 to 299 in two turns. *)
Theorem two_awaits_complete (page : dom) (es : list event) (a : app) :
  run es (constructor page) = Some a →
  run_fine (es ≫= split_event) (fine_init page) = Some (embed a).
Proof. apply run_split. Qed.

(** The two event loops reach the same states of the application. *)
Theorem two_awaits_reachable (page : dom) (a : app) :
  reachable page a ↔ ∃ es s, run_fine es (fine_init page) = Some s ∧ f_app s = a.
Proof.
  split.
  - intros [es Hes]%reachable_trace. exists (es ≫= split_event), (embed a).
    split; [by apply run_split|done].
  - intros (es & s & Hes & <-). by eapply run_fine_reachable.
Qed.

(** What every turn of [Controller] keeps holds in this event loop too. *)
Theorem two_awaits_invariant (I : app → Prop) `{!Invariant I} (page : dom)
    (es : list fine_event) (s : fine) :
  I (constructor page) → run_fine es (fine_init page) = Some s → I (f_app s).
Proof.
  intros Hinit Hes. apply (invariant_reachable I page); [done|]. by eapply run_fine_reachable.
Qed.

(** With the awaits apart at most one of the loading, error and card
    sections is shown, and the loading section is shown only while a fetch
    waits for its response or for its body. *)
Corollary two_awaits_display (page : dom) (es : list fine_event) (s : fine) :
  run_fine es (fine_init page) = Some s →
  exclusive (shown (f_app s)) ∧ (loading (shown (f_app s)) = true → f_phases s ≠ []).
Proof.
  intros Hes. split.
  - apply (two_awaits_invariant display_exclusive page es); [|done].
    apply constructor_invariants.
  - intros Hl Hnil. destruct (run_fine_erase es _ s (embed_wf _) Hes) as [_ [Hlen _]].
    apply (reachable_loading_pending page (f_app s)); [by eapply run_fine_reachable| |].
    + unfold abstract, display_of. simpl. unfold shown in Hl. by rewrite Hl.
    + unfold abstract. simpl. rewrite Hnil in Hlen. by destruct (app_fetches (f_app s)).
Qed.

(** C15: liveness with the two awaits apart: from every state this event
    loop reaches, when the user does nothing more, the page comes to rest
    after at most [fine_budget] events of the environment, whichever
    promise settles or image loads or fails next and however it turns out;
    a response is followed by its body or by the error of reading it, and
    until the page is at rest the environment always has a next event. *)
Theorem two_awaits_drain (page : dom) (es : list fine_event) (s : fine) :
  run_fine es (fine_init page) = Some s →
  within fine_env fine_step fine_at_rest (fine_budget s) s.
Proof.
  intros Hes. destruct (run_fine_erase es _ s (embed_wf _) Hes) as [Hrun Hwf].
  apply (fine_within page); [done| |done]. by eapply reachable_run_init.
Qed.

Lemma two_awaits_drain_witness :
  within fine_env fine_step fine_at_rest (fine_budget body_awaited) body_awaited.
Proof.
  apply (two_awaits_drain sample_page (take 3 overlapping)). vm_compute; reflexivity.
Defined.
