(* ===== verification/Values.v ===== *)
(** * Values: what [response.json()] returns, and the language on it

    [fetchPokemon] returns whatever value the body of the response parses
    to, and the program reads its properties without checking its shape.
    This file has the values of JSON as JavaScript values, and the
    operations of ECMA-262 the program applies to them: property access,
    optional chaining, truthiness, conversion to a string and to a number.
    They are models of the language, not of code under [src/].

    A number is an integer, as in [JsRuntime].  An operation that throws
    returns [Raised] with the message of the [TypeError]; the text of the
    message is the engine's, so the operations take the engine as a
    parameter, and [v8_message] is the text Chrome and Node give.  What the
    model does not cover (the conversion of a string to a number) is
    [Unmodelled], so that no theorem speaks of it by accident. *)

From S2P Require Import Prelude JsRuntime.

(** ** Values *)

#[warnings="-register-all"]
Inductive value : Type :=
| VUndefined
| VNull
| VBool (b : bool)
| VNum (z : Z)
| VStr (s : string)
| VArr (elements : list value)
| VObj (members : list (string * value)).

(** The outcome of an evaluation: a value, a thrown error with its message,
    or outside the model. *)
Inductive outcome (A : Type) : Type :=
| Done (x : A)
| Raised (message : string)
| Unmodelled.

Arguments Done {A} x.
Arguments Raised {A} message.
Arguments Unmodelled {A}.

#[global] Instance outcome_ret : MRet outcome := λ A x, Done x.
#[global] Instance outcome_bind : MBind outcome := λ A B f o,
  match o with
  | Done x => f x
  | Raised message => Raised message
  | Unmodelled => Unmodelled
  end.
#[global] Instance outcome_fmap : FMap outcome := λ A B f o,
  match o with
  | Done x => Done (f x)
  | Raised message => Raised message
  | Unmodelled => Unmodelled
  end.

(** The [TypeError]s the operations throw: a property read of [undefined]
    or of [null], a call of something that is not a function (with the
    text of the callee), and an object that does not convert to a
    primitive. *)
Inductive type_error : Type :=
| ReadOfUndefined (key : string)
| ReadOfNull (key : string)
| NotAFunction (callee : string)
| NotPrimitive.

#[global] Instance type_error_eq_dec : EqDecision type_error.
Proof. solve_decision. Defined.

(** The messages of V8. *)
Definition v8_message (e : type_error) : string :=
  match e with
  | ReadOfUndefined key => "Cannot read properties of undefined (reading '" +:+ key +:+ "')"
  | ReadOfNull key => "Cannot read properties of null (reading '" +:+ key +:+ "')"
  | NotAFunction callee => callee +:+ " is not a function"
  | NotPrimitive => "Cannot convert object to primitive value"
  end.

(** A number: an integer or [NaN]. *)
Inductive number : Type :=
| NaN
| Num (z : Z).

(** The own property [key] of an object whose members are [ms], in the
    order of the text: of two members with the same name [JSON.parse] keeps
    the later (25.5.1). *)
Fixpoint own (ms : list (string * value)) (key : string) : option value :=
  match ms with
  | [] => None
  | (k, v) :: ms' =>
      match own ms' key with
      | Some w => Some w
      | None => if String.eqb k key then Some v else None
      end
  end.

(** [ToBoolean] (7.1.2). *)
Definition truthy (v : value) : bool :=
  match v with
  | VUndefined | VNull => false
  | VBool b => b
  | VNum z => truthy_number z
  | VStr s => truthy_string s
  | VArr _ | VObj _ => true
  end.

(** [v?.key] (13.3.9): [undefined] when [v] is [undefined] or [null], and
    the property otherwise.  For the keys the program reads, which no
    built-in prototype has, the property of a primitive or of an array is
    [undefined]. *)
Definition get_opt (v : value) (key : string) : value :=
  match v with
  | VObj ms => default VUndefined (own ms key)
  | _ => VUndefined
  end.

Section Operations.

Context (engine : type_error → string).

(** A thrown [TypeError]. *)
Definition type_error_raised {A} (e : type_error) : outcome A := Raised (engine e).

(** [v.key] (13.3.2): a [TypeError] when [v] is [undefined] or [null]. *)
Definition get (v : value) (key : string) : outcome value :=
  match v with
  | VUndefined => type_error_raised (ReadOfUndefined key)
  | VNull => type_error_raised (ReadOfNull key)
  | _ => Done (get_opt v key)
  end.

(** [ToString] (7.1.17), as a template literal applies it.  An array
    converts by [Array.prototype.join] (23.1.3.18), which takes [undefined]
    and [null] elements as empty; an object by [Object.prototype.toString]
    unless it has an own property [toString], which is not a function, and
    then it does not convert. *)
Fixpoint to_string (v : value) : outcome string :=
  match v with
  | VUndefined => Done "undefined"
  | VNull => Done "null"
  | VBool b => Done (if b then "true" else "false")
  | VNum z => Done (toString z)
  | VStr s => Done s
  | VArr elements =>
      join "," <$>
        (fix go (l : list value) : outcome (list string) :=
           match l with
           | [] => Done []
           | e :: l' =>
               s ← match e with
                   | VUndefined | VNull => Done ""
                   | _ => to_string e
                   end;
               ss ← go l';
               Done (s :: ss)
           end) elements
  | VObj ms =>
      match own ms "toString" with
      | Some _ => type_error_raised NotPrimitive
      | None => Done "[object Object]"
      end
  end.

(** [ToNumber] (7.1.4).  An object converts through its string, which is
    not a numeral; the conversion of a string, and of an array through its
    string, is not modelled. *)
Definition to_number (v : value) : outcome number :=
  match v with
  | VUndefined => Done NaN
  | VNull => Done (Num 0)
  | VBool b => Done (Num (if b then 1 else 0))
  | VNum z => Done (Num z)
  | VObj ms =>
      match own ms "toString" with
      | Some _ => type_error_raised NotPrimitive
      | None => Done NaN
      end
  | VStr _ | VArr _ => Unmodelled
  end.

End Operations.

(** [(n / 10).toFixed(1)]: [NaN] stays [NaN]. *)
Definition number_tenth_toFixed1 (n : number) : string :=
  match n with
  | NaN => "NaN"
  | Num z => toFixed1_tenth z
  end.

(** ** Lemmas *)

Lemma own_app (ms ms' : list (string * value)) (key : string) :
  own (ms ++ ms') key = match own ms' key with Some w => Some w | None => own ms key end.
Proof.
  induction ms as [|[k v] ms IH]; simpl; [by destruct (own ms' key)|].
  rewrite IH. by destruct (own ms' key).
Qed.

Lemma own_singleton (k key : string) (v : value) :
  own [(k, v)] key = if String.eqb k key then Some v else None.
Proof. done. Qed.

(** A property read of an object does not throw. *)
Lemma get_object (engine : type_error → string) (ms : list (string * value)) (key : string) :
  get engine (VObj ms) key = Done (get_opt (VObj ms) key).
Proof. done. Qed.

Lemma get_Done (engine : type_error → string) (v w : value) (key : string) :
  get engine v key = Done w → w = get_opt v key ∧ v ≠ VUndefined ∧ v ≠ VNull.
Proof. destruct v; simpl; intros; by simplify_eq. Qed.

Lemma get_Raised (engine : type_error → string) (v : value) (key message : string) :
  get engine v key = Raised message ↔
  (v = VUndefined ∧ message = engine (ReadOfUndefined key)) ∨
  (v = VNull ∧ message = engine (ReadOfNull key)).
Proof.
  destruct v; simpl; unfold type_error_raised; split; intros H;
    try (by destruct H as [[[=] _]|[[=] _]]); try done.
  - left. by simplify_eq.
  - destruct H as [[_ ->]|[[=] _]]. done.
  - right. by simplify_eq.
  - destruct H as [[[=] _]|[_ ->]]. done.
Qed.

Lemma to_string_VStr (engine : type_error → string) (s : string) :
  to_string engine (VStr s) = Done s.
Proof. done. Qed.

(** Induction on a value, with the hypothesis for every element of an
    array and every member of an object. *)
Lemma value_ind_nested (P : value → Prop) :
  P VUndefined → P VNull → (∀ b, P (VBool b)) → (∀ z, P (VNum z)) → (∀ s, P (VStr s)) →
  (∀ l, Forall P l → P (VArr l)) →
  (∀ ms, Forall (λ m, P m.2) ms → P (VObj ms)) →
  ∀ v, P v.
Proof.
  intros Hu Hn Hb Hz Hs Ha Ho. fix IH 1.
  intros [| |b|z|s|l|ms]; [exact Hu|exact Hn|apply Hb|apply Hz|apply Hs|..].
  - apply Ha. induction l as [|e l IHl]; constructor; [apply IH|apply IHl].
  - apply Ho. induction ms as [|[k e] ms IHms]; constructor; [apply IH|apply IHms].
Qed.

(** Conversion to a string never leaves the model. *)
Lemma to_string_modelled (engine : type_error → string) (v : value) :
  to_string engine v ≠ Unmodelled.
Proof.
  induction v as [| |b|z|s|l IH|ms _] using value_ind_nested; simpl; try done; [|by case_match].
  induction IH as [|e l He _ IHl]; simpl; [done|].
  destruct e; simpl in *; try done;
    repeat match goal with |- context [mbind _ ?o] => destruct o eqn:?; simpl in * end; done.
Qed.
