(* ===== verification/Script.v ===== *)
(** * Script: the top level of the script

    What evaluating [src/app.js] does, outside the class: it attaches the
    [DOMContentLoaded] listener to the document (line 305), writes three
    lines to the console (314-316), attaches the [load] listener to the
    window when the browser has service workers (319-326), the [online] and
    [offline] listeners (329-335) and the [keydown] listener (338), and
    exports the class when the host has a [module] with truthy [exports]
    (361-363).  The host is what the script reads of the global scope; a
    global that is not defined is a [ReferenceError], which ends the
    evaluation where it is thrown.  The theorems say what a browser gets,
    and in which hosts the export is reached. *)

From S2P Require Import Prelude JsRuntime State View Controller Values.

(** ** Definitions *)

(** The global scope: whether [document] and [window] are defined, whether
    [navigator] is and has [serviceWorker], and the binding of [module]. *)
Record host : Type := Host {
  host_document : bool;
  host_window : bool;
  host_navigator : option bool;
  host_module : option value
}.

Inductive script_error : Type :=
| ReferenceError (name : string)
| TypeError (e : type_error).

(** A listener: the global it is attached to and the event. *)
Record listener : Type := Listener {
  l_target : string;
  l_event : string
}.

#[global] Instance listener_eq_dec : EqDecision listener.
Proof. solve_decision. Defined.

(** What the evaluation has done so far. *)
Record script_state : Type := ScriptState {
  st_listeners : list listener;
  st_console : list console_call;
  st_exported : bool
}.

(** The evaluation ran to the end, or it stopped at an error with what it
    had done until then. *)
Inductive completion : Type :=
| Normal (s : script_state)
| Abrupt (e : script_error) (s : script_state).

Definition and_then (c : completion) (f : script_state → completion) : completion :=
  match c with
  | Normal s => f s
  | Abrupt e s => Abrupt e s
  end.

Declare Scope script_scope.
Delimit Scope script_scope with script.
Notation "c >>> f" := (and_then c f) (at level 61, left associativity) : script_scope.

(** [target.addEventListener(event, ...)], where [target] is a global. *)
Definition addEventListener (defined : bool) (target event : string) (s : script_state)
    : completion :=
  if defined then
    Normal {| st_listeners := st_listeners s ++ [Listener target event];
              st_console := st_console s; st_exported := st_exported s |}
  else Abrupt (ReferenceError target) s.

(** The three calls of [console.log] (lines 314-316). *)
Definition log_loaded (s : script_state) : completion :=
  Normal {| st_listeners := st_listeners s; st_console := st_console s ++ script_console;
            st_exported := st_exported s |}.

(** [if ('serviceWorker' in navigator) window.addEventListener('load', ...)]
    (lines 319-326). *)
Definition register_load (h : host) (s : script_state) : completion :=
  match host_navigator h with
  | None => Abrupt (ReferenceError "navigator") s
  | Some true => addEventListener (host_window h) "window" "load" s
  | Some false => Normal s
  end.

(** [typeof module !== 'undefined']: [typeof] of a name that is not
    defined is ['undefined'] and does not throw. *)
Definition typeof_defined (binding : option value) : bool :=
  match binding with
  | None | Some VUndefined => false
  | Some _ => true
  end.

(** [if (typeof module !== 'undefined' && module.exports)
    module.exports = PokemonExplorer] (lines 361-363). *)
Definition export_class (h : host) (s : script_state) : completion :=
  match host_module h with
  | Some VNull => Abrupt (TypeError (ReadOfNull "exports")) s
  | Some m =>
      if typeof_defined (Some m) && truthy (get_opt m "exports") then
        Normal {| st_listeners := st_listeners s; st_console := st_console s;
                  st_exported := true |}
      else Normal s
  | None => Normal s
  end.

(** The script, statement by statement. *)
Definition script (h : host) : completion :=
  (addEventListener (host_document h) "document" "DOMContentLoaded" (ScriptState [] [] false)
   >>> log_loaded
   >>> register_load h
   >>> addEventListener (host_window h) "window" "online"
   >>> addEventListener (host_window h) "window" "offline"
   >>> addEventListener (host_document h) "document" "keydown"
   >>> export_class h)%script.

(** A browser: every global of the page, and no [module]. *)
Definition browser (serviceWorker : bool) : host :=
  Host true true (Some serviceWorker) None.

(** A host with every global of the page. *)
Definition has_page (h : host) : bool :=
  host_document h && host_window h && bool_decide (is_Some (host_navigator h)).

(** A [module] whose [exports] is truthy. *)
Definition has_exports (h : host) : bool :=
  match host_module h with
  | Some m => truthy (get_opt m "exports")
  | None => false
  end.

(** CommonJS without a page, as [require] gives it: [module.exports] is an
    empty object. *)
Definition commonjs : host := Host false false None (Some (VObj [("exports", VObj [])])).

(** CommonJS with the globals of a page. *)
Definition commonjs_with_page : host :=
  Host true true (Some false) (Some (VObj [("exports", VObj [])])).

(** The listeners of the page, in the order they are attached. *)
Definition page_listeners (serviceWorker : bool) : list listener :=
  [Listener "document" "DOMContentLoaded"] ++
  (if serviceWorker then [Listener "window" "load"] else []) ++
  [Listener "window" "online"; Listener "window" "offline"; Listener "document" "keydown"].

(** ** Lemmas *)

(** The script runs to the end in a host with every global of the page
    whose [module], if it has one, is not [null]. *)
Lemma script_Normal (h : host) :
  has_page h = true → host_module h ≠ Some VNull → ∃ s, script h = Normal s.
Proof.
  destruct h as [d w n m]. unfold has_page, script, register_load, export_class. simpl.
  intros [[-> ->]%andb_true_iff [b ->]%bool_decide_eq_true]%andb_true_iff Hm.
  destruct b, m as [[]|]; simpl; try case_match; by eauto.
Qed.

(** ** Properties *)

(** In a browser the script attaches the listeners of the page in the
    order of the text, writes its three lines to the console, exports
    nothing and does not throw. *)
Theorem script_browser (serviceWorker : bool) :
  script (browser serviceWorker) =
    Normal (ScriptState (page_listeners serviceWorker) script_console false).
Proof. by destruct serviceWorker. Qed.

(** C40: the class is exported exactly in a host that has [document],
    [window] and [navigator] and a [module] with truthy [exports]: the
    export is the last statement, and a global of the page that is not
    defined ends the evaluation before it. *)
Theorem script_exports_iff (h : host) :
  (∃ s, script h = Normal s ∧ st_exported s = true) ↔
  has_page h = true ∧ has_exports h = true.
Proof.
  destruct h as [d w n m]. unfold has_page, has_exports, script, register_load, export_class.
  destruct d, w, n as [[]|], m as [[]|]; simpl;
    (split; [intros (st & Hs & He)|intros [Hp He]]); repeat case_match; simplify_eq/=; eauto.
Qed.

Lemma script_exports_iff_witness :
  ∃ s, script commonjs_with_page = Normal s ∧ st_exported s = true.
Proof. apply (script_exports_iff commonjs_with_page). by split. Defined.

(** Under CommonJS without a page the script stops at its first statement
    outside the class (line 305) with a [ReferenceError]: nothing is
    written, nothing is exported.  With the globals of a page it exports
    the class. *)
Theorem script_commonjs :
  script commonjs = Abrupt (ReferenceError "document") (ScriptState [] [] false) ∧
  ∃ s, script commonjs_with_page = Normal s ∧ st_exported s = true.
Proof. split; [done|]. by eexists. Qed.
