(* ===== verification/Bootstrap.v ===== *)
(** * Bootstrap: the constructor on a page that lacks elements

    [State] and [View] take the page as the record [dom], in which every
    element the program uses exists.  The constructor (src/app.js, lines
    4-9) does not check that: [initializeElements] (11-37) binds each
    property to what [document.getElementById] returns, which is [null] for
    an id the document does not have; [bindEvents] (39-70) and
    [hideAllSections] (72-77) then read [addEventListener] and [classList]
    of nine of the properties, and the first that is [null] throws a
    [TypeError] out of the constructor, with the listeners attached until
    then left on the page.  Here the document is the ids it has, and the
    constructor is run on it statement by statement.  The theorems say for
    which documents the constructor completes, what it has done when it
    does, where it stops when it does not, and that with the listeners of
    [Script] the page then has a listener for every event of
    [Controller] that the program handles. *)

From S2P Require Import Prelude JsRuntime State View Controller Values Script.

(** ** Definitions *)

(** The document: the ids of its elements. *)
Definition document : Type := list string.

(** [document.getElementById(id)]: an element, or [null]. *)
Definition getElementById (doc : document) (id : string) : bool := bool_decide (id ∈ doc).

(** The object under construction: the properties that have been set, each
    to an element ([true]) or to [null]; the listeners attached to the
    elements; the elements whose class [show] has been removed. *)
Record explorer : Type := Explorer {
  ex_elements : list (string * bool);
  ex_listeners : list listener;
  ex_hidden : list string
}.

#[global] Instance explorer_eq_dec : EqDecision explorer.
Proof. solve_decision. Defined.

(** The constructor returned, or it threw with what it had done. *)
Inductive construction : Type :=
| Constructed (x : explorer)
| Threw (e : type_error) (x : explorer).

#[global] Instance construction_eq_dec : EqDecision construction.
Proof. solve_decision. Defined.

Definition then_ (c : construction) (f : explorer → construction) : construction :=
  match c with
  | Constructed x => f x
  | Threw e x => Threw e x
  end.

Declare Scope construction_scope.
Delimit Scope construction_scope with construction.
Notation "c >>> f" := (then_ c f) (at level 61, left associativity) : construction_scope.

(** The properties [initializeElements] sets, in the order of the text;
    each is looked up by the id of the same name. *)
Definition element_ids : list string :=
  ["searchForm"; "pokemonInput"; "searchBtn"; "randomBtn"; "helpBtn"; "closeHelp";
   "resultsSection"; "loading"; "errorMessage"; "pokemonCard"; "helpSection";
   "pokemonImage"; "pokemonName"; "pokemonId"; "pokemonHeight"; "pokemonWeight";
   "pokemonExp"; "pokemonTypes"; "abilitiesList"; "errorText"].

(** [initializeElements] (lines 11-37). *)
Definition initializeElements (doc : document) (x : explorer) : construction :=
  Constructed
    {| ex_elements := ex_elements x ++ ((λ id, (id, getElementById doc id)) <$> element_ids);
       ex_listeners := ex_listeners x; ex_hidden := ex_hidden x |}.

(** [this.name]: [None] is [undefined], the property was never set. *)
Definition property (x : explorer) (name : string) : option bool :=
  snd <$> find (λ b, String.eqb (fst b) name) (ex_elements x).

(** The [TypeError] of reading [key] of [this.name], if there is one. *)
Definition read_of (x : explorer) (name key : string) : option type_error :=
  match property x name with
  | Some true => None
  | Some false => Some (ReadOfNull key)
  | None => Some (ReadOfUndefined key)
  end.

(** [this.name.addEventListener(event, ...)]. *)
Definition listen (name event : string) (x : explorer) : construction :=
  match read_of x name "addEventListener" with
  | Some e => Threw e x
  | None =>
      Constructed {| ex_elements := ex_elements x;
                     ex_listeners := ex_listeners x ++ [Listener name event];
                     ex_hidden := ex_hidden x |}
  end.

(** [this.name.classList.remove('show')]. *)
Definition hide (name : string) (x : explorer) : construction :=
  match read_of x name "classList" with
  | Some e => Threw e x
  | None =>
      Constructed {| ex_elements := ex_elements x; ex_listeners := ex_listeners x;
                     ex_hidden := ex_hidden x ++ [name] |}
  end.

(** [bindEvents] (lines 39-70). *)
Definition bindEvents (x : explorer) : construction :=
  (listen "searchForm" "submit" x
   >>> listen "randomBtn" "click"
   >>> listen "helpBtn" "click"
   >>> listen "closeHelp" "click"
   >>> listen "helpSection" "click"
   >>> listen "pokemonInput" "keypress")%construction.

(** [hideAllSections] (lines 72-77), as the constructor calls it. *)
Definition hideAllSections_of (x : explorer) : construction :=
  (hide "loading" x >>> hide "errorMessage" >>> hide "pokemonCard"
   >>> hide "helpSection")%construction.

(** [new PokemonExplorer()] (lines 4-9). *)
Definition new_PokemonExplorer (doc : document) : construction :=
  (initializeElements doc (Explorer [] [] []) >>> bindEvents >>> hideAllSections_of)%construction.

(** The listener of [DOMContentLoaded] (lines 305-311): the error it does
    not catch, if the constructor throws. *)
Definition uncaught (doc : document) : option type_error :=
  match new_PokemonExplorer doc with
  | Constructed _ => None
  | Threw e _ => Some e
  end.

(** What the constructor does after [initializeElements], as a list: the
    property read, and what is read of it. *)
Inductive action : Type :=
| Listen (event : string)
| Hide.

Definition bind_plan : list (string * action) :=
  [("searchForm", Listen "submit"); ("randomBtn", Listen "click"); ("helpBtn", Listen "click");
   ("closeHelp", Listen "click"); ("helpSection", Listen "click");
   ("pokemonInput", Listen "keypress")].

Definition hide_plan : list (string * action) :=
  [("loading", Hide); ("errorMessage", Hide); ("pokemonCard", Hide); ("helpSection", Hide)].

Definition plan : list (string * action) := bind_plan ++ hide_plan.

Definition perform (st : string * action) (x : explorer) : construction :=
  match st.2 with
  | Listen event => listen st.1 event x
  | Hide => hide st.1 x
  end.

Definition run_plan (p : list (string * action)) (c : construction) : construction :=
  foldl (λ c st, then_ c (perform st)) c p.

Definition key_read (a : action) : string :=
  match a with
  | Listen _ => "addEventListener"
  | Hide => "classList"
  end.

(** The effects of a part of the plan that ran. *)
Definition listeners_of (p : list (string * action)) : list listener :=
  p ≫= λ st, match st.2 with Listen event => [Listener st.1 event] | Hide => [] end.

Definition hidden_of (p : list (string * action)) : list string :=
  p ≫= λ st, match st.2 with Listen _ => [] | Hide => [st.1] end.

Definition after (p : list (string * action)) (x : explorer) : explorer :=
  {| ex_elements := ex_elements x; ex_listeners := ex_listeners x ++ listeners_of p;
     ex_hidden := ex_hidden x ++ hidden_of p |}.

(** The elements the constructor needs. *)
Definition required : list string :=
  ["searchForm"; "randomBtn"; "helpBtn"; "closeHelp"; "helpSection"; "pokemonInput";
   "loading"; "errorMessage"; "pokemonCard"].

(** The properties after [initializeElements]. *)
Definition bound (doc : document) : explorer :=
  Explorer ((λ id, (id, getElementById doc id)) <$> element_ids) [] [].

(** The page of [index.html]: every id; and the same without the help
    button. *)
Definition full_document : document := element_ids.

Definition no_helpBtn : document := filter (λ id, id ≠ "helpBtn") element_ids.

(** The listener that receives an event of [Controller]: none for the
    edits of the input, which the browser does, and for the settlements. *)
Definition listener_of (e : event) : option listener :=
  match e with
  | EvSubmit => Some (Listener "searchForm" "submit")
  | EvKeypress _ => Some (Listener "pokemonInput" "keypress")
  | EvClickRandom _ => Some (Listener "randomBtn" "click")
  | EvClickHelp => Some (Listener "helpBtn" "click")
  | EvClickCloseHelp => Some (Listener "closeHelp" "click")
  | EvClickHelpSection _ => Some (Listener "helpSection" "click")
  | EvKeydown _ _ _ _ => Some (Listener "document" "keydown")
  | EvOnline => Some (Listener "window" "online")
  | EvOffline => Some (Listener "window" "offline")
  | EvLoad => Some (Listener "window" "load")
  | EvInput _ | EvBlur | EvFetchSettled _ _ | EvImage _ _ => None
  end.

(** The sections of [dom] by the name of their property. *)
Definition hide_section (name : string) (d : dom) : dom :=
  if String.eqb name "loading" then set_sections (set_loading false) d
  else if String.eqb name "errorMessage" then set_sections (set_errorMessage false) d
  else if String.eqb name "pokemonCard" then set_sections (set_pokemonCard false) d
  else if String.eqb name "helpSection" then set_sections (set_helpSection false) d
  else d.

(** ** Lemmas *)

Lemma run_plan_Threw (p : list (string * action)) (e : type_error) (x : explorer) :
  run_plan p (Threw e x) = Threw e x.
Proof. by induction p. Qed.

Lemma run_plan_app (p q : list (string * action)) (c : construction) :
  run_plan (p ++ q) c = run_plan q (run_plan p c).
Proof. apply foldl_app. Qed.

Lemma run_plan_then (p : list (string * action)) (c : construction) :
  then_ c (λ x, run_plan p (Constructed x)) = run_plan p c.
Proof. destruct c; simpl; [done|by rewrite run_plan_Threw]. Qed.

(** The constructor runs the plan. *)
Lemma new_PokemonExplorer_plan (doc : document) :
  new_PokemonExplorer doc = run_plan plan (Constructed (bound doc)).
Proof. unfold plan. by rewrite run_plan_app, <-run_plan_then. Qed.

Lemma perform_present (st : string * action) (x : explorer) :
  property x st.1 = Some true → perform st x = Constructed (after [st] x).
Proof.
  destruct st as [name []]; unfold perform, listen, hide, read_of, after; simpl;
    intros ->; by rewrite !app_nil_r.
Qed.

Lemma perform_null (st : string * action) (x : explorer) :
  property x st.1 = Some false → perform st x = Threw (ReadOfNull (key_read st.2)) x.
Proof. destruct st as [name []]; unfold perform, listen, hide, read_of; simpl; by intros ->. Qed.

Lemma after_app (p q : list (string * action)) (x : explorer) :
  after q (after p x) = after (p ++ q) x.
Proof.
  unfold after, listeners_of, hidden_of. simpl. by rewrite !bind_app, !(assoc_L (++)).
Qed.

Lemma after_nil (x : explorer) : after [] x = x.
Proof. destruct x. unfold after. simpl. by rewrite !app_nil_r. Qed.

(** A plan whose properties are all elements runs to its end. *)
Lemma run_plan_present (p : list (string * action)) (x : explorer) :
  Forall (λ st, property x st.1 = Some true) p →
  run_plan p (Constructed x) = Constructed (after p x).
Proof.
  revert x. induction p as [|st p IH]; intros x; [by rewrite after_nil|].
  intros [Hst Hp]%Forall_cons. simpl. rewrite perform_present by done.
  change (st :: p) with ([st] ++ p). rewrite <-after_app. by apply IH.
Qed.

(** A plan stops at its first property that is [null]. *)
Lemma run_plan_null (pre post : list (string * action)) (st : string * action) (x : explorer) :
  Forall (λ st, property x st.1 = Some true) pre → property x st.1 = Some false →
  run_plan (pre ++ st :: post) (Constructed x) = Threw (ReadOfNull (key_read st.2)) (after pre x).
Proof.
  intros Hpre Hst. rewrite run_plan_app, run_plan_present by done. simpl. rewrite perform_null by done.
  apply run_plan_Threw.
Qed.

(** After [initializeElements] every property of the plan is set: to an
    element when the document has the id, and to [null] otherwise. *)
Lemma property_bound (doc : document) :
  Forall (λ id, property (bound doc) id = Some (getElementById doc id)) element_ids.
Proof. repeat constructor. Qed.

Lemma plan_element_ids : Forall (λ st, st.1 ∈ element_ids) plan.
Proof. apply (bool_decide_unpack _). by vm_compute. Qed.

Lemma property_plan (doc : document) (st : string * action) :
  st ∈ plan → property (bound doc) st.1 = Some (getElementById doc st.1).
Proof.
  intros Hst. pose proof (property_bound doc) as Hb. rewrite Forall_forall in Hb.
  apply Hb. by apply (proj1 (Forall_forall _ _) plan_element_ids).
Qed.

Lemma plan_required (P : string → Prop) :
  Forall (λ st, P st.1) plan ↔ Forall P required.
Proof.
  unfold plan, bind_plan, hide_plan, required. simpl. rewrite !Forall_cons, !Forall_nil.
  simpl. tauto.
Qed.

Lemma present_plan (doc : document) :
  Forall (λ id, id ∈ doc) required →
  Forall (λ st, property (bound doc) st.1 = Some true) plan.
Proof.
  intros Hdoc%plan_required. apply Forall_forall. intros st Hst.
  rewrite property_plan by done. f_equal. apply bool_decide_eq_true.
  by apply (proj1 (Forall_forall _ _) Hdoc).
Qed.

(** A plan that ran to its end found every property an element. *)
Lemma run_plan_Constructed (p : list (string * action)) (x x' : explorer) :
  Forall (λ st, is_Some (property x st.1)) p → run_plan p (Constructed x) = Constructed x' →
  Forall (λ st, property x st.1 = Some true) p.
Proof.
  revert x. induction p as [|st p IH]; intros x; [done|].
  intros [[[] Hst] Hp]%Forall_cons; simpl.
  - rewrite perform_present by done. intros Hrun. apply Forall_cons. split; [done|].
    by apply (IH (after [st] x)).
  - rewrite perform_null by done. by rewrite run_plan_Threw.
Qed.

Lemma plan_present (doc : document) :
  Forall (λ st, property (bound doc) st.1 = Some true) plan → Forall (λ id, id ∈ doc) required.
Proof.
  intros Hp. apply plan_required. apply Forall_forall. intros st Hst.
  pose proof (proj1 (Forall_forall _ _) Hp st Hst) as Hb. cbv beta in Hb.
  rewrite property_plan in Hb by done. injection Hb as Hb. by apply bool_decide_eq_true in Hb.
Qed.

Lemma constructed_intro (doc : document) :
  Forall (λ id, id ∈ doc) required →
  new_PokemonExplorer doc = Constructed (after plan (bound doc)).
Proof. intros Hdoc. rewrite new_PokemonExplorer_plan. by apply run_plan_present, present_plan. Qed.

Lemma constructed_inv (doc : document) (x : explorer) :
  new_PokemonExplorer doc = Constructed x →
  Forall (λ id, id ∈ doc) required ∧ x = after plan (bound doc).
Proof.
  rewrite new_PokemonExplorer_plan. intros Hrun. pose proof Hrun as Hp.
  apply run_plan_Constructed in Hp.
  - rewrite run_plan_present in Hrun by done. split; [by apply plan_present|congruence].
  - apply Forall_forall. intros st Hst. by rewrite property_plan.
Qed.

(** ** Properties *)

(** C25: the constructor returns exactly on a document that has the nine
    elements it reads: the form, the input, the random, help and close
    buttons and the four sections.  It has then attached its six
    listeners in the order of [bindEvents] and removed [show] from the four
    sections; the other eleven elements may be missing. *)
Theorem new_PokemonExplorer_iff (doc : document) (x : explorer) :
  new_PokemonExplorer doc = Constructed x ↔
  Forall (λ id, id ∈ doc) required ∧ x = after plan (bound doc).
Proof. split; [apply constructed_inv|]. intros [Hdoc ->]. by apply constructed_intro. Qed.

Lemma new_PokemonExplorer_iff_witness :
  new_PokemonExplorer required = Constructed (after plan (bound required)).
Proof.
  apply (new_PokemonExplorer_iff required). split; [by apply (bool_decide_unpack _)|done].
Defined.

(** C19: on a document that lacks an element the constructor reads, it
    throws at the first read of such an element, in the order of
    [bindEvents] and then of [hideAllSections]: the [TypeError] of reading
    [addEventListener] or [classList] of [null].  The listeners attached
    before stay attached, and no section after has been hidden. *)
Theorem new_PokemonExplorer_throws (doc : document) (pre post : list (string * action))
    (st : string * action) :
  plan = pre ++ st :: post → Forall (λ st, st.1 ∈ doc) pre → st.1 ∉ doc →
  new_PokemonExplorer doc = Threw (ReadOfNull (key_read st.2)) (after pre (bound doc)).
Proof.
  intros Hplan Hpre Hst. rewrite new_PokemonExplorer_plan, Hplan. apply run_plan_null.
  - apply Forall_forall. intros st' Hst'. rewrite property_plan.
    + f_equal. apply bool_decide_eq_true. by apply (proj1 (Forall_forall _ _) Hpre).
    + rewrite Hplan. apply elem_of_app. by left.
  - rewrite property_plan; [f_equal; by apply bool_decide_eq_false|].
    rewrite Hplan. apply elem_of_app. right. by left.
Qed.

Lemma new_PokemonExplorer_throws_witness :
  new_PokemonExplorer no_helpBtn =
    Threw (ReadOfNull "addEventListener")
      {| ex_elements := ex_elements (bound no_helpBtn);
         ex_listeners := [Listener "searchForm" "submit"; Listener "randomBtn" "click"];
         ex_hidden := [] |}.
Proof.
  apply (new_PokemonExplorer_throws no_helpBtn (take 2 plan) (drop 3 plan) ("helpBtn", Listen "click"));
    [done|by apply (bool_decide_unpack _)|by apply (bool_decide_unpack _)].
Defined.

(** On the page of [index.html] the constructor returns and nothing is
    thrown. *)
Theorem full_document_constructed :
  new_PokemonExplorer full_document = Constructed (after plan (bound full_document)) ∧
  uncaught full_document = None.
Proof. by vm_compute. Qed.

(** In a browser, on a document with the nine elements, the listeners of
    the script and of the constructor are the listener of
    [DOMContentLoaded] and those of the events of [Controller]: every
    event the event loop takes from the user or the window has its
    listener, and no listener is attached that [Controller] has no event
    for. *)
Theorem listeners_complete (doc : document) (x : explorer) (l : listener) :
  new_PokemonExplorer doc = Constructed x →
  l ∈ page_listeners true ++ ex_listeners x ↔
  l = Listener "document" "DOMContentLoaded" ∨ ∃ e, listener_of e = Some l.
Proof.
  intros [_ ->]%constructed_inv. simpl. rewrite !elem_of_cons, elem_of_nil. split.
  - intros H. destruct_or!; subst; [by left|right..].
    + by exists EvLoad.
    + by exists EvOnline.
    + by exists EvOffline.
    + by exists (EvKeydown "" false false 0).
    + by exists EvSubmit.
    + by exists (EvClickRandom 0).
    + by exists EvClickHelp.
    + by exists EvClickCloseHelp.
    + by exists (EvClickHelpSection true).
    + by exists (EvKeypress "").
  - intros [->|[e He]]; [by left|]. destruct e; simplify_eq/=; tauto.
Qed.

(** The sections the constructor hides are those [View.hideAllSections]
    hides, in its order: the state of [View.constructor] is the page
    after the constructor returned. *)
Theorem constructed_hides (doc : document) (x : explorer) (page : dom) :
  new_PokemonExplorer doc = Constructed x →
  app_dom (constructor page) = foldl (λ d name, hide_section name d) page (ex_hidden x).
Proof. by intros [_ ->]%constructed_inv. Qed.
