(* ===== verification/RawCard.v ===== *)
(** * RawCard: the card filled from an unchecked value

    [populatePokemonData], [loadPokemonImage], [populateTypes],
    [populateAbilities], [capitalize] and [formatAbilityName] (src/app.js,
    lines 174-281) once more, this time on the value [response.json()]
    returns, whatever its shape, with the [TypeError]s the property reads
    and the method calls throw.  A statement is a function from the state to
    an outcome and a state: when it throws, what was written before stays
    written.  [decode] is the shape [Card] assumes; the theorems show that
    on a value of that shape no statement throws and the state is the one
    [Card.showPokemon] gives, and what happens otherwise. *)

From S2P Require Import Prelude JsRuntime Formatter State View Images Card Values.

(** ** Statements *)

(** The outcome of a statement and the state it leaves. *)
Record exec : Type := Exec {
  ex_outcome : outcome unit;
  ex_state : app
}.

Definition stmt : Type := app → exec.

(** A statement that updates the state and does not throw. *)
Definition update (f : app → app) : stmt := λ a, Exec (Done ()) (f a).

(** [s; t] *)
Definition seq (s t : stmt) : stmt := λ a,
  match ex_outcome (s a) with
  | Done _ => t (ex_state (s a))
  | _ => s a
  end.

(** A statement that evaluates an expression first: when the expression
    throws, so does the statement, and the state is as it was. *)
Definition eval {A} (e : outcome A) (k : A → stmt) : stmt := λ a,
  match e with
  | Done x => k x a
  | Raised message => Exec (Raised message) a
  | Unmodelled => Exec Unmodelled a
  end.

Declare Scope stmt_scope.
Delimit Scope stmt_scope with stmt.
Bind Scope stmt_scope with stmt.
Notation "s ;; t" := (seq s t) (at level 100, t at level 200, right associativity) : stmt_scope.

(** [forEach] over the elements of an array. *)
Fixpoint for_each {A} (body : A → stmt) (l : list A) : stmt :=
  match l with
  | [] => update (λ a, a)
  | x :: l' => (body x ;; for_each body l')%stmt
  end.

(** ** The record as the image handlers keep it

    The handlers of an image read [pokemon.name] and [pokemon.id] of the
    record they were created for.  An image task keeps the record typed, so
    the statements below start an image only for a record whose name is a
    string and whose id is a number, and the task holds [view] of it. *)

Definition as_string (v : value) : option string :=
  match v with
  | VStr s => Some s
  | _ => None
  end.

Definition as_number (v : value) : option Z :=
  match v with
  | VNum z => Some z
  | _ => None
  end.

(** A property that may be [null] or absent. *)
Definition nullable {A} (f : value → option A) (v : value) : option (option A) :=
  match v with
  | VUndefined | VNull => Some None
  | _ => Some <$> f v
  end.

Definition decode_artwork (v : value) : option artwork :=
  match v with
  | VObj _ => Artwork <$> nullable as_string (get_opt v "front_default")
  | _ => None
  end.

Definition decode_other (v : value) : option other_sprites :=
  match v with
  | VObj _ =>
      oa ← nullable decode_artwork (get_opt v "official-artwork");
      dw ← nullable decode_artwork (get_opt v "dream_world");
      Some (OtherSprites oa dw)
  | _ => None
  end.

Definition decode_sprites (v : value) : option sprites :=
  match v with
  | VObj _ =>
      o ← nullable decode_other (get_opt v "other");
      fd ← nullable as_string (get_opt v "front_default");
      fs ← nullable as_string (get_opt v "front_shiny");
      Some (Sprites o fd fs)
  | _ => None
  end.

(** [entry[key].name] of an entry of [types] or [abilities]. *)
Definition decode_entry (key : string) (v : value) : option string :=
  match v with
  | VObj _ =>
      match get_opt v key with
      | VObj ms => as_string (get_opt (VObj ms) "name")
      | _ => None
      end
  | _ => None
  end.

Definition decode_entries (key : string) (v : value) : option (list string) :=
  match v with
  | VArr l => mapM (decode_entry key) l
  | _ => None
  end.

(** The record a value is, when it has the shape: an object with a string
    [name], numbers [id], [height] and [weight], a number or nothing for
    [base_experience], arrays [types] and [abilities] of entries with their
    names, and sprites that are strings or nothing. *)
Definition decode (v : value) : option pokemon :=
  match v with
  | VObj _ =>
      name ← as_string (get_opt v "name");
      id ← as_number (get_opt v "id");
      height ← as_number (get_opt v "height");
      weight ← as_number (get_opt v "weight");
      base_experience ← nullable as_number (get_opt v "base_experience");
      types ← decode_entries "type" (get_opt v "types");
      abilities ← decode_entries "ability" (get_opt v "abilities");
      sprites ← nullable decode_sprites (get_opt v "sprites");
      Some (Pokemon name id height weight base_experience types abilities sprites)
  | _ => None
  end.

(** The record with the parts of the shape a value has, and defaults for
    the others. *)
Definition view (v : value) : pokemon :=
  {| name := default "" (as_string (get_opt v "name"));
     id := default 0%Z (as_number (get_opt v "id"));
     height := default 0%Z (as_number (get_opt v "height"));
     weight := default 0%Z (as_number (get_opt v "weight"));
     base_experience := default None (nullable as_number (get_opt v "base_experience"));
     types := default [] (decode_entries "type" (get_opt v "types"));
     abilities := default [] (decode_entries "ability" (get_opt v "abilities"));
     pokemon_sprites := default None (nullable decode_sprites (get_opt v "sprites")) |}.

(** A value with every property of a record but, possibly, its height: the
    parts of [view] are what the value holds. *)
Definition shaped (v : value) : Prop :=
  (∃ ms, v = VObj ms) ∧
  get_opt v "name" = VStr (name (view v)) ∧ get_opt v "id" = VNum (id (view v)) ∧
  get_opt v "weight" = VNum (weight (view v)) ∧
  nullable as_number (get_opt v "base_experience") = Some (base_experience (view v)) ∧
  decode_entries "type" (get_opt v "types") = Some (types (view v)) ∧
  decode_entries "ability" (get_opt v "abilities") = Some (abilities (view v)) ∧
  nullable decode_sprites (get_opt v "sprites") = Some (pokemon_sprites (view v)).

(** The value of a record, as the API sends it. *)
Definition encode_nullable {A} (f : A → value) (o : option A) : value :=
  from_option f VNull o.

Definition encode_artwork (w : artwork) : value :=
  VObj [("front_default", encode_nullable VStr (art_front_default w))].

Definition encode_other (o : other_sprites) : value :=
  VObj [("dream_world", encode_nullable encode_artwork (dream_world o));
        ("official-artwork", encode_nullable encode_artwork (official_artwork o))].

Definition encode_sprites (s : sprites) : value :=
  VObj [("front_default", encode_nullable VStr (front_default s));
        ("front_shiny", encode_nullable VStr (front_shiny s));
        ("other", encode_nullable encode_other (other s))].

Definition encode_entry (key : string) (slot : nat) (name : string) : value :=
  VObj [("slot", VNum (Z.of_nat (S slot))); (key, VObj [("name", VStr name)])].

Definition encode (p : pokemon) : value :=
  VObj [("abilities", VArr (imap (encode_entry "ability") (abilities p)));
        ("base_experience", encode_nullable VNum (base_experience p));
        ("height", VNum (height p));
        ("id", VNum (id p));
        ("name", VStr (name p));
        ("sprites", encode_nullable encode_sprites (pokemon_sprites p));
        ("types", VArr (imap (encode_entry "type") (types p)));
        ("weight", VNum (weight p))].

(** ** The operations *)

Section Raw.

Context (engine : type_error → string).

#[local] Abbreviation raise e := (type_error_raised engine e).

(** [capitalize(str)] (lines 274-276): [str.charAt] is read and called
    first. *)
Definition capitalize_js (str : value) : outcome string :=
  match str with
  | VStr s => Done (capitalize s)
  | VUndefined => raise (ReadOfUndefined "charAt")
  | VNull => raise (ReadOfNull "charAt")
  | _ => raise (NotAFunction "str.charAt")
  end.

(** [formatAbilityName(name)] (lines 278-281): [name.split] is read and
    called first. *)
Definition formatAbilityName_js (name : value) : outcome string :=
  match name with
  | VStr s => Done (formatAbilityName s)
  | VUndefined => raise (ReadOfUndefined "split")
  | VNull => raise (ReadOfNull "split")
  | _ => raise (NotAFunction "name.split")
  end.

(** [pokemon.id.toString()] (line 177): the method of the number, of the
    string, of the boolean or of the array; an object has the method of
    [Object.prototype] unless a member of its own hides it. *)
Definition id_toString (id : value) : outcome string :=
  match id with
  | VUndefined => raise (ReadOfUndefined "toString")
  | VNull => raise (ReadOfNull "toString")
  | VObj ms =>
      match own ms "toString" with
      | Some _ => raise (NotAFunction "pokemon.id.toString")
      | None => Done "[object Object]"
      end
  | _ => to_string engine id
  end.

(** The text of the id (line 177). *)
Definition pokemonId_js (pokemon : value) : outcome string :=
  id ← get engine pokemon "id";
  text ← id_toString id;
  Done ("#" +:+ padStart 3 "0" text).

(** The texts of the height and of the weight (lines 183-184). *)
Definition tenth_js (pokemon : value) (key unit : string) : outcome string :=
  v ← get engine pokemon key;
  n ← to_number engine v;
  Done (number_tenth_toFixed1 n +:+ unit).

(** The text of the experience (line 185): [textContent] takes the string
    of the value. *)
Definition pokemonExp_js (pokemon : value) : outcome string :=
  v ← get engine pokemon "base_experience";
  to_string engine (if truthy v then v else VStr "N/A").

(** The badge of an entry of [types] (lines 256-258): the class from the
    template, then the text. *)
Definition typeBadge_js (typeInfo : value) : outcome span :=
  t ← get engine typeInfo "type";
  n ← get engine t "name";
  cls ← to_string engine n;
  t' ← get engine typeInfo "type";
  n' ← get engine t' "name";
  text ← capitalize_js n';
  Done {| className := "type-badge type-badge--" +:+ cls; textContent := text |}.

(** The tag of an entry of [abilities] (lines 267-269). *)
Definition abilityTag_js (abilityInfo : value) : outcome span :=
  ab ← get engine abilityInfo "ability";
  n ← get engine ab "name";
  text ← formatAbilityName_js n;
  Done {| className := "ability-tag"; textContent := text |}.

(** [list.forEach(...)]: the property is read of the value and called. *)
Definition forEach_js (callee : string) (list : value) (body : value → stmt) : stmt :=
  match list with
  | VArr l => for_each body l
  | VUndefined => eval (raise (ReadOfUndefined "forEach")) (λ _ : unit, update (λ a, a))
  | VNull => eval (raise (ReadOfNull "forEach")) (λ _ : unit, update (λ a, a))
  | _ => eval (raise (NotAFunction (callee +:+ ".forEach"))) (λ _ : unit, update (λ a, a))
  end.

(** [populateTypes(types)] (lines 252-261): the container is emptied
    before [types.forEach] is read. *)
Definition populateTypes_js (types : value) : stmt :=
  (update (on_dom (set_card (set_pokemonTypes (λ _, [])))) ;;
   forEach_js "types" types (λ typeInfo,
     eval (typeBadge_js typeInfo) (λ badge,
       update (on_dom (set_card (set_pokemonTypes (λ l, appendChild l badge)))))))%stmt.

(** [populateAbilities(abilities)] (lines 263-272). *)
Definition populateAbilities_js (abilities : value) : stmt :=
  (update (on_dom (set_card (set_abilitiesList (λ _, [])))) ;;
   forEach_js "abilities" abilities (λ abilityInfo,
     eval (abilityTag_js abilityInfo) (λ tag,
       update (on_dom (set_card (set_abilitiesList (λ l, appendChild l tag)))))))%stmt.

(** The array literal of [loadPokemonImage] (lines 196-203), element by
    element: each optional chain starts with a read of [pokemon.sprites]. *)
Definition imageCandidates_js (pokemon : value) : outcome (list value) :=
  s1 ← get engine pokemon "sprites";
  s2 ← get engine pokemon "sprites";
  s3 ← get engine pokemon "sprites";
  s4 ← get engine pokemon "sprites";
  id5 ← get engine pokemon "id";
  t5 ← to_string engine id5;
  id6 ← get engine pokemon "id";
  t6 ← to_string engine id6;
  Done [get_opt (get_opt (get_opt s1 "other") "official-artwork") "front_default";
        get_opt (get_opt (get_opt s2 "other") "dream_world") "front_default";
        get_opt s3 "front_default";
        get_opt s4 "front_shiny";
        VStr (artwork_base +:+ t5 +:+ ".png");
        VStr (sprite_base +:+ t6 +:+ ".png")].

(** The sources as strings, which is what the image task holds: a source
    that is not a string is outside the model. *)
Definition sources_js (values : list value) : outcome (list string) :=
  from_option Done Unmodelled (mapM as_string values).

(** [.filter(Boolean)] (line 204). *)
Definition imageSources_js (pokemon : value) : outcome (list string) :=
  candidates ← imageCandidates_js pokemon;
  sources_js (filter (λ v, truthy v = true) candidates).

(** The record of the image task: outside the model unless the name is a
    string and the id a number. *)
Definition task_record (pokemon : value) : outcome State.pokemon :=
  match as_string (get_opt pokemon "name"), as_number (get_opt pokemon "id") with
  | Some _, Some _ => Done (view pokemon)
  | _, _ => Unmodelled
  end.

(** [loadPokemonImage(pokemon)] (lines 194-216). *)
Definition loadPokemonImage_js (pokemon : value) : stmt :=
  eval (imageSources_js pokemon) (λ imageSources,
    eval (task_record pokemon) (λ p,
      (update (on_dom (set_pokemonImage (set_display "none"))) ;;
       update (on_dom (set_pokemonImage (set_src ""))) ;;
       if (length imageSources =? 0)%nat then update (handleImageError p)
       else update (tryLoadImage imageSources 0 p))%stmt)).

(** [populatePokemonData(pokemon)] (lines 174-192). *)
Definition populatePokemonData_js (pokemon : value) : stmt :=
  (eval (name ← get engine pokemon "name"; capitalize_js name) (λ text,
     update (on_dom (set_card (set_pokemonName text)))) ;;
   eval (pokemonId_js pokemon) (λ text,
     update (on_dom (set_card (set_pokemonId text)))) ;;
   loadPokemonImage_js pokemon ;;
   eval (tenth_js pokemon "height" " m") (λ text,
     update (on_dom (set_card (set_pokemonHeight text)))) ;;
   eval (tenth_js pokemon "weight" " kg") (λ text,
     update (on_dom (set_card (set_pokemonWeight text)))) ;;
   eval (pokemonExp_js pokemon) (λ text,
     update (on_dom (set_card (set_pokemonExp text)))) ;;
   eval (get engine pokemon "types") populateTypes_js ;;
   eval (get engine pokemon "abilities") populateAbilities_js)%stmt.

(** [showPokemon(pokemon)] (lines 98-102). *)
Definition showPokemon_js (pokemon : value) : stmt :=
  (update (on_dom hideAllSections) ;;
   populatePokemonData_js pokemon ;;
   update (on_dom (set_sections (set_pokemonCard true))))%stmt.

End Raw.

(** ** Lemmas on statements *)

Lemma seq_Done (s t : stmt) (a a' : app) :
  s a = Exec (Done ()) a' → seq s t a = t a'.
Proof. unfold seq. by intros ->. Qed.

Lemma seq_Raised (s t : stmt) (a a' : app) (message : string) :
  s a = Exec (Raised message) a' → seq s t a = Exec (Raised message) a'.
Proof. unfold seq. by intros ->. Qed.

Lemma seq_update (f : app → app) (t : stmt) (a : app) : seq (update f) t a = t (f a).
Proof. done. Qed.

Lemma eval_Done {A} (x : A) (k : A → stmt) : eval (Done x) k = k x.
Proof. done. Qed.

(** A statement ends normally, throws, or leaves the model. *)
Lemma exec_cases (r : exec) :
  r = Exec (Done ()) (ex_state r) ∨ (∃ message, r = Exec (Raised message) (ex_state r)) ∨
  r = Exec Unmodelled (ex_state r).
Proof. destruct r as [[[]|m|] a]; eauto. Qed.

(** A statement that throws is the thrown error and the state it left. *)
Lemma exec_Raised (r : exec) (message : string) :
  ex_outcome r = Raised message → r = Exec (Raised message) (ex_state r).
Proof. destruct r as [o s]. simpl. by intros ->. Qed.

(** ** Lemmas on the shape *)

Lemma as_string_Some (v : value) (s : string) : as_string v = Some s ↔ v = VStr s.
Proof. destruct v; simpl; split; intros; by simplify_eq. Qed.

Lemma as_number_Some (v : value) (z : Z) : as_number v = Some z ↔ v = VNum z.
Proof. destruct v; simpl; split; intros; by simplify_eq. Qed.

Lemma nullable_Some_Some {A} (f : value → option A) (v : value) (x : A) :
  nullable f v = Some (Some x) ↔ f v = Some x ∧ v ≠ VUndefined ∧ v ≠ VNull.
Proof.
  destruct v; simpl; try (split; [done|by intros (_ & ? & ?)]);
    destruct (f _); simpl; split; intros; destruct_and?; by simplify_eq.
Qed.

Lemma nullable_nullish {A} (f : value → option A) (v : value) (o : option A) :
  v = VUndefined ∨ v = VNull → nullable f v = Some o → o = None.
Proof. intros [->| ->]; simpl; by intros [= <-]. Qed.

Lemma get_opt_nullish (v : value) (key : string) :
  v = VUndefined ∨ v = VNull → get_opt v key = VUndefined.
Proof. by intros [->| ->]. Qed.

(** What [decode] found, field by field. *)
Lemma decode_Some (v : value) (p : pokemon) :
  decode v = Some p →
  (∃ ms, v = VObj ms) ∧
  get_opt v "name" = VStr (name p) ∧ get_opt v "id" = VNum (id p) ∧
  get_opt v "height" = VNum (height p) ∧ get_opt v "weight" = VNum (weight p) ∧
  nullable as_number (get_opt v "base_experience") = Some (base_experience p) ∧
  decode_entries "type" (get_opt v "types") = Some (types p) ∧
  decode_entries "ability" (get_opt v "abilities") = Some (abilities p) ∧
  nullable decode_sprites (get_opt v "sprites") = Some (pokemon_sprites p).
Proof.
  destruct v as [| | | | | |ms]; try done. unfold decode. intros H.
  repeat (apply bind_Some in H as (? & ? & H)). simplify_eq/=.
  rewrite <-!as_string_Some, <-!as_number_Some. split_and!; eauto.
Qed.

Lemma view_decode (v : value) (p : pokemon) : decode v = Some p → view v = p.
Proof.
  intros (_ & Hn & Hi & Hh & Hw & He & Ht & Ha & Hs)%decode_Some.
  unfold view. rewrite Hn, Hi, Hh, Hw, He, Ht, Ha, Hs. by destruct p.
Qed.

Lemma decode_shaped (v : value) (p : pokemon) : decode v = Some p → shaped v.
Proof.
  intros Hd. unfold shaped. rewrite (view_decode v p Hd).
  by destruct (decode_Some v p Hd) as (? & ? & ? & _ & ? & ? & ? & ? & ?).
Qed.

Lemma decode_sprites_Some (v : value) (s : sprites) :
  decode_sprites v = Some s →
  nullable decode_other (get_opt v "other") = Some (other s) ∧
  nullable as_string (get_opt v "front_default") = Some (front_default s) ∧
  nullable as_string (get_opt v "front_shiny") = Some (front_shiny s).
Proof.
  destruct v as [| | | | | |ms]; try done. unfold decode_sprites. intros H.
  repeat (apply bind_Some in H as (? & ? & H)). by simplify_eq/=.
Qed.

Lemma decode_other_Some (v : value) (o : other_sprites) :
  decode_other v = Some o →
  nullable decode_artwork (get_opt v "official-artwork") = Some (official_artwork o) ∧
  nullable decode_artwork (get_opt v "dream_world") = Some (dream_world o).
Proof.
  destruct v as [| | | | | |ms]; try done. unfold decode_other. intros H.
  repeat (apply bind_Some in H as (? & ? & H)). by simplify_eq/=.
Qed.

Lemma decode_artwork_Some (v : value) (w : artwork) :
  decode_artwork v = Some w →
  nullable as_string (get_opt v "front_default") = Some (art_front_default w).
Proof.
  destruct v as [| | | | | |ms]; try done. unfold decode_artwork.
  intros (? & ? & ->)%fmap_Some. done.
Qed.

Lemma nullable_Some_None {A} (f : value → option A) (v : value) :
  nullable f v = Some None → v = VUndefined ∨ v = VNull.
Proof. destruct v; simpl; auto; by destruct (f _). Qed.

(** One step of an optional chain on a value is one step on the record. *)
Lemma nullable_step {A B} (f : value → option A) (g : value → option B)
    (proj : A → option B) (key : string) :
  (∀ v x, f v = Some x → nullable g (get_opt v key) = Some (proj x)) →
  ∀ v o, nullable f v = Some o → nullable g (get_opt v key) = Some (o ?. proj).
Proof.
  intros Hf v [x|] Hv; simpl.
  - apply nullable_Some_Some in Hv as [Hv _]. by apply Hf.
  - apply nullable_Some_None in Hv. by rewrite get_opt_nullish.
Qed.

Lemma sprites_front_default (v : value) (o : option sprites) :
  nullable decode_sprites v = Some o →
  nullable as_string (get_opt v "front_default") = Some (o ?. front_default).
Proof. apply nullable_step. by intros ? ? (_ & ? & _)%decode_sprites_Some. Qed.

Lemma sprites_front_shiny (v : value) (o : option sprites) :
  nullable decode_sprites v = Some o →
  nullable as_string (get_opt v "front_shiny") = Some (o ?. front_shiny).
Proof. apply nullable_step. by intros ? ? (_ & _ & ?)%decode_sprites_Some. Qed.

Lemma sprites_other (v : value) (o : option sprites) :
  nullable decode_sprites v = Some o →
  nullable decode_other (get_opt v "other") = Some (o ?. other).
Proof. apply nullable_step. by intros ? ? (? & _)%decode_sprites_Some. Qed.

Lemma other_official_artwork (v : value) (o : option other_sprites) :
  nullable decode_other v = Some o →
  nullable decode_artwork (get_opt v "official-artwork") = Some (o ?. official_artwork).
Proof. apply nullable_step. by intros ? ? (? & _)%decode_other_Some. Qed.

Lemma other_dream_world (v : value) (o : option other_sprites) :
  nullable decode_other v = Some o →
  nullable decode_artwork (get_opt v "dream_world") = Some (o ?. dream_world).
Proof. apply nullable_step. by intros ? ? (_ & ?)%decode_other_Some. Qed.

Lemma artwork_front_default (v : value) (o : option artwork) :
  nullable decode_artwork v = Some o →
  nullable as_string (get_opt v "front_default") = Some (o ?. art_front_default).
Proof. apply nullable_step. by intros ? ? ?%decode_artwork_Some. Qed.

(** The filter on values that are strings or nothing is the filter on
    optional strings. *)
Lemma sources_js_filter (values : list value) (l : list (option string)) :
  Forall2 (λ v o, nullable as_string v = Some o) values l →
  sources_js (filter (λ v, truthy v = true) values) = Done (filter_Boolean l).
Proof.
  unfold sources_js, filter_Boolean.
  induction 1 as [|v o values l Hv _ IH]; [done|].
  destruct (mapM as_string (filter _ values)) as [ss|] eqn:E; [|done].
  simpl in IH. injection IH as IH. cbn [omap list_omap]. rewrite <-IH.
  destruct o as [s|].
  - apply nullable_Some_Some in Hv as [->%as_string_Some _].
    destruct s as [|c s].
    + rewrite filter_cons_False by done. by rewrite E.
    + rewrite filter_cons_True by done. simpl. by rewrite E.
  - apply nullable_Some_None in Hv as [-> | ->]; rewrite filter_cons_False by done;
      by rewrite E.
Qed.

(** ** The operations on a value of the shape *)

Section Decoded.

Context (engine : type_error → string).

Lemma decode_entry_Some (key : string) (e : value) (n : string) :
  decode_entry key e = Some n →
  ∃ ms, get engine e key = Done (VObj ms) ∧ get engine (VObj ms) "name" = Done (VStr n).
Proof.
  destruct e as [| | | | | |ms0]; try done. unfold decode_entry. rewrite get_object.
  destruct (get_opt (VObj ms0) key) as [| | | | | |ms]; try done.
  intros Hn%as_string_Some. exists ms. by rewrite get_object, Hn.
Qed.

Lemma typeBadge_js_decode (e : value) (n : string) :
  decode_entry "type" e = Some n → typeBadge_js engine e = Done (typeBadge n).
Proof.
  intros (ms & He & Hn)%decode_entry_Some. unfold typeBadge_js.
  rewrite He. cbn [mbind outcome_bind]. rewrite Hn. done.
Qed.

Lemma abilityTag_js_decode (e : value) (n : string) :
  decode_entry "ability" e = Some n → abilityTag_js engine e = Done (abilityTag n).
Proof.
  intros (ms & He & Hn)%decode_entry_Some. unfold abilityTag_js.
  rewrite He. cbn [mbind outcome_bind]. rewrite Hn. done.
Qed.

End Decoded.

(** A loop that appends one element per entry appends them all, in order.
    [upd] is the update of the children of a container. *)
Section Loop.

Context (upd : (list span → list span) → app → app).
Context (upd_compose : ∀ h1 h2 a, upd h1 (upd h2 a) = upd (λ x, h1 (h2 x)) a).
Context (upd_ext : ∀ h1 h2 a, (∀ x, h1 x = h2 x) → upd h1 a = upd h2 a).
Context (upd_id : ∀ a, upd (λ x, x) a = a).

Lemma for_each_append (f : value → outcome span) (g : string → span) (key : string)
    (l : list value) (names : list string) (a : app) :
  (∀ e n, decode_entry key e = Some n → f e = Done (g n)) →
  mapM (decode_entry key) l = Some names →
  for_each (λ e, eval (f e) (λ child, update (upd (λ children, appendChild children child)))) l a
    = Exec (Done ()) (upd (λ children, children ++ (g <$> names)) a).
Proof.
  intros Hf. revert names a. induction l as [|e l IH]; intros names a Hl.
  - injection Hl as <-. simpl. unfold update. f_equal.
    rewrite <-(upd_id a) at 1. apply upd_ext. intros x. by rewrite app_nil_r.
  - simpl in Hl. apply bind_Some in Hl as (n & Hn & Hl).
    apply bind_Some in Hl as (names' & Hl & [= <-]).
    cbn [for_each].
    rewrite (seq_Done _ _ _ (upd (λ children, appendChild children (g n)) a))
      by (by rewrite (Hf e n Hn)).
    rewrite (IH names' _ Hl), upd_compose. f_equal. apply upd_ext. intros x.
    unfold appendChild. by rewrite <-app_assoc.
Qed.

(** The container emptied and then filled. *)
Lemma cleared_for_each (f : value → outcome span) (g : string → span) (key : string)
    (l : list value) (names : list string) (a : app) :
  (∀ e n, decode_entry key e = Some n → f e = Done (g n)) →
  mapM (decode_entry key) l = Some names →
  seq (update (upd (λ _, [])))
      (for_each (λ e, eval (f e) (λ child,
         update (upd (λ children, appendChild children child)))) l) a
    = Exec (Done ()) (upd (λ _, g <$> names) a).
Proof.
  intros Hf Hl. rewrite seq_update, (for_each_append f g key l names) by done.
  by rewrite upd_compose.
Qed.

End Loop.

Section Refinement.

Context (engine : type_error → string).

Lemma upd_types_laws :
  let upd h := on_dom (set_card (set_pokemonTypes h)) in
  (∀ h1 h2 a, upd h1 (upd h2 a) = upd (λ x, h1 (h2 x)) a) ∧
  (∀ h1 h2 a, (∀ x, h1 x = h2 x) → upd h1 a = upd h2 a) ∧
  (∀ a, upd (λ x, x) a = a).
Proof.
  split_and!; intros; destruct a as [[s b t i [] im fo] fs ims rs cs]; simpl; [done| |done].
  unfold on_dom, set_card, set_pokemonTypes. simpl. by rewrite H.
Qed.

Lemma upd_abilities_laws :
  let upd h := on_dom (set_card (set_abilitiesList h)) in
  (∀ h1 h2 a, upd h1 (upd h2 a) = upd (λ x, h1 (h2 x)) a) ∧
  (∀ h1 h2 a, (∀ x, h1 x = h2 x) → upd h1 a = upd h2 a) ∧
  (∀ a, upd (λ x, x) a = a).
Proof.
  split_and!; intros; destruct a as [[s b t i [] im fo] fs ims rs cs]; simpl; [done| |done].
  unfold on_dom, set_card, set_abilitiesList. simpl. by rewrite H.
Qed.

Lemma populateTypes_js_decode (v : value) (names : list string) (a : app) :
  decode_entries "type" v = Some names →
  populateTypes_js engine v a =
    Exec (Done ()) (on_dom (set_card (set_pokemonTypes (populateTypes names))) a).
Proof.
  destruct v as [| | | | |l|]; try done. simpl. intros Hl.
  destruct upd_types_laws as (Hc & He & Hi). unfold populateTypes_js, forEach_js.
  rewrite (cleared_for_each _ Hc He Hi _ typeBadge "type" l names);
    [|apply typeBadge_js_decode|done].
  f_equal. apply He. intros x. symmetry. apply populateTypes_fmap.
Qed.

Lemma populateAbilities_js_decode (v : value) (names : list string) (a : app) :
  decode_entries "ability" v = Some names →
  populateAbilities_js engine v a =
    Exec (Done ()) (on_dom (set_card (set_abilitiesList (populateAbilities names))) a).
Proof.
  destruct v as [| | | | |l|]; try done. simpl. intros Hl.
  destruct upd_abilities_laws as (Hc & He & Hi). unfold populateAbilities_js, forEach_js.
  rewrite (cleared_for_each _ Hc He Hi _ abilityTag "ability" l names);
    [|apply abilityTag_js_decode|done].
  f_equal. apply He. intros x. symmetry. apply populateAbilities_fmap.
Qed.

Lemma imageSources_js_shaped (v : value) :
  shaped v → imageSources_js engine v = Done (imageSources (view v)).
Proof.
  intros (Hv & _ & Hi & _ & _ & _ & _ & Hs). destruct Hv as [ms ->].
  unfold imageSources_js, imageCandidates_js. rewrite !get_object, Hi.
  cbn [mbind outcome_bind to_string]. apply sources_js_filter.
  repeat apply List.Forall2_cons; try apply List.Forall2_nil; try done.
  - by apply artwork_front_default, other_official_artwork, sprites_other.
  - by apply artwork_front_default, other_dream_world, sprites_other.
  - by apply sprites_front_default.
  - by apply sprites_front_shiny.
Qed.

Lemma imageSources_js_decode (v : value) (p : pokemon) :
  decode v = Some p → imageSources_js engine v = Done (imageSources p).
Proof.
  intros Hd. by rewrite (imageSources_js_shaped v (decode_shaped v p Hd)), (view_decode v p Hd).
Qed.

Lemma loadPokemonImage_js_shaped (v : value) (a : app) :
  shaped v → loadPokemonImage_js engine v a = Exec (Done ()) (loadPokemonImage (view v) a).
Proof.
  intros Hv. unfold loadPokemonImage_js, task_record. rewrite (imageSources_js_shaped v Hv).
  destruct Hv as (_ & -> & -> & _). cbn [eval as_string as_number].
  rewrite !seq_update. unfold loadPokemonImage. by case_match.
Qed.

Lemma loadPokemonImage_js_decode (v : value) (p : pokemon) (a : app) :
  decode v = Some p →
  loadPokemonImage_js engine v a = Exec (Done ()) (loadPokemonImage p a).
Proof.
  intros Hd. by rewrite (loadPokemonImage_js_shaped v a (decode_shaped v p Hd)),
    (view_decode v p Hd).
Qed.

Lemma pokemonExp_js_shaped (v : value) :
  shaped v → pokemonExp_js engine v = Done (pokemonExp_text (base_experience (view v))).
Proof.
  intros (Hv & _ & _ & _ & He & _). destruct Hv as [ms ->]. revert He.
  generalize (base_experience (view (VObj ms))). intros e He.
  unfold pokemonExp_js. rewrite get_object. cbn [mbind outcome_bind].
  destruct e as [z|].
  - apply nullable_Some_Some in He as [->%as_number_Some _]. simpl.
    by destruct (truthy_number z).
  - by apply nullable_Some_None in He as [-> | ->].
Qed.

Lemma pokemonExp_js_decode (v : value) (p : pokemon) :
  decode v = Some p → pokemonExp_js engine v = Done (pokemonExp_text (base_experience p)).
Proof.
  intros Hd. by rewrite (pokemonExp_js_shaped v (decode_shaped v p Hd)), (view_decode v p Hd).
Qed.

#[local] Transparent populatePokemonData showPokemon.

(** On a value with the shape of a record but for its height, no statement
    but the one of the height depends on the height: the card is that of
    [view] with the text the height converts to. *)
Lemma populatePokemonData_js_shaped (v : value) (text : string) (a : app) :
  shaped v → tenth_js engine v "height" " m" = Done text →
  populatePokemonData_js engine v a =
    Exec (Done ()) (on_dom (set_card (set_pokemonHeight text)) (populatePokemonData (view v) a)).
Proof.
  intros Hv Hh. pose proof Hv as (Hobj & Hn & Hi & Hw & _ & Ht & Ha & _).
  unfold populatePokemonData_js, pokemonId_js. rewrite Hh. revert Hh. unfold tenth_js.
  destruct Hobj as [ms ->]. intros _.
  rewrite !get_object, Hn, Hi, Hw. cbn [mbind outcome_bind capitalize_js id_toString
    to_string to_number number_tenth_toFixed1].
  rewrite (pokemonExp_js_shaped _ Hv), !eval_Done, !seq_update.
  rewrite (seq_Done _ _ _ _ (loadPokemonImage_js_shaped _ _ Hv)), !seq_update.
  rewrite (seq_Done _ _ _ _ (populateTypes_js_decode _ _ _ Ht)).
  rewrite (populateAbilities_js_decode _ _ _ Ha), populatePokemonData_spec.
  rewrite loadPokemonImage_start. unfold card_of.
  rewrite <-(populateTypes_fmap _ (pokemonTypes (dom_card (app_dom a)))).
  by rewrite <-(populateAbilities_fmap _ (abilitiesList (dom_card (app_dom a)))).
Qed.

Lemma populatePokemonData_js_decode (v : value) (p : pokemon) (a : app) :
  decode v = Some p →
  populatePokemonData_js engine v a = Exec (Done ()) (populatePokemonData p a).
Proof.
  intros Hd. pose proof (decode_Some v p Hd) as ([ms ->] & Hn & Hi & Hh & Hw & _ & Ht & Ha & _).
  unfold populatePokemonData_js, pokemonId_js, tenth_js.
  rewrite !get_object, Hn, Hi, Hh, Hw. cbn [mbind outcome_bind capitalize_js id_toString
    to_string to_number number_tenth_toFixed1].
  rewrite (pokemonExp_js_decode _ p Hd), !eval_Done, !seq_update.
  rewrite (seq_Done _ _ _ _ (loadPokemonImage_js_decode _ p _ Hd)), !seq_update.
  rewrite (seq_Done _ _ _ _ (populateTypes_js_decode _ _ _ Ht)).
  by rewrite (populateAbilities_js_decode _ _ _ Ha).
Qed.

End Refinement.

(** ** Samples for the witnesses *)

(** The record of the witnesses, as the API sends it. *)
Definition sample_value : value := encode sample_pokemon.

(** A record without its [height], with a member the program does not
    read. *)
Definition sample_value_no_height : value :=
  VObj [("name", VStr "pikachu"); ("id", VNum 25); ("weight", VNum 60);
        ("order", VNum 35); ("types", VArr []); ("abilities", VArr [])].

(** A record without its [types]. *)
Definition sample_value_no_types : value :=
  VObj [("name", VStr "pikachu"); ("id", VNum 25); ("height", VNum 4); ("weight", VNum 60);
        ("abilities", VArr [])].

(** ** Lemmas on [encode] *)

Lemma decode_entry_encode (key : string) (slot : nat) (n : string) :
  decode_entry key (encode_entry key slot n) = Some n.
Proof.
  unfold decode_entry, encode_entry. cbn [get_opt own default]. by rewrite String.eqb_refl.
Qed.

Lemma mapM_decode_encode (key : string) (g : nat → nat) (names : list string) :
  mapM (decode_entry key) (imap (λ i, encode_entry key (g i)) names) = Some names.
Proof.
  revert g. induction names as [|n names IH]; intros g; [done|].
  cbn [imap]. change ((λ i, encode_entry key (g i)) ∘ S) with (λ i, encode_entry key (g (S i))).
  cbn [mapM]. by rewrite decode_entry_encode, (IH (λ i, g (S i))).
Qed.

Lemma nullable_encode {A} (f : value → option A) (e : A → value) (o : option A) :
  (∀ x, f (e x) = Some x) → (∀ x, e x ≠ VUndefined ∧ e x ≠ VNull) →
  nullable f (encode_nullable e o) = Some o.
Proof.
  intros Hf He. destruct o as [x|]; simpl; [|done].
  destruct (He x) as [H1 H2]. specialize (Hf x). destruct (e x); simpl; try done;
    by rewrite Hf.
Qed.

Lemma decode_artwork_encode (w : artwork) : decode_artwork (encode_artwork w) = Some w.
Proof.
  destruct w as [fd]. unfold decode_artwork, encode_artwork. cbn [get_opt own default].
  simpl. by rewrite (nullable_encode as_string VStr fd).
Qed.

Lemma decode_other_encode (o : other_sprites) : decode_other (encode_other o) = Some o.
Proof.
  destruct o as [oa dw]. unfold decode_other, encode_other. cbn [get_opt own default]. simpl.
  rewrite !(nullable_encode decode_artwork encode_artwork) by
    (done || apply decode_artwork_encode). done.
Qed.

Lemma decode_sprites_encode (s : sprites) : decode_sprites (encode_sprites s) = Some s.
Proof.
  destruct s as [o fd fs]. unfold decode_sprites, encode_sprites. cbn [get_opt own default].
  simpl. rewrite (nullable_encode decode_other encode_other) by
    (done || apply decode_other_encode).
  by rewrite !(nullable_encode as_string VStr).
Qed.

(** ** What filling the card leaves alone

    Two states are alike when they have the same sections, button, error
    text, input and fetches in flight. *)

Definition alike (a a' : app) : Prop :=
  shown a = shown a' ∧ searchBtn (app_dom a) = searchBtn (app_dom a') ∧
  errorText (app_dom a) = errorText (app_dom a') ∧
  pokemonInput (app_dom a) = pokemonInput (app_dom a') ∧
  app_fetches a = app_fetches a'.

#[global] Instance alike_equivalence : Equivalence alike.
Proof.
  split.
  - by intros a.
  - intros a a' (?&?&?&?&?). by split_and!.
  - intros a a1 a2 (?&?&?&?&?) (?&?&?&?&?). split_and!; congruence.
Qed.

#[global] Instance shown_alike : Proper (alike ==> eq) shown.
Proof. by intros a a' [? _]. Qed.

#[global] Instance app_fetches_alike : Proper (alike ==> eq) app_fetches.
Proof. by intros a a' (_&_&_&_&?). Qed.

(** A statement that leaves a state like the one it started in. *)
Definition keeps (s : stmt) : Prop := ∀ a, alike (ex_state (s a)) a.

Lemma keeps_update (f : app → app) : (∀ a, alike (f a) a) → keeps (update f).
Proof. intros Hf a. apply Hf. Qed.

Lemma keeps_seq (s t : stmt) : keeps s → keeps t → keeps (seq s t).
Proof.
  intros Hs Ht a. unfold seq. destruct (ex_outcome (s a)); [|apply Hs..].
  by rewrite (Ht _), (Hs a).
Qed.

Lemma keeps_eval {A} (e : outcome A) (k : A → stmt) : (∀ x, keeps (k x)) → keeps (eval e k).
Proof. intros Hk a. unfold eval. destruct e; [apply Hk|done..]. Qed.

Lemma keeps_for_each {A} (body : A → stmt) (l : list A) :
  (∀ x, keeps (body x)) → keeps (for_each body l).
Proof.
  intros Hb. induction l as [|x l IH]; [done|]. apply keeps_seq; [apply Hb|apply IH].
Qed.

Lemma keeps_card (f : card → card) : keeps (update (on_dom (set_card f))).
Proof. by apply keeps_update. Qed.

Lemma keeps_image (f : image → image) : keeps (update (on_dom (set_pokemonImage f))).
Proof. by apply keeps_update. Qed.

#[export] Hint Resolve keeps_card keeps_image keeps_seq keeps_eval keeps_for_each : pokedex.

Section Keeps.

Context (engine : type_error → string).

Lemma keeps_forEach_js (callee : string) (list : value) (body : value → stmt) :
  (∀ x, keeps (body x)) → keeps (forEach_js engine callee list body).
Proof. intros Hb. destruct list; simpl; try apply keeps_eval; auto with pokedex; done. Qed.

Lemma keeps_loadPokemonImage_js (v : value) : keeps (loadPokemonImage_js engine v).
Proof.
  unfold loadPokemonImage_js. apply keeps_eval. intros sources. apply keeps_eval. intros p.
  repeat apply keeps_seq; auto with pokedex.
  case_match; apply keeps_update; [done|]. intros a. unfold tryLoadImage. by case_match.
Qed.

Lemma keeps_populateTypes_js (v : value) : keeps (populateTypes_js engine v).
Proof.
  apply keeps_seq; [apply keeps_card|]. apply keeps_forEach_js. intros e.
  apply keeps_eval. intros b. apply keeps_card.
Qed.

Lemma keeps_populateAbilities_js (v : value) : keeps (populateAbilities_js engine v).
Proof.
  apply keeps_seq; [apply keeps_card|]. apply keeps_forEach_js. intros e.
  apply keeps_eval. intros b. apply keeps_card.
Qed.

Lemma keeps_populatePokemonData_js (v : value) : keeps (populatePokemonData_js engine v).
Proof.
  unfold populatePokemonData_js.
  repeat first [apply keeps_loadPokemonImage_js | apply keeps_populateTypes_js
               | apply keeps_populateAbilities_js | apply keeps_card
               | apply keeps_seq | apply keeps_eval; intros ?].
Qed.

End Keeps.

(** ** [showPokemon] on any value *)

Lemma showPokemon_js_Done (engine : type_error → string) (v : value) (p : pokemon) (a : app) :
  decode v = Some p → showPokemon_js engine v a = Exec (Done ()) (showPokemon p a).
Proof.
  intros Hd. unfold showPokemon_js. rewrite seq_update.
  by rewrite (seq_Done _ _ _ _ (populatePokemonData_js_decode engine v p _ Hd)).
Qed.

Lemma showPokemon_js_shaped (engine : type_error → string) (v : value) (text : string)
    (a : app) :
  shaped v → tenth_js engine v "height" " m" = Done text →
  showPokemon_js engine v a =
    Exec (Done ()) (on_dom (set_card (set_pokemonHeight text)) (showPokemon (view v) a)).
Proof.
  intros Hv Hh. unfold showPokemon_js. rewrite seq_update.
  rewrite (seq_Done _ _ _ _ (populatePokemonData_js_shaped engine v text _ Hv Hh)).
  unfold update. by rewrite showPokemon_spec, populatePokemonData_spec.
Qed.

(** A height or a weight that is absent converts to [NaN]. *)
Lemma tenth_js_undefined (engine : type_error → string) (v : value) (key unit : string) :
  shaped v → get_opt v key = VUndefined → tenth_js engine v key unit = Done ("NaN" +:+ unit).
Proof. intros [[ms ->] _] Hk. unfold tenth_js. by rewrite get_object, Hk. Qed.

(** Whatever the value and the engine, [showPokemon] shows the card only
    when every statement of it has run: when it throws, the four sections
    are hidden, and in both cases the button, the error text, the input and
    the fetches in flight are as before. *)
Lemma showPokemon_js_frame (engine : type_error → string) (v : value) (a : app) :
  let r := showPokemon_js engine v a in
  shown (ex_state r) =
    Sections false false (if ex_outcome r is Done _ then true else false) false ∧
  searchBtn (app_dom (ex_state r)) = searchBtn (app_dom a) ∧
  errorText (app_dom (ex_state r)) = errorText (app_dom a) ∧
  pokemonInput (app_dom (ex_state r)) = pokemonInput (app_dom a) ∧
  app_fetches (ex_state r) = app_fetches a.
Proof.
  pose proof (keeps_populatePokemonData_js engine v (on_dom hideAllSections a)) as Hk.
  unfold showPokemon_js. rewrite seq_update. unfold seq.
  destruct (populatePokemonData_js engine v _) as [o s].
  destruct Hk as (Hs & Hb & He & Hi & Hf). cbn [ex_state ex_outcome] in *.
  unfold shown in *.
  destruct o; cbn; rewrite ?Hs, ?Hb, ?He, ?Hi, ?Hf; done.
Qed.

(** ** Properties *)

(** The value of a record decodes to the record: [decode] accepts what
    the API sends, whatever the record. *)
Theorem decode_encode (p : pokemon) : decode (encode p) = Some p.
Proof.
  destruct p as [n i h w e ts abs s]. unfold decode, encode, decode_entries.
  cbn -[nullable encode_nullable imap mapM decode_sprites encode_sprites decode_entry
        encode_entry].
  rewrite (nullable_encode as_number VNum) by done.
  rewrite (mapM_decode_encode "type" (λ i, i)), (mapM_decode_encode "ability" (λ i, i)).
  cbn [mbind option_bind].
  by rewrite (nullable_encode decode_sprites encode_sprites) by
    (done || apply decode_sprites_encode).
Qed.

(** C17: on a value of the shape [decode] accepts, [showPokemon] reads every
    property without a [TypeError], whatever the engine, and leaves exactly
    the state [Card.showPokemon] gives for the record decoded: the typed
    model of the card is the program on well-formed responses. *)
Theorem showPokemon_js_decode (engine : type_error → string) (v : value) (p : pokemon)
    (a : app) :
  decode v = Some p →
  showPokemon_js engine v a = Exec (Done ()) (showPokemon p a).
Proof. apply showPokemon_js_Done. Qed.

Lemma showPokemon_js_decode_witness :
  showPokemon_js v8_message sample_value (constructor sample_page) =
    Exec (Done ()) (showPokemon sample_pokemon (constructor sample_page)).
Proof.
  apply (showPokemon_js_decode v8_message sample_value sample_pokemon). vm_compute. reflexivity.
Defined.
