(* ===== verification/RawController.v ===== *)
(** * RawController: the requests on an unchecked response

    [fetchPokemon], and [searchPokemon] and [getRandomPokemon] from their
    [await] on (src/app.js, lines 124-141, 148-157 and 160-172), on the
    value the body parses to: [showPokemon] runs inside the [try], so a
    [TypeError] it throws on a value of another shape reaches the [catch]
    like a failed request, after the statements before it have run.  A turn
    of the event loop is a turn of [Controller], or a fetch that settles
    with an unchecked response.  The theorems show that on responses of the
    shape this is the event loop of [Controller], which invariants hold
    on every run the model covers, and what a response on which the card
    code throws leaves.  A turn has no result when the card code meets a
    value on which the model stops ([Unmodelled]): the program goes on
    there, and the theorems do not speak of such a run. *)

From S2P Require Import Prelude JsRuntime Formatter State View Images Card Fetcher Controller.
From S2P Require Import Invariants Values RawCard.

(** ** Definitions *)

(** The body as [response.json()] settles: any value of JSON. *)
Inductive raw_body : Type :=
| RawJson (v : value)
| RawSyntaxError (message : string).

Inductive raw_outcome : Type :=
| RawRejected (message : string)
| RawResponse (status : Z) (b : raw_body).

(** [fetchPokemon] after its [await]s (lines 160-172): the value is
    returned as it is. *)
Definition fetchPokemon_js (o : raw_outcome) : result value :=
  match o with
  | RawRejected message => Throw message
  | RawResponse status b =>
      if negb (response_ok status) then
        if (status =? 404)%Z then Throw "404: Pokemon not found"
        else Throw ("HTTP error! status: " +:+ toString status)
      else
        match b with
        | RawJson v => Ok v
        | RawSyntaxError message => Throw message
        end
  end.

(** [const x = await e; k(x)] once [e] has settled. *)
Definition awaited {A} (r : result A) (k : A → stmt) : stmt :=
  match r with
  | Ok x => k x
  | Throw message => λ a, Exec (Raised message) a
  end.

(** [try { body } catch (error) { handler } finally { cleanup }], where the
    handler and the cleanup do not throw.  The program reaches the [catch]
    or the end of the [try] on every body; the model has no result when
    the body meets a value on which it stops. *)
Definition try_catch_finally (body : stmt) (handler : string → app → app)
    (cleanup : app → app) (a : app) : option app :=
  match ex_outcome (body a) with
  | Done _ => Some (cleanup (ex_state (body a)))
  | Raised message => Some (cleanup (handler message (ex_state (body a))))
  | Unmodelled => None
  end.

Section Requests.

Context (engine : type_error → string).

(** [searchPokemon] from its [await] on (lines 124-141). *)
Definition searchPokemon_resume_js (query : string) (o : raw_outcome) : app → option app :=
  try_catch_finally
    (awaited (fetchPokemon_js o) (λ pokemon,
       showPokemon_js engine pokemon ;;
       update (on_dom (set_pokemonInput ""))))%stmt
    (λ message a,
       let a := console_error [ArgString "Error fetching Pokemon:"; ArgError message] a in
       on_dom (showError (Some (search_error_message query message))) a)
    (on_dom hideLoading).

(** [getRandomPokemon] from its [await] on (lines 148-157). *)
Definition getRandomPokemon_resume_js (o : raw_outcome) : app → option app :=
  try_catch_finally
    (awaited (fetchPokemon_js o) (λ pokemon, showPokemon_js engine pokemon))
    (λ message a,
       let a := console_error [ArgString "Error fetching random Pokemon:"; ArgError message] a in
       on_dom (showError (Some msg_random)) a)
    (on_dom hideLoading).

Definition resume_js (k : continuation) (o : raw_outcome) (a : app) : option app :=
  match k with
  | KSearch query => searchPokemon_resume_js query o a
  | KRandom => getRandomPokemon_resume_js o a
  end.

(** A turn of the event loop: a turn of [Controller.handle], or a fetch
    that settles with an unchecked response. *)
Inductive raw_event : Type :=
| RawEvent (e : event)
| RawSettled (i : nat) (o : raw_outcome).

Definition handle_js (e : raw_event) (a : app) : option app :=
  match e with
  | RawEvent e => handle e a
  | RawSettled i o =>
      t ← app_fetches a !! i;
      resume_js (ft_k t) o (set_fetches (delete i (app_fetches a)) a)
  end.

Fixpoint run_js (es : list raw_event) (a : app) : option app :=
  match es with
  | [] => Some a
  | e :: es' => a' ← handle_js e a; run_js es' a'
  end.

End Requests.

(** ** Responses of the shape *)

(** The response [Fetcher] assumes, when the body has the shape. *)
Definition typed_outcome (o : raw_outcome) : option fetch_outcome :=
  match o with
  | RawRejected message => Some (FetchRejected message)
  | RawResponse status (RawJson v) => p ← decode v; Some (FetchResponse status (BodyJson p))
  | RawResponse status (RawSyntaxError message) =>
      Some (FetchResponse status (BodySyntaxError message))
  end.

Definition typed_event (e : raw_event) : option event :=
  match e with
  | RawEvent e => Some e
  | RawSettled i o => EvFetchSettled i <$> typed_outcome o
  end.

(** The response a record comes in. *)
Definition raw_ok (v : value) : raw_outcome := RawResponse 200 (RawJson v).

(** A search for [pikachu], answered by [v]. *)
Definition raw_search (v : value) : list raw_event :=
  [RawEvent (EvInput "pikachu"); RawEvent EvSubmit; RawSettled 0 (raw_ok v)].

(** ** Lemmas *)

Lemma try_catch_finally_Done (body : stmt) (handler : string → app → app)
    (cleanup : app → app) (a a' : app) :
  body a = Exec (Done ()) a' → try_catch_finally body handler cleanup a = Some (cleanup a').
Proof. unfold try_catch_finally. by intros ->. Qed.

(** The two [fetchPokemon]s agree on a pair of responses: both throw the
    same error, or both return, a value and the record it decodes to. *)
Definition agree (o : raw_outcome) (o' : fetch_outcome) : Prop :=
  match fetchPokemon o' with
  | Ok p => ∃ v, fetchPokemon_js o = Ok v ∧ decode v = Some p
  | Throw message => fetchPokemon_js o = Throw message
  end.

Lemma typed_outcome_agree (o : raw_outcome) (o' : fetch_outcome) :
  typed_outcome o = Some o' → agree o o'.
Proof.
  unfold agree. destruct o as [m|status [v|m]]; simpl; intros ?; simplify_option_eq;
    repeat case_match; simplify_eq; eauto.
Qed.

(** On responses that agree the continuation is the one of [Controller]. *)
Lemma resume_js_agree (engine : type_error → string) (k : continuation) (o : raw_outcome)
    (o' : fetch_outcome) (a : app) :
  agree o o' → resume_js engine k o a = Some (resume k o' a).
Proof.
  unfold agree. intros Ho.
  destruct k as [query|]; simpl;
    unfold searchPokemon_resume_js, getRandomPokemon_resume_js, searchPokemon_resume,
      getRandomPokemon_resume;
    destruct (fetchPokemon o') as [p|m]; simpl.
  - destruct Ho as (v & Hv & Hd). apply try_catch_finally_Done. rewrite Hv. simpl.
    by rewrite (seq_Done _ _ _ _ (showPokemon_js_Done engine v p a Hd)).
  - unfold try_catch_finally. by rewrite Ho.
  - destruct Ho as (v & Hv & Hd). apply try_catch_finally_Done. rewrite Hv. simpl.
    by apply showPokemon_js_Done.
  - unfold try_catch_finally. by rewrite Ho.
Qed.

Lemma resume_js_typed (engine : type_error → string) (k : continuation) (o : raw_outcome)
    (o' : fetch_outcome) (a : app) :
  typed_outcome o = Some o' → resume_js engine k o a = Some (resume k o' a).
Proof. intros Ho. by apply resume_js_agree, typed_outcome_agree. Qed.

Lemma handle_js_typed (engine : type_error → string) (e : raw_event) (e' : event) (a : app) :
  typed_event e = Some e' → handle_js engine e a = handle e' a.
Proof.
  destruct e as [e|i o]; simpl; [by intros [= ->]|].
  intros (o' & Ho & ->)%fmap_Some. simpl.
  destruct (app_fetches a !! i) as [t|]; simpl; [|done]. by apply resume_js_typed.
Qed.

Lemma run_js_typed (engine : type_error → string) (es : list raw_event) (es' : list event)
    (a : app) :
  mapM typed_event es = Some es' → run_js engine es a = run es' a.
Proof.
  revert es' a. induction es as [|e es IH]; intros es' a; [by intros [= <-]|].
  cbn [mapM]. intros (e' & He & (es'' & Hes & [= <-])%bind_Some)%bind_Some.
  simpl. rewrite (handle_js_typed engine e e' a He).
  destruct (handle e' a) as [a'|]; simpl; [by apply IH|done].
Qed.

(** The events of [Controller] are events of the raw loop as they are. *)
Lemma typed_event_RawEvent (es : list event) : mapM typed_event (RawEvent <$> es) = Some es.
Proof. induction es as [|e es IH]; [done|]. cbn [fmap list_fmap mapM typed_event]. by rewrite IH. Qed.

(** A body of [try] that leaves the fetches alone and, when it ends
    normally, the card shown and no other section. *)
Definition shows_card (s : stmt) : Prop := ∀ a,
  app_fetches (ex_state (s a)) = app_fetches a ∧
  (ex_outcome (s a) = Done () → shown (ex_state (s a)) = Sections false false true false).

Lemma shows_card_showPokemon_js (engine : type_error → string) (v : value) :
  shows_card (showPokemon_js engine v).
Proof.
  intros a. destruct (showPokemon_js_frame engine v a) as (Hs & _ & _ & _ & Hf).
  split; [done|]. intros E. by rewrite E in Hs.
Qed.

Lemma shows_card_input (s : stmt) (value : string) :
  shows_card s → shows_card (s ;; update (on_dom (set_pokemonInput value)))%stmt.
Proof.
  intros Hs a. destruct (Hs a) as [Hf Hd]. unfold seq.
  destruct (ex_outcome (s a)) as [[]|m|]; simpl; [|done..].
  split; [done|]. intros _. unfold shown in *. simpl. by rewrite (Hd eq_refl).
Qed.

Lemma shows_card_awaited {A} (r : result A) (k : A → stmt) :
  (∀ x, shows_card (k x)) → shows_card (awaited r k).
Proof. intros Hk. destruct r; simpl; [apply Hk|done]. Qed.

(** What [try], [catch] and [finally] leave when the handler shows an
    error and the cleanup is [hideLoading]. *)
Lemma try_catch_finally_display (body : stmt) (handler : string → app → app) (a a' : app) :
  shows_card body →
  (∀ m b, shown (handler m b) = Sections false true false false ∧
          app_fetches (handler m b) = app_fetches b) →
  try_catch_finally body handler (on_dom hideLoading) a = Some a' →
  (shown a' = Sections false false true false ∨ shown a' = Sections false true false false) ∧
  searchBtn (app_dom a') = idle_button ∧ app_fetches a' = app_fetches a.
Proof.
  intros Hb Hh. unfold try_catch_finally. destruct (Hb a) as [Hf Hs].
  destruct (ex_outcome (body a)) as [[]|m|]; [| |done]; intros [= <-].
  - split_and!; [left|done|done]. unfold shown in *. simpl. by rewrite (Hs eq_refl).
  - destruct (Hh m (ex_state (body a))) as [Hs' Hf'].
    split_and!; [right|done|by rewrite <-Hf, <-Hf']. unfold shown in *. simpl. by rewrite Hs'.
Qed.

(** What a settled fetch leaves, whatever the response: the card or the
    error section and no other, the button enabled, the fetches as they
    were. *)
Lemma resume_js_display (engine : type_error → string) (k : continuation) (o : raw_outcome)
    (a a' : app) :
  resume_js engine k o a = Some a' →
  (shown a' = Sections false false true false ∨ shown a' = Sections false true false false) ∧
  searchBtn (app_dom a') = idle_button ∧ app_fetches a' = app_fetches a.
Proof.
  destruct k as [query|]; simpl; apply try_catch_finally_display; try done;
    apply shows_card_awaited; intros v; [apply shows_card_input|];
    apply shows_card_showPokemon_js.
Qed.

(** What the [catch] block of a request leaves. *)
Definition caught (k : continuation) (message : string) (a : app) : app :=
  match k with
  | KSearch query =>
      on_dom (showError (Some (search_error_message query message)))
        (console_error [ArgString "Error fetching Pokemon:"; ArgError message] a)
  | KRandom =>
      on_dom (showError (Some msg_random))
        (console_error [ArgString "Error fetching random Pokemon:"; ArgError message] a)
  end.

(** A response on which [showPokemon] throws: the [catch] block runs on the
    state the throw left, and then the cleanup. *)
Lemma resume_js_Raised (engine : type_error → string) (k : continuation) (status : Z)
    (v : value) (message : string) (a s : app) :
  response_ok status = true →
  showPokemon_js engine v a = Exec (Raised message) s →
  resume_js engine k (RawResponse status (RawJson v)) a =
    Some (on_dom hideLoading (caught k message s)).
Proof.
  intros Hok Hr.
  destruct k as [query|]; simpl;
    unfold searchPokemon_resume_js, getRandomPokemon_resume_js, try_catch_finally;
    simpl; rewrite Hok; simpl; [rewrite (seq_Raised _ _ _ _ _ Hr)|rewrite Hr]; done.
Qed.

(** ** The invariants that hold on every run the model covers *)

Definition robust (a : app) : Prop :=
  display_exclusive a ∧ loading_means_busy a ∧ busy_means_pending a ∧ fetch_tasks_wf a.

#[export] Instance robust_invariant : Invariant robust.
Proof.
  pose proof (invariant_and busy_means_pending fetch_tasks_wf).
  pose proof (invariant_and loading_means_busy _).
  apply (invariant_and display_exclusive _).
Qed.

Lemma resume_js_robust (engine : type_error → string) (i : nat) (t : fetch_task)
    (o : raw_outcome) (a a' : app) :
  robust a → app_fetches a !! i = Some t →
  resume_js engine (ft_k t) o (set_fetches (delete i (app_fetches a)) a) = Some a' →
  robust a'.
Proof.
  intros (_ & _ & _ & Hwf) Hi (Hs & Hb & Hf)%resume_js_display.
  unfold robust, display_exclusive, loading_means_busy, busy_means_pending, fetch_tasks_wf.
  rewrite Hb, Hf. split_and!; [by destruct Hs as [-> | ->]|by destruct Hs as [-> | ->]|done|].
  by apply Forall_delete.
Qed.

Lemma handle_js_robust (engine : type_error → string) (e : raw_event) (a a' : app) :
  robust a → handle_js engine e a = Some a' → robust a'.
Proof.
  intros Ha. destruct e as [e|i o]; simpl.
  - intros Hstep%step_handle%step_turn. by eapply invariant_turn.
  - intros (t & Hi & Hr)%bind_Some. by eapply resume_js_robust.
Qed.

Lemma run_js_robust (engine : type_error → string) (es : list raw_event) (a a' : app) :
  robust a → run_js engine es a = Some a' → robust a'.
Proof.
  revert a. induction es as [|e es IH]; intros a Ha; simpl; [by intros [= <-]|].
  intros (a1 & He & Hes)%bind_Some. eapply IH; [|done]. by eapply handle_js_robust.
Qed.

Lemma constructor_robust (page : dom) :
  disabled (searchBtn page) = false → robust (constructor page).
Proof.
  intros Hb. destruct (constructor_invariants page) as (? & ? & ? & ? & ?).
  split_and!; try done. by apply constructor_busy_means_pending.
Qed.

(** The state a raw run from the sample page ends in. *)
Definition raw_state_after (es : list raw_event) : app :=
  default (constructor sample_page) (run_js v8_message es (constructor sample_page)).

(** ** Properties *)

(** C6: when every response has the shape [decode] accepts, the event loop
    on the unchecked responses is the event loop of [Controller] on the
    records decoded, turn by turn and whatever the engine: every theorem on
    [Controller.run] is a theorem on the program for such responses. *)
Theorem run_js_decode (engine : type_error → string) (es : list raw_event) (es' : list event)
    (a : app) :
  mapM typed_event es = Some es' → run_js engine es a = run es' a.
Proof. apply run_js_typed. Qed.

Lemma run_js_decode_witness :
  run_js v8_message (raw_search sample_value) (constructor sample_page) =
    run [EvInput "pikachu"; EvSubmit;
         EvFetchSettled 0 (FetchResponse 200 (BodyJson sample_pokemon))]
      (constructor sample_page).
Proof. apply (run_js_decode v8_message (raw_search sample_value)). vm_compute. reflexivity. Defined.

(** C21: on every run of the event loop on unchecked responses that the
    model covers, from a page whose search button is enabled: after any
    sequence of turns at most one of the loading, error and card sections
    is shown, a shown loading section goes with the disabled button, a
    disabled button with a fetch in flight, and every fetch in flight asks
    for a normalized query or for an id from 1 to 1010.  The runs covered
    are those on which [run_js] has a result; the bodies that are not
    covered have a height or a weight that is a string or an array, an id
    that is not a number, or a truthy sprite that is not a string. *)
Theorem run_js_invariants (engine : type_error → string) (page : dom) (es : list raw_event)
    (a : app) :
  disabled (searchBtn page) = false →
  run_js engine es (constructor page) = Some a →
  display_exclusive a ∧ loading_means_busy a ∧ busy_means_pending a ∧ fetch_tasks_wf a.
Proof. intros Hb Hrun. eapply run_js_robust; [by apply constructor_robust|done]. Qed.

Lemma run_js_invariants_witness :
  display_exclusive (raw_state_after (raw_search sample_value_no_types)) ∧
  loading_means_busy (raw_state_after (raw_search sample_value_no_types)) ∧
  busy_means_pending (raw_state_after (raw_search sample_value_no_types)) ∧
  fetch_tasks_wf (raw_state_after (raw_search sample_value_no_types)).
Proof.
  apply (run_js_invariants v8_message sample_page (raw_search sample_value_no_types));
    [reflexivity|vm_compute; reflexivity].
Defined.

(** C32: when [showPokemon] throws on the value of a response, the search
    ends as a failed request does: the error section alone is shown, with
    the message chosen by the text of the error, the loading section is
    hidden and the button enabled, the error is the last call of the
    console, and the input keeps the query. *)
Theorem searchPokemon_resume_js_malformed (engine : type_error → string) (query : string)
    (status : Z) (v : value) (message : string) (a : app) :
  response_ok status = true →
  ex_outcome (showPokemon_js engine v a) = Raised message →
  ∃ a', searchPokemon_resume_js engine query (RawResponse status (RawJson v)) a = Some a' ∧
    shown a' = Sections false true false false ∧
    errorText (app_dom a') = search_error_message query message ∧
    searchBtn (app_dom a') = idle_button ∧
    pokemonInput (app_dom a') = pokemonInput (app_dom a) ∧
    app_fetches a' = app_fetches a ∧
    last (app_console a') =
      Some (ConsoleCall ConsoleError [ArgString "Error fetching Pokemon:"; ArgError message]).
Proof.
  intros Hok Hm. destruct (showPokemon_js_frame engine v a) as (_ & _ & _ & Hi & Hf).
  eexists. split; [by apply (resume_js_Raised engine (KSearch query)), exec_Raised|].
  split_and!; try done. unfold console_error, console. simpl. apply last_snoc.
Qed.

Lemma searchPokemon_resume_js_malformed_witness :
  ∃ a', searchPokemon_resume_js v8_message "pikachu" (raw_ok sample_value_no_types)
          (constructor sample_page) = Some a' ∧
    shown a' = Sections false true false false ∧
    errorText (app_dom a') =
      search_error_message "pikachu" (v8_message (ReadOfUndefined "forEach")) ∧
    searchBtn (app_dom a') = idle_button ∧
    pokemonInput (app_dom a') = pokemonInput (app_dom (constructor sample_page)) ∧
    app_fetches a' = app_fetches (constructor sample_page) ∧
    last (app_console a') =
      Some (ConsoleCall ConsoleError [ArgString "Error fetching Pokemon:";
                                      ArgError (v8_message (ReadOfUndefined "forEach"))]).
Proof.
  apply (searchPokemon_resume_js_malformed v8_message "pikachu" 200 sample_value_no_types);
    vm_compute; reflexivity.
Defined.
