(* ===== verification/Partial.v ===== *)
(** * Partial: the handlers on a page that lacks elements

    [View], [Card], [Images] and [Controller] run the methods of the class
    on the record [dom], in which every element exists.  Here they run on a
    document given by the ids it has ([Bootstrap]): a method is the list of
    its statements, each with the element of [this] it dereferences and the
    property it reads or assigns there, and a statement on an element that
    is [null] throws a [TypeError] and leaves what the statements before it
    wrote.  The fetched record is typed, as in [Card].  An event of the
    user or the window is a turn when its listener is among the listeners
    attached, which the event loop takes as a list; [click()] runs a
    listener under the same condition.  What a turn throws nothing
    catches: the browser reports it, and the event loop goes on.  The
    theorems show that on a document with the nineteen elements the
    methods use and with every listener attached this is the event loop of
    [Controller] with nothing thrown, which is what the record [dom]
    assumes; that at most one of the loading, error and card sections is
    shown whatever the document lacks; and what a search does on a page
    without its search button or without the element of the error text. *)

From S2P Require Import Prelude JsRuntime Formatter State View Images Card Fetcher Controller.
From S2P Require Import Invariants Values Script Bootstrap RawCard RawController.

(** ** Definitions *)

(** What a statement does with an element: it reads a property of it, or
    assigns one. *)
Inductive access : Type :=
| Reading (key : string)
| Setting (key : string).

#[global] Instance access_eq_dec : EqDecision access.
Proof. solve_decision. Defined.

(** The messages of V8 for an element that is [null]. *)
Definition v8_null (x : access) : string :=
  match x with
  | Reading key => v8_message (ReadOfNull key)
  | Setting key => "Cannot set properties of null (setting '" +:+ key +:+ "')"
  end.

(** A statement: [Touch name x f] dereferences [this.name] (or the element
    [document.getElementById(name)] returns) with the access [x] and has
    the effect [f]; [Plain f] touches no element. *)
Inductive statement : Type :=
| Touch (name : string) (x : access) (f : app → app)
| Plain (f : app → app).

Definition effect (st : statement) : app → app :=
  match st with
  | Touch _ _ f | Plain f => f
  end.

(** The effect of a list of statements that all run. *)
Definition effects (steps : list statement) (a : app) : app :=
  foldl (λ a st, effect st a) a steps.

Section Page.

Context (engine : access → string) (doc : document) (listeners : list listener).

Definition present (st : statement) : bool :=
  match st with
  | Touch name _ _ => getElementById doc name
  | Plain _ => true
  end.

Definition do_step (st : statement) : stmt := λ a,
  match st with
  | Touch name x f =>
      if getElementById doc name then Exec (Done ()) (f a) else Exec (Raised (engine x)) a
  | Plain f => Exec (Done ()) (f a)
  end.

(** The statements in sequence. *)
Fixpoint do (steps : list statement) : stmt :=
  match steps with
  | [] => update (λ a, a)
  | st :: steps' => (do_step st ;; do steps')%stmt
  end.

(** [hideAllSections] (lines 72-77). *)
Definition hideAllSections_page : list statement :=
  [Touch "loading" (Reading "classList") (on_dom (set_sections (set_loading false)));
   Touch "errorMessage" (Reading "classList") (on_dom (set_sections (set_errorMessage false)));
   Touch "pokemonCard" (Reading "classList") (on_dom (set_sections (set_pokemonCard false)));
   Touch "helpSection" (Reading "classList") (on_dom (set_sections (set_helpSection false)))].

(** [showLoading] (lines 79-84). *)
Definition showLoading_page : list statement :=
  hideAllSections_page ++
  [Touch "loading" (Reading "classList") (on_dom (set_sections (set_loading true)));
   Touch "searchBtn" (Setting "disabled")
     (on_dom (λ d, set_searchBtn {| disabled := true; btn_text := btn_text (searchBtn d) |} d));
   Touch "searchBtn" (Setting "textContent")
     (on_dom (λ d, set_searchBtn {| disabled := disabled (searchBtn d);
                                    btn_text := "Searching..." |} d))].

(** [hideLoading] (lines 86-90). *)
Definition hideLoading_page : list statement :=
  [Touch "loading" (Reading "classList") (on_dom (set_sections (set_loading false)));
   Touch "searchBtn" (Setting "disabled")
     (on_dom (λ d, set_searchBtn {| disabled := false; btn_text := btn_text (searchBtn d) |} d));
   Touch "searchBtn" (Setting "textContent")
     (on_dom (λ d, set_searchBtn {| disabled := disabled (searchBtn d);
                                    btn_text := "Search Pokemon" |} d))].

(** [showError(message)] (lines 92-96). *)
Definition showError_page (message : option string) : list statement :=
  hideAllSections_page ++
  [Touch "errorText" (Setting "textContent")
     (on_dom (set_errorText (default showError_default message)));
   Touch "errorMessage" (Reading "classList") (on_dom (set_sections (set_errorMessage true)))].

(** [showHelp] and [hideHelp] (lines 104-110). *)
Definition showHelp_page : list statement :=
  [Touch "helpSection" (Reading "classList") (on_dom showHelp)].

Definition hideHelp_page : list statement :=
  [Touch "helpSection" (Reading "classList") (on_dom hideHelp)].

(** [handleImageError] (lines 241-250). *)
Definition handleImageError_page (p : pokemon) : list statement :=
  [Touch "pokemonImage" (Reading "style") (on_dom (set_pokemonImage (set_display "none")));
   Plain (console_log (no_image_call p))].

(** [tryLoadImage] (lines 218-239): a new [Image] is no element of the
    page. *)
Definition tryLoadImage_page (sources : list string) (index : nat) (p : pokemon) : list statement :=
  if (length sources <=? index)%nat then handleImageError_page p
  else [Plain (start_image (ImageTask sources index p) (nth index sources ""))].

(** [loadPokemonImage] (lines 194-216). *)
Definition loadPokemonImage_page (p : pokemon) : list statement :=
  let imageSources := imageSources p in
  [Touch "pokemonImage" (Reading "style") (on_dom (set_pokemonImage (set_display "none")));
   Touch "pokemonImage" (Setting "src") (on_dom (set_pokemonImage (set_src "")))] ++
  (if (length imageSources =? 0)%nat then handleImageError_page p
   else tryLoadImage_page imageSources 0 p).

(** [img.onload] and [img.onerror] (lines 226-235). *)
Definition image_onload_page (t : image_task) : list statement :=
  [Touch "pokemonImage" (Setting "src")
     (on_dom (set_pokemonImage (set_src (nth (it_index t) (it_sources t) ""))));
   Touch "pokemonImage" (Setting "alt")
     (on_dom (set_pokemonImage (set_alt (name (it_pokemon t) +:+ " sprite"))));
   Touch "pokemonImage" (Reading "style") (on_dom (set_pokemonImage (set_display "block")))].

Definition image_onerror_page (t : image_task) : list statement :=
  Plain (console_log (image_failed_call (it_index t) (nth (it_index t) (it_sources t) ""))) ::
  tryLoadImage_page (it_sources t) (it_index t + 1) (it_pokemon t).

(** [populateTypes] and [populateAbilities] (lines 252-272): the container
    is emptied, then a child is appended for each entry. *)
Definition populateTypes_page (types : list string) : list statement :=
  Touch "pokemonTypes" (Setting "innerHTML") (on_dom (set_card (set_pokemonTypes (λ _, [])))) ::
  ((λ n, Touch "pokemonTypes" (Reading "appendChild")
           (on_dom (set_card (set_pokemonTypes (λ l, appendChild l (typeBadge n)))))) <$> types).

Definition populateAbilities_page (abilities : list string) : list statement :=
  Touch "abilitiesList" (Setting "innerHTML") (on_dom (set_card (set_abilitiesList (λ _, [])))) ::
  ((λ n, Touch "abilitiesList" (Reading "appendChild")
           (on_dom (set_card (set_abilitiesList (λ l, appendChild l (abilityTag n))))))
     <$> abilities).

(** [populatePokemonData] (lines 174-192). *)
Definition populatePokemonData_page (p : pokemon) : list statement :=
  [Touch "pokemonName" (Setting "textContent")
     (on_dom (set_card (set_pokemonName (capitalize (name p)))));
   Touch "pokemonId" (Setting "textContent")
     (on_dom (set_card (set_pokemonId (pokemonId_text (id p)))))] ++
  loadPokemonImage_page p ++
  [Touch "pokemonHeight" (Setting "textContent")
     (on_dom (set_card (set_pokemonHeight (pokemonHeight_text (height p)))));
   Touch "pokemonWeight" (Setting "textContent")
     (on_dom (set_card (set_pokemonWeight (pokemonWeight_text (weight p)))));
   Touch "pokemonExp" (Setting "textContent")
     (on_dom (set_card (set_pokemonExp (pokemonExp_text (base_experience p)))))] ++
  populateTypes_page (types p) ++
  populateAbilities_page (abilities p).

(** [showPokemon] (lines 98-102). *)
Definition showPokemon_page (p : pokemon) : list statement :=
  hideAllSections_page ++ populatePokemonData_page p ++
  [Touch "pokemonCard" (Reading "classList") (on_dom (set_sections (set_pokemonCard true)))].

(** [try { body } catch (error) { handler } finally { cleanup }] (ECMA-262
    14.15.3): the handler runs on what the body threw, the cleanup runs in
    every case, and what the cleanup throws replaces the completion of
    the rest. *)
Definition try_catch_finally_page (body : stmt) (handler : string → stmt) (cleanup : stmt)
    : stmt := λ a,
  let r := match ex_outcome (body a) with
           | Raised message => handler message (ex_state (body a))
           | _ => body a
           end in
  match ex_outcome (cleanup (ex_state r)) with
  | Done _ => Exec (ex_outcome r) (ex_state (cleanup (ex_state r)))
  | _ => cleanup (ex_state r)
  end.

(** [searchPokemon] up to its [await] (lines 112-120): [showLoading] is
    outside the [try]. *)
Definition searchPokemon_page : stmt :=
  (do_step (Touch "pokemonInput" (Reading "value") (λ a, a)) ;;
   λ a, let query := read_query a in
        if negb (truthy_string query) then do (showError_page (Some msg_empty_query)) a
        else (do showLoading_page ;;
              update (start_fetch (fetch_url query) (KSearch query)))%stmt a)%stmt.

(** [searchPokemon] from its [await] on (lines 122-141). *)
Definition searchPokemon_resume_page (query : string) (o : fetch_outcome) : stmt :=
  try_catch_finally_page
    (awaited (fetchPokemon o) (λ pokemon,
       do (showPokemon_page pokemon ++
           [Touch "pokemonInput" (Setting "value") (on_dom (set_pokemonInput ""))])))
    (λ message,
       do (Plain (console_error [ArgString "Error fetching Pokemon:"; ArgError message]) ::
           showError_page (Some (search_error_message query message))))
    (do hideLoading_page).

(** [getRandomPokemon] up to its [await] (lines 143-147) and from it on
    (149-157). *)
Definition getRandomPokemon_page (k : Z) : stmt :=
  (do showLoading_page ;;
   update (start_fetch (fetch_url (toString (randomId k))) KRandom))%stmt.

Definition getRandomPokemon_resume_page (o : fetch_outcome) : stmt :=
  try_catch_finally_page
    (awaited (fetchPokemon o) (λ pokemon, do (showPokemon_page pokemon)))
    (λ message,
       do (Plain (console_error [ArgString "Error fetching random Pokemon:"; ArgError message]) ::
           showError_page (Some msg_random)))
    (do hideLoading_page).

Definition resume_page (k : continuation) (o : fetch_outcome) : stmt :=
  match k with
  | KSearch query => searchPokemon_resume_page query o
  | KRandom => getRandomPokemon_resume_page o
  end.

(** [element.click()] on the element [name]: its [click] listener runs if
    it is attached, and what it throws is reported by the browser and not
    thrown to the caller. *)
Definition click (name : string) (listener : stmt) : stmt := λ a,
  if bool_decide (Listener name "click" ∈ listeners) then Exec (Done ()) (ex_state (listener a))
  else Exec (Done ()) a.

Definition skip : stmt := update (λ a, a).

(** The [keydown] listener of the document (lines 338-358), which looks its
    elements up by [document.getElementById]: its three tests in
    sequence. *)
Definition focus_shortcut (key : string) (ctrlKey metaKey : bool) : stmt :=
  if (ctrlKey || metaKey) && String.eqb key "k"
  then do_step (Touch "pokemonInput" (Reading "focus") (on_dom (set_input_focused true)))
  else skip.

Definition random_shortcut (key : string) (ctrlKey metaKey : bool) (k : Z) : stmt :=
  if (ctrlKey || metaKey) && String.eqb key "r"
  then (do_step (Touch "randomBtn" (Reading "click") (λ a, a)) ;;
        click "randomBtn" (getRandomPokemon_page k))%stmt
  else skip.

Definition escape_shortcut (key : string) : stmt :=
  if String.eqb key "Escape"
  then (do_step (Touch "helpSection" (Reading "classList") (λ a, a)) ;;
        λ a, if helpSection (shown a)
             then (do_step (Touch "closeHelp" (Reading "click") (λ a, a)) ;;
                   click "closeHelp" (do hideHelp_page))%stmt a
             else skip a)%stmt
  else skip.

Definition on_keydown_page (key : string) (ctrlKey metaKey : bool) (k : Z) : stmt :=
  (focus_shortcut key ctrlKey metaKey ;; random_shortcut key ctrlKey metaKey k ;;
   escape_shortcut key)%stmt.

(** What the listener of an event does (lines 39-70 and the listeners of
    the script), and what a settlement does: the state it leaves, and what
    it throws, which nothing catches.  [None] when the event cannot happen
    in the state. *)
Definition turn_page (e : event) (a : app) : option exec :=
  match e with
  | EvInput value => Some (update (on_dom (set_pokemonInput value)) a)
  | EvBlur => Some (update (on_dom (set_input_focused false)) a)
  | EvSubmit => Some (searchPokemon_page a)
  | EvKeypress key => Some (if String.eqb key "Enter" then searchPokemon_page a else skip a)
  | EvClickRandom k => if valid_draw k then Some (getRandomPokemon_page k a) else None
  | EvClickHelp => Some (do showHelp_page a)
  | EvClickCloseHelp => Some (do hideHelp_page a)
  | EvClickHelpSection t => Some (if t then do hideHelp_page a else skip a)
  | EvKeydown key c m k => if valid_draw k then Some (on_keydown_page key c m k a) else None
  | EvFetchSettled i o =>
      t ← app_fetches a !! i;
      Some (resume_page (ft_k t) o (set_fetches (delete i (app_fetches a)) a))
  | EvImage i loaded =>
      t ← app_images a !! i;
      Some (do (if loaded then image_onload_page t else image_onerror_page t)
              (set_images (delete i (app_images a)) a))
  | EvOnline => Some (update on_online a)
  | EvOffline => Some (update on_offline a)
  | EvLoad => Some (update on_load a)
  end.

(** An event of the user or the window is a turn of the script when its
    listener is attached: the edits of the input and the settlements need
    none. *)
Definition attached (e : event) : bool :=
  match listener_of e with
  | Some l => bool_decide (l ∈ listeners)
  | None => true
  end.

(** One turn of the event loop on the page. *)
Definition handle_page (e : event) (a : app) : option exec :=
  if attached e then turn_page e a else None.

(** The errors a turn leaves uncaught. *)
Definition uncaught_of (r : exec) : list string :=
  match ex_outcome r with
  | Raised message => [message]
  | _ => []
  end.

(** A sequence of turns: the state it ends in and the errors left
    uncaught, in order. *)
Fixpoint run_page (es : list event) (a : app) : option (app * list string) :=
  match es with
  | [] => Some (a, [])
  | e :: es' =>
      r ← handle_page e a;
      '(a', errors) ← run_page es' (ex_state r);
      Some (a', uncaught_of r ++ errors)
  end.

End Page.

(** The elements the methods use: all that [initializeElements] binds but
    [resultsSection]. *)
Definition used_ids : list string := filter (λ id, id ≠ "resultsSection") element_ids.

(** A statement on one of the elements [ids], or on none. *)
Definition touches (ids : list string) (st : statement) : bool :=
  match st with
  | Touch name _ _ => bool_decide (name ∈ ids)
  | Plain _ => true
  end.

(** A statement on an element the methods use, or on none. *)
Definition known : statement → bool := touches used_ids.

(** A page without its search button, and a search on it. *)
Definition no_searchBtn : document := filter (λ id, id ≠ "searchBtn") element_ids.

Definition search_pikachu : list event := [EvInput "pikachu"; EvSubmit].

(** A document that has every element the methods use. *)
Definition complete (doc : document) : Prop := Forall (λ id, id ∈ doc) used_ids.

(** Listeners among which every event of the user or the window has its
    own; and the listeners of a page on which the script ran and the
    constructor returned. *)
Definition wired (listeners : list listener) : Prop :=
  ∀ e l, listener_of e = Some l → l ∈ listeners.

Definition all_listeners : list listener := page_listeners true ++ listeners_of plan.

(** A statement that keeps a property of the state, whether it throws or
    not; [safe] for the property that at most one of the loading, error
    and card sections is shown. *)
Definition preserves (J : app → Prop) (s : stmt) : Prop := ∀ a, J a → J (ex_state (s a)).

Abbreviation safe := (preserves display_exclusive).

(** A statement list each of whose statements keeps a property of the
    sections. *)
Definition stepwise (J : sections → Prop) (l : list statement) : Prop :=
  Forall (λ st, ∀ a, J (shown a) → J (shown (effect st a))) l.

(** Case analysis on the four sections of a state. *)
Ltac sections_cases :=
  let a := fresh "a" in
  intros a; destruct a as [[[[] [] [] []] ? ? ? ? ? ?] ? ? ? ?];
  unfold exclusive, shown; simpl; intuition discriminate.

(** ** Lemmas *)

(** A loop that appends one child per entry to an emptied container
    leaves the children in order.  [upd] is the update of the children. *)
Section Loop.

Context (upd : (list span → list span) → app → app).
Context (upd_compose : ∀ h1 h2 a, upd h1 (upd h2 a) = upd (λ x, h1 (h2 x)) a).
Context (upd_ext : ∀ h1 h2 a, (∀ x, h1 x = h2 x) → upd h1 a = upd h2 a).

Lemma effects_append (name : string) (x : access) (g : string → span) (names : list string)
    (h : list span → list span) (a : app) :
  effects ((λ n, Touch name x (upd (λ l, appendChild l (g n)))) <$> names) (upd h a) =
    upd (λ l, h l ++ (g <$> names)) a.
Proof.
  revert h. induction names as [|n names IH]; intros h; simpl.
  - apply upd_ext. intros l. by rewrite app_nil_r.
  - unfold effects in *. simpl. rewrite upd_compose, IH. apply upd_ext. intros l.
    unfold appendChild. by rewrite <-app_assoc.
Qed.

Lemma effects_cleared (name : string) (x y : access) (g : string → span)
    (names : list string) (a : app) :
  effects (Touch name x (upd (λ _, [])) ::
           ((λ n, Touch name y (upd (λ l, appendChild l (g n)))) <$> names)) a =
    upd (λ _, g <$> names) a.
Proof. unfold effects. simpl. apply (effects_append name y g names (λ _, [])). Qed.

End Loop.

Lemma effects_app (l k : list statement) (a : app) : effects (l ++ k) a = effects k (effects l a).
Proof. apply foldl_app. Qed.

Lemma effects_hideAllSections (a : app) :
  effects hideAllSections_page a = on_dom hideAllSections a.
Proof. done. Qed.

Lemma effects_showLoading (a : app) : effects showLoading_page a = on_dom showLoading a.
Proof. done. Qed.

Lemma effects_hideLoading (a : app) : effects hideLoading_page a = on_dom hideLoading a.
Proof. done. Qed.

Lemma effects_showError (message : option string) (a : app) :
  effects (showError_page message) a = on_dom (showError message) a.
Proof. done. Qed.

Lemma effects_populateTypes (types : list string) (a : app) :
  effects (populateTypes_page types) a =
    on_dom (set_card (set_pokemonTypes (populateTypes types))) a.
Proof.
  destruct upd_types_laws as (Hc & He & _). unfold populateTypes_page.
  rewrite (effects_cleared _ Hc He). apply He. intros l. by rewrite populateTypes_fmap.
Qed.

Lemma effects_populateAbilities (abilities : list string) (a : app) :
  effects (populateAbilities_page abilities) a =
    on_dom (set_card (set_abilitiesList (populateAbilities abilities))) a.
Proof.
  destruct upd_abilities_laws as (Hc & He & _). unfold populateAbilities_page.
  rewrite (effects_cleared _ Hc He). apply He. intros l. by rewrite populateAbilities_fmap.
Qed.

Lemma effects_tryLoadImage (sources : list string) (index : nat) (p : pokemon) (a : app) :
  effects (tryLoadImage_page sources index p) a = tryLoadImage sources index p a.
Proof. unfold tryLoadImage_page, tryLoadImage. by case_match. Qed.

Lemma effects_loadPokemonImage (p : pokemon) (a : app) :
  effects (loadPokemonImage_page p) a = loadPokemonImage p a.
Proof.
  unfold loadPokemonImage_page, loadPokemonImage. rewrite effects_app.
  case_match; [done|]. by rewrite effects_tryLoadImage.
Qed.

#[local] Transparent populatePokemonData showPokemon.

Lemma effects_populatePokemonData (p : pokemon) (a : app) :
  effects (populatePokemonData_page p) a = populatePokemonData p a.
Proof.
  unfold populatePokemonData_page, populatePokemonData.
  by rewrite !effects_app, effects_populateAbilities, effects_populateTypes,
    effects_loadPokemonImage.
Qed.

Lemma effects_showPokemon (p : pokemon) (a : app) :
  effects (showPokemon_page p) a = showPokemon p a.
Proof.
  unfold showPokemon_page, showPokemon. by rewrite !effects_app, effects_populatePokemonData.
Qed.

#[local] Opaque populatePokemonData showPokemon.

Lemma effects_image_onerror (t : image_task) (a : app) :
  effects (image_onerror_page t) a = image_onerror t a.
Proof. unfold image_onerror_page, image_onerror. apply effects_tryLoadImage. Qed.

(** The statements of every method are on the elements the methods use. *)
Lemma known_fmap {A} (f : A → statement) (l : list A) :
  (∀ x, known (f x) = true) → forallb known (f <$> l) = true.
Proof. intros Hf. induction l as [|x l IH]; csimpl; [done|]. by rewrite Hf, IH. Qed.

Lemma known_tryLoadImage (sources : list string) (index : nat) (p : pokemon) :
  forallb known (tryLoadImage_page sources index p) = true.
Proof. unfold tryLoadImage_page. by case_match. Qed.

Lemma known_showPokemon (p : pokemon) : forallb known (showPokemon_page p) = true.
Proof.
  unfold showPokemon_page, populatePokemonData_page, loadPokemonImage_page, populateTypes_page,
    populateAbilities_page.
  rewrite !forallb_app. cbn [forallb]. rewrite !known_fmap by done.
  case_match; [done|]. by rewrite known_tryLoadImage.
Qed.

Lemma wired_all : wired all_listeners.
Proof. intros e l He. apply (bool_decide_unpack _). by destruct e; simplify_eq/=. Qed.

Section Lemmas.

Context (engine : access → string) (doc : document) (listeners : list listener).

Lemma do_app (l k : list statement) (a : app) :
  do engine doc (l ++ k) a = (do engine doc l ;; do engine doc k)%stmt a.
Proof.
  revert a. induction l as [|st l IH]; intros a; [done|].
  cbn [Datatypes.app do]. unfold seq in *.
  destruct (ex_outcome (do_step engine doc st a)) eqn:E; rewrite ?E; [apply IH|done..].
Qed.

Lemma touches_present (ids : list string) (l : list statement) :
  Forall (λ id, id ∈ doc) ids → forallb (touches ids) l = true →
  forallb (present doc) l = true.
Proof.
  intros Hids. induction l as [|st l IH]; [done|]. cbn [forallb].
  intros [Hst Hl]%andb_true_iff.
  rewrite IH, andb_true_r by done. destruct st as [name x f|f]; [|done]. simpl in *.
  apply bool_decide_eq_true. apply bool_decide_eq_true in Hst.
  by apply (proj1 (Forall_forall _ _) Hids).
Qed.

Lemma do_step_present (st : statement) (a : app) :
  present doc st = true → do_step engine doc st a = Exec (Done ()) (effect st a).
Proof. destruct st as [name x f|f]; simpl; [by intros ->|done]. Qed.

(** Statements whose elements are all there run to the end. *)
Lemma do_present (l : list statement) (a : app) :
  forallb (present doc) l = true → do engine doc l a = Exec (Done ()) (effects l a).
Proof.
  revert a. induction l as [|st l IH]; intros a; [done|]. cbn [forallb].
  intros [Hst Hl]%andb_true_iff. cbn [do]. unfold seq.
  destruct st as [name x f|f]; simpl in *; rewrite ?Hst; simpl; by apply IH.
Qed.

Lemma try_catch_finally_page_Done (body : stmt) (handler : string → stmt) (cleanup : stmt)
    (a a1 a2 : app) :
  body a = Exec (Done ()) a1 → cleanup a1 = Exec (Done ()) a2 →
  try_catch_finally_page body handler cleanup a = Exec (Done ()) a2.
Proof. unfold try_catch_finally_page. intros ->. simpl. by intros ->. Qed.

Lemma try_catch_finally_page_caught (body : stmt) (handler : string → stmt) (cleanup : stmt)
    (message : string) (a a1 a2 a3 : app) :
  body a = Exec (Raised message) a1 → handler message a1 = Exec (Done ()) a2 →
  cleanup a2 = Exec (Done ()) a3 →
  try_catch_finally_page body handler cleanup a = Exec (Done ()) a3.
Proof. unfold try_catch_finally_page. intros ->. simpl. intros ->. simpl. by intros ->. Qed.

(** ** On a complete document *)

Context (Hdoc : complete doc) (Hwired : wired listeners).

Lemma wired_attached (e : event) : attached listeners e = true.
Proof.
  unfold attached. destruct (listener_of e) as [l|] eqn:E; [|done].
  apply bool_decide_eq_true. by apply (Hwired e).
Qed.

Lemma wired_click (name : string) (listener : stmt) (e : event) (a : app) :
  listener_of e = Some (Listener name "click") →
  click listeners name listener a = Exec (Done ()) (ex_state (listener a)).
Proof. intros He. unfold click. rewrite bool_decide_eq_true_2; [done|by apply (Hwired e)]. Qed.

Lemma known_present (l : list statement) :
  forallb known l = true → forallb (present doc) l = true.
Proof. by apply touches_present. Qed.

Lemma do_known (l : list statement) (a : app) :
  forallb known l = true → do engine doc l a = Exec (Done ()) (effects l a).
Proof. intros Hl. by apply do_present, known_present. Qed.

Lemma do_step_known (st : statement) (a : app) :
  known st = true → do_step engine doc st a = Exec (Done ()) (effect st a).
Proof.
  intros Hst. apply do_step_present. pose proof (known_present [st]) as H.
  cbn [forallb] in H. rewrite !andb_true_r in H. by apply H.
Qed.

Lemma searchPokemon_page_complete (a : app) :
  searchPokemon_page engine doc a = Exec (Done ()) (searchPokemon a).
Proof.
  unfold searchPokemon_page, searchPokemon.
  rewrite (seq_Done _ _ _ a) by by apply do_step_known.
  case_match; [by apply do_known|].
  by rewrite (seq_Done _ _ _ _ (do_known showLoading_page a eq_refl)).
Qed.

Lemma getRandomPokemon_page_complete (k : Z) (a : app) :
  getRandomPokemon_page engine doc k a = Exec (Done ()) (getRandomPokemon k a).
Proof.
  unfold getRandomPokemon_page.
  by rewrite (seq_Done _ _ _ _ (do_known showLoading_page a eq_refl)).
Qed.

Lemma known_search_body (p : pokemon) :
  forallb known (showPokemon_page p ++
    [Touch "pokemonInput" (Setting "value") (on_dom (set_pokemonInput ""))]) = true.
Proof. by rewrite forallb_app, known_showPokemon. Qed.

Lemma known_catch (call : app → app) (message : option string) :
  forallb known (Plain call :: showError_page message) = true.
Proof. done. Qed.

Lemma known_hideLoading : forallb known hideLoading_page = true.
Proof. done. Qed.

Lemma try_complete (body : list statement) (handler : string → stmt) (cleanup : list statement)
    (a : app) :
  forallb known body = true → forallb known cleanup = true →
  try_catch_finally_page (do engine doc body) handler (do engine doc cleanup) a =
    Exec (Done ()) (effects cleanup (effects body a)).
Proof.
  intros Hb Hc. apply (try_catch_finally_page_Done _ _ _ a (effects body a));
    by apply do_known.
Qed.

Lemma catch_complete (body : stmt) (handler : string → list statement) (cleanup : list statement)
    (message : string) (a : app) :
  body a = Exec (Raised message) a →
  forallb known (handler message) = true → forallb known cleanup = true →
  try_catch_finally_page body (λ m, do engine doc (handler m)) (do engine doc cleanup) a =
    Exec (Done ()) (effects cleanup (effects (handler message) a)).
Proof.
  intros Hb Hh Hc.
  apply (try_catch_finally_page_caught _ _ _ message a a (effects (handler message) a));
    [done|by apply do_known..].
Qed.

Lemma resume_page_complete (k : continuation) (o : fetch_outcome) (a : app) :
  resume_page engine doc k o a = Exec (Done ()) (resume k o a).
Proof.
  rewrite resume_unfold.
  destruct k as [query|]; cbn [resume_page];
    unfold searchPokemon_resume_page, getRandomPokemon_resume_page;
    destruct (fetchPokemon o) as [p|message]; cbn [try_catch].
  - cbn [awaited]. rewrite try_complete by (done || apply known_search_body).
    by rewrite effects_app, effects_showPokemon, effects_hideLoading.
  - rewrite (catch_complete _ _ _ message) by done. by rewrite effects_hideLoading.
  - cbn [awaited]. rewrite try_complete by (done || apply known_showPokemon).
    by rewrite effects_showPokemon, effects_hideLoading, on_dom_id.
  - rewrite (catch_complete _ _ _ message) by done. by rewrite effects_hideLoading.
Qed.

Lemma focus_shortcut_complete (key : string) (c m : bool) (a : app) :
  focus_shortcut engine doc key c m a =
    Exec (Done ()) (if (c || m) && String.eqb key "k"
                    then on_dom (set_input_focused true) a else a).
Proof. unfold focus_shortcut. case_match; [by apply do_step_known|done]. Qed.

Lemma random_shortcut_complete (key : string) (c m : bool) (k : Z) (a : app) :
  random_shortcut engine doc listeners key c m k a =
    Exec (Done ()) (if (c || m) && String.eqb key "r" then getRandomPokemon k a else a).
Proof.
  unfold random_shortcut. case_match; [|done].
  rewrite (seq_Done _ _ _ a) by by apply do_step_known.
  by rewrite (wired_click _ _ (EvClickRandom k)), getRandomPokemon_page_complete.
Qed.

Lemma escape_shortcut_complete (key : string) (a : app) :
  escape_shortcut engine doc listeners key a =
    Exec (Done ()) (if String.eqb key "Escape"
                    then if helpSection (shown a) then on_dom hideHelp a else a
                    else a).
Proof.
  unfold escape_shortcut. case_match; [|done].
  rewrite (seq_Done _ _ _ a) by by apply do_step_known. case_match; [|done].
  rewrite (seq_Done _ _ _ a) by by apply do_step_known.
  by rewrite (wired_click _ _ EvClickCloseHelp), (do_known hideHelp_page a eq_refl).
Qed.

Lemma on_keydown_page_complete (key : string) (c m : bool) (k : Z) (a : app) :
  on_keydown_page engine doc listeners key c m k a = Exec (Done ()) (on_keydown key c m k a).
Proof.
  unfold on_keydown_page.
  rewrite (seq_Done _ _ _ _ (focus_shortcut_complete key c m a)).
  rewrite (seq_Done _ _ _ _ (random_shortcut_complete key c m k _)).
  by rewrite escape_shortcut_complete.
Qed.

(** One turn on a complete document is the turn of [Controller], and
    nothing is thrown. *)
Lemma handle_page_complete (e : event) (a : app) :
  handle_page engine doc listeners e a = Exec (Done ()) <$> handle e a.
Proof.
  unfold handle_page. rewrite wired_attached.
  destruct e as [value| | |key|k| | |t|key c m k|i o|i loaded| | |];
    cbn [turn_page handle]; try done.
  - by rewrite searchPokemon_page_complete.
  - unfold on_keypress. case_match; [by rewrite searchPokemon_page_complete|done].
  - case_match; [|done]. by rewrite getRandomPokemon_page_complete.
  - by rewrite (do_known showHelp_page a eq_refl).
  - by rewrite (do_known hideHelp_page a eq_refl).
  - destruct t; [|done]. by rewrite (do_known hideHelp_page a eq_refl).
  - case_match; [|done]. by rewrite on_keydown_page_complete.
  - destruct (app_fetches a !! i); [|done]. simpl. by rewrite resume_page_complete.
  - unfold image_event. destruct (app_images a !! i) as [t|]; [|done]. simpl.
    destruct loaded; rewrite do_known; try done.
    + by rewrite effects_image_onerror.
    + apply known_tryLoadImage.
Qed.

Lemma run_page_complete (es : list event) (a : app) :
  run_page engine doc listeners es a = (λ a', (a', [])) <$> run es a.
Proof.
  revert a. induction es as [|e es IH]; intros a; [done|].
  cbn [run_page run]. rewrite handle_page_complete.
  destruct (handle e a) as [a1|]; [|done]. simpl. rewrite IH. by destruct (run es a1).
Qed.

End Lemmas.

(** ** On a document that lacks an element *)

Section Absent.

Context (engine : access → string) (doc : document).

(** The statements run up to the first whose element is not there. *)
Lemma do_absent (pre post : list statement) (name : string) (x : access) (f : app → app)
    (a : app) :
  forallb (present doc) pre = true → getElementById doc name = false →
  do engine doc (pre ++ Touch name x f :: post) a = Exec (Raised (engine x)) (effects pre a).
Proof.
  intros Hpre Hname. rewrite do_app. unfold seq at 1. rewrite (do_present _ _ pre) by done.
  cbn [ex_outcome ex_state do]. unfold seq. simpl. by rewrite Hname.
Qed.

(** [showLoading] on a page that has its sections and no search button:
    the loading section is shown, and the assignment to the button
    throws. *)
Lemma showLoading_no_button (a : app) :
  Forall (λ id, id ∈ doc) required → "searchBtn" ∉ doc →
  do engine doc showLoading_page a =
    Exec (Raised (engine (Setting "disabled")))
      (on_dom (set_sections (set_loading true)) (on_dom hideAllSections a)).
Proof.
  intros Hreq Hbtn.
  apply (do_absent (hideAllSections_page ++
    [Touch "loading" (Reading "classList") (on_dom (set_sections (set_loading true)))]));
    [by apply (touches_present doc required)|by apply bool_decide_eq_false].
Qed.

(** The [catch] block on a page without the element of the error text:
    [showError] throws after it has hidden the sections. *)
Lemma showError_no_text (call : app → app) (message : option string) (a : app) :
  Forall (λ id, id ∈ doc) required → "errorText" ∉ doc →
  do engine doc (Plain call :: showError_page message) a =
    Exec (Raised (engine (Setting "textContent"))) (on_dom hideAllSections (call a)).
Proof.
  intros Hreq Htext. apply (do_absent (Plain call :: hideAllSections_page));
    [by apply (touches_present doc required)|by apply bool_decide_eq_false].
Qed.

End Absent.

(** ** On any document: the display *)

Section Display.

Context (engine : access → string) (doc : document) (listeners : list listener).

(** A statement runs, or it throws and changes nothing. *)
Lemma do_step_cases (st : statement) (a : app) :
  do_step engine doc st a = Exec (Done ()) (effect st a) ∨
  ∃ message, do_step engine doc st a = Exec (Raised message) a.
Proof. destruct st as [name x f|f]; simpl; [case_match|]; eauto. Qed.

Lemma do_stepwise (J : sections → Prop) (l : list statement) (a : app) :
  stepwise J l → J (shown a) → J (shown (ex_state (do engine doc l a))).
Proof.
  intros Hl. revert a. induction Hl as [|st l Hst _ IH]; intros a Ha; [done|].
  cbn [do]. unfold seq. destruct (do_step_cases st a) as [-> | [message ->]]; simpl; auto.
Qed.

(** Statements that ran to the end had their effects. *)
Lemma do_Done (l : list statement) (a a' : app) :
  do engine doc l a = Exec (Done ()) a' → a' = effects l a.
Proof.
  revert a. induction l as [|st l IH]; intros a; [by intros [= <-]|].
  cbn [do]. unfold seq. destruct (do_step_cases st a) as [-> | [message ->]]; simpl; [|done].
  apply IH.
Qed.

Lemma stepwise_hideAllSections : stepwise exclusive hideAllSections_page.
Proof. repeat apply Forall_cons_2; [..|apply Forall_nil_2]; sections_cases. Qed.

(** A method that hides every section first and then shows one. *)
Lemma safe_hide_then (J : sections → Prop) (tail : list statement) :
  J (Sections false false false false) → (∀ s, J s → exclusive s) → stepwise J tail →
  safe (do engine doc (hideAllSections_page ++ tail)).
Proof.
  intros Hinit HJ Htail a Ha. rewrite do_app. unfold seq.
  pose proof (do_stepwise exclusive hideAllSections_page a stepwise_hideAllSections Ha) as Hh.
  destruct (do engine doc hideAllSections_page a) as [[[]|message|] a'] eqn:E; [|done..].
  unfold display_exclusive. cbn [ex_outcome ex_state]. apply HJ, do_stepwise; [done|].
  by rewrite (do_Done _ _ _ E).
Qed.

Lemma safe_stepwise (l : list statement) : stepwise exclusive l → safe (do engine doc l).
Proof. intros Hl a Ha. by apply (do_stepwise exclusive). Qed.

(** The constructs of the handlers keep what their parts keep. *)
Section Preserved.

Context {J : app → Prop}.

Lemma safe_seq (s t : stmt) : preserves J s → preserves J t → preserves J (s ;; t)%stmt.
Proof.
  intros Hs Ht a Ha. unfold seq. specialize (Hs a Ha).
  destruct (ex_outcome (s a)); [by apply Ht|done..].
Qed.

Lemma safe_update (f : app → app) : (∀ a, J a → J (f a)) → preserves J (update f).
Proof. intros Hf a Ha. by apply Hf. Qed.

Lemma safe_click (name : string) (s : stmt) :
  (Listener name "click" ∈ listeners → preserves J s) → preserves J (click listeners name s).
Proof. intros Hs a Ha. unfold click. case_bool_decide; [by apply Hs|done]. Qed.

Lemma safe_try (body : stmt) (handler : string → stmt) (cleanup : stmt) :
  preserves J body → (∀ message, preserves J (handler message)) → preserves J cleanup →
  preserves J (try_catch_finally_page body handler cleanup).
Proof.
  intros Hb Hh Hc a Ha. unfold try_catch_finally_page. specialize (Hb a Ha).
  set (r := match ex_outcome (body a) with
            | Raised m => handler m (ex_state (body a))
            | _ => body a
            end).
  assert (J (ex_state r)) as Hr.
  { unfold r. destruct (ex_outcome (body a)); [done|by apply Hh|done]. }
  specialize (Hc _ Hr). by destruct (ex_outcome (cleanup (ex_state r))).
Qed.

Lemma safe_do_step (st : statement) :
  (∀ a, J a → J (effect st a)) → preserves J (do_step engine doc st).
Proof.
  intros Hst a Ha. destruct (do_step_cases st a) as [-> | [message ->]]; simpl; auto.
Qed.

Lemma safe_skip : preserves J skip.
Proof. by intros a Ha. Qed.

Lemma safe_branch (b : app → bool) (s t : stmt) :
  preserves J s → preserves J t → preserves J (λ a, if b a then s a else t a).
Proof. intros Hs Ht a Ha. destruct (b a); auto. Qed.

Lemma safe_touch (name : string) (x : access) (f : app → app) :
  (∀ a, J a → J (f a)) → preserves J (do_step engine doc (Touch name x f)).
Proof. intros Hf. by apply safe_do_step. Qed.

(** The [keydown] listener keeps what the focus of the input keeps and
    the [click] listeners it calls keep, where they are attached. *)
Lemma safe_keydown (key : string) (c m : bool) (k : Z) :
  (∀ a, J a → J (on_dom (set_input_focused true) a)) →
  (Listener "randomBtn" "click" ∈ listeners →
   preserves J (getRandomPokemon_page engine doc k)) →
  (Listener "closeHelp" "click" ∈ listeners → preserves J (do engine doc hideHelp_page)) →
  preserves J (on_keydown_page engine doc listeners key c m k).
Proof.
  intros Hfocus Hrandom Hclose.
  unfold on_keydown_page, focus_shortcut, random_shortcut, escape_shortcut.
  repeat apply safe_seq; case_match; try apply safe_skip.
  - by apply safe_touch.
  - apply safe_seq; [by apply safe_touch|]. by apply safe_click.
  - apply safe_seq; [by apply safe_touch|].
    apply (safe_branch (λ a, helpSection (shown a))); [|apply safe_skip].
    apply safe_seq; [by apply safe_touch|]. by apply safe_click.
Qed.

(** A run keeps what every turn keeps. *)
Lemma run_page_preserves (es : list event) (a a' : app) (errors : list string) :
  (∀ e a r, J a → handle_page engine doc listeners e a = Some r → J (ex_state r)) →
  J a → run_page engine doc listeners es a = Some (a', errors) → J a'.
Proof.
  intros Hturn. revert a errors.
  induction es as [|e es IH]; intros a errors Ha; [by intros [= <- _]|].
  cbn [run_page]. intros (r & Hr & H)%bind_Some.
  destruct (run_page engine doc listeners es (ex_state r)) as [[a1 errors1]|] eqn:E;
    simplify_eq/=.
  eapply IH; [|done]. by eapply Hturn.
Qed.

End Preserved.

(** The methods. *)
Lemma safe_showLoading : safe (do engine doc showLoading_page).
Proof.
  apply (safe_hide_then (λ s, errorMessage s = false ∧ pokemonCard s = false)); [done| |].
  - intros [[] [] [] []]; unfold exclusive; simpl; intuition discriminate.
  - repeat apply Forall_cons_2; [..|apply Forall_nil_2]; sections_cases.
Qed.

Lemma safe_showError (message : option string) : safe (do engine doc (showError_page message)).
Proof.
  apply (safe_hide_then (λ s, loading s = false ∧ pokemonCard s = false)); [done| |].
  - intros [[] [] [] []]; unfold exclusive; simpl; intuition discriminate.
  - repeat apply Forall_cons_2; [..|apply Forall_nil_2]; sections_cases.
Qed.

Lemma safe_cons (st : statement) (l : list statement) :
  (∀ a, display_exclusive a → display_exclusive (effect st a)) → safe (do engine doc l) →
  safe (do engine doc (st :: l)).
Proof.
  intros Hst Hl a Ha. cbn [do]. unfold seq.
  destruct (do_step_cases st a) as [-> | [message ->]]; simpl; auto.
Qed.

Lemma stepwise_frame (J : sections → Prop) (l : list statement) :
  Forall (λ st, ∀ a, shown (effect st a) = shown a) l → stepwise J l.
Proof. intros Hl. eapply Forall_impl; [exact Hl|]. intros st Hst a. by rewrite Hst. Qed.

Lemma stepwise_app (J : sections → Prop) (l k : list statement) :
  stepwise J l → stepwise J k → stepwise J (l ++ k).
Proof. intros. by apply Forall_app. Qed.

Lemma frame_tryLoadImage (sources : list string) (index : nat) (p : pokemon) :
  Forall (λ st, ∀ a, shown (effect st a) = shown a) (tryLoadImage_page sources index p).
Proof. unfold tryLoadImage_page. case_match; by repeat constructor. Qed.

(** [populatePokemonData] does not touch the sections. *)
Lemma frame_populatePokemonData (p : pokemon) :
  Forall (λ st, ∀ a, shown (effect st a) = shown a) (populatePokemonData_page p).
Proof.
  unfold populatePokemonData_page, loadPokemonImage_page, populateTypes_page,
    populateAbilities_page.
  repeat first [apply Forall_app; split|apply Forall_cons_2|apply Forall_nil_2
               |apply Forall_fmap, Forall_true]; try done.
  case_match; [by repeat constructor|apply frame_tryLoadImage].
Qed.

Lemma safe_showPokemon (p : pokemon) (rest : list statement) :
  stepwise (λ s, loading s = false ∧ errorMessage s = false) rest →
  safe (do engine doc (showPokemon_page p ++ rest)).
Proof.
  intros Hrest. unfold showPokemon_page. rewrite <-!(assoc_L (++)).
  apply (safe_hide_then (λ s, loading s = false ∧ errorMessage s = false)); [done| |].
  - intros [[] [] [] []]; unfold exclusive; simpl; intuition discriminate.
  - apply stepwise_app; [apply stepwise_frame, frame_populatePokemonData|].
    apply Forall_cons_2; [sections_cases|done].
Qed.

Lemma safe_hideLoading : safe (do engine doc hideLoading_page).
Proof.
  apply safe_stepwise. repeat apply Forall_cons_2; [..|apply Forall_nil_2]; sections_cases.
Qed.

Lemma safe_showHelp : safe (do engine doc showHelp_page).
Proof. apply safe_stepwise. apply Forall_singleton. sections_cases. Qed.

Lemma safe_image_handler (loaded : bool) (t : image_task) :
  safe (do engine doc (if loaded then image_onload_page t else image_onerror_page t)).
Proof.
  apply safe_stepwise, stepwise_frame. destruct loaded; [by repeat constructor|].
  apply Forall_cons_2; [done|apply frame_tryLoadImage].
Qed.

Lemma safe_hideHelp : safe (do engine doc hideHelp_page).
Proof. apply safe_stepwise. apply Forall_singleton. sections_cases. Qed.

Lemma safe_awaited {A} (r : result A) (k : A → stmt) :
  (∀ x, safe (k x)) → safe (awaited r k).
Proof. intros Hk. destruct r as [x|message]; [apply Hk|]. intros a Ha. exact Ha. Qed.

Lemma safe_resume (k : continuation) (o : fetch_outcome) : safe (resume_page engine doc k o).
Proof.
  destruct k as [query|]; cbn [resume_page]; apply safe_try;
    try apply safe_hideLoading;
    try (intros message; apply safe_cons; [intros a Ha; exact Ha|apply safe_showError]);
    apply safe_awaited; intros p.
  - apply safe_showPokemon, Forall_singleton. sections_cases.
  - rewrite <-(app_nil_r (showPokemon_page p)). apply safe_showPokemon, Forall_nil_2.
Qed.

Lemma safe_getRandomPokemon (k : Z) : safe (getRandomPokemon_page engine doc k).
Proof. by apply safe_seq, safe_update; [apply safe_showLoading|]. Qed.

Lemma safe_searchPokemon : safe (searchPokemon_page engine doc).
Proof.
  intros a Ha. unfold searchPokemon_page. unfold seq at 1.
  destruct (do_step_cases (Touch "pokemonInput" (Reading "value") (λ a, a)) a)
    as [-> | [message ->]]; cbn [ex_outcome ex_state effect]; [|done].
  case_match; [exact (safe_showError _ a Ha)|].
  exact (safe_seq (J := display_exclusive) _ _ safe_showLoading
           (safe_update (J := display_exclusive) (start_fetch _ _) (λ _ H, H)) a Ha).
Qed.

Lemma safe_on_keydown (key : string) (c m : bool) (k : Z) :
  safe (on_keydown_page engine doc listeners key c m k).
Proof.
  apply safe_keydown; [done|intros _; apply safe_getRandomPokemon|intros _; apply safe_hideHelp].
Qed.

(** One turn keeps the display exclusive, whatever the document lacks and
    whether the turn throws or not. *)
Lemma handle_page_exclusive (e : event) (a : app) (r : exec) :
  display_exclusive a → handle_page engine doc listeners e a = Some r →
  display_exclusive (ex_state r).
Proof.
  intros Ha. unfold handle_page. case_match; [|done].
  destruct e as [value| | |key|k| | |t|key c m k|i o|i loaded| | |];
    cbn [turn_page]; try (by intros [= <-]).
  - intros [= <-]. exact (safe_searchPokemon a Ha).
  - intros [= <-]. case_match; [exact (safe_searchPokemon a Ha)|done].
  - case_match; intros [= <-]. exact (safe_getRandomPokemon k a Ha).
  - intros [= <-]. exact (safe_showHelp a Ha).
  - intros [= <-]. exact (safe_hideHelp a Ha).
  - intros [= <-]. destruct t; [exact (safe_hideHelp a Ha)|done].
  - case_match; intros [= <-]. exact (safe_on_keydown key c m k a Ha).
  - destruct (app_fetches a !! i) as [t|]; intros [= <-].
    exact (safe_resume _ o (set_fetches _ a) Ha).
  - destruct (app_images a !! i) as [t|]; intros [= <-].
    exact (safe_image_handler loaded t (set_images _ a) Ha).
Qed.

Lemma run_page_exclusive (es : list event) (a a' : app) (errors : list string) :
  display_exclusive a → run_page engine doc listeners es a = Some (a', errors) →
  display_exclusive a'.
Proof. apply run_page_preserves. intros e a0 r. apply handle_page_exclusive. Qed.

End Display.

(** ** Properties *)

(** On a document that has the nineteen elements the methods use
    (all that [initializeElements] binds but [resultsSection]) the event
    loop on the page is the event loop of [Controller] over the record
    [dom], turn by turn, and no turn throws: what [dom] assumes of the page
    is that these elements exist, and nothing more. *)
Theorem run_page_refines (engine : access → string) (doc : document)
    (listeners : list listener) (es : list event) (a : app) :
  complete doc → wired listeners →
  run_page engine doc listeners es a = (λ a', (a', [])) <$> run es a.
Proof. intros Hdoc Hwired. by apply run_page_complete. Qed.

Lemma run_page_refines_witness :
  run_page v8_null used_ids all_listeners sample_trace (constructor sample_page) =
    (λ a', (a', [])) <$> run sample_trace (constructor sample_page).
Proof.
  apply (run_page_refines v8_null used_ids all_listeners);
    [by apply (bool_decide_unpack _)|apply wired_all].
Defined.

(** C14: whatever elements the document lacks, and whatever the turns
    throw, at most one of the loading, error and card sections is shown
    after every run that starts with the sections hidden: a method that
    throws has hidden the sections before it shows one. *)
Theorem page_display_exclusive (engine : access → string) (doc : document)
    (listeners : list listener) (page : dom) (es : list event) (a : app)
    (errors : list string) :
  run_page engine doc listeners es (constructor page) = Some (a, errors) → exclusive (shown a).
Proof.
  apply run_page_exclusive. apply constructor_invariants.
Qed.

Lemma page_display_exclusive_witness :
  exclusive (shown (default (constructor sample_page)
    (fst <$> run_page v8_null no_searchBtn all_listeners search_pikachu
               (constructor sample_page)))).
Proof.
  by apply (page_display_exclusive v8_null no_searchBtn all_listeners sample_page search_pikachu _
    [v8_null (Setting "disabled")]).
Defined.

(** C20: on a page that has the elements of the constructor and no search
    button, a search for a query that is not blank shows the loading
    section, throws the [TypeError] of the assignment to the button at
    [showLoading], which is before the [try], and requests nothing: no
    fetch is in flight whose settlement would hide the loading section
    again. *)
Theorem search_without_button (engine : access → string) (doc : document)
    (listeners : list listener) (a : app) :
  Forall (λ id, id ∈ doc) required → "searchBtn" ∉ doc →
  Listener "searchForm" "submit" ∈ listeners → truthy_string (read_query a) = true →
  ∃ a', handle_page engine doc listeners EvSubmit a =
          Some (Exec (Raised (engine (Setting "disabled"))) a') ∧
    shown a' = Sections true false false false ∧
    app_fetches a' = app_fetches a ∧ app_requests a' = app_requests a.
Proof.
  intros Hreq Hbtn Hl Hq. eexists. split; [|split_and!].
  - unfold handle_page, attached. cbn [listener_of]. rewrite bool_decide_eq_true_2 by done.
    cbn [turn_page]. unfold searchPokemon_page. f_equal. rewrite (seq_Done _ _ _ a).
    + rewrite Hq. cbn [negb].
      by rewrite (seq_Raised _ _ _ _ _ (showLoading_no_button _ _ a Hreq Hbtn)).
    + apply do_step_present. simpl. apply bool_decide_eq_true.
      by apply (proj1 (Forall_forall _ _) Hreq), (bool_decide_unpack _).
  - done.
  - done.
  - done.
Qed.

Lemma search_without_button_witness :
  ∃ a', handle_page v8_null no_searchBtn all_listeners EvSubmit
          (on_dom (set_pokemonInput "pikachu") (constructor sample_page)) =
        Some (Exec (Raised "Cannot set properties of null (setting 'disabled')") a') ∧
    shown a' = Sections true false false false ∧
    app_fetches a' = [] ∧ app_requests a' = [].
Proof.
  apply (search_without_button v8_null no_searchBtn all_listeners);
    [by apply (bool_decide_unpack _)..|done].
Defined.

(** On a page that has the elements of the constructor and its search
    button and no element for the error text, a search that fails shows
    nothing: the [catch] block throws at [showError] after the sections are
    hidden, the [finally] block still enables the button, and the error of
    the [catch] block is what the method throws. *)
Theorem failure_without_errorText (engine : access → string) (doc : document)
    (query message : string) (a : app) :
  Forall (λ id, id ∈ doc) required → "searchBtn" ∈ doc → "errorText" ∉ doc →
  ∃ a', searchPokemon_resume_page engine doc query (FetchRejected message) a =
          Exec (Raised (engine (Setting "textContent"))) a' ∧
    shown a' = Sections false false false false ∧
    searchBtn (app_dom a') = idle_button ∧ errorText (app_dom a') = errorText (app_dom a).
Proof.
  intros Hreq Hbtn Htext. eexists. split; [|split_and!].
  - unfold searchPokemon_resume_page, try_catch_finally_page. cbn [fetchPokemon awaited].
    cbn [ex_outcome ex_state]. rewrite (showError_no_text engine doc _ _ _ Hreq Htext).
    cbn [ex_outcome ex_state]. rewrite (do_present engine doc hideLoading_page); [done|].
    apply (touches_present doc ("searchBtn" :: required)); [by apply Forall_cons_2|done].
  - done.
  - done.
  - done.
Qed.

Lemma failure_without_errorText_witness :
  ∃ a', searchPokemon_resume_page v8_null (filter (λ id, id ≠ "errorText") element_ids)
          "pikachu" (FetchRejected "Failed to fetch") (constructor sample_page) =
          Exec (Raised "Cannot set properties of null (setting 'textContent')") a' ∧
    shown a' = Sections false false false false ∧
    searchBtn (app_dom a') = idle_button ∧
    errorText (app_dom a') = errorText (app_dom (constructor sample_page)).
Proof.
  apply (failure_without_errorText v8_null (filter (λ id, id ≠ "errorText") element_ids));
    by apply (bool_decide_unpack _).
Defined.
