(* ===== verification/Loaded.v ===== *)
(** * Loaded: the page when the constructor has run

    [Script] says which listeners the script attaches itself, [Bootstrap]
    what the constructor leaves on a document, whether it returned or
    threw, and [Partial] what the listeners do there.  Here they are put
    together: the event loop of the page as [DOMContentLoaded] leaves it,
    with the listeners attached and the sections hidden by then.  The
    theorems show that on a document with every element this is the event
    loop of [Controller] from the state of [View.constructor], and that a
    page without its form does nothing for ever. *)

From S2P Require Import Prelude JsRuntime State View Images Controller Invariants Values Script.
From S2P Require Import Bootstrap RawCard Partial.

(** ** Definitions *)

(** What the constructor leaves, whether it returned or threw. *)
Definition left_by (c : construction) : explorer :=
  match c with
  | Constructed x | Threw _ x => x
  end.

(** The listeners of the page when [DOMContentLoaded] has been handled:
    those of the script, and those [bindEvents] attached before the
    constructor returned or threw. *)
Definition listeners_on (serviceWorker : bool) (doc : document) : list listener :=
  page_listeners serviceWorker ++ ex_listeners (left_by (new_PokemonExplorer doc)).

(** The state of the page then (lines 305-311): of the page as parsed, the
    sections the constructor reached are hidden, and nothing is in
    flight. *)
Definition loaded (doc : document) (page : dom) : app :=
  {| app_dom := foldl (λ d name, hide_section name d) page
                  (ex_hidden (left_by (new_PokemonExplorer doc)));
     app_fetches := []; app_images := []; app_requests := []; app_console := [] |}.

(** The event loop from there. *)
Definition run_loaded (engine : access → string) (serviceWorker : bool) (doc : document)
    (page : dom) (es : list event) : option (app * list string) :=
  run_page engine doc (listeners_on serviceWorker doc) es (loaded doc page).

(** A page on which the script has changed nothing that shows: the
    sections are those of the page as parsed, and nothing was requested. *)
Definition inert (page : dom) (a : app) : Prop :=
  shown a = dom_sections page ∧ app_fetches a = [] ∧ app_images a = [] ∧ app_requests a = [].

(** A page without its form, and the keys of the three shortcuts on it. *)
Definition no_searchForm : document := filter (λ id, id ≠ "searchForm") element_ids.

Definition shortcuts : list event :=
  [EvKeydown "k" true false 0; EvKeydown "r" true false 0; EvKeydown "Escape" false false 0].

(** ** Lemmas *)

(** The methods use every element the constructor reads. *)
Lemma complete_required (doc : document) : complete doc → Forall (λ id, id ∈ doc) required.
Proof.
  intros Hdoc. apply Forall_forall. intros id Hid.
  apply (proj1 (Forall_forall _ _) Hdoc).
  revert id Hid. apply Forall_forall. by apply (bool_decide_unpack _).
Qed.

(** On a document with the elements the constructor reads, the page is
    loaded with every listener and in the state of [View.constructor]. *)
Lemma listeners_on_constructed (doc : document) :
  Forall (λ id, id ∈ doc) required → listeners_on true doc = all_listeners.
Proof. intros Hdoc. unfold listeners_on. by rewrite constructed_intro. Qed.

Lemma loaded_constructed (doc : document) (page : dom) :
  Forall (λ id, id ∈ doc) required → loaded doc page = constructor page.
Proof. intros Hdoc. unfold loaded. by rewrite constructed_intro. Qed.

(** Without the form the constructor throws at its first listener. *)
Lemma threw_without_form (doc : document) :
  "searchForm" ∉ doc →
  new_PokemonExplorer doc = Threw (ReadOfNull "addEventListener") (bound doc).
Proof.
  intros Hdoc. rewrite new_PokemonExplorer_plan.
  apply (run_plan_null [] (tail plan) ("searchForm", Listen "submit")); [done|].
  rewrite property_plan; [f_equal; by apply bool_decide_eq_false|]. by left.
Qed.

Lemma script_no_click (serviceWorker : bool) (name : string) :
  Listener name "click" ∉ page_listeners serviceWorker ++ [].
Proof.
  destruct serviceWorker; simpl; rewrite !elem_of_cons, elem_of_nil; intros H;
    destruct_or!; by simplify_eq.
Qed.

Section Inert.

Context (engine : access → string) (doc : document) (serviceWorker : bool) (page : dom).

(** With the listeners of the script alone, a turn changes nothing that
    shows. *)
Lemma handle_page_inert (e : event) (a : app) (r : exec) :
  inert page a → handle_page engine doc (page_listeners serviceWorker ++ []) e a = Some r →
  inert page (ex_state r).
Proof.
  intros Ha. unfold handle_page. destruct (attached _ e) eqn:Hatt; [|done].
  destruct e as [value| | |key|k| | |t|key c m k|i o|i loaded| | |];
    try (by destruct serviceWorker); cbn [turn_page]; try (by intros [= <-]).
  - case_match; intros [= <-].
    apply (safe_keydown engine doc _ (J := inert page)); [done|..|done];
      by intros ?%script_no_click.
  - destruct Ha as (_ & -> & _). by rewrite lookup_nil.
  - destruct Ha as (_ & _ & -> & _). by rewrite lookup_nil.
Qed.

End Inert.

(** ** Properties *)

(** C10: on a document that has the nineteen elements the methods use, the
    page that [DOMContentLoaded] leaves, with the listeners of the script
    and of [bindEvents], runs as the event loop of [Controller] from the
    state of [View.constructor], and no turn throws. *)
Theorem loaded_page_refines (engine : access → string) (doc : document) (page : dom)
    (es : list event) :
  complete doc →
  run_loaded engine true doc page es = (λ a', (a', [])) <$> run es (on_DOMContentLoaded page).
Proof.
  intros Hdoc. pose proof (complete_required doc Hdoc) as Hreq. unfold run_loaded.
  rewrite listeners_on_constructed, loaded_constructed by done.
  apply run_page_complete; [done|apply wired_all].
Qed.

Lemma loaded_page_refines_witness :
  run_loaded v8_null true used_ids sample_page sample_trace =
    (λ a', (a', [])) <$> run sample_trace (on_DOMContentLoaded sample_page).
Proof. apply (loaded_page_refines v8_null used_ids). by apply (bool_decide_unpack _). Defined.

(** C26: on a page without its form the constructor throws before it
    attaches a listener, and the page does nothing for ever: whatever the
    user does, no section is shown or hidden, and nothing is requested.
    The shortcuts of the script still run, and find no listener to
    call. *)
Theorem page_without_form_inert (engine : access → string) (serviceWorker : bool)
    (doc : document) (page : dom) (es : list event) (a : app) (errors : list string) :
  "searchForm" ∉ doc →
  run_loaded engine serviceWorker doc page es = Some (a, errors) → inert page a.
Proof.
  intros Hdoc. unfold run_loaded, listeners_on, loaded. rewrite threw_without_form by done.
  apply run_page_preserves; [|done]. intros e a0 r. apply handle_page_inert.
Qed.

Lemma page_without_form_inert_witness :
  inert sample_page
    (default (constructor sample_page)
       (fst <$> run_loaded v8_null true no_searchForm sample_page shortcuts)).
Proof.
  by apply (page_without_form_inert v8_null true no_searchForm sample_page shortcuts _ []);
    [apply (bool_decide_unpack _)|].
Defined.
