(* ===== verification/RawProgress.v ===== *)
(** * RawProgress: pending work drains, whatever the responses

    The liveness of [Progress] on the event loop of [RawController], where a
    fetch settles with any value of JSON.  [showPokemon] can throw after it
    has started the image of the record, so a response of another shape can
    leave an image loading beside the error section; [starts] bounds what a
    statement adds to the pending images, along [seq], [eval] and
    [for_each], and the budget of [Progress] still goes down with every
    event of the environment.  A turn whose outcome is outside the model of
    the values ([handle_js] gives [None]) is not a turn of [next_js]. *)

From S2P Require Import Prelude JsRuntime Formatter State View Images Card Fetcher Controller.
From S2P Require Import Invariants Lifecycle Races Display Progress Values RawCard RawController.

(** ** Definitions *)

(** The events of the environment: a fetch that settles, with a checked or
    an unchecked response, and an image that loads or fails. *)
Definition env_event_js (e : raw_event) : bool :=
  match e with
  | RawEvent e => env_event e
  | RawSettled _ _ => true
  end.

(** A turn of the event loop. *)
Definition next_js (engine : type_error → string) (a : app) (e : raw_event) (a' : app) : Prop :=
  handle_js engine e a = Some a'.

(** A statement that adds [n] sources at most to those the pending images
    have left, and keeps every pending image with a source left. *)
Definition starts (n : nat) (s : stmt) : Prop := ∀ a,
  images_live a →
  images_live (ex_state (s a)) ∧ (image_load (ex_state (s a)) ≤ image_load a + n)%nat.

(** The invariant the argument needs: the one of [RawController], and every
    pending image with a source left. *)
Definition steady (a : app) : Prop := robust a ∧ images_live a.

(** A run for the witness: a search and a random search in flight, and the
    first answered by a record without its types. *)
Definition raw_pending : list raw_event :=
  [RawEvent (EvInput "pikachu"); RawEvent EvSubmit; RawEvent (EvClickRandom 7);
   RawSettled 0 (raw_ok sample_value_no_types)].

(** ** Lemmas: what a statement starts *)

Lemma outcome_bind_Done {A B} (o : outcome A) (f : A → outcome B) (y : B) :
  o ≫= f = Done y → ∃ x, o = Done x ∧ f x = Done y.
Proof. destruct o as [x| |]; simpl; [by exists x|done..]. Qed.

Lemma starts_update (f : app → app) :
  (∀ a, app_images (f a) = app_images a) → starts 0 (update f).
Proof. intros Hf a Ha. unfold images_live, image_load. simpl. rewrite Hf. split; [done|lia]. Qed.

Lemma starts_dom (f : dom → dom) : starts 0 (update (on_dom f)).
Proof. by apply starts_update. Qed.

Lemma starts_mono (n m : nat) (s : stmt) : (n ≤ m)%nat → starts n s → starts m s.
Proof. intros Hn Hs a Ha. destruct (Hs a Ha). split; [done|lia]. Qed.

Lemma starts_tryLoadImage (sources : list string) (p : pokemon) :
  (length sources ≤ 6)%nat → starts 6 (update (tryLoadImage sources 0 p)).
Proof.
  intros Hs a Ha. simpl. unfold tryLoadImage, images_live, image_load.
  destruct (Nat.leb_spec (length sources) 0); simpl; [split; [done|lia]|].
  rewrite fmap_app, sum_list_app. split.
  - apply Forall_app. split; [done|]. apply Forall_singleton. unfold image_task_live. simpl. lia.
  - unfold image_budget. simpl. lia.
Qed.

Lemma starts_seq (n m : nat) (s t : stmt) : starts n s → starts m t → starts (n + m) (seq s t).
Proof.
  intros Hs Ht a Ha. unfold seq. destruct (Hs a Ha) as [H1 H2].
  destruct (ex_outcome (s a)); [|split; [done|lia]..].
  destruct (Ht _ H1). split; [done|lia].
Qed.

Lemma starts_eval {A} (n : nat) (e : outcome A) (k : A → stmt) :
  (∀ x, e = Done x → starts n (k x)) → starts n (eval e k).
Proof. intros Hk a Ha. destruct e; simpl; [by apply Hk|split; [done|lia]..]. Qed.

Lemma starts_for_each {A} (body : A → stmt) (l : list A) :
  (∀ x, starts 0 (body x)) → starts 0 (for_each body l).
Proof.
  intros Hb. induction l as [|x l IH]; [by apply starts_update|].
  apply (starts_seq 0 0); [apply Hb|apply IH].
Qed.

(** ** Lemmas: the card *)

Section Card.

Context (engine : type_error → string).

Lemma starts_forEach_js (callee : string) (list : value) (body : value → stmt) :
  (∀ x, starts 0 (body x)) → starts 0 (forEach_js engine callee list body).
Proof.
  intros Hb. destruct list; simpl; try (by apply starts_for_each);
    apply starts_eval; intros; by apply starts_update.
Qed.

Lemma imageCandidates_js_length (v : value) (candidates : list value) :
  imageCandidates_js engine v = Done candidates → length candidates = 6%nat.
Proof.
  unfold imageCandidates_js. intros H.
  repeat (apply outcome_bind_Done in H as (? & _ & H)). by injection H as <-.
Qed.

Lemma imageSources_js_length (v : value) (sources : list string) :
  imageSources_js engine v = Done sources → (length sources ≤ 6)%nat.
Proof.
  unfold imageSources_js. intros (cs & Hcs%imageCandidates_js_length & H)%outcome_bind_Done.
  unfold sources_js in H. destruct (mapM as_string _) as [l|] eqn:E; [|done].
  injection H as <-. apply length_mapM in E. rewrite <-E, <-Hcs. apply length_filter.
Qed.

Lemma starts_loadPokemonImage_js (v : value) : starts 6 (loadPokemonImage_js engine v).
Proof.
  unfold loadPokemonImage_js. apply starts_eval. intros sources Hs%imageSources_js_length.
  apply starts_eval. intros p _. apply (starts_seq 0 6); [apply starts_dom|].
  apply (starts_seq 0 6); [apply starts_dom|].
  case_match; [|by apply starts_tryLoadImage].
  apply (starts_mono 0); [lia|]. by apply starts_update.
Qed.

Lemma starts_populateTypes_js (v : value) : starts 0 (populateTypes_js engine v).
Proof.
  apply (starts_seq 0 0); [apply starts_dom|]. apply starts_forEach_js. intros e.
  apply starts_eval. intros b _. apply starts_dom.
Qed.

Lemma starts_populateAbilities_js (v : value) : starts 0 (populateAbilities_js engine v).
Proof.
  apply (starts_seq 0 0); [apply starts_dom|]. apply starts_forEach_js. intros e.
  apply starts_eval. intros b _. apply starts_dom.
Qed.

(** A read that sets one field of the card. *)
Lemma starts_field {A} (e : outcome A) (f : A → dom → dom) :
  starts 0 (eval e (λ x, update (on_dom (f x)))).
Proof. apply starts_eval. intros x _. apply starts_dom. Qed.

Lemma starts_populatePokemonData_js (v : value) : starts 6 (populatePokemonData_js engine v).
Proof.
  unfold populatePokemonData_js.
  apply (starts_seq 0 6); [apply starts_field|]. apply (starts_seq 0 6); [apply starts_field|].
  apply (starts_seq 6 0); [apply starts_loadPokemonImage_js|].
  repeat (apply (starts_seq 0 0); [apply starts_field|]).
  apply (starts_seq 0 0); apply starts_eval; intros x _;
    [apply starts_populateTypes_js|apply starts_populateAbilities_js].
Qed.

Lemma starts_showPokemon_js (v : value) : starts 6 (showPokemon_js engine v).
Proof.
  unfold showPokemon_js. apply (starts_seq 0 6); [apply starts_dom|].
  apply (starts_seq 6 0); [apply starts_populatePokemonData_js|apply starts_dom].
Qed.

End Card.

(** ** Lemmas: the requests *)

Lemma starts_awaited {A} (n : nat) (r : result A) (k : A → stmt) :
  (∀ x, starts n (k x)) → starts n (awaited r k).
Proof. intros Hk. destruct r; simpl; [apply Hk|]. intros a Ha. split; [done|simpl; lia]. Qed.

Lemma try_catch_finally_starts (n : nat) (body : stmt) (handler : string → app → app)
    (cleanup : app → app) (a a' : app) :
  starts n body → (∀ m b, app_images (handler m b) = app_images b) →
  (∀ b, app_images (cleanup b) = app_images b) →
  images_live a → try_catch_finally body handler cleanup a = Some a' →
  images_live a' ∧ (image_load a' ≤ image_load a + n)%nat.
Proof.
  intros Hb Hh Hc Ha. unfold try_catch_finally. destruct (Hb a Ha) as [H1 H2].
  unfold images_live, image_load in *.
  destruct (ex_outcome (body a)); [| |done]; intros [= <-]; by rewrite Hc, ?Hh.
Qed.

Lemma resume_js_starts (engine : type_error → string) (k : continuation) (o : raw_outcome)
    (a a' : app) :
  images_live a → resume_js engine k o a = Some a' →
  images_live a' ∧ (image_load a' ≤ image_load a + 6)%nat.
Proof.
  intros Ha. destruct k as [query|]; cbn [resume_js];
    unfold searchPokemon_resume_js, getRandomPokemon_resume_js;
    apply (try_catch_finally_starts 6); [|reflexivity|reflexivity|exact Ha| |reflexivity|reflexivity|exact Ha];
    apply starts_awaited; intros v; [apply (starts_seq 6 0); [|apply starts_dom]|];
    apply starts_showPokemon_js.
Qed.

(** ** Lemmas: the event loop *)

Section Loop.

Context (engine : type_error → string).

Lemma budget_settled_js (a a' : app) (i : nat) (o : raw_outcome) (t : fetch_task) :
  images_live a → app_fetches a !! i = Some t →
  resume_js engine (ft_k t) o (set_fetches (delete i (app_fetches a)) a) = Some a' →
  images_live a' ∧ (budget a' < budget a)%nat.
Proof.
  intros Ha Ht Hr. destruct (resume_js_display engine _ _ _ _ Hr) as (_ & _ & Hf).
  destruct (resume_js_starts engine _ _ (set_fetches _ a) _ Ha Hr) as [Hl Hb]. split; [done|].
  unfold budget. rewrite Hf. simpl. rewrite length_delete by eauto.
  apply lookup_lt_Some in Ht. unfold image_load in *. simpl in Hb. lia.
Qed.

Lemma handle_js_steady (a : app) (e : raw_event) (a' : app) :
  steady a → handle_js engine e a = Some a' → steady a'.
Proof.
  intros [Hr Hl] He. split; [by eapply handle_js_robust|]. destruct e as [e|i o]; simpl in He.
  - apply step_handle, step_turn in He. by eapply invariant_turn.
  - apply bind_Some in He as (t & Ht & Hs). by destruct (budget_settled_js a a' i o t).
Qed.

Lemma run_js_steady (es : list raw_event) (a a' : app) :
  steady a → run_js engine es a = Some a' → steady a'.
Proof.
  revert a. induction es as [|e es IH]; intros a Ha; simpl; [by intros [= <-]|].
  intros (a1 & He & Hes)%bind_Some. eapply IH; [|done]. by eapply handle_js_steady.
Qed.

Lemma budget_next_js (a : app) (e : raw_event) (a' : app) :
  steady a → env_event_js e = true → next_js engine a e a' → (budget a' < budget a)%nat.
Proof.
  intros [_ Hl] He. unfold next_js. destruct e as [e|i o]; simpl in *.
  - intros Hs%step_handle. by apply (budget_env_step a e a').
  - intros (t & Ht & Hs)%bind_Some. by destruct (budget_settled_js a a' i o t).
Qed.

Lemma steady_quiescent_at_rest (a : app) : steady a → quiescent a → at_rest a.
Proof.
  intros [(_ & Hbusy & Hpending & _) _] [Hf Hi]. split; [done|].
  destruct (loading (shown a)) eqn:Hl; [|done].
  destruct Hpending; [|done]. by rewrite (Hbusy Hl).
Qed.

Lemma steady_enabled (a : app) :
  steady a → at_rest a ∨ ∃ e a', env_event_js e = true ∧ next_js engine a e a'.
Proof.
  intros Ha. destruct (decide (quiescent a)) as [Hq|Hq]; [left|right].
  - by apply steady_quiescent_at_rest.
  - destruct (env_enabled_handle a Hq) as (e & a' & He & Ha'). by exists (RawEvent e), a'.
Qed.

Lemma constructor_steady (page : dom) :
  disabled (searchBtn page) = false → steady (constructor page).
Proof. intros Hb. split; [by apply constructor_robust|by constructor]. Qed.

End Loop.

(** ** Properties *)

(** Liveness, whatever the responses: after any run of the event loop
    on unchecked responses, when the user does nothing more, the page comes
    to rest: after at most [budget] events of the environment, whichever
    fetch settles or image loads or fails next, with whatever value of JSON
    the model covers, no fetch and no image is pending and the loading
    section is hidden; and until then the environment always has a next
    event.  A response on which [showPokemon] throws halfway does not leave
    the page loading for ever. *)
Theorem pending_work_drains_js (engine : type_error → string) (page : dom)
    (es : list raw_event) (a : app) :
  disabled (searchBtn page) = false →
  run_js engine es (constructor page) = Some a →
  within env_event_js (next_js engine) at_rest (budget a) a.
Proof.
  intros Hb Hr.
  apply (within_measure env_event_js (next_js engine) steady at_rest budget); [| | | |done].
  - intros a1 e a2 H1 _. by apply handle_js_steady.
  - apply budget_next_js.
  - apply steady_enabled.
  - eapply run_js_steady; [|done]. by apply constructor_steady.
Qed.

Lemma pending_work_drains_js_witness :
  within env_event_js (next_js v8_message) at_rest
    (budget (raw_state_after raw_pending)) (raw_state_after raw_pending).
Proof.
  apply (pending_work_drains_js v8_message sample_page raw_pending); [reflexivity|].
  vm_compute. reflexivity.
Defined.
