(* ===== verification/RawErrors.v ===== *)
(** * RawErrors: the errors the card can throw

    Which [TypeError]s [showPokemon] throws on a value of any shape: a read
    of one of fourteen properties of [undefined] or of [null], a call of one
    of five properties that is not a function, or a value that does not
    convert to a string.  [throws] and [throws_in] say that an expression
    and a statement throw nothing else; they compose along [mbind], [seq],
    [eval] and [for_each].  The class [GenericMessages] is what the
    controller needs of the engine: none of these errors reads as a missing
    record or as a network failure, so the search shows the generic message
    for a response of another shape.  V8 is an instance. *)

From S2P Require Import Prelude JsRuntime Formatter State View Images Card Fetcher Controller.
From S2P Require Import Values RawCard RawController.

(** ** Definitions *)

(** The properties the card code reads (lines 174-281). *)
Definition read_keys : list string :=
  ["name"; "id"; "sprites"; "height"; "weight"; "base_experience"; "types"; "abilities";
   "type"; "ability"; "charAt"; "split"; "toString"; "forEach"].

(** The properties it calls. *)
Definition callees : list string :=
  ["str.charAt"; "name.split"; "pokemon.id.toString"; "types.forEach"; "abilities.forEach"].

Definition card_errors : list type_error :=
  (ReadOfUndefined <$> read_keys) ++ (ReadOfNull <$> read_keys) ++
  (NotAFunction <$> callees) ++ [NotPrimitive].

(** The message of an error that is neither a missing record nor a network
    failure for [search_error_message]. *)
Definition reads_generic (message : string) : bool :=
  negb (includes "404" message) && negb (includes "network" message).

(** An engine whose messages for the errors of the card read as neither a
    missing record nor a network failure. *)
Class GenericMessages (engine : type_error → string) : Prop :=
  generic_messages : ∀ e, e ∈ card_errors → reads_generic (engine e) = true.

Section Throws.

Context (engine : type_error → string).

(** An expression that throws card errors only. *)
Definition throws {A} (o : outcome A) : Prop :=
  ∀ message, o = Raised message → ∃ e, e ∈ card_errors ∧ message = engine e.

(** A statement that throws card errors only. *)
Definition throws_in (s : stmt) : Prop := ∀ a, throws (ex_outcome (s a)).

(** ** Lemmas: composition *)

Lemma throws_Done {A} (x : A) : throws (Done x).
Proof. by intros m. Qed.

Lemma throws_Unmodelled {A} : throws (@Unmodelled A).
Proof. by intros m. Qed.

Lemma throws_raise {A} (e : type_error) :
  bool_decide (e ∈ card_errors) = true → throws (@type_error_raised engine A e).
Proof. intros He%bool_decide_eq_true m [= <-]. eauto. Qed.

Lemma throws_bind {A B} (o : outcome A) (f : A → outcome B) :
  throws o → (∀ x, throws (f x)) → throws (o ≫= f).
Proof. intros Ho Hf. destruct o as [x|m|]; simpl; [apply Hf|by intros ? [= <-]; apply Ho|done]. Qed.

Lemma throws_fmap {A B} (o : outcome A) (f : A → B) : throws o → throws (f <$> o).
Proof. intros Ho. destruct o as [x|m|]; simpl; [done|by intros ? [= <-]; apply Ho|done]. Qed.

Lemma throws_in_update (f : app → app) : throws_in (update f).
Proof. by intros a m. Qed.

Lemma throws_in_seq (s t : stmt) : throws_in s → throws_in t → throws_in (seq s t).
Proof.
  intros Hs Ht a. unfold seq. pose proof (Hs a) as Ha.
  destruct (ex_outcome (s a)); [apply Ht|done..].
Qed.

Lemma throws_in_eval {A} (o : outcome A) (k : A → stmt) :
  throws o → (∀ x, throws_in (k x)) → throws_in (eval o k).
Proof.
  intros Ho Hk a. destruct o as [x|m|]; simpl; [apply Hk|by intros ? [= <-]; apply Ho|done].
Qed.

Lemma throws_in_for_each {A} (body : A → stmt) (l : list A) :
  (∀ x, throws_in (body x)) → throws_in (for_each body l).
Proof.
  intros Hb. induction l as [|x l IH]; [apply throws_in_update|].
  apply throws_in_seq; [apply Hb|apply IH].
Qed.

(** ** Lemmas: the operations *)

Lemma throws_get (v : value) (key : string) :
  bool_decide (key ∈ read_keys) = true → throws (get engine v key).
Proof.
  intros Hk%bool_decide_eq_true. assert (ReadOfUndefined key ∈ card_errors ∧
    ReadOfNull key ∈ card_errors) as [? ?].
  { unfold card_errors. rewrite !elem_of_app, !list_elem_of_fmap. eauto 10. }
  destruct v; simpl; try apply throws_Done; intros m [= <-]; eauto.
Qed.

Lemma throws_to_string (v : value) : throws (to_string engine v).
Proof.
  assert (throws (@type_error_raised engine string NotPrimitive)) as Hp
    by by apply throws_raise.
  induction v as [| |b|z|s|l IH|ms _] using value_ind_nested; simpl;
    try apply throws_Done; [|by case_match].
  apply throws_fmap. induction IH as [|e l He _ IHl]; [apply throws_Done|].
  apply throws_bind; [destruct e; first [apply throws_Done|exact He]|].
  intros s. apply throws_bind; [apply IHl|]. intros ss. apply throws_Done.
Qed.

Lemma throws_to_number (v : value) : throws (to_number engine v).
Proof.
  destruct v; simpl; try apply throws_Done; try apply throws_Unmodelled.
  case_match; [by apply throws_raise|apply throws_Done].
Qed.

Lemma throws_capitalize_js (v : value) : throws (capitalize_js engine v).
Proof. destruct v; simpl; try apply throws_Done; by apply throws_raise. Qed.

Lemma throws_formatAbilityName_js (v : value) : throws (formatAbilityName_js engine v).
Proof. destruct v; simpl; try apply throws_Done; by apply throws_raise. Qed.

Lemma throws_id_toString (v : value) : throws (id_toString engine v).
Proof.
  destruct v; try apply throws_to_string; simpl; try (by apply throws_raise).
  case_match; [by apply throws_raise|apply throws_Done].
Qed.

Lemma throws_sources_js (values : list value) : throws (sources_js values).
Proof. unfold sources_js. destruct (mapM as_string values); simpl; by intros m. Qed.

Lemma throws_task_record (v : value) : throws (task_record v).
Proof. unfold task_record. repeat case_match; by intros m. Qed.

End Throws.

(** Solves [throws] and [throws_in] goals on the operations of [RawCard]. *)
Ltac throws_step :=
  first
    [ apply throws_Done | apply throws_get; by vm_compute | apply throws_to_string
    | apply throws_to_number | apply throws_capitalize_js | apply throws_formatAbilityName_js
    | apply throws_id_toString | apply throws_sources_js | apply throws_task_record
    | apply throws_in_update | apply throws_in_seq | apply throws_in_for_each; intros ?
    | apply throws_in_eval; [|intros ?] | apply throws_bind; [|intros ?] ].

Ltac throws_auto := repeat throws_step.

Section Card.

Context (engine : type_error → string).

Lemma throws_in_forEach_js (callee : string) (list : value) (body : value → stmt) :
  bool_decide (NotAFunction (callee +:+ ".forEach") ∈ card_errors) = true →
  (∀ x, throws_in engine (body x)) → throws_in engine (forEach_js engine callee list body).
Proof.
  intros Hc Hb. destruct list; simpl; try (by apply throws_in_for_each);
    (apply throws_in_eval; [by apply throws_raise|intros ?; apply throws_in_update]).
Qed.

Lemma throws_in_populateTypes_js (v : value) : throws_in engine (populateTypes_js engine v).
Proof.
  unfold populateTypes_js. apply throws_in_seq; [apply throws_in_update|].
  apply throws_in_forEach_js; [done|]. intros e. unfold typeBadge_js. throws_auto.
Qed.

Lemma throws_in_populateAbilities_js (v : value) :
  throws_in engine (populateAbilities_js engine v).
Proof.
  unfold populateAbilities_js. apply throws_in_seq; [apply throws_in_update|].
  apply throws_in_forEach_js; [done|]. intros e. unfold abilityTag_js. throws_auto.
Qed.

Lemma throws_in_loadPokemonImage_js (v : value) :
  throws_in engine (loadPokemonImage_js engine v).
Proof.
  unfold loadPokemonImage_js, imageSources_js, imageCandidates_js. throws_auto.
  case_match; apply throws_in_update.
Qed.

Lemma throws_in_populatePokemonData_js (v : value) :
  throws_in engine (populatePokemonData_js engine v).
Proof.
  unfold populatePokemonData_js, pokemonId_js, tenth_js, pokemonExp_js.
  repeat first [apply throws_in_loadPokemonImage_js | apply throws_in_populateTypes_js
               | apply throws_in_populateAbilities_js | throws_step].
Qed.

Lemma throws_in_showPokemon_js (v : value) : throws_in engine (showPokemon_js engine v).
Proof.
  unfold showPokemon_js.
  repeat first [apply throws_in_populatePokemonData_js | throws_step].
Qed.

End Card.

(** ** Lemmas: the messages of V8 *)

(** The class is decided by evaluating the messages of the thirty-four
    errors. *)
Lemma generic_messages_forallb (engine : type_error → string) :
  forallb (λ e, reads_generic (engine e)) card_errors = true → GenericMessages engine.
Proof. intros H e He%list_elem_of_In. by apply (proj1 (forallb_forall _ _) H). Qed.

#[export] Instance v8_generic : GenericMessages v8_message.
Proof. apply generic_messages_forallb. by_compute. Qed.

Lemma search_error_message_generic (query message : string) :
  reads_generic message = true → search_error_message query message = msg_generic.
Proof.
  unfold reads_generic, search_error_message.
  intros [->%negb_true_iff ->%negb_true_iff]%andb_true_iff. done.
Qed.

(** The state a search for [pikachu] on the sample page is in when the
    response [v] has settled. *)
Definition settled_with (v : value) : app :=
  default (constructor sample_page)
    (searchPokemon_resume_js v8_message "pikachu" (raw_ok v) (constructor sample_page)).

(** ** Properties *)

(** Whatever a response with a status from 200 to 299 parses to, the
    search ends with the card shown and no other section, or with the error
    section alone and, for an engine of the class [GenericMessages] (its
    messages for the errors of the card hold neither [404] nor [network]),
    the generic message: a response of another shape is never reported as a
    missing record or as a network failure.  V8 is an instance. *)
Theorem searchPokemon_resume_js_generic (engine : type_error → string)
    `{!GenericMessages engine} (query : string) (status : Z) (v : value) (a a' : app) :
  response_ok status = true →
  searchPokemon_resume_js engine query (RawResponse status (RawJson v)) a = Some a' →
  shown a' = Sections false false true false ∨
  (shown a' = Sections false true false false ∧ errorText (app_dom a') = msg_generic).
Proof.
  intros Hok. unfold searchPokemon_resume_js, try_catch_finally. simpl.
  rewrite Hok. simpl.
  set (body := (showPokemon_js engine v ;; update (on_dom (set_pokemonInput "")))%stmt).
  assert (throws_in engine body) as Ht
    by (apply throws_in_seq; [apply throws_in_showPokemon_js|apply throws_in_update]).
  destruct (shows_card_input _ "" (shows_card_showPokemon_js engine v) a) as [_ Hs].
  fold body in Hs. specialize (Ht a).
  destruct (ex_outcome (body a)) as [[]|m|]; [| |done]; intros [= <-].
  - left. unfold shown in *. simpl. by rewrite (Hs eq_refl).
  - right. destruct (Ht m eq_refl) as (e & He & ->). split; [done|]. simpl.
    by apply search_error_message_generic, generic_messages.
Qed.

Lemma searchPokemon_resume_js_generic_witness :
  shown (settled_with sample_value_no_types) = Sections false false true false ∨
  (shown (settled_with sample_value_no_types) = Sections false true false false ∧
   errorText (app_dom (settled_with sample_value_no_types)) = msg_generic).
Proof.
  apply (searchPokemon_resume_js_generic v8_message "pikachu" 200 sample_value_no_types
           (constructor sample_page));
    [reflexivity|vm_compute; reflexivity].
Defined.
