(* ===== verification/RawDisplay.v ===== *)
(** * RawDisplay: the specification on unchecked responses

    For the specification a body that does not parse as a record is a
    malformed response, and a malformed response is a failure like any
    other.  [spec_outcome] reads a response that way, and [labels_js] reads
    a run of the event loop on unchecked responses as a run of the machine
    of [Display].  The program has no such check: it fails on a body that is
    not a record only when the card code throws on it.  The theorems show
    that on the responses the card code rejects the program refines the
    machine, with the messages of an engine like V8, and that a record
    without its height is a response on which it does not. *)

From S2P Require Import Prelude JsRuntime Formatter State View Images Card Fetcher Controller.
From S2P Require Import Invariants Lifecycle Races Display Values RawCard RawController RawErrors.

(** ** Definitions *)

(** The text of the error for a malformed response; the specification
    names the failure and leaves the text open. *)
Definition msg_malformed : string := "MalformedResponse".

(** A response as the specification takes it: a body that is not a record
    is a body that does not parse. *)
Definition spec_outcome (o : raw_outcome) : fetch_outcome :=
  match o with
  | RawRejected message => FetchRejected message
  | RawResponse status (RawSyntaxError message) =>
      FetchResponse status (BodySyntaxError message)
  | RawResponse status (RawJson v) =>
      FetchResponse status (from_option BodyJson (BodySyntaxError msg_malformed) (decode v))
  end.

(** What a turn means to the machine. *)
Definition label_js (a : app) (e : raw_event) : option spec_event :=
  match e with
  | RawEvent e => label a e
  | RawSettled i o => Some (SSettled i (spec_outcome o))
  end.

Section Refinement.

Context (engine : type_error → string).

Fixpoint labels_js (es : list raw_event) (a : app) : list spec_event :=
  match es with
  | [] => []
  | e :: es' =>
      option_list (label_js a e) ++ from_option (labels_js es') [] (handle_js engine e a)
  end.

(** A response that is a record, or that the card code rejects: when the
    body of a response with a status from 200 to 299 is not a record,
    [showPokemon] throws on it. *)
Definition rejected (o : raw_outcome) : Prop :=
  match o with
  | RawResponse status (RawJson v) =>
      response_ok status = true → decode v = None →
      ∀ a, ∃ message, ex_outcome (showPokemon_js engine v a) = Raised message
  | _ => True
  end.

Definition checked (e : raw_event) : Prop :=
  match e with
  | RawEvent _ => True
  | RawSettled _ o => rejected o
  end.

(** ** Lemmas *)

(** A response that is a record, or whose body is not read, is for the
    program what it is for the specification. *)
Lemma spec_outcome_agree (o : raw_outcome) :
  (∀ status v, o = RawResponse status (RawJson v) →
     response_ok status = true → is_Some (decode v)) →
  agree o (spec_outcome o).
Proof.
  unfold agree. destruct o as [m|status [v|m]]; simpl; intros Hd; [done|..];
    (destruct (response_ok status) eqn:Hok; simpl; [|by destruct (status =? 404)%Z]);
    [|done].
  destruct (Hd status v eq_refl Hok) as [p Hp]. rewrite Hp. simpl. eauto.
Qed.

(** Every other response has a status from 200 to 299 and a body that is
    not a record. *)
Lemma spec_outcome_cases (o : raw_outcome) :
  agree o (spec_outcome o) ∨
  ∃ status v, o = RawResponse status (RawJson v) ∧ response_ok status = true ∧ decode v = None.
Proof.
  destruct o as [m|status [v|m]]; try (left; apply spec_outcome_agree; by intros ? ? [=]).
  destruct (response_ok status) eqn:Hok;
    [|left; apply spec_outcome_agree; intros ? ? [= <- <-]; congruence].
  destruct (decode v) eqn:Hd; [left|right; eauto].
  apply spec_outcome_agree. intros ? ? [= <- <-] _. rewrite Hd. eauto.
Qed.

(** The display the machine has after a malformed response. *)
Lemma settled_display_malformed (k : continuation) (status : Z) :
  response_ok status = true →
  settled_display k (FetchResponse status (BodySyntaxError msg_malformed)) =
    Error (match k with KSearch _ => msg_generic | KRandom => msg_random end).
Proof. intros Hok. unfold settled_display. simpl. rewrite Hok. by destruct k. Qed.

(** The display the page has after the [catch] block and the cleanup. *)
Lemma display_of_caught (k : continuation) (message : string) (a : app) :
  display_of (app_dom (on_dom hideLoading (caught k message a))) =
    Error (failure_message k message).
Proof. by destruct k. Qed.

Lemma app_fetches_caught (k : continuation) (message : string) (a : app) :
  app_fetches (on_dom hideLoading (caught k message a)) = app_fetches a.
Proof. by destruct k. Qed.

Context `{!GenericMessages engine}.

(** A response the card code rejects leaves the display of a malformed
    response. *)
Lemma resume_js_rejected (k : continuation) (status : Z) (v : value) (a a' : app) :
  response_ok status = true → decode v = None →
  rejected (RawResponse status (RawJson v)) →
  resume_js engine k (RawResponse status (RawJson v)) a = Some a' →
  display_of (app_dom a') = settled_display k (spec_outcome (RawResponse status (RawJson v))) ∧
  app_fetches a' = app_fetches a.
Proof.
  intros Hok Hd Hrej. destruct (Hrej Hok Hd a) as [m Hm].
  rewrite (resume_js_Raised engine k status v m a _ Hok (exec_Raised _ _ Hm)).
  intros [= <-]. rewrite display_of_caught, app_fetches_caught. simpl. rewrite Hd. simpl.
  rewrite settled_display_malformed by done.
  destruct (showPokemon_js_frame engine v a) as (_ & _ & _ & _ & Hf). split; [|done].
  destruct (throws_in_showPokemon_js engine v a m Hm) as (e & He & ->).
  destruct k as [query|]; simpl; [|done].
  by rewrite (search_error_message_generic query (engine e)) by by apply generic_messages.
Qed.

(** A fetch that settles with a checked response is the transition of the
    machine. *)
Lemma abstract_settled_js (a a' : app) (i : nat) (o : raw_outcome) (t : fetch_task) :
  rejected o → app_fetches a !! i = Some t →
  resume_js engine (ft_k t) o (set_fetches (delete i (app_fetches a)) a) = Some a' →
  spec_step (SSettled i (spec_outcome o)) (abstract a) = Some (abstract a').
Proof.
  intros Hrej Ht Hr.
  destruct (spec_outcome_cases o) as [Hag|(status & v & -> & Hok & Hd)].
  - rewrite (resume_js_agree engine _ o (spec_outcome o) _ Hag) in Hr.
    injection Hr as <-. by apply abstract_settled.
  - destruct (resume_js_rejected _ _ _ _ _ Hok Hd Hrej Hr) as [Hdisp Hf].
    unfold spec_step, abstract at 1. simpl. rewrite list_lookup_fmap, Ht. simpl. f_equal.
    unfold abstract. rewrite Hdisp, Hf. simpl. by rewrite list_fmap_delete.
Qed.

Lemma handle_js_abstract (a a' : app) (e : raw_event) :
  checked e → handle_js engine e a = Some a' →
  spec_run (option_list (label_js a e)) (abstract a) = Some (abstract a').
Proof.
  destruct e as [e|i o]; [intros _; apply handle_abstract|].
  cbn [checked handle_js label_js]. intros Hrej (t & Ht & Hr)%bind_Some.
  rewrite spec_run_option_list. cbn [from_option]. by apply (abstract_settled_js a a' i o t).
Qed.

End Refinement.

(** ** A record without its height *)

(** A response whose body has the shape of a record but for its height:
    the card code runs to the end, with the text the height converts
    to. *)
Lemma resume_js_shaped (engine : type_error → string) (k : continuation) (status : Z)
    (v : value) (text : string) (a : app) :
  response_ok status = true → shaped v → tenth_js engine v "height" " m" = Done text →
  ∃ a', resume_js engine k (RawResponse status (RawJson v)) a = Some a' ∧
    shown a' = Sections false false true false ∧
    dom_card (app_dom a') = set_pokemonHeight text (card_of (view v)).
Proof.
  intros Hok Hv Hh. pose proof (showPokemon_js_shaped engine v text a Hv Hh) as Hshow.
  set (a1 := on_dom (set_card (set_pokemonHeight text)) (showPokemon (view v) a)) in Hshow.
  exists (on_dom hideLoading match k with
                             | KSearch _ => on_dom (set_pokemonInput "") a1
                             | KRandom => a1
                             end).
  split.
  - destruct k as [query|]; cbn [resume_js];
      unfold searchPokemon_resume_js, getRandomPokemon_resume_js, fetchPokemon_js;
      rewrite Hok; cbn [negb awaited].
    + apply try_catch_finally_Done.
      exact (seq_Done _ (update (on_dom (set_pokemonInput ""))) _ _ Hshow).
    + by apply try_catch_finally_Done.
  - unfold a1, shown. destruct k; cbn [app_dom on_dom]; by rewrite showPokemon_spec.
Qed.

Lemma no_point (s t : string) : s +:+ "." +:+ t ≠ "NaN m".
Proof.
  destruct s as [|c1 [|c2 [|c3 [|c4 [|c5 [|c6 ?]]]]]]; simpl; intros [=]; by destruct t.
Qed.

(** No height prints as [NaN m]. *)
Lemma pokemonHeight_text_not_NaN (height : Z) : pokemonHeight_text height ≠ "NaN m".
Proof.
  unfold pokemonHeight_text, toFixed1_tenth. rewrite !string_app_assoc.
  rewrite <-(string_app_assoc (if (height <? 0)%Z then "-" else "")). apply no_point.
Qed.

(** ** Properties *)

(** C7: refinement on unchecked responses.  When the card code rejects
    every response that is not a record, for an engine of the class
    [GenericMessages], every run of the event
    loop is a run of the machine of the specification in which such a
    response is a malformed one: read through [abstract], the state after
    the run is the state the machine reaches on the events it sees. *)
Theorem run_js_refines (engine : type_error → string) `{!GenericMessages engine}
    (es : list raw_event) (a a' : app) :
  Forall (checked engine) es →
  run_js engine es a = Some a' →
  spec_run (labels_js engine es a) (abstract a) = Some (abstract a') ∧
  (length (labels_js engine es a) ≤ length es)%nat.
Proof.
  intros Hes. revert a. induction Hes as [|e es He _ IH]; intros a; simpl;
    [by intros [= <-]|].
  destruct (handle_js engine e a) as [a1|] eqn:H1; simpl; [|done].
  intros [Hrun Hlen]%IH. rewrite spec_run_app, (handle_js_abstract engine a a1 e He H1).
  simpl. split; [done|]. rewrite length_app. destruct (label_js a e); simpl; lia.
Qed.

Lemma run_js_refines_witness :
  spec_run (labels_js v8_message (raw_search sample_value_no_types) (constructor sample_page))
      (abstract (constructor sample_page)) =
    Some (abstract (raw_state_after (raw_search sample_value_no_types))) ∧
  (length (labels_js v8_message (raw_search sample_value_no_types) (constructor sample_page)) ≤
     length (raw_search sample_value_no_types))%nat.
Proof.
  apply (run_js_refines v8_message (raw_search sample_value_no_types) (constructor sample_page));
    [|vm_compute; reflexivity].
  repeat constructor. intros _ _ a. eexists. vm_compute. reflexivity.
Defined.

(** C30: a body with every property of a record but the height is not a
    record for the specification, and the card code does not reject it.
    For every engine, every such body and every fetch in flight, when the
    fetch settles with the body and a status from 200 to 299 the page
    shows the card with [NaN m] as the text of the height, which is the
    card of no record, where the machine of the specification shows the
    error of a malformed response. *)
Theorem record_without_height_shown (engine : type_error → string) (v : value) (status : Z)
    (a : app) (i : nat) (t : fetch_task) :
  shaped v → get_opt v "height" = VUndefined → response_ok status = true →
  app_fetches a !! i = Some t →
  decode v = None ∧
  ¬ rejected engine (RawResponse status (RawJson v)) ∧
  ∃ a' s,
    handle_js engine (RawSettled i (RawResponse status (RawJson v))) a = Some a' ∧
    spec_step (SSettled i (spec_outcome (RawResponse status (RawJson v)))) (abstract a)
      = Some s ∧
    sp_display s = Error (match ft_k t with KSearch _ => msg_generic | KRandom => msg_random end) ∧
    sp_display (abstract a') = Showing (set_pokemonHeight "NaN m" (card_of (view v))) ∧
    ¬ card_complete a'.
Proof.
  intros Hv Hh Hok Ht. pose proof (tenth_js_undefined engine v "height" " m" Hv Hh) as Hnan.
  assert (decode v = None) as Hd.
  { destruct (decode v) as [p|] eqn:Hd; [|done].
    apply decode_Some in Hd as (_ & _ & _ & Hh' & _). congruence. }
  split; [done|]. split.
  { intros Hrej. destruct (Hrej Hok Hd a) as [m Hm].
    by rewrite (showPokemon_js_shaped engine v _ a Hv Hnan) in Hm. }
  destruct (resume_js_shaped engine (ft_k t) status v _
    (set_fetches (delete i (app_fetches a)) a) Hok Hv Hnan) as (a' & Hr & Hs & Hc).
  exists a'. eexists. split; [cbn [handle_js]; by rewrite Ht|]. split.
  { unfold spec_step, abstract at 1. simpl. by rewrite list_lookup_fmap, Ht. }
  split; [simpl; rewrite Hd; simpl; by rewrite settled_display_malformed|].
  split; [unfold abstract, display_of; unfold shown in Hs; simpl; by rewrite Hs, Hc|].
  intros Hcomplete. destruct Hcomplete as [p Hp]; [by rewrite Hs|].
  rewrite Hc in Hp. apply (f_equal pokemonHeight) in Hp.
  by apply (pokemonHeight_text_not_NaN (height p)).
Qed.

Lemma record_without_height_shown_witness :
  decode sample_value_no_height = None ∧
  ¬ rejected v8_message (RawResponse 200 (RawJson sample_value_no_height)) ∧
  ∃ a' s,
    handle_js v8_message (RawSettled 0 (RawResponse 200 (RawJson sample_value_no_height)))
      (raw_state_after [RawEvent (EvInput "pikachu"); RawEvent EvSubmit]) = Some a' ∧
    spec_step (SSettled 0 (spec_outcome (RawResponse 200 (RawJson sample_value_no_height))))
      (abstract (raw_state_after [RawEvent (EvInput "pikachu"); RawEvent EvSubmit])) = Some s ∧
    sp_display s = Error msg_generic ∧
    sp_display (abstract a') =
      Showing (set_pokemonHeight "NaN m" (card_of (view sample_value_no_height))) ∧
    ¬ card_complete a'.
Proof.
  apply (record_without_height_shown v8_message sample_value_no_height 200
    (raw_state_after [RawEvent (EvInput "pikachu"); RawEvent EvSubmit]) 0
    (FetchTask (fetch_url "pikachu") (KSearch "pikachu")));
    [repeat split; eauto|reflexivity..].
Defined.
