(* ===== verification/Correctness.v ===== *)
(** * Correctness: a search on the program as it runs

    The three parts of a search joined on the event loop of
    [RawController], where the response is whatever the body parses to: the
    card code on a value of the shape is the card code of the typed layer
    ([RawCard]), the request runs as [Lifecycle] says, and the image chain
    is the run of its events ([Scenario], [Images]).  For every value that
    has the shape of a record, whatever else it holds, and for the value
    [encode] gives a record in particular, the search ends with the card of
    the record and the first of its images that loads; and so does a random
    search. *)

From S2P Require Import Prelude JsRuntime Formatter State View Images Card Fetcher Controller.
From S2P Require Import Invariants Lifecycle Scenario Values RawCard RawController.

(** ** Definitions *)

(** The events of a search: the submit, the fetch in flight at position [n]
    settling with status [status] and a body that parses to [v], and the
    events of the image chain of [p] under the oracle [loads]. *)
Definition search_events (loads : string → bool) (n : nat) (status : Z) (v : value)
    (p : pokemon) : list raw_event :=
  [RawEvent EvSubmit; RawSettled n (RawResponse status (RawJson v))] ++
  (RawEvent <$> image_events loads (imageSources p)).

(** The events of a random search with the draw [k]. *)
Definition random_events (loads : string → bool) (k : Z) (n : nat) (status : Z) (v : value)
    (p : pokemon) : list raw_event :=
  [RawEvent (EvClickRandom k); RawSettled n (RawResponse status (RawJson v))] ++
  (RawEvent <$> image_events loads (imageSources p)).

(** ** Lemmas *)

Lemma search_events_typed (loads : string → bool) (n : nat) (status : Z) (v : value)
    (p : pokemon) :
  decode v = Some p →
  mapM typed_event (search_events loads n status v p) =
    Some ([EvSubmit; EvFetchSettled n (FetchResponse status (BodyJson p))] ++
          image_events loads (imageSources p)).
Proof.
  intros Hd. unfold search_events. cbn [Datatypes.app mapM typed_event typed_outcome].
  rewrite Hd. simpl. by rewrite typed_event_RawEvent.
Qed.

Lemma random_events_typed (loads : string → bool) (k : Z) (n : nat) (status : Z) (v : value)
    (p : pokemon) :
  decode v = Some p →
  mapM typed_event (random_events loads k n status v p) =
    Some ([EvClickRandom k; EvFetchSettled n (FetchResponse status (BodyJson p))] ++
          image_events loads (imageSources p)).
Proof.
  intros Hd. unfold random_events. cbn [Datatypes.app mapM typed_event typed_outcome].
  rewrite Hd. simpl. by rewrite typed_event_RawEvent.
Qed.

(** ** Properties *)

(** C3: a search, from the submit to the image, on the response as it
    comes.  From a state with no image pending and an input that is not
    blank, when the response has a status from 200 to 299 and its body
    parses to a value of the shape of a record [p], the submit, the
    settlement and one image event for each source attempted end, for
    every engine, with the card section alone shown, the card of [p], the
    image element showing the first source that loads (hidden with an
    empty [src] when none does), the button enabled, the input cleared,
    nothing pending, and exactly the record and the sources attempted
    requested, in that order ([search_done]). *)
Theorem search_end_to_end_js (engine : type_error → string) (loads : string → bool) (a : app)
    (status : Z) (v : value) (p : pokemon) :
  string_forallb Ascii.is_space (pokemonInput (app_dom a)) = false →
  response_ok status = true →
  app_images a = [] →
  decode v = Some p →
  ∃ a',
    run_js engine (search_events loads (length (app_fetches a)) status v p) a = Some a' ∧
    search_done loads p a a'.
Proof.
  intros Hq Hok Hi Hd. rewrite (run_js_typed engine _ _ a (search_events_typed _ _ _ _ _ Hd)).
  by apply search_end_to_end.
Qed.

Lemma search_end_to_end_js_witness :
  ∃ a',
    run_js v8_message
      (search_events sample_loads (length (app_fetches (typed " Pikachu "))) 200 sample_value
         sample_pokemon) (typed " Pikachu ") = Some a' ∧
    search_done sample_loads sample_pokemon (typed " Pikachu ") a'.
Proof.
  apply (search_end_to_end_js v8_message sample_loads (typed " Pikachu ") 200 sample_value
           sample_pokemon); [reflexivity..|].
  vm_compute. reflexivity.
Defined.

(** The same for the value of a record, as the API sends it. *)
Theorem search_end_to_end_encode (engine : type_error → string) (loads : string → bool)
    (a : app) (status : Z) (p : pokemon) :
  string_forallb Ascii.is_space (pokemonInput (app_dom a)) = false →
  response_ok status = true →
  app_images a = [] →
  ∃ a',
    run_js engine (search_events loads (length (app_fetches a)) status (encode p) p) a =
      Some a' ∧
    search_done loads p a a'.
Proof.
  intros Hq Hok Hi.
  rewrite (run_js_typed engine _ _ a (search_events_typed _ _ _ _ _ (decode_encode p))).
  by apply search_end_to_end.
Qed.

(** A random search, from the click to the image, on the response as it
    comes: the same, but the input stays as it is and the request is for
    the id of the draw. *)
Theorem random_end_to_end_js (engine : type_error → string) (loads : string → bool) (a : app)
    (k status : Z) (v : value) (p : pokemon) :
  valid_draw k = true →
  response_ok status = true →
  app_images a = [] →
  decode v = Some p →
  ∃ a',
    run_js engine (random_events loads k (length (app_fetches a)) status v p) a = Some a' ∧
    random_done loads k p a a'.
Proof.
  intros Hk Hok Hi Hd. rewrite (run_js_typed engine _ _ a (random_events_typed _ _ _ _ _ _ Hd)).
  by apply random_end_to_end.
Qed.

Lemma random_end_to_end_js_witness :
  ∃ a',
    run_js v8_message
      (random_events sample_loads 7 (length (app_fetches (typed ""))) 200 sample_value
         sample_pokemon) (typed "") = Some a' ∧
    random_done sample_loads 7 sample_pokemon (typed "") a'.
Proof.
  apply (random_end_to_end_js v8_message sample_loads (typed "") 7 200 sample_value
           sample_pokemon); [reflexivity..|].
  vm_compute. reflexivity.
Defined.
